(* ===== verification/_CoqProject ===== *)
-Q . S2P
Prelude.v
Kernel.v
Memory.v
Kfifo.v
Double.v
Benchmarks.v
Linking.v
Together.v
UintrPro.v
UintrMain.v
UintrLink.v
UintrPair.v
SharedGuard.v
ShmMmap.v
GuardLink.v
GuardPair.v
Sockets.v
Signals.v
SignalPair.v
Mq.v
MqLink.v
MqPair.v
FifoPipe.v
StreamLink.v
StreamPair.v
Network.v
Session.v
SessionLink.v
SessionPair.v
EventFd.v
EventFdLink.v
EventFdPair.v
EventFdUni.v
UintrFd.v
UintrFdLink.v
UintrFdPair.v
UintrFdUni.v
Arguments.v
Process.v
ShmSync.v
ShmSyncLink.v
ShmSyncPair.v
Zeromq.v
ZeromqPair.v
PthreadTest.v
TcpDemos.v
