(* ===== verification/Prelude.v ===== *)
(** * A verification library for the IPC benchmarks of src/ (ipc-bench with user interrupts)

    The repository measures the latency of inter-process communication.  Each
    benchmark is a pair of programs, a server and a client (or two threads of
    one program), that pass messages over one mechanism of the operating system;
    they share a small library, src/source/common.  This development models the
    C code of both and proves what the programs do.

    ** Three kinds of models

    - Data and arithmetic are executable functions: the ring buffer over
      byte-addressed memory with 32-bit counters, the clock in binary64, the
      statistics record, the command line.  Undefined behaviour (an access
      outside an object, signed overflow, a conversion out of range) is [None]
      or [Undefined].
    - Programs are functions in the monad [M] of [Kernel]: every C function
      becomes one definition that makes the same calls in the same order, with
      the guards and the early exits of the code.  The kernel, the C library's
      I/O and libzmq are not part of the repository; they are a parameter, the
      class [Kernel W], which answers each call from the state of the
      environment.  Theorems about programs hold for every kernel, or for every
      script of results; they speak of the outcome and of the trace of calls.
      An outcome is [Done], [Died] (the code's [throw] and [exit] with an
      error, and a fault of [senduipi]), [Undefined] or [Running] (the fuel of a loop is used up).
    - Protocols are step relations over the state both processes share, with
      one move per access to that state and free interleaving: invariants are
      by rule induction, liveness by ranks that every move decreases.  They are
      given by executable moves, so that schedules can be run.

    [Linking] joins the last two: a program is run in the place of one process
    of its protocol, by a kernel that answers each call with the protocol's
    move and refuses a call that is not the next one.  [Together] runs both
    programs at once: they make their calls in any order, each is answered from
    the state they share, and nothing else moves.

    ** The files, from the bottom up

    - [Prelude]: machine integers, outcomes, [run_along] and [state_along] (runs
      of a step function along a schedule), [explore] (exhaustive search of a
      finite state space), list lemmas and tactics.
    - [Kernel]: the system calls, the monad, its lemmas ([bind_done],
      [bind_inv], the [did] family for traces) and scripted kernels.
    - [Memory]: bytes in an address space, memcpy, little-endian words.
    - [Kfifo]: common/kfifo.h; the well-formedness [wf_log] of a ring, the
      abstraction [rep] to a byte queue, and the refinement of that queue.
    - [Double], [Benchmarks]: common/benchmarks.c, the conversions and sleeps of
      common/utility.c and the measuring loop that the clients share.
    - [Linking]: the interface [Link] between a program and its protocol, and a
      logic of triples for programs that run beside the other process.
    - [Together]: programs as trees of calls, the steps of two programs over a
      shared state ([joint_step]), the interface [Choices] through which the
      triples of [Linking] carry over to them ([joint_sound]), and bounds on
      the length of their runs ([joint_run_bounded]).
    - [Arguments], [Process]: common/arguments.c over models of getopt_long and
      atoi; common/process.c, common/parent.c and the launchers (shm/shm.c and
      the like).
    - [Sockets], [Signals]: common/sockets.c; common/signals.c and the programs
      of signal/.  [SignalPair]: their two processes over the two signals, the
      links and both programs together.
    - [UintrPro]: the protocol of uintr-pro/ over the shared ring and the user
      interrupt.  [UintrMain]: its programs, every access to the ring a call.
    - [SharedGuard], [ShmMmap]: shm/ and mmap/, the protocol over the guard byte
      and the four programs.
    - [FifoPipe]: fifo/ and pipe/.  [EventFd]: eventfd/.  [UintrFd]: uintrfd/.
      [ShmSync]: shm-sync/.  [Mq]: mq/.  [Zeromq]: zeromq/.  Each has the
      programs call by call and the two processes as a protocol.
    - [Network], [Session]: tcp/ and domain/, the programs and the protocol.
    - [MqLink], [StreamLink] (fifo and pipe), [GuardLink] (shm and mmap),
      [EventFdLink] (eventfd-bi), [SessionLink] (tcp and domain), [UintrLink]
      (uintr-pro), [UintrFdLink] (uintrfd-bi), [ShmSyncLink] (shm-sync): the
      programs against the protocols.
    - [UintrPair], [UintrFdPair], [MqPair], [StreamPair], [GuardPair],
      [EventFdPair], [SessionPair], [ShmSyncPair]: both programs together;
      [ZeromqPair], [EventFdUni] (eventfd-uni) and [UintrFdUni] (uintrfd-uni) have
      the links too.
    - [PthreadTest]: other/pthread-test.c.  [TcpDemos]: tcp/other/ and
      other/fexp.

    ** What the theorems show

    - Delivery.  The receiver measures exactly the timestamps that were sent, in
      order, with at most one on its way: [uintr_pro_lockstep] (through the
      ring's bytes, when both processes map it at one address),
      [guard_delivery], [stream_delivery], [mq_delivery], [session_delivery]
      (however the network splits messages), [uintrfd_uni_complete],
      [zmq_pair_completes].
    - Programs against protocols, whatever the other process does:
      [mq_server_refines], [fifo_server_refines], [guard_servers_refine],
      [session_servers_refine], [eventfd_bi_refines], [uintrfd_bi_refines],
      [uintr_server_refines], [uintr_handler_refines] and [shm_sync_refines]
      show that a program
      only makes its protocol's moves, so that the theorems on the protocol speak
      of the code; [mq_client_measures], [stream_clients_measure],
      [guard_clients_measure] and [session_clients_measure] that the clients'
      records are the measurements of the timestamps the servers sent.
    - Both programs together, call by call in any order: [uintr_together],
      [mq_together], [stream_together], [guard_together], [session_together],
      [eventfd_bi_together], [uintrfd_bi_together], [eventfd_uni_together],
      [uintrfd_uni_together], [signal_together] and [zmq_together].  The pair
      only makes moves of its protocol and has no undefined behaviour, what one
      receives or measures is what the other sent, and one of the two can go on
      until one has ended ([session_together]: when messages arrive whole and, for
      domain, the size is at most 8; above it the server dies with its first
      reply).  Where a process spins, so that it can always make a
      call, the theorem says instead that the other one gets what it waits for
      ([guard_together] leaves this to [guard_progress]).  [shm_sync_together]
      shows the opposite of shm-sync: the pair comes to a halt, and the server
      never returns.
    - Exclusion and tokens: [guard_exclusion] (who writes and reads under which guard),
      [eventfd_bi_single_token],
      [uintrfd_bi_single_interrupt], and the one critical section of
      [recursive_addition_equivalent].
    - Progress and termination: [uintr_pro_progress], [guard_progress],
      [stream_progress], [mq_progress], [session_whole_messages],
      [uintrfd_bi_terminates], [additions_terminate], [zmq_pair_completes],
      [zmq_together] (at most six calls per message).
    - Data: [kfifo_runs_refine_queue] (any sequence of operations against a
      bounded queue), [kfifo_in_enqueues], [kfifo_out_dequeues],
      [roundup_pow_of_two_least], [benchmarks_summary], [benchmarks_well_typed],
      [now_granularity], [kfifo_shared_alone] (the ring field by field and at
      once), [parse_arguments_settings] (a command line round trip), [recursive_addition_equivalent] (threads against one loop).
    - Programs on every branch: [guard_server_calls], [mq_server_replies],
      [socket_server_reply], [socket_client_iteration], [zmq_server_rounds],
      [signal_server_rounds], [tcp_server_address], [model_server_fallback],
      [start_children_parent], [non_blocking_flag], [sigchld_handler_reaps].
    - What goes wrong: [uintr_client_unreachable], [uintr_pro_data_pointer],
      [pipe_start_race], [mq_start_race], [shm_sync_deadlock] and
      [shm_sync_together], [eventfd_uni_reads_sums], [receive_busy_retries], [session_busy_hangs],
      [session_domain_once], [mq_small_messages], [interleaved_add_outcomes],
      [signal_client_never_stops] ([signal_together]: it is left waiting for
      ever), [timed_loop_exit], [kfifo_init_fits],
      [fexp_session].

    ** Bounds and fuel

    Loops that wait for the environment ([spin], [timed_loop], [serve], the
    servers' [while(1)]) take fuel and are [Running] without it; theorems about
    them either hold for every fuel or say how much is enough.  The command line
    is scanned with fuel for its characters and arguments, which
    [command_line_total] shows is enough.  [explore] is run with 400 rounds and
    the result is checked to be closed under moves.  In the theorems on two
    programs together each loop has its own fuel, of any size; a program is
    [Running] at its end only when it has used it up.

    ** Assumptions of the protocols

    Accesses to a guard byte, a counter or a flag are atomic and sequentially
    consistent, and the compiler keeps each of them (the ring's structure is not
    volatile).

    The theorems on uintr-pro take both processes to map the segment at one
    address, which the code does not see to ([uintr_pro_data_pointer] is about
    different ones).  [uintr_pro_progress], and [uintr_together] where it says
    that no interrupt is lost, take the client's handler to be registered, which
    the code never does ([uintr_client_unreachable], [uintr_pro_unregistered]).
    The delivery of an interrupt is written as a call of the client.

    The instruction [senduipi] posts an interrupt when its index is at least 0
    and faults for a negative one, which is what a failed registration returns;
    the fault kills the program.  The servers of uintr-pro and of uintrfd-bi do
    not check the registration, so that they may die at their first notification
    ([uintr_server_refines], [uintrfd_bi_together]; [uintr_server_unregistered]
    and [uintrfd_bi_unregistered] are such runs).

    A standard signal or a user interrupt is a pending flag.  Opening a FIFO
    waits for the other side.  A queue accepts messages while [MSGMNB] bytes
    suffice.  On a connection [send] takes a whole message, and
    [recv] may return any part of what has arrived.  A mutex excludes, and a
    wait on a condition variable may end spuriously where the theorem says so.

    A program that runs against its protocol has halted when it is in a call
    that does not return, or at the end of the environment's choices, which are
    a finite list.  The environment does not choose a reading of the clock that
    no signed 64-bit integer holds, nor a [malloc] without memory: the code
    does not survive either.

    A process of shm-sync that stands before [pthread_cond_wait] enters it, which
    releases the mutex, at any time before the call returns; the pair starts when
    both processes have initialised one structure that both can reach, which the
    code does not see to ([shm_sync_outside_segment]).  The handler of
    uintrfd-uni runs in the receiver's thread as one step, since the sender reads
    only the variable that it stores last.

    The values of descriptors are not part of the protocol of uintrfd-bi; one that
    is created is not 0.

    Two programs together start where their set-ups end (those of uintrfd-bi
    before them), at any state of the
    protocol they can reach by then; a call is one step of the pair, [memcpy]
    included ([guard_servers_refine] and [guard_clients_measure] interleave its
    bytes).  Those of signal/ start when both have blocked their signals.

    ** Not modelled

    - The text of printed reports and of error messages with [errno].
    - The branch of [now] for Mach; [print_address] of tcp/server.c, a debugging
      print that nothing uses.
    - other/semaphore-client.c and mq/flexible-array-test/main.c use identifiers
      they do not declare and do not compile; the C++ programs of tcp/other are
      in another language; the build files and the scripts. *)
From stdpp Require Export base tactics numbers list option strings relations gmap.
From Stdlib Require Export ZArith Lia.
#[global] Open Scope Z_scope.

Create HintDb ipc.
Create Rewrite HintDb ipc.
Create HintDb halts.

(** ** Machine integers *)

(** The value of an [unsigned int] expression: reduction modulo 2^32. *)
Definition u32 (z : Z) : Z := z mod 2 ^ 32.

(** The value of an [unsigned long], [size_t] or [uint64_t] expression. *)
Definition u64 (z : Z) : Z := z mod 2 ^ 64.

Definition INT32_MAX : Z := 2 ^ 31 - 1.
Definition INT32_MIN : Z := - 2 ^ 31.

(** A conversion to [int]: gcc reduces modulo 2^32 into the signed range. *)
Definition to_i32 (z : Z) : Z := (z + 2 ^ 31) mod 2 ^ 32 - 2 ^ 31.

(** An [int] arithmetic result: overflow is undefined ([None]). *)
Definition i32_checked (z : Z) : option Z :=
  if bool_decide (INT32_MIN <= z <= INT32_MAX) then Some z else None.

Lemma u32_range z : 0 <= u32 z < 2 ^ 32.
Proof. apply Z.mod_pos_bound; lia. Qed.

Lemma u32_small z : 0 <= z < 2 ^ 32 -> u32 z = z.
Proof. apply Z.mod_small. Qed.

Lemma u64_range z : 0 <= u64 z < 2 ^ 64.
Proof. apply Z.mod_pos_bound; lia. Qed.

Lemma u64_small z : 0 <= z < 2 ^ 64 -> u64 z = z.
Proof. apply Z.mod_small. Qed.

Lemma to_i32_small z : INT32_MIN <= z <= INT32_MAX -> to_i32 z = z.
Proof.
  unfold INT32_MIN, INT32_MAX, to_i32; intros H. rewrite Z.mod_small; lia.
Qed.

Lemma to_i32_range z : INT32_MIN <= to_i32 z <= INT32_MAX.
Proof.
  unfold INT32_MIN, INT32_MAX, to_i32.
  pose proof (Z.mod_pos_bound (z + 2 ^ 31) (2 ^ 32)). lia.
Qed.

Lemma i32_checked_small z : INT32_MIN <= z <= INT32_MAX -> i32_checked z = Some z.
Proof. intros H. unfold i32_checked. rewrite bool_decide_eq_true_2; done. Qed.

(** Moduli compose: a power-of-two modulus absorbs the wrap-around of 2^32. *)
Lemma u32_mod_pow2 z k : 0 <= k <= 32 -> u32 z mod 2 ^ k = z mod 2 ^ k.
Proof.
  intros Hk. unfold u32.
  rewrite Z.mod_mod_divide; [done|].
  exists (2 ^ (32 - k)). rewrite <- Z.pow_add_r by lia. f_equal; lia.
Qed.

Lemma u32_add_l a b : u32 (u32 a + b) = u32 (a + b).
Proof. apply Zplus_mod_idemp_l. Qed.

Lemma u32_sub_cancel a n : 0 <= n < 2 ^ 32 -> u32 (u32 (a + n) - a) = n.
Proof.
  intros Hn. unfold u32. rewrite Zminus_mod_idemp_l.
  replace (a + n - a) with n by lia. by apply Z.mod_small.
Qed.

(** [if (a > b) a = b;] clamps [a] to [b]. *)
Lemma clamp_min a b : (if a >? b then b else a) = Z.min a b.
Proof. rewrite Z.gtb_ltb. destruct (Z.ltb_spec b a); lia. Qed.

#[export] Hint Rewrite u32_small u64_small to_i32_small using lia : ipc.
#[export] Hint Resolve u32_range u64_range to_i32_range : ipc.

(** ** Outcomes of C code

    A computation over a world [W] (the part of the machine it can change)
    returns a value, dies through [throw]/[exit(EXIT_FAILURE)] with the message
    it printed, runs into undefined behaviour, or is still running when the
    fuel given to one of its loops is used up. *)
Inductive outcome (A : Type) : Type :=
  | Done (a : A)
  | Died (message : string)
  | Undefined
  | Running.
Arguments Done {A} a.
Arguments Died {A} message.
Arguments Undefined {A}.
Arguments Running {A}.

Definition M (W A : Type) : Type := W -> outcome A * W.

#[export] Instance M_ret W : MRet (M W) := fun A a w => (Done a, w).
#[export] Instance M_bind W : MBind (M W) := fun A B f c w =>
  match c w with
  | (Done a, w') => f a w'
  | (Died msg, w') => (Died msg, w')
  | (Undefined, w') => (Undefined, w')
  | (Running, w') => (Running, w')
  end.

Definition die {W A} (message : string) : M W A := fun w => (Died message, w).
Definition undefined {W A} : M W A := fun w => (Undefined, w).
Definition running {W A} : M W A := fun w => (Running, w).
Definition of_outcome {W A} (o : outcome A) : M W A := fun w => (o, w).

(** Reads the world; [call] runs a kernel operation that always returns. *)
Definition call {W A} (f : W -> A * W) : M W A := fun w => let '(a, w') := f w in (Done a, w').

Lemma bind_done {W A B} (c : M W A) (f : A -> M W B) w a w' :
  c w = (Done a, w') -> (x ← c; f x) w = f a w'.
Proof. unfold mbind, M_bind. by intros ->. Qed.

Lemma bind_died {W A B} (c : M W A) (f : A -> M W B) w msg w' :
  c w = (Died msg, w') -> (x ← c; f x) w = (Died msg, w').
Proof. unfold mbind, M_bind. by intros ->. Qed.

Lemma bind_call {W A B} (g : W -> A * W) (f : A -> M W B) w :
  (x ← call g; f x) w = f (g w).1 (g w).2.
Proof. unfold mbind, M_bind, call. by destruct (g w). Qed.

(** ** Reachability *)

(** [inv_rtc]: an invariant of the steps holds in every reachable state. *)
Lemma inv_rtc {S} (R : relation S) (P : S -> Prop) x y :
  (forall a b, P a -> R a b -> P b) -> P x -> rtc R x y -> P y.
Proof. intros Hstep Hx Hxy. induction Hxy; eauto. Qed.

(** A run along a schedule: [exec c s] is the move of turn [c]. *)
Fixpoint run_along {C S} (exec : C -> S -> option S) (cs : list C) (s : S) : option S :=
  match cs with
  | [] => Some s
  | c :: cs => s ← exec c s; run_along exec cs s
  end.

Lemma run_along_rtc {C S} (exec : C -> S -> option S) (R : relation S) cs s s' :
  (forall c a b, exec c a = Some b -> R a b) -> run_along exec cs s = Some s' -> rtc R s s'.
Proof.
  intros Hx. revert s. induction cs as [|c cs IH]; intros s H; simpl in H; [by simplify_eq|].
  destruct (exec c s) as [s1|] eqn:E; [|done]. eapply rtc_l; [by eapply Hx|by apply IH].
Qed.

(** The state a schedule leads to, for closed examples. *)
Definition state_along {C S} (exec : C -> S -> option S) (cs : list C) (s : S) : S :=
  default s (run_along exec cs s).

Lemma state_along_rtc {C S} (exec : C -> S -> option S) (R : relation S) cs s :
  (forall c a b, exec c a = Some b -> R a b) -> is_Some (run_along exec cs s) ->
  rtc R s (state_along exec cs s).
Proof.
  intros Hx [s' Hs]. unfold state_along. rewrite Hs. by eapply run_along_rtc.
Qed.

Lemma elem_of_moves {A} (x : A) (o : option A) : x ∈ option_list o <-> o = Some x.
Proof.
  destruct o as [y|]; simpl.
  - rewrite list_elem_of_singleton. split; [by intros ->|by intros [=]].
  - split; [intros H; by apply elem_of_nil in H|done].
Qed.

(** Exploring a finite state space: [todo] is the frontier, [seen] what has
    been expanded; [fuel] bounds the number of expansions. *)
Fixpoint explore {S} `{!EqDecision S} (moves : S -> list S) (fuel : nat) (todo seen : list S) : list S :=
  match fuel, todo with
  | O, _ | _, [] => seen
  | S fuel, s :: todo =>
      if bool_decide (s ∈ seen) then explore moves fuel todo seen
      else explore moves fuel (moves s ++ todo) (s :: seen)
  end.

(** Exploration finds only reachable states. *)
Lemma explore_reachable {S} `{!EqDecision S} (moves : S -> list S) (R : relation S) s0 fuel : forall todo seen,
  (forall a b, b ∈ moves a -> R a b) ->
  Forall (rtc R s0) todo -> Forall (rtc R s0) seen -> Forall (rtc R s0) (explore moves fuel todo seen).
Proof.
  induction fuel as [|fuel IH]; intros todo seen HR Ht Hs; [done|]. cbn [explore].
  destruct todo as [|s todo]; [done|]. inversion Ht as [|? ? H1 H2]; subst.
  case_match; apply IH; auto. apply Forall_app. split; [|done].
  apply Forall_forall. intros s' Hs'. eapply rtc_r; [exact H1|by apply HR].
Qed.

(** A list that holds the start and all moves of its states holds every
    reachable state, whatever procedure produced it. *)
Definition closed_under {S} `{!EqDecision S} (moves : S -> list S) (l : list S) : bool :=
  forallb (fun s => forallb (fun s' => bool_decide (s' ∈ l)) (moves s)) l.

Lemma closed_reachable {S} `{!EqDecision S} (moves : S -> list S) (R : relation S) l s s' :
  (forall a b, R a b -> b ∈ moves a) -> closed_under moves l = true -> s ∈ l -> rtc R s s' -> s' ∈ l.
Proof.
  intros HR Hc Hs Hr. eapply (inv_rtc R (fun x => x ∈ l)); [|exact Hs|exact Hr]. intros a b Ha Hab.
  unfold closed_under in Hc. rewrite forallb_forall in Hc.
  specialize (Hc a (proj1 (list_elem_of_In _ _) Ha)). rewrite forallb_forall in Hc.
  specialize (Hc b (proj1 (list_elem_of_In _ _) (HR a b Hab))). by apply bool_decide_eq_true in Hc.
Qed.

(** ** Tactics *)

(** Case analysis on the boolean comparisons of integers in the goal. *)
Ltac zbool :=
  repeat match goal with
  | |- context [?a <? ?b] => destruct (Z.ltb_spec a b)
  | |- context [?a <=? ?b] => destruct (Z.leb_spec a b)
  | |- context [?a =? ?b] => destruct (Z.eqb_spec a b)
  | |- context [?a >? ?b] => rewrite (Z.gtb_ltb a b)
  end.
