(* ===== verification/Kernel.v ===== *)
(** * The operating system as the programs see it

    Every program of the repository is a sequence of system and library calls
    with control flow on their results.  The kernel is not part of the
    repository: it is a parameter, a function from a call and the state of the
    environment to the call's result.  A program runs in the monad [M] over a
    [process], which keeps [errno] and the trace of the calls it has made with
    their results; the theorems are about that trace. *)
From S2P Require Import Prelude.

(** ** Calls

    The arguments the programs pass; a buffer that is sent is its bytes, a
    buffer to fill is its size; an address is a path, or one that
    [getaddrinfo] returned. *)
Inductive address := Path (path : string) | Addr (id : Z).

Inductive syscall :=
  (* time *)
  | Gettimeofday | Timespec_get | Nanosleep (ns : Z) | Usleep (us : Z)
  (* descriptors and files *)
  | Open (path : string) (flags : Z) (mode : Z)
  | Close (fd : Z)
  | Lseek (fd offset : Z)
  | Write (fd : Z) (bytes : list Z)
  | Read (fd size : Z)
  | Fcntl (fd cmd arg : Z)
  | Remove (path : string)
  | Mmap (length fd : Z) | Munmap (addr length : Z)
  (* accesses to memory another process or thread can change *)
  | Load (variable : string) | Store (variable : string) (value : Z)
  | Atomic_load (addr : Z) | Atomic_store (addr value : Z)
  | Memcpy_to (addr : Z) (bytes : list Z) | Memcpy_from (addr size : Z) | Memset (addr c size : Z)
  (* System V shared memory and queues *)
  | Ftok (path : string)
  | Shmget (key size flags : Z) | Shmat (id : Z) | Shmdt (addr : Z) | Shmctl_rmid (id : Z)
  | Msgget (key flags : Z) | Msgctl_rmid (mq : Z)
  | Msgsnd (mq type : Z) (bytes : list Z) (flags : Z) | Msgrcv (mq size type flags : Z)
  (* sockets *)
  | Socket (domain type protocol : Z)
  | Bind (fd : Z) (to : address) | Connect (fd : Z) (to : address)
  | Listen (fd backlog : Z) | Accept (fd : Z)
  | Send (fd : Z) (bytes : list Z) | Recv (fd size : Z)
  | Setsockopt (fd option : Z) (value : list Z) | Getsockopt (fd option : Z)
  | Getaddrinfo (host port : string) | Freeaddrinfo
  | Getaddrinfo_with (host port : option string) (flags : Z) | Inet_ntop (family source : Z)
  | Sendmsg_fd (fd : Z) (to : address) (passed : Z) | Recvmsg_fd (fd : Z)
  (* streams *)
  | Pipe | Mkfifo (path : string) (mode : Z)
  | Fdopen (fd : Z) (mode : list Z) | Fopen (path mode : string) | Fclose (stream : Z)
  | Fread (stream size : Z) | Fwrite (stream : Z) (bytes : list Z) | Fflush (stream : Z)
  (* processes and signals *)
  | Pthread_create | Fork | Getpid | Setpgid (pid group : Z) | Execv (path : string) (argv : list string)
  | Waitpid_nohang
  | Kill (pid signal : Z)
  | Sigaction (signal : Z) (handler : Z) (flags : Z) (mask : list Z)
  | Sigprocmask_block (mask : list Z) | Sigwait (mask : list Z)
  (* eventfd and user interrupts *)
  | Eventfd (initial flags : Z)
  | Uintr_register_handler | Uintr_unregister_handler (flags : Z)
  | Uintr_create_fd (vector flags : Z) | Uintr_register_sender (fd flags : Z)
  | Senduipi (index : Z) | Stui
  (* functions of libpthread *)
  | Lib (name : string) (args : list Z)
  (* libzmq; contexts and sockets are addresses *)
  | Zmq_ctx_new | Zmq_ctx_destroy (context : Z)
  | Zmq_socket (context kind : Z) | Zmq_close (socket : Z)
  | Zmq_bind (socket : Z) (to : string) | Zmq_connect (socket : Z) (to : string)
  | Zmq_send (socket : Z) (bytes : list Z) | Zmq_recv (socket size : Z)
  (* heap *)
  | Malloc (size : Z) | Free (addr : Z).

#[export] Instance address_eq_dec : EqDecision address.
Proof. solve_decision. Defined.

#[export] Instance syscall_eq_dec : EqDecision syscall.
Proof. solve_decision. Defined.

(** The return value, the value left in [errno] by a failure, and what the call
    stored through its pointer arguments. *)
Record result := mk_result { rv : Z; err : Z; data : list Z }.

(** Linux constants, x86-64. *)
Definition AF_UNIX : Z := 1.
Definition AF_UNSPEC : Z := 0.
Definition AF_INET : Z := 2.
Definition SOCK_STREAM : Z := 1.
Definition SOCK_DGRAM : Z := 2.
Definition SO_REUSEADDR : Z := 2.
Definition SO_SNDBUF : Z := 7.
Definition SO_RCVBUF : Z := 8.
Definition SO_RCVTIMEO : Z := 20.
Definition SO_SNDTIMEO : Z := 21.
Definition F_GETFL : Z := 3.
Definition F_SETFL : Z := 4.
Definition O_NONBLOCK : Z := 2048.
Definition EAGAIN : Z := 11.
Definition SIGUSR1 : Z := 10.
Definition SIGUSR2 : Z := 12.
Definition SIGCHLD : Z := 17.
Definition SA_RESTART : Z := 268435456.
(** [IPC_CREAT | 0666] and [O_RDWR | O_CREAT]. *)
Definition IPC_CREAT_0666 : Z := 950.
Definition O_RDWR_CREAT : Z := 66.

Class Kernel (W : Type) := kernel : syscall -> W -> result * W.

Record process (W : Type) := mk_process {
  errno : Z;
  trace : list (syscall * result);
  env : W;
}.
Arguments mk_process {W} errno trace env.
Arguments errno {W} p.
Arguments trace {W} p.
Arguments env {W} p.

(** A kernel that answers the calls with a script of results: a program run
    against every script is run against every behaviour of the kernel. *)
Abbreviation script := (list result).
#[export] Instance script_kernel : Kernel script := fun c rs =>
  match rs with
  | [] => (mk_result 0 0 [], [])
  | r :: rs => (r, rs)
  end.

Definition start (rs : script) : process script := mk_process 0 [] rs.

(** The outcome and the calls of a run against a script. *)
Definition outcome_on {A} (c : M (process script) A) (rs : script) : outcome A := (c (start rs)).1.
Definition calls_on {A} (c : M (process script) A) (rs : script) : list syscall :=
  (trace (c (start rs)).2).*1.

(** A call's result without data. *)
Definition val (v : Z) : result := mk_result v 0 [].
Definition fails (e : Z) : result := mk_result (-1) e [].

Section programs.
Context {W : Type} `{!Kernel W}.
Implicit Types p q : process W.

Definition sys (c : syscall) : M (process W) result := fun p =>
  let '(r, w) := kernel c (env p) in
  (Done r, mk_process (if rv r =? -1 then err r else errno p) (trace p ++ [(c, r)]) w).

(** The call's return value, and a call whose result is ignored. *)
Definition sys_rv (c : syscall) : M (process W) Z := r ← sys c; mret (rv r).
Definition sys_ (c : syscall) : M (process W) () := _ ← sys c; mret ().

Definition get_errno : M (process W) Z := fun p => (Done (errno p), p).
Definition set_errno (e : Z) : M (process W) () := fun p => (Done (), mk_process e (trace p) (env p)).

(** [if (cond) throw(message);] *)
Definition throw_if (cond : bool) (message : string) : M (process W) () :=
  if cond then die message else mret ().

(** The instruction [senduipi].  For an index that names no entry of the table
    of targets it faults: the kernel then answers with a negative number and the
    signal kills the program. *)
Definition senduipi (index : Z) : M (process W) () :=
  fault ← sys_rv (Senduipi index); throw_if (fault <? 0) "Segmentation fault".

(** A partial operation of the language inside a program. *)
Definition defined {A} (x : option A) : M (process W) A :=
  match x with Some a => mret a | None => undefined end.

(** [while (1)]: never returns. *)
Fixpoint forever (fuel : nat) (round : M (process W) ()) : M (process W) () :=
  match fuel with
  | O => running
  | S fuel => round;; forever fuel round
  end.

(** The calls a run appends to the trace. *)
Definition calls_of (tr : list (syscall * result)) : list syscall := tr.*1.

(** [run c p] is what the program does from [p]: [c] appends [tr] and ends
    with [o]. *)
Definition runs {A} (c : M (process W) A) p (tr : list (syscall * result)) (o : outcome A) : Prop :=
  (c p).1 = o /\ trace (c p).2 = trace p ++ tr.

Lemma sys_eq c p :
  sys c p = (Done (kernel c (env p)).1,
    mk_process (if rv (kernel c (env p)).1 =? -1 then err (kernel c (env p)).1 else errno p)
      (trace p ++ [(c, (kernel c (env p)).1)]) (kernel c (env p)).2).
Proof. unfold sys. by destruct (kernel c (env p)). Qed.

Lemma sys__eq c p :
  sys_ c p = (Done (),
    mk_process (if rv (kernel c (env p)).1 =? -1 then err (kernel c (env p)).1 else errno p)
      (trace p ++ [(c, (kernel c (env p)).1)]) (kernel c (env p)).2).
Proof. unfold sys_, mbind, M_bind. by rewrite sys_eq. Qed.

Lemma runs_bind {A B} (c : M (process W) A) (f : A -> M (process W) B) p tr a tr' o :
  runs c p tr (Done a) -> runs (f a) (c p).2 tr' o -> runs (x ← c; f x) p (tr ++ tr') o.
Proof.
  unfold runs, mbind, M_bind. destruct (c p) as [x q]. cbn [fst snd]. intros [-> Ht] [Ho Ht'].
  split; [done|]. by rewrite Ht', Ht, app_assoc.
Qed.

(** ** Safety of traces

    [only P c]: every call [c] makes from any state satisfies [P]. *)
Definition only {A} (P : syscall -> Prop) (c : M (process W) A) : Prop :=
  forall p, exists tr, trace (c p).2 = trace p ++ tr /\ Forall P (calls_of tr).

Lemma only_ret {A} (P : syscall -> Prop) (a : A) : only P (mret a).
Proof. intros p. exists []. by rewrite app_nil_r. Qed.

Lemma only_die {A} (P : syscall -> Prop) msg : only (A:=A) P (die msg).
Proof. intros p. exists []. by rewrite app_nil_r. Qed.

Lemma only_undefined {A} (P : syscall -> Prop) : only (A:=A) P undefined.
Proof. intros p. exists []. by rewrite app_nil_r. Qed.

Lemma only_running {A} (P : syscall -> Prop) : only (A:=A) P running.
Proof. intros p. exists []. by rewrite app_nil_r. Qed.

Lemma only_of_outcome {A} (P : syscall -> Prop) (o : outcome A) : only P (of_outcome o).
Proof. intros p. exists []. by rewrite app_nil_r. Qed.

Lemma only_bind {A B} (P : syscall -> Prop) (c : M (process W) A) (f : A -> M (process W) B) :
  only P c -> (forall a, only P (f a)) -> only P (x ← c; f x).
Proof.
  intros Hc Hf p. destruct (Hc p) as (tr & Ht & HP). unfold mbind, M_bind.
  destruct (c p) as [[a|msg| |] q]; cbn [snd] in *; try by exists tr.
  destruct (Hf a q) as (tr' & Ht' & HP'). exists (tr ++ tr'). split.
  - by rewrite Ht', Ht, app_assoc.
  - unfold calls_of. rewrite fmap_app. by apply Forall_app.
Qed.

Lemma only_sys (P : syscall -> Prop) c : P c -> only P (sys c).
Proof.
  intros Hc p. eexists. rewrite sys_eq. split; [done|]. by constructor.
Qed.

Lemma only_sys_rv (P : syscall -> Prop) c : P c -> only P (sys_rv c).
Proof. intros Hc. apply only_bind; [by apply only_sys|]. intros. apply only_ret. Qed.

Lemma only_sys_ (P : syscall -> Prop) c : P c -> only P (sys_ c).
Proof. intros Hc. apply only_bind; [by apply only_sys|]. intros. apply only_ret. Qed.

Lemma only_errno P : only P get_errno.
Proof. intros p. exists []. by rewrite app_nil_r. Qed.

Lemma only_throw_if P b msg : only P (throw_if b msg).
Proof. destruct b; [apply only_die|apply only_ret]. Qed.

Lemma only_defined {A} P (x : option A) : only P (defined x).
Proof. destruct x; [apply only_ret|apply only_undefined]. Qed.

(** ** Inversion of runs that return *)

Lemma bind_inv {A B} (c : M (process W) A) (f : A -> M (process W) B) p b q :
  (x ← c; f x) p = (Done b, q) -> exists a p', c p = (Done a, p') /\ f a p' = (Done b, q).
Proof.
  unfold mbind, M_bind. destruct (c p) as [[a| | |] p']; try done. intros H. by exists a, p'.
Qed.

Lemma bind_inv1 {A B} (c : M (process W) A) (f : A -> M (process W) B) p b :
  ((x ← c; f x) p).1 = Done b -> exists a q, c p = (Done a, q) /\ (f a q).1 = Done b.
Proof.
  unfold mbind, M_bind. destruct (c p) as [[a| | |] q]; try done. intros H. by exists a, q.
Qed.

(** [did p q cs]: from [p] to [q] the calls [cs] were made. *)
Definition did p q (cs : list syscall) : Prop := calls_of (trace q) = calls_of (trace p) ++ cs.

Lemma did_nil p : did p p [].
Proof. unfold did. by rewrite app_nil_r. Qed.

Lemma did_trans p q r cs cs' : did p q cs -> did q r cs' -> did p r (cs ++ cs').
Proof. unfold did. intros H1 H2. by rewrite H2, H1, app_assoc. Qed.

Lemma sys_did c p r q : sys c p = (Done r, q) -> did p q [c].
Proof.
  rewrite sys_eq. intros [= _ <-]. unfold did, calls_of. cbn [trace]. by rewrite fmap_app.
Qed.

Lemma sys__did c p u q : sys_ c p = (Done u, q) -> did p q [c].
Proof.
  intros H. apply bind_inv in H as (r & p' & H & [= _ <-]). by eapply sys_did.
Qed.

Lemma sys_rv_did c p v q : sys_rv c p = (Done v, q) -> did p q [c].
Proof.
  intros H. apply bind_inv in H as (r & p' & H & [= _ <-]). by eapply sys_did.
Qed.

Lemma defined_inv {A} (x : option A) p a q : defined x p = (Done a, q) -> x = Some a /\ q = p.
Proof. destruct x; [by intros [= -> ->]|done]. Qed.

Lemma mret_inv {A} (a b : A) p q : (mret a : M (process W) A) p = (Done b, q) -> b = a /\ q = p.
Proof. by intros [= -> ->]. Qed.

Lemma throw_if_inv b msg p u q : throw_if b msg p = (Done u, q) -> b = false /\ q = p.
Proof. destruct b; [done|by intros [= _ ->]]. Qed.

End programs.

#[export] Hint Resolve only_of_outcome only_ret only_die only_undefined only_running only_sys only_sys_rv
  only_sys_ only_errno only_throw_if only_defined : ipc.

(** Proves [only P c] for straight-line programs, leaving [P] of the calls. *)
Ltac only_calls :=
  repeat first
    [ simple apply only_bind; [|intros ?]
    | simple apply only_sys | simple apply only_sys_rv | simple apply only_sys_
    | solve [eauto with ipc nocore]
    | case_match ].

Lemma sys_rv_script c r rs e tr :
  sys_rv c (mk_process e tr (r :: rs))
    = (Done (rv r), mk_process (if rv r =? -1 then err r else e) (tr ++ [(c, r)]) rs).
Proof. done. Qed.

Lemma sys__script c r rs e tr :
  sys_ c (mk_process e tr (r :: rs))
    = (Done (), mk_process (if rv r =? -1 then err r else e) (tr ++ [(c, r)]) rs).
Proof. done. Qed.

Lemma fmap_fst_app (a b : list (syscall * result)) : (a ++ b).*1 = a.*1 ++ b.*1.
Proof. apply fmap_app. Qed.

(** Computes a run against a script, up to the conditions on the results. *)
Ltac exec :=
  cbv beta iota zeta delta [outcome_on calls_on start sys_rv sys_ sys kernel script_kernel env
    errno trace mbind M_bind mret M_ret die undefined running throw_if of_outcome defined get_errno set_errno];
  cbn [fst snd].

(** [exec] with the case analysis on those conditions. *)
Ltac exec_cases :=
  exec; repeat (match goal with |- context [if ?b then _ else _] => destruct b eqn:? end;
                try reflexivity; exec).
