(* ===== verification/Memory.v ===== *)
(** * Byte memory of a process

    The mapped bytes of an address space, bulk reads and writes, [memcpy] and
    [memset] of the C library, and the little-endian bytes of a 64-bit word. *)
From S2P Require Import Prelude.

Abbreviation mem := (gmap Z Z).

(** Reads [n] bytes from address [p]; [None] when a byte is not mapped. *)
Fixpoint load_nat (m : mem) (p : Z) (n : nat) : option (list Z) :=
  match n with
  | O => Some []
  | S n => b ← m !! p; bs ← load_nat m (p + 1) n; Some (b :: bs)
  end.

Definition load_bytes (m : mem) (p n : Z) : option (list Z) := load_nat m p (Z.to_nat n).

(** Writes [bs] from address [p] on; [None] when a byte is not mapped. *)
Fixpoint store_bytes (m : mem) (p : Z) (bs : list Z) : option mem :=
  match bs with
  | [] => Some m
  | b :: bs => _ ← m !! p; store_bytes (<[p := b]> m) (p + 1) bs
  end.

(** [memcpy(dst, src, n)]: undefined when a byte is unmapped or the two
    non-empty ranges overlap. *)
Definition memcpy (m : mem) (dst src n : Z) : option mem :=
  if bool_decide (n <= 0 \/ dst + n <= src \/ src + n <= dst) then
    bs ← load_bytes m src n; store_bytes m dst bs
  else None.

(** [memset(dst, c, n)]. *)
Definition memset (m : mem) (dst c n : Z) : option mem :=
  store_bytes m dst (replicate (Z.to_nat n) (c mod 256)).

(** The bytes [p], ..., [p + length bs - 1] hold [bs]. *)
Definition holds (m : mem) (p : Z) (bs : list Z) : Prop :=
  forall i b, bs !! i = Some b -> m !! (p + Z.of_nat i) = Some b.

Definition mapped (m : mem) (p n : Z) : Prop :=
  forall a, p <= a < p + n -> is_Some (m !! a).

(** [m'] differs from [m] at most on the addresses that satisfy [P]. *)
Definition changes_only (P : Z -> Prop) (m m' : mem) : Prop :=
  forall a, ~ P a -> m' !! a = m !! a.

(** Every byte mapped in [m] is mapped in [m']. *)
Definition keeps_mapped (m m' : mem) : Prop := forall p n, mapped m p n -> mapped m' p n.

(** ** Loads *)

Lemma load_nat_holds m p bs :
  holds m p bs -> load_nat m p (length bs) = Some bs.
Proof.
  revert p. induction bs as [|b bs IH]; intros p H; simpl; [done|].
  pose proof (H O b eq_refl) as H0. rewrite Z.add_0_r in H0. rewrite H0. simpl.
  rewrite IH; [done|].
  intros i c Hi. rewrite <- (H (S i) c Hi). f_equal. lia.
Qed.

Lemma load_holds m p n bs :
  holds m p bs -> Z.of_nat (length bs) = n -> load_bytes m p n = Some bs.
Proof.
  intros H <-. unfold load_bytes. rewrite Nat2Z.id. by apply load_nat_holds.
Qed.

Lemma holds_app m p bs cs :
  holds m p (bs ++ cs) <-> holds m p bs /\ holds m (p + Z.of_nat (length bs)) cs.
Proof.
  split.
  - intros H; split.
    + intros i b Hi. apply H. by apply lookup_app_l_Some.
    + intros i b Hi.
      replace (p + Z.of_nat (length bs) + Z.of_nat i)
        with (p + Z.of_nat (length bs + i)) by lia.
      apply H. rewrite lookup_app_r by lia. rewrite <- Hi. f_equal. lia.
  - intros [H1 H2] i b Hi. apply lookup_app_Some in Hi as [Hi|[Hle Hi]]; [by apply H1|].
    specialize (H2 _ _ Hi).
    replace (p + Z.of_nat i) with (p + Z.of_nat (length bs) + Z.of_nat (i - length bs)) by lia.
    done.
Qed.

Lemma load_nat_inv m n : forall p bs, load_nat m p n = Some bs -> length bs = n /\ holds m p bs.
Proof.
  induction n as [|n IH]; intros p bs H; simpl in H; [by simplify_eq|].
  destruct (m !! p) as [b|] eqn:Hb; [|done]. simpl in H.
  destruct (load_nat m (p + 1) n) as [cs|] eqn:Hcs; [|done]. simplify_eq/=.
  destruct (IH _ _ Hcs) as [Hl Hh]. split; [by f_equal|].
  intros [|i] c Hi; simpl in Hi.
  - rewrite Z.add_0_r. by simplify_eq.
  - rewrite <- (Hh i c Hi). f_equal. lia.
Qed.

Lemma load_inv m p n bs :
  load_bytes m p n = Some bs -> length bs = Z.to_nat n /\ holds m p bs.
Proof. apply load_nat_inv. Qed.

Lemma holds_mapped m p bs n :
  holds m p bs -> n <= Z.of_nat (length bs) -> mapped m p n.
Proof.
  intros H Hn a Ha.
  destruct (lookup_lt_is_Some_2 bs (Z.to_nat (a - p))) as [b Hb]; [lia|].
  exists b. rewrite <- (H _ _ Hb). f_equal. lia.
Qed.

Lemma mapped_load m p n : is_Some (load_bytes m p n) -> mapped m p n.
Proof.
  intros [bs H]. apply load_inv in H as [Hl Hh]. eapply holds_mapped; [done|]. lia.
Qed.

(** Memory with the bytes [bs] mapped at [p]. *)
Fixpoint mem_of (p : Z) (bs : list Z) : mem :=
  match bs with
  | [] => ∅
  | b :: bs => <[p := b]> (mem_of (p + 1) bs)
  end.

Lemma lookup_mem_of p bs a :
  mem_of p bs !! a = if decide (p <= a) then bs !! Z.to_nat (a - p) else None.
Proof.
  revert p. induction bs as [|b bs IH]; intros p; simpl.
  { by case_decide. }
  rewrite lookup_insert, IH. destruct (decide (p = a)) as [->|Hne].
  - rewrite decide_True by lia. by rewrite Z.sub_diag.
  - repeat case_decide; try lia; try done.
    by replace (Z.to_nat (a - p)) with (S (Z.to_nat (a - (p + 1)))) by lia.
Qed.

Lemma mem_of_holds p bs : holds (mem_of p bs) p bs.
Proof.
  intros i b Hi. rewrite lookup_mem_of, decide_True by lia.
  rewrite <- Hi. f_equal. lia.
Qed.

Lemma mem_of_outside p bs a :
  a < p \/ p + Z.of_nat (length bs) <= a -> mem_of p bs !! a = None.
Proof.
  intros Ha. rewrite lookup_mem_of. case_decide; [|done]. apply lookup_ge_None. lia.
Qed.

Lemma holds_union_l m1 m2 p bs : holds m1 p bs -> holds (m1 ∪ m2) p bs.
Proof. intros H i b Hi. apply lookup_union_Some_l. by apply H. Qed.

Lemma holds_union_r m1 m2 p bs :
  holds m2 p bs -> (forall a, p <= a < p + Z.of_nat (length bs) -> m1 !! a = None) ->
  holds (m1 ∪ m2) p bs.
Proof.
  intros H Hn i b Hi. rewrite lookup_union_r; [by apply H|].
  apply Hn. apply lookup_lt_Some in Hi. lia.
Qed.

(** A mapped range can be loaded. *)
Lemma load_mapped m p n :
  mapped m p n -> exists bs, load_bytes m p n = Some bs /\ length bs = Z.to_nat n /\ holds m p bs.
Proof.
  intros Hm. enough (is_Some (load_bytes m p n)) as [bs Hb].
  { exists bs. split; [done|]. by apply load_inv. }
  unfold load_bytes. assert (Hm' : forall a, p <= a < p + Z.of_nat (Z.to_nat n) -> is_Some (m !! a)).
  { intros a Ha. apply Hm. lia. }
  clear Hm. revert p Hm'. induction (Z.to_nat n) as [|k IH]; intros p Hm; simpl; [by eexists|].
  destruct (Hm p) as [b ->]; [lia|]. simpl.
  destruct (IH (p + 1)) as [bs ->]; [intros a Ha; apply Hm; lia|]. by eexists.
Qed.

(** ** Stores *)

Lemma store_bytes_spec bs : forall m p,
  mapped m p (Z.of_nat (length bs)) ->
  exists m', store_bytes m p bs = Some m' /\ holds m' p bs /\
    changes_only (fun a => p <= a < p + Z.of_nat (length bs)) m m' /\ keeps_mapped m m'.
Proof.
  induction bs as [|b bs IH]; intros m p Hm; simpl in *.
  { exists m. split; [done|]. split; [intros i c Hi; done|].
    split; [intros a Ha; done|intros q n H; done]. }
  destruct (Hm p) as [c Hc]; [lia|]. rewrite Hc. simpl.
  assert (Hk : keeps_mapped m (<[p := b]> m)).
  { intros q n H a Ha. rewrite lookup_insert. case_decide; [eauto|]. by apply H. }
  destruct (IH (<[p := b]> m) (p + 1)) as (m' & Hs & Hh & Ho & Hk').
  { apply Hk. intros a Ha. apply Hm. lia. }
  exists m'. split; [done|]. split; [|split; [|by intros q n H; apply Hk', Hk]].
  - intros [|i] d Hd; simpl in Hd.
    + injection Hd as <-. rewrite Z.add_0_r, Ho by lia. apply lookup_insert_eq.
    + rewrite <- (Hh i d Hd). f_equal. lia.
  - intros a Ha. rewrite Ho by lia. apply lookup_insert_ne. lia.
Qed.

Lemma holds_frame P m m' p bs :
  changes_only P m m' ->
  (forall a, p <= a < p + Z.of_nat (length bs) -> ~ P a) ->
  holds m p bs -> holds m' p bs.
Proof.
  intros Ho Hd H i b Hi. rewrite Ho; [by apply H|].
  apply Hd. apply lookup_lt_Some in Hi. lia.
Qed.

Lemma changes_only_weaken (P Q : Z -> Prop) m m' :
  changes_only P m m' -> (forall a, P a -> Q a) -> changes_only Q m m'.
Proof. intros H HPQ a Ha. apply H. auto. Qed.

Lemma changes_only_trans P m1 m2 m3 :
  changes_only P m1 m2 -> changes_only P m2 m3 -> changes_only P m1 m3.
Proof. intros H1 H2 a Ha. rewrite H2, H1; done. Qed.

Lemma changes_only_refl P m : changes_only P m m.
Proof. intros a _. done. Qed.
#[export] Hint Resolve changes_only_refl : ipc.

Lemma memcpy_spec m dst src n bs :
  holds m src bs -> Z.of_nat (length bs) = n ->
  mapped m dst n ->
  (n <= 0 \/ dst + n <= src \/ src + n <= dst) ->
  exists m', memcpy m dst src n = Some m' /\ holds m' dst bs /\
    changes_only (fun a => dst <= a < dst + n) m m' /\ keeps_mapped m m'.
Proof.
  intros Hs Hl Hm Hd. unfold memcpy. rewrite bool_decide_eq_true_2 by done.
  rewrite (load_holds _ _ _ _ Hs Hl). simpl. rewrite <- Hl in *.
  by apply store_bytes_spec.
Qed.

(** Copying to an unmapped address is undefined. *)
Lemma memcpy_unmapped m dst src n : 0 < n -> m !! dst = None -> memcpy m dst src n = None.
Proof.
  intros Hn Hd. unfold memcpy. case_bool_decide; [|done].
  destruct (load_bytes m src n) as [bs|] eqn:Hb; [|done].
  apply load_inv in Hb as [Hl _]. destruct bs as [|b bs]; simpl in Hl; [lia|].
  simpl. by rewrite Hd.
Qed.

(** ** Little-endian words *)

Fixpoint le_bytes (n : nat) (z : Z) : list Z :=
  match n with
  | O => []
  | S n => z mod 256 :: le_bytes n (z / 256)
  end.

Fixpoint le_value (bs : list Z) : Z :=
  match bs with
  | [] => 0
  | b :: bs => b + 256 * le_value bs
  end.

Lemma length_le_bytes n z : length (le_bytes n z) = n.
Proof. revert z. induction n; intros z; simpl; auto. Qed.

Lemma le_value_bytes n z : le_value (le_bytes n z) = z mod 256 ^ Z.of_nat n.
Proof.
  revert z. induction n as [|n IH]; intros z.
  { simpl. by rewrite Z.mod_1_r. }
  cbn [le_bytes le_value]. rewrite IH, Nat2Z.inj_succ, Z.pow_succ_r by lia.
  rewrite Z.rem_mul_r by lia. lia.
Qed.
