(* ===== verification/Kfifo.v ===== *)
(** * common/kfifo.h: the ring buffer

    The structure [struct __kfifo], every function of the header, the
    well-formedness invariant of a ring, its abstraction to a byte queue, and
    the lemmas and theorems that the operations implement that queue. *)
From S2P Require Import Prelude Memory.

(** ** The code *)

Record __kfifo := mk_kfifo {
  kf_in : Z;      (* unsigned int in *)
  kf_out : Z;     (* unsigned int out *)
  kf_mask : Z;    (* unsigned int mask *)
  kf_esize : Z;   (* unsigned int esize *)
  kf_data : Z;    (* void *data *)
}.

Definition set_in (f : __kfifo) (v : Z) : __kfifo :=
  mk_kfifo v (kf_out f) (kf_mask f) (kf_esize f) (kf_data f).
Definition set_out (f : __kfifo) (v : Z) : __kfifo :=
  mk_kfifo (kf_in f) v (kf_mask f) (kf_esize f) (kf_data f).

(** [v |= v >> k]. *)
Definition or_shift (v k : Z) : Z := Z.lor v (Z.shiftr v k).

Definition roundup_pow_of_two (v : Z) : Z :=
  let v := u32 (v - 1) in
  let v := or_shift v 1 in
  let v := or_shift v 2 in
  let v := or_shift v 4 in
  let v := or_shift v 8 in
  let v := or_shift v 16 in
  u32 (v + 1).

Definition kfifo_len (f : __kfifo) : Z := u32 (kf_in f - kf_out f).

Definition kfifo_cap (f : __kfifo) : Z := u32 (kf_mask f + 1).

Definition kfifo_avail (f : __kfifo) : Z := u32 (kfifo_cap f - kfifo_len f).

Definition kfifo_is_full (f : __kfifo) : bool := kfifo_len f >? kf_mask f.

Definition kfifo_is_empty (f : __kfifo) : bool := kf_in f =? kf_out f.

Definition kfifo_unused (f : __kfifo) : Z :=
  u32 (u32 (kf_mask f + 1) - u32 (kf_in f - kf_out f)).

Definition is_power_of_2 (size : Z) : bool := Z.land size (u32 (size - 1)) =? 0.

(** The values [print_kfifo] prints, line by line. *)
Definition print_kfifo (f : __kfifo) : list (string * Z) :=
  [("Available items", kfifo_avail f); ("Size", u32 (kf_mask f + 1));
   ("In index", kf_in f); ("Out index", kf_out f); ("Element size", kf_esize f)].

(** [esize] is a [size_t]: the division is a 64-bit one (undefined for 0), and
    the assignment to [fifo->esize] truncates to 32 bits. *)
Definition __kfifo_init (buffer size esize : Z) : option (__kfifo * Z) :=
  if esize =? 0 then None else
  let size := u32 (size / esize) in
  let size := if negb (is_power_of_2 size) then roundup_pow_of_two size else size in
  if size <? 2 then Some (mk_kfifo 0 0 0 (u32 esize) buffer, -1)
  else Some (mk_kfifo 0 0 (u32 (size - 1)) (u32 esize) buffer, 0).

(** The byte offset, ring size and byte count that both copy loops compute. *)
Definition kfifo_scale (f : __kfifo) (len off : Z) : Z * Z * Z :=
  let size := u32 (kf_mask f + 1) in
  let off := Z.land off (kf_mask f) in
  if negb (kf_esize f =? 1)
  then (u32 (off * kf_esize f), u32 (size * kf_esize f), u32 (len * kf_esize f))
  else (off, size, len).

Definition kfifo_copy_in (f : __kfifo) (m : mem) (src len off : Z) : option mem :=
  let '(off, size, len) := kfifo_scale f len off in
  let l := Z.min len (u32 (size - off)) in
  m ← memcpy m (kf_data f + off) src l;
  memcpy m (kf_data f) (src + l) (u32 (len - l)).

Definition __kfifo_in (f : __kfifo) (m : mem) (buf len : Z) : option (__kfifo * mem * Z) :=
  let l := kfifo_unused f in
  let len := if len >? l then l else len in
  m ← kfifo_copy_in f m buf len (kf_in f);
  Some (set_in f (u32 (kf_in f + len)), m, len).

Definition kfifo_copy_out (f : __kfifo) (m : mem) (dst len off : Z) : option mem :=
  let '(off, size, len) := kfifo_scale f len off in
  let l := Z.min len (u32 (size - off)) in
  m ← memcpy m dst (kf_data f + off) l;
  memcpy m (dst + l) (kf_data f) (u32 (len - l)).

Definition __kfifo_out_peek (f : __kfifo) (m : mem) (buf len : Z) : option (mem * Z) :=
  let l := u32 (kf_in f - kf_out f) in
  let len := if len >? l then l else len in
  m ← kfifo_copy_out f m buf len (kf_out f);
  Some (m, len).

Definition __kfifo_out (f : __kfifo) (m : mem) (buf len : Z) : option (__kfifo * mem * Z) :=
  '(m, len) ← __kfifo_out_peek f m buf len;
  Some (set_out f (u32 (kf_out f + len)), m, len).

(** ** The abstract bounded byte queue

    A queue of whole elements of [es] bytes, at most [cap] elements. *)
Module Queue.
Definition elems (es : Z) (q : list Z) : Z := Z.of_nat (length q) / es.

(** Appends the first [min len free] elements of [bs]; returns their number. *)
Definition enqueue (cap es : Z) (q bs : list Z) (len : Z) : list Z * Z :=
  let n := Z.min len (cap - elems es q) in
  (q ++ take (Z.to_nat (n * es)) bs, n).

(** Removes the first [min len stored] elements; returns the rest, their
    bytes and their number. *)
Definition dequeue (es : Z) (q : list Z) (len : Z) : list Z * list Z * Z :=
  let n := Z.min len (elems es q) in
  (drop (Z.to_nat (n * es)) q, take (Z.to_nat (n * es)) q, n).
End Queue.

(** ** Invariant and abstraction *)

(** The bytes of the ring. *)
Definition ring_bytes (f : __kfifo) : Z := (kf_mask f + 1) * kf_esize f.

(** The address of byte [i] of the stream that starts at counter [o]. *)
Definition ring_addr (f : __kfifo) (o i : Z) : Z :=
  kf_data f + (o * kf_esize f + i) mod ring_bytes f.

(** A ring of [2^k] elements whose byte size fits in 32 bits, with at most
    [2^k] stored elements. *)
Definition wf_log (f : __kfifo) (k : Z) : Prop :=
  1 <= k <= 31 /\ kf_mask f = 2 ^ k - 1 /\
  0 < kf_esize f /\ 2 ^ k * kf_esize f < 2 ^ 32 /\
  0 <= kf_in f < 2 ^ 32 /\ 0 <= kf_out f < 2 ^ 32 /\
  kfifo_len f <= 2 ^ k.
Definition wf (f : __kfifo) : Prop := exists k, wf_log f k.

(** From counter [o] on, the ring holds the bytes [bs]. *)
Definition ring_holds (f : __kfifo) (m : mem) (o : Z) (bs : list Z) : Prop :=
  forall i b, bs !! i = Some b -> m !! ring_addr f o (Z.of_nat i) = Some b.

(** The ring stores the queue [q]: [kfifo_len] elements from [out] on. *)
Definition rep (f : __kfifo) (m : mem) (q : list Z) : Prop :=
  wf f /\ mapped m (kf_data f) (ring_bytes f) /\
  Z.of_nat (length q) = kfifo_len f * kf_esize f /\
  ring_holds f m (kf_out f) q.

(** A caller's buffer of [n] bytes at [p] outside the ring. *)
Definition outside (f : __kfifo) (p n : Z) : Prop :=
  p + n <= kf_data f \/ kf_data f + ring_bytes f <= p.

(** ** Bit twiddling *)

(** After or-ing shifts that cover [n] positions, bit [i] tells whether one of
    the bits [i .. i + n - 1] of [v] was set. *)
Definition smeared (v n s : Z) : Prop :=
  forall i, 0 <= i -> (Z.testbit s i = true <-> exists j, 0 <= j < n /\ Z.testbit v (i + j) = true).

Lemma smeared_start v : smeared v 1 v.
Proof.
  intros i Hi. split.
  - intros H. exists 0. by rewrite Z.add_0_r.
  - intros (j & Hj & H). replace (i + j) with i in H by lia. done.
Qed.

Lemma smeared_step v n s : 0 < n -> smeared v n s -> smeared v (n + n) (or_shift s n).
Proof.
  intros Hn Hs i Hi. unfold or_shift.
  rewrite Z.lor_spec, Z.shiftr_spec, orb_true_iff, (Hs i), (Hs (i + n)) by lia. split.
  - intros [(j & Hj & H)|(j & Hj & H)]; [exists j; split; [lia|done]|].
    exists (n + j). split; [lia|]. by replace (i + (n + j)) with (i + n + j) by lia.
  - intros (j & Hj & H). destruct (decide (j < n)); [left; exists j; split; [lia|done]|].
    right. exists (j - n). split; [lia|]. by replace (i + n + (j - n)) with (i + j) by lia.
Qed.

Lemma smeared_32 v s :
  0 < v < 2 ^ 32 -> smeared v 32 s -> 0 <= s -> s = Z.ones (Z.log2 v + 1).
Proof.
  intros Hv Hs Hs0. pose proof (Z.log2_nonneg v) as Hl0.
  assert (Hl : Z.log2 v < 32) by (apply Z.log2_lt_pow2; lia).
  apply Z.bits_inj'. intros i Hi.
  destruct (decide (i <= Z.log2 v)).
  - rewrite Z.ones_spec_low by lia. apply Hs; [done|].
    exists (Z.log2 v - i). split; [lia|].
    replace (i + (Z.log2 v - i)) with (Z.log2 v) by lia. apply Z.bit_log2. lia.
  - rewrite Z.ones_spec_high by lia. apply not_true_is_false. intros H.
    apply Hs in H as (j & Hj & H); [|done].
    rewrite Z.bits_above_log2 in H by lia. done.
Qed.

Lemma or_shift_nonneg v k : 0 <= v -> 0 <= or_shift v k.
Proof. intros Hv. apply Z.lor_nonneg. split; [done|]. by apply Z.shiftr_nonneg. Qed.

(** The value of [roundup_pow_of_two] on its whole 32-bit domain. *)
Lemma roundup_pow_of_two_val v :
  0 <= v < 2 ^ 32 ->
  roundup_pow_of_two v = if bool_decide (1 <= v <= 2 ^ 31) then 2 ^ Z.log2_up v else 0.
Proof.
  intros Hv. unfold roundup_pow_of_two.
  destruct (decide (v = 0)) as [->|Hv0]; [reflexivity|].
  destruct (decide (v = 1)) as [->|Hv1]; [reflexivity|].
  rewrite (u32_small (v - 1)) by lia. set (w := v - 1).
  assert (Hw : 0 < w < 2 ^ 32) by lia.
  rewrite (smeared_32 w (or_shift _ 16)).
  - rewrite Z.ones_equiv. unfold Z.pred. rewrite Z.log2_up_eqn by lia.
    replace (Z.log2 (Z.pred v)) with (Z.log2 w) by (f_equal; lia).
    replace (2 ^ (Z.log2 w + 1) + -1 + 1) with (2 ^ (Z.log2 w + 1)) by lia.
    replace (Z.succ (Z.log2 w)) with (Z.log2 w + 1) by lia.
    pose proof (Z.log2_nonneg w) as Hn.
    case_bool_decide as Hb.
    + assert (Z.log2 w < 31) by (apply Z.log2_lt_pow2; lia).
      apply u32_small. split; [lia|]. apply Z.pow_lt_mono_r; lia.
    + assert (31 <= Z.log2 w) by (apply Z.log2_le_pow2; lia).
      assert (Z.log2 w < 32) by (apply Z.log2_lt_pow2; lia).
      by replace (Z.log2 w) with 31 by lia.
  - done.
  - pose proof (smeared_start w) as H.
    do 5 (apply smeared_step in H; [|lia]). exact H.
  - repeat apply or_shift_nonneg. lia.
Qed.

Lemma is_power_of_2_val size :
  0 < size < 2 ^ 32 -> is_power_of_2 size = bool_decide (size = 2 ^ Z.log2 size).
Proof.
  intros Hs. unfold is_power_of_2. rewrite u32_small by lia.
  pose proof (Z.log2_nonneg size) as Hn. pose proof (Z.log2_spec size) as Hl.
  case_bool_decide as Hp.
  - apply Z.eqb_eq. rewrite Hp at 2. replace (2 ^ Z.log2 size - 1) with (Z.ones (Z.log2 size))
      by (rewrite Z.ones_equiv; lia).
    rewrite Z.land_ones by lia. rewrite Hp at 1. by apply Z_mod_same_full.
  - apply Z.eqb_neq. intros H.
    assert (Hb : Z.testbit (Z.land size (size - 1)) (Z.log2 size) = true).
    { rewrite Z.land_spec, Z.bit_log2 by lia. simpl.
      replace (Z.log2 size) with (Z.log2 (size - 1)) by (apply Z.log2_unique; lia).
      apply Z.bit_log2. lia. }
    by rewrite H, Z.testbit_0_l in Hb.
Qed.

(** ** Ring arithmetic *)

Section Ring.
Context (f : __kfifo) (k : Z) (Hwf : wf_log f k).

Lemma wf_k_pos : 2 <= 2 ^ k <= 2 ^ 31.
Proof.
  destruct Hwf as [Hk _]. split; [|apply Z.pow_le_mono_r; lia].
  change 2 with (2 ^ 1) at 1. apply Z.pow_le_mono_r; lia.
Qed.

Lemma ring_bytes_val : ring_bytes f = 2 ^ k * kf_esize f.
Proof. destruct Hwf as (_ & Hm & _). unfold ring_bytes. rewrite Hm. lia. Qed.

Lemma ring_bytes_range : 2 <= ring_bytes f < 2 ^ 32.
Proof.
  rewrite ring_bytes_val. pose proof wf_k_pos.
  destruct Hwf as (_ & _ & He & Hb & _). nia.
Qed.

Lemma kfifo_cap_val : kfifo_cap f = 2 ^ k.
Proof.
  pose proof wf_k_pos. destruct Hwf as (_ & Hm & _).
  unfold kfifo_cap. rewrite Hm, u32_small; lia.
Qed.

Lemma kfifo_len_range : 0 <= kfifo_len f <= 2 ^ k.
Proof.
  pose proof (u32_range (kf_in f - kf_out f)). destruct Hwf as (_&_&_&_&_&_&Hl).
  unfold kfifo_len in *. lia.
Qed.

Lemma kfifo_unused_val : kfifo_unused f = 2 ^ k - kfifo_len f.
Proof.
  pose proof kfifo_len_range. pose proof wf_k_pos.
  change (kfifo_unused f) with (u32 (kfifo_cap f - kfifo_len f)).
  rewrite kfifo_cap_val, u32_small; lia.
Qed.

(** The write counter is the read counter plus the length, modulo 2^32. *)
Lemma kf_in_val : kf_in f = u32 (kf_out f + kfifo_len f).
Proof.
  destruct Hwf as (_&_&_&_&Hi&_). unfold kfifo_len, u32.
  rewrite Z.add_mod_idemp_r by lia.
  replace (kf_out f + (kf_in f - kf_out f)) with (kf_in f) by lia.
  by rewrite Z.mod_small.
Qed.

Lemma land_mask o : Z.land o (kf_mask f) = o mod 2 ^ k.
Proof.
  destruct Hwf as (Hk & Hm & _). rewrite Hm.
  replace (2 ^ k - 1) with (Z.ones k) by (rewrite Z.ones_equiv; lia).
  apply Z.land_ones. lia.
Qed.

(** Counter arithmetic modulo 2^32 does not change ring addresses. *)
Lemma ring_addr_shift o n i :
  ring_addr f (u32 (o + n)) i = ring_addr f o (n * kf_esize f + i).
Proof.
  unfold ring_addr. rewrite ring_bytes_val. f_equal.
  destruct Hwf as ((Hk1 & Hk2) & _).
  pose proof (Z.pow_pos_nonneg 2 k) as Hp. pose proof (Z.pow_pos_nonneg 2 (32 - k)).
  unfold u32. replace (2 ^ 32) with (2 ^ k * 2 ^ (32 - k))
    by (rewrite <- Z.pow_add_r by lia; f_equal; lia).
  pose proof (Z.div_mod (o + n) (2 ^ k * 2 ^ (32 - k))) as Hd.
  set (r := (o + n) mod _) in *. set (q := (o + n) / _) in *.
  replace (o * kf_esize f + (n * kf_esize f + i))
    with (r * kf_esize f + i + (2 ^ (32 - k) * q) * (2 ^ k * kf_esize f)) by nia.
  by rewrite Z_mod_plus_full.
Qed.

Lemma ring_addr_range o i : kf_data f <= ring_addr f o i < kf_data f + ring_bytes f.
Proof.
  pose proof ring_bytes_range. unfold ring_addr.
  pose proof (Z.mod_pos_bound (o * kf_esize f + i) (ring_bytes f)). lia.
Qed.

Lemma ring_addr_inj o i j :
  0 <= i < ring_bytes f -> 0 <= j < ring_bytes f ->
  ring_addr f o i = ring_addr f o j -> i = j.
Proof.
  intros Hi Hj H. unfold ring_addr in H. apply Z.add_reg_l in H.
  pose proof ring_bytes_range as Hr.
  assert (Hd : (i - j) mod ring_bytes f = 0).
  { replace (i - j) with ((o * kf_esize f + i) - (o * kf_esize f + j)) by lia.
    rewrite Zminus_mod, H, Z.sub_diag. apply Z.mod_0_l. lia. }
  apply Z.mod_divide in Hd as [c Hc]; [|lia].
  assert (Hlt : - ring_bytes f < c * ring_bytes f < ring_bytes f) by lia.
  assert (c = 0) by nia. subst c. lia.
Qed.

(** The start offset both copy loops compute. *)
Definition ring_start (o : Z) : Z := (o * kf_esize f) mod ring_bytes f.

Lemma kfifo_scale_val len off :
  0 <= len * kf_esize f < 2 ^ 32 ->
  kfifo_scale f len off = (ring_start off, ring_bytes f, len * kf_esize f).
Proof.
  intros Hl. pose proof ring_bytes_range as Hr. pose proof kfifo_cap_val as Hc.
  unfold kfifo_cap in Hc. unfold kfifo_scale, ring_start. rewrite Hc, land_mask.
  rewrite ring_bytes_val in *. pose proof wf_k_pos.
  destruct Hwf as (_&_&He&_).
  assert (Hm : (off * kf_esize f) mod (2 ^ k * kf_esize f) = off mod 2 ^ k * kf_esize f)
    by (apply Z.mul_mod_distr_r; lia).
  pose proof (Z.mod_pos_bound (off * kf_esize f) (2 ^ k * kf_esize f)) as Hb.
  destruct (Z.eqb_spec (kf_esize f) 1) as [E|E]; simpl.
  - rewrite Hm, E. repeat f_equal; lia.
  - rewrite <- Hm, (u32_small ((_ * _) mod _)), (u32_small (_ * _)), (u32_small (_ * _))
      by lia. done.
Qed.

Lemma ring_addr_low o i :
  0 <= i < ring_bytes f - ring_start o -> ring_addr f o i = kf_data f + ring_start o + i.
Proof.
  intros Hi. pose proof ring_bytes_range. unfold ring_addr, ring_start in *.
  pose proof (Z.mod_pos_bound (o * kf_esize f) (ring_bytes f)).
  rewrite <- Z.add_mod_idemp_l, Z.mod_small by lia. lia.
Qed.

Lemma ring_addr_high o i :
  ring_bytes f - ring_start o <= i < ring_bytes f ->
  ring_addr f o i = kf_data f + (i - (ring_bytes f - ring_start o)).
Proof.
  intros Hi. pose proof ring_bytes_range. unfold ring_addr, ring_start in *.
  pose proof (Z.mod_pos_bound (o * kf_esize f) (ring_bytes f)) as Hb.
  rewrite <- Z.add_mod_idemp_l by lia. set (p := (o * kf_esize f) mod ring_bytes f) in *.
  replace (p + i) with (p + i - ring_bytes f + 1 * ring_bytes f) by lia.
  rewrite Z_mod_plus_full, Z.mod_small by lia. lia.
Qed.

Lemma ring_start_range o : 0 <= ring_start o < ring_bytes f.
Proof. pose proof ring_bytes_range. apply Z.mod_pos_bound. lia. Qed.

(** A stretch of the ring is a part up to the end of the buffer and the rest
    at its start: the two [memcpy] calls of the code. *)
Lemma ring_holds_split m o bs :
  Z.of_nat (length bs) <= ring_bytes f ->
  let l := Z.to_nat (Z.min (Z.of_nat (length bs)) (ring_bytes f - ring_start o)) in
  ring_holds f m o bs <->
  holds m (kf_data f + ring_start o) (take l bs) /\ holds m (kf_data f) (drop l bs).
Proof.
  intros Hl l. pose proof (ring_start_range o) as Hsr. split.
  - intros H. split; intros i b Hi.
    + apply lookup_take_Some in Hi as [Hi Hlt].
      rewrite <- (H _ _ Hi), ring_addr_low by (unfold l in *; lia). done.
    + rewrite lookup_drop in Hi. pose proof (lookup_lt_Some _ _ _ Hi).
      rewrite <- (H _ _ Hi), ring_addr_high by (unfold l in *; lia). f_equal.
      unfold l in *. lia.
  - intros [H1 H2] i b Hi. pose proof (lookup_lt_Some _ _ _ Hi).
    destruct (decide (i < l)%nat) as [Hc|Hc].
    + rewrite ring_addr_low by (unfold l in *; lia). apply H1.
      by apply lookup_take_Some.
    + rewrite ring_addr_high by (unfold l in *; lia).
      rewrite <- (H2 (i - l)%nat b); [f_equal; unfold l in *; lia|].
      rewrite lookup_drop, <- Hi. f_equal. lia.
Qed.
End Ring.

(** ** The copy loops *)

Lemma kfifo_copy_in_spec f k m src len off bs :
  wf_log f k -> mapped m (kf_data f) (ring_bytes f) ->
  holds m src bs -> Z.of_nat (length bs) = len * kf_esize f ->
  len * kf_esize f <= ring_bytes f -> outside f src (len * kf_esize f) ->
  exists m', kfifo_copy_in f m src len off = Some m' /\ ring_holds f m' off bs /\
    changes_only (fun a => exists i, 0 <= i < len * kf_esize f /\ a = ring_addr f off i) m m' /\
    keeps_mapped m m'.
Proof.
  intros Hwf Hm Hs Hl Hle Hout. unfold outside in Hout.
  pose proof (ring_bytes_range f k Hwf) as HR. pose proof (ring_start_range f k Hwf off) as HS.
  unfold kfifo_copy_in. rewrite (kfifo_scale_val f k Hwf) by lia.
  set (n := len * kf_esize f) in *. set (R := ring_bytes f) in *. set (p := ring_start f off) in *.
  rewrite (u32_small (R - p)) by lia. set (l := Z.min n (R - p)).
  rewrite (u32_small (n - l)) by lia.
  rewrite <- (take_drop (Z.to_nat l) bs) in Hs. apply holds_app in Hs as [Hs1 Hs2].
  rewrite length_take_le in Hs2 by lia.
  destruct (memcpy_spec m (kf_data f + p) src l (take (Z.to_nat l) bs))
    as (m1 & -> & Hh1 & Hc1 & Hk1); [done| | |lia|].
  { rewrite length_take. lia. }
  { intros a Ha. apply Hm. lia. }
  simpl. replace (src + Z.of_nat (Z.to_nat l)) with (src + l) in Hs2 by lia.
  assert (Hd : Z.of_nat (length (drop (Z.to_nat l) bs)) = n - l) by (rewrite length_drop; lia).
  destruct (memcpy_spec m1 (kf_data f) (src + l) (n - l) (drop (Z.to_nat l) bs))
    as (m2 & -> & Hh2 & Hc2 & Hk2); [|done| |lia|].
  { eapply holds_frame; [exact Hc1| |done]. intros a Ha. simpl. lia. }
  { apply Hk1. intros a Ha. apply Hm. lia. }
  exists m2. split; [done|]. split; [|split; [|by intros q x H; apply Hk2, Hk1]].
  - apply (ring_holds_split f k Hwf); [lia|]. rewrite Hl. split; [|done].
    eapply holds_frame; [exact Hc2| |exact Hh1].
    intros a Ha. rewrite length_take in Ha. simpl. lia.
  - eapply changes_only_trans; (eapply changes_only_weaken; [eassumption|]); intros a Ha; simpl in Ha.
    + exists (a - (kf_data f + p)). split; [lia|].
      rewrite (ring_addr_low f k Hwf) by (fold R p; lia). fold p. lia.
    + exists (a - kf_data f + (R - p)). split; [lia|].
      rewrite (ring_addr_high f k Hwf) by (fold R p; lia). fold R p. lia.
Qed.

Lemma kfifo_copy_out_spec f k m dst len off bs :
  wf_log f k -> ring_holds f m off bs -> Z.of_nat (length bs) = len * kf_esize f ->
  len * kf_esize f <= ring_bytes f -> mapped m dst (len * kf_esize f) ->
  outside f dst (len * kf_esize f) ->
  exists m', kfifo_copy_out f m dst len off = Some m' /\ holds m' dst bs /\
    changes_only (fun a => dst <= a < dst + len * kf_esize f) m m' /\ keeps_mapped m m'.
Proof.
  intros Hwf Hr Hl Hle Hm Hout. unfold outside in Hout.
  pose proof (ring_bytes_range f k Hwf) as HR. pose proof (ring_start_range f k Hwf off) as HS.
  unfold kfifo_copy_out. rewrite (kfifo_scale_val f k Hwf) by lia.
  apply (ring_holds_split f k Hwf) in Hr; [|lia]. rewrite Hl in Hr.
  set (n := len * kf_esize f) in *. set (R := ring_bytes f) in *. set (p := ring_start f off) in *.
  rewrite (u32_small (R - p)) by lia. set (l := Z.min n (R - p)) in *.
  rewrite (u32_small (n - l)) by lia. destruct Hr as [Hr1 Hr2].
  destruct (memcpy_spec m dst (kf_data f + p) l (take (Z.to_nat l) bs))
    as (m1 & -> & Hh1 & Hc1 & Hk1); [done| | |lia|].
  { rewrite length_take. lia. }
  { intros a Ha. apply Hm. lia. }
  simpl. assert (Hd : Z.of_nat (length (drop (Z.to_nat l) bs)) = n - l) by (rewrite length_drop; lia).
  destruct (memcpy_spec m1 (dst + l) (kf_data f) (n - l) (drop (Z.to_nat l) bs))
    as (m2 & -> & Hh2 & Hc2 & Hk2); [|done| |lia|].
  { eapply holds_frame; [exact Hc1| |done]. intros a Ha. simpl. lia. }
  { apply Hk1. intros a Ha. apply Hm. lia. }
  exists m2. split; [done|]. split; [|split; [|by intros q x H; apply Hk2, Hk1]].
  - rewrite <- (take_drop (Z.to_nat l) bs). apply holds_app. split.
    + eapply holds_frame; [exact Hc2| |exact Hh1]. intros a Ha. rewrite length_take in Ha. simpl. lia.
    + rewrite length_take. by replace (Z.of_nat (_ `min` length bs)) with l by lia.
  - eapply changes_only_trans; (eapply changes_only_weaken; [eassumption|]); simpl; lia.
Qed.

(** ** The operations against the abstract queue *)

Lemma rep_elems f m q : rep f m q -> Queue.elems (kf_esize f) q = kfifo_len f.
Proof.
  intros ((k & Hwf) & _ & Hl & _). unfold Queue.elems. rewrite Hl.
  apply Z.div_mul. destruct Hwf as (_&_&?&_). lia.
Qed.

(** The part of a ring's state the operations never change. *)
Definition same_ring (f f' : __kfifo) : Prop :=
  kf_mask f' = kf_mask f /\ kf_esize f' = kf_esize f /\ kf_data f' = kf_data f.

Lemma rep_frame f m m' q :
  rep f m q -> keeps_mapped m m' ->
  changes_only (fun a => ~ kf_data f <= a < kf_data f + ring_bytes f) m m' -> rep f m' q.
Proof.
  intros ((k & Hwf) & Hm & Hl & Hr) Hk Hc. split; [by exists k|].
  split; [by apply Hk|]. split; [done|]. intros i b Hi. rewrite Hc; [by apply Hr|].
  pose proof (ring_addr_range f k Hwf (kf_out f) (Z.of_nat i)). lia.
Qed.

Lemma wf_log_bump_in f k n :
  wf_log f k -> 0 <= n <= 2 ^ k - kfifo_len f ->
  wf_log (set_in f (u32 (kf_in f + n))) k /\
  kfifo_len (set_in f (u32 (kf_in f + n))) = kfifo_len f + n.
Proof.
  intros Hwf Hn. pose proof (kfifo_len_range f k Hwf). pose proof (wf_k_pos f k Hwf).
  assert (Hlen : kfifo_len (set_in f (u32 (kf_in f + n))) = kfifo_len f + n).
  { unfold kfifo_len at 1; simpl. rewrite (kf_in_val f k Hwf), u32_add_l, <- Z.add_assoc.
    apply u32_sub_cancel. lia. }
  split; [|done]. destruct Hwf as (?&?&?&?&?&?&?).
  pose proof (u32_range (kf_in f + n)). unfold wf_log; rewrite Hlen; simpl.
  repeat split; try done; lia.
Qed.

Lemma wf_log_bump_out f k n :
  wf_log f k -> 0 <= n <= kfifo_len f ->
  wf_log (set_out f (u32 (kf_out f + n))) k /\
  kfifo_len (set_out f (u32 (kf_out f + n))) = kfifo_len f - n.
Proof.
  intros Hwf Hn. pose proof (kfifo_len_range f k Hwf). pose proof (wf_k_pos f k Hwf).
  assert (Hlen : kfifo_len (set_out f (u32 (kf_out f + n))) = kfifo_len f - n).
  { unfold kfifo_len at 1; simpl. rewrite (kf_in_val f k Hwf).
    unfold u32. rewrite <- Zminus_mod.
    replace (kf_out f + kfifo_len f - (kf_out f + n)) with (kfifo_len f - n) by lia.
    apply Z.mod_small. lia. }
  split; [|done]. destruct Hwf as (?&?&?&?&?&?&?).
  pose proof (u32_range (kf_out f + n)). unfold wf_log; rewrite Hlen; simpl.
  repeat split; try done; lia.
Qed.

Lemma kfifo_in_rep f m q buf bs len :
  rep f m q -> 0 <= len -> holds m buf bs -> Z.of_nat (length bs) = len * kf_esize f ->
  outside f buf (len * kf_esize f) ->
  let '(q', n) := Queue.enqueue (kfifo_cap f) (kf_esize f) q bs len in
  exists f' m', __kfifo_in f m buf len = Some (f', m', n) /\ rep f' m' q' /\ same_ring f f' /\
    changes_only (fun a => kf_data f <= a < kf_data f + ring_bytes f) m m' /\ keeps_mapped m m'.
Proof.
  intros Hrep Hlen Hb Hbl Hout. unfold Queue.enqueue. rewrite (rep_elems _ _ _ Hrep).
  destruct Hrep as ((k & Hwf) & Hm & Hl & Hr). rewrite (kfifo_cap_val f k Hwf).
  pose proof (kfifo_len_range f k Hwf) as Hlr. pose proof (ring_bytes_val f k Hwf) as HR.
  assert (He : 0 < kf_esize f) by (destruct Hwf as (_&_&?&_); done).
  set (n := Z.min len (2 ^ k - kfifo_len f)). set (e := kf_esize f) in *.
  assert (Hn : n * e <= len * e /\ 0 <= n * e) by (subst n; nia).
  unfold __kfifo_in. rewrite (kfifo_unused_val f k Hwf).
  rewrite clamp_min. fold n.
  destruct (kfifo_copy_in_spec f k m buf n (kf_in f) (take (Z.to_nat (n * e)) bs))
    as (m' & -> & Hr' & Hc & Hk).
  { done. } { done. }
  { rewrite <- (take_drop (Z.to_nat (n * e)) bs) in Hb. by apply holds_app in Hb as [? _]. }
  { rewrite length_take. fold e. lia. }
  { fold e. nia. }
  { unfold outside in *. fold e. lia. }
  destruct (wf_log_bump_in f k n) as [Hwf' Hlen']; [done|subst n; lia|].
  eexists _, m'. split; [done|]. split; [|split; [done|split; [|done]]].
  - split; [by exists k|]. split; [by apply Hk|]. split.
    + rewrite Hlen', length_app, length_take. simpl. fold e. lia.
    + simpl. intros i b Hi. change (ring_addr (set_in f _)) with (ring_addr f).
      apply lookup_app_Some in Hi as [Hi|[Hge Hi]].
      * rewrite Hc; [by apply Hr|]. intros (j & Hj & Ha).
        pose proof (lookup_lt_Some _ _ _ Hi).
        rewrite (kf_in_val f k Hwf), (ring_addr_shift f k Hwf) in Ha. fold e in Hj, Ha.
        apply (ring_addr_inj f k Hwf) in Ha; nia.
      * specialize (Hr' _ _ Hi).
        rewrite (kf_in_val f k Hwf), (ring_addr_shift f k Hwf) in Hr'.
        rewrite <- Hr'. f_equal. f_equal. fold e. lia.
  - eapply changes_only_weaken; [exact Hc|]. intros a (j & Hj & ->).
    apply (ring_addr_range f k Hwf).
Qed.

Lemma kfifo_peek_rep f m q buf len :
  rep f m q -> 0 <= len -> mapped m buf (len * kf_esize f) -> outside f buf (len * kf_esize f) ->
  let '(_, bs, n) := Queue.dequeue (kf_esize f) q len in
  exists m', __kfifo_out_peek f m buf len = Some (m', n) /\ rep f m' q /\ holds m' buf bs /\
    changes_only (fun a => buf <= a < buf + n * kf_esize f) m m' /\ keeps_mapped m m'.
Proof.
  intros Hrep Hlen Hb Hout. unfold Queue.dequeue. rewrite (rep_elems _ _ _ Hrep).
  pose proof Hrep as ((k & Hwf) & Hm & Hl & Hr).
  pose proof (kfifo_len_range f k Hwf) as Hlr. pose proof (ring_bytes_val f k Hwf) as HR.
  assert (He : 0 < kf_esize f) by (destruct Hwf as (_&_&?&_); done).
  set (n := Z.min len (kfifo_len f)). set (e := kf_esize f) in *.
  assert (Hn : n * e <= len * e /\ 0 <= n * e /\ n * e <= Z.of_nat (length q)) by (subst n; nia).
  unfold __kfifo_out_peek. rewrite clamp_min. fold (kfifo_len f). fold n.
  destruct (kfifo_copy_out_spec f k m buf n (kf_out f) (take (Z.to_nat (n * e)) q))
    as (m' & -> & Hh & Hc & Hk).
  { done. }
  { intros i b Hi. apply lookup_take_Some in Hi as [Hi _]. by apply Hr. }
  { rewrite length_take. fold e. lia. }
  { fold e. nia. }
  { intros a Ha. fold e in Ha. apply Hb. lia. }
  { unfold outside in *. fold e. lia. }
  exists m'. split; [done|]. split; [|done].
  eapply rep_frame; [done..|]. eapply changes_only_weaken; [exact Hc|].
  fold e. unfold outside in Hout. simpl. lia.
Qed.

Lemma rep_drop f m q n :
  rep f m q -> 0 <= n <= kfifo_len f ->
  rep (set_out f (u32 (kf_out f + n))) m (drop (Z.to_nat (n * kf_esize f)) q).
Proof.
  intros ((k & Hwf) & Hm & Hl & Hr) Hn.
  assert (He : 0 < kf_esize f) by (destruct Hwf as (_&_&?&_); done).
  destruct (wf_log_bump_out f k n) as [Hwf' Hlen']; [done..|].
  split; [by exists k|]. split; [done|]. split.
  - rewrite Hlen', length_drop. simpl. nia.
  - simpl. intros i b Hi. change (ring_addr (set_out f _)) with (ring_addr f).
    rewrite (ring_addr_shift f k Hwf). rewrite lookup_drop in Hi.
    rewrite <- (Hr _ _ Hi). f_equal. f_equal. nia.
Qed.

Lemma kfifo_out_rep f m q buf len :
  rep f m q -> 0 <= len -> mapped m buf (len * kf_esize f) -> outside f buf (len * kf_esize f) ->
  let '(q', bs, n) := Queue.dequeue (kf_esize f) q len in
  exists f' m', __kfifo_out f m buf len = Some (f', m', n) /\ rep f' m' q' /\ holds m' buf bs /\
    same_ring f f' /\
    changes_only (fun a => buf <= a < buf + n * kf_esize f) m m' /\ keeps_mapped m m'.
Proof.
  intros Hrep Hlen Hb Hout. pose proof (kfifo_peek_rep f m q buf len Hrep Hlen Hb Hout) as Hp.
  pose proof Hrep as ((k & Hwf) & _). pose proof (kfifo_len_range f k Hwf).
  unfold Queue.dequeue in *. rewrite (rep_elems _ _ _ Hrep) in *.
  destruct Hp as (m' & Hp & Hrep' & Hh & Hc). unfold __kfifo_out. rewrite Hp. simpl.
  eexists _, m'. split; [done|]. split; [|done]. apply rep_drop; [done|]. lia.
Qed.

(** ** Runs of operations *)

(** What a client of the ring does: write its buffer and enqueue it, dequeue
    into the buffer and read it, or peek into the buffer and read it. *)
Inductive fifo_op :=
  | Op_in (bs : list Z) (len : Z)
  | Op_out (len : Z)
  | Op_peek (len : Z).

Definition run_op (buf : Z) (s : __kfifo * mem) (o : fifo_op)
    : option (__kfifo * mem * (Z * list Z)) :=
  let '(f, m) := s in
  match o with
  | Op_in bs len =>
      m ← store_bytes m buf bs; '(f, m, n) ← __kfifo_in f m buf len; Some (f, m, (n, []))
  | Op_out len =>
      '(f', m, n) ← __kfifo_out f m buf len;
      bs ← load_bytes m buf (n * kf_esize f); Some (f', m, (n, bs))
  | Op_peek len =>
      '(m, n) ← __kfifo_out_peek f m buf len;
      bs ← load_bytes m buf (n * kf_esize f); Some (f, m, (n, bs))
  end.

Fixpoint run_ops (buf : Z) (s : __kfifo * mem) (os : list fifo_op)
    : option (__kfifo * mem * list (Z * list Z)) :=
  match os with
  | [] => Some (s, [])
  | o :: os =>
      '(f, m, r) ← run_op buf s o; '(s', rs) ← run_ops buf (f, m) os; Some (s', r :: rs)
  end.

(** The same operations on the abstract queue. *)
Definition queue_op (cap es : Z) (q : list Z) (o : fifo_op) : list Z * (Z * list Z) :=
  match o with
  | Op_in bs len => let '(q', n) := Queue.enqueue cap es q bs len in (q', (n, []))
  | Op_out len => let '(q', bs, n) := Queue.dequeue es q len in (q', (n, bs))
  | Op_peek len => let '(_, bs, n) := Queue.dequeue es q len in (q, (n, bs))
  end.

Fixpoint queue_ops (cap es : Z) (q : list Z) (os : list fifo_op) : list Z * list (Z * list Z) :=
  match os with
  | [] => (q, [])
  | o :: os =>
      let '(q, r) := queue_op cap es q o in
      let '(q, rs) := queue_ops cap es q os in (q, r :: rs)
  end.

(** The client's buffer of [N] bytes is large enough for the operation. *)
Definition op_fits (es N : Z) (o : fifo_op) : Prop :=
  match o with
  | Op_in bs len => 0 <= len /\ Z.of_nat (length bs) = len * es /\ len * es <= N
  | Op_out len | Op_peek len => 0 <= len /\ len * es <= N
  end.

Lemma dequeue_bytes_length f m q len :
  rep f m q -> 0 <= len ->
  Z.of_nat (length (Queue.dequeue (kf_esize f) q len).1.2)
    = (Queue.dequeue (kf_esize f) q len).2 * kf_esize f.
Proof.
  intros Hrep Hlen. unfold Queue.dequeue. rewrite (rep_elems _ _ _ Hrep). simpl.
  destruct Hrep as ((k & Hwf) & _ & Hl & _). pose proof (kfifo_len_range f k Hwf).
  assert (He : 0 < kf_esize f) by (destruct Hwf as (_&_&?&_); done).
  rewrite length_take. nia.
Qed.

Lemma run_op_refines buf N f m q o :
  rep f m q -> mapped m buf N -> outside f buf N -> op_fits (kf_esize f) N o ->
  let '(q', r) := queue_op (kfifo_cap f) (kf_esize f) q o in
  exists f' m', run_op buf (f, m) o = Some (f', m', r) /\ rep f' m' q' /\
    same_ring f f' /\ keeps_mapped m m'.
Proof.
  intros Hrep Hb Hout Hfit.
  assert (Hsub : forall n, 0 <= n -> n * kf_esize f <= N ->
    mapped m buf (n * kf_esize f) /\ outside f buf (n * kf_esize f)).
  { intros n Hn Hle. split; [|unfold outside in *; lia]. intros a Ha. apply Hb. lia. }
  destruct o as [bs len|len|len]; unfold queue_op, run_op.
  - destruct Hfit as (Hlen & Hl & Hle). destruct (Hsub len Hlen Hle) as [Hb' Hout'].
    destruct (store_bytes_spec bs m buf) as (m1 & -> & Hh & Hc & Hk); [by rewrite Hl|].
    cbn [mbind option_bind].
    assert (Hrep1 : rep f m1 q).
    { eapply rep_frame; [done..|]. eapply changes_only_weaken; [exact Hc|].
      unfold outside in Hout'. simpl. lia. }
    pose proof (kfifo_in_rep f m1 q buf bs len Hrep1 Hlen Hh Hl Hout') as Hin.
    destruct (Queue.enqueue _ _ _ _ _) as [q' n].
    destruct Hin as (f' & m' & -> & Hrep' & Hs & _ & Hk'). simpl.
    exists f', m'. do 3 (split; [done|]). intros p x Hx. by apply Hk', Hk.
  - destruct Hfit as [Hlen Hle]. destruct (Hsub len Hlen Hle) as [Hb' Hout'].
    pose proof (kfifo_out_rep f m q buf len Hrep Hlen Hb' Hout') as Ho.
    pose proof (dequeue_bytes_length f m q len Hrep Hlen) as Hl.
    destruct (Queue.dequeue _ _ _) as [[q' bs] n].
    destruct Ho as (f' & m' & -> & Hrep' & Hh & Hs & _ & Hk). simpl in *.
    rewrite (load_holds _ _ _ _ Hh Hl). simpl. by exists f', m'.
  - destruct Hfit as [Hlen Hle]. destruct (Hsub len Hlen Hle) as [Hb' Hout'].
    pose proof (kfifo_peek_rep f m q buf len Hrep Hlen Hb' Hout') as Ho.
    pose proof (dequeue_bytes_length f m q len Hrep Hlen) as Hl.
    destruct (Queue.dequeue _ _ _) as [[q' bs] n].
    destruct Ho as (m' & -> & Hrep' & Hh & _ & Hk). simpl in *.
    rewrite (load_holds _ _ _ _ Hh Hl). simpl. by exists f, m'.
Qed.

Lemma run_ops_rep buf N os : forall f m q,
  rep f m q -> mapped m buf N -> outside f buf N -> Forall (op_fits (kf_esize f) N) os ->
  exists f' m', run_ops buf (f, m) os
      = Some (f', m', (queue_ops (kfifo_cap f) (kf_esize f) q os).2) /\
    rep f' m' (queue_ops (kfifo_cap f) (kf_esize f) q os).1.
Proof.
  induction os as [|o os IH]; intros f m q Hrep Hb Hout Hfit.
  { by exists f, m. }
  apply Forall_cons in Hfit as [Ho Hos].
  pose proof (run_op_refines buf N f m q o Hrep Hb Hout Ho) as H.
  cbn [queue_ops run_ops]. destruct (queue_op _ _ _ _) as [q' r].
  destruct H as (f' & m' & -> & Hrep' & (Hm & He & Hd) & Hk). cbn [mbind option_bind].
  destruct (IH f' m' q') as (f2 & m2 & Hrun & Hrep2).
  { done. } { by apply Hk. }
  { unfold outside, ring_bytes in *. by rewrite Hm, He, Hd. } { by rewrite He. }
  unfold kfifo_cap in *. rewrite Hm, He in Hrun, Hrep2.
  rewrite Hrun. cbn [mbind option_bind].
  destruct (queue_ops _ _ _ _) as [q2 rs]. by exists f2, m2.
Qed.

(** A successful initialisation, in closed form. *)
Lemma __kfifo_init_val buffer size esize f r :
  0 <= size < 2 ^ 32 -> 0 < esize < 2 ^ 32 ->
  __kfifo_init buffer size esize = Some (f, r) ->
  let n := size / esize in
  if bool_decide (2 <= n <= 2 ^ 31) then
    r = 0 /\ f = mk_kfifo 0 0 (2 ^ Z.log2_up n - 1) esize buffer /\ 1 <= Z.log2_up n <= 31
  else r = -1.
Proof.
  intros Hs He Hi n. assert (Hn : 0 <= n <= size).
  { split; [apply Z.div_pos; lia|]. apply Z.div_le_upper_bound; nia. }
  unfold __kfifo_init in Hi. destruct (Z.eqb_spec esize 0); [lia|].
  fold n in Hi. rewrite !u32_small in Hi by lia.
  assert (Hr : (if negb (is_power_of_2 n) then roundup_pow_of_two n else n)
      = if bool_decide (1 <= n <= 2 ^ 31) then 2 ^ Z.log2_up n else 0).
  { rewrite roundup_pow_of_two_val by lia. destruct (decide (n = 0)) as [->|Hn0]; [done|].
    rewrite is_power_of_2_val by lia. case_bool_decide as Hp; [|done]. simpl.
    rewrite bool_decide_eq_true_2.
    - rewrite Hp at 2. rewrite Z.log2_up_pow2 by apply Z.log2_nonneg. done.
    - split; [lia|]. rewrite Hp. apply Z.pow_le_mono_r; [lia|].
      assert (Z.log2 n < 32) by (apply Z.log2_lt_pow2; lia). lia. }
  rewrite Hr in Hi. pose proof (Z.log2_up_nonneg n).
  destruct (decide (n <= 1)) as [H1|H1].
  - rewrite bool_decide_eq_false_2 by lia. assert (n = 0 \/ n = 1) as [E|E] by lia;
      rewrite E in Hi; vm_compute in Hi; by simplify_eq.
  - destruct (decide (n <= 2 ^ 31)).
    + rewrite bool_decide_eq_true_2 in Hi by lia. rewrite bool_decide_eq_true_2 by lia.
      assert (Hl : 1 <= Z.log2_up n <= 31).
      { split; [pose proof (Z.log2_up_pos n); lia|apply Z.log2_up_le_pow2; lia]. }
      assert (2 ^ 1 <= 2 ^ Z.log2_up n <= 2 ^ 31) by (split; apply Z.pow_le_mono_r; lia).
      destruct (Z.ltb_spec (2 ^ Z.log2_up n) 2); [lia|].
      rewrite u32_small in Hi by lia. by simplify_eq.
    + rewrite bool_decide_eq_false_2 in Hi by lia. rewrite bool_decide_eq_false_2 by lia.
      vm_compute in Hi. by simplify_eq.
Qed.

(** The ring of a successful initialisation is empty and well formed, when its
    size in bytes fits in 32 bits. *)
Lemma __kfifo_init_wf buffer size esize f :
  0 <= size < 2 ^ 32 -> 0 < esize < 2 ^ 32 ->
  __kfifo_init buffer size esize = Some (f, 0) -> ring_bytes f < 2 ^ 32 ->
  wf f /\ kfifo_len f = 0 /\ kf_data f = buffer /\ kf_esize f = esize.
Proof.
  intros Hs He Hi Hb. pose proof (__kfifo_init_val _ _ _ _ _ Hs He Hi) as H.
  simpl in H. case_bool_decide as Hn; [|lia]. destruct H as (_ & -> & Hk).
  unfold ring_bytes in Hb. simpl in *.
  assert (Hl : forall m b, kfifo_len (mk_kfifo 0 0 m esize b) = 0) by reflexivity.
  assert (0 <= 2 ^ Z.log2_up (size / esize)) by (apply Z.pow_nonneg; lia).
  split; [exists (Z.log2_up (size / esize))|by rewrite Hl].
  unfold wf_log. rewrite Hl. simpl. repeat split; lia.
Qed.

(** ** Properties *)

(** C20: [__kfifo_in] implements the abstract enqueue: on a ring that stores
    the queue [q], it accepts as many whole elements as there is room for,
    returns that number, appends exactly their bytes, and writes no byte
    outside the ring buffer. *)
Theorem kfifo_in_enqueues f m q buf bs len :
  rep f m q -> 0 <= len -> holds m buf bs -> Z.of_nat (length bs) = len * kf_esize f ->
  outside f buf (len * kf_esize f) ->
  exists f' m', let (q', n) := Queue.enqueue (kfifo_cap f) (kf_esize f) q bs len in
    __kfifo_in f m buf len = Some (f', m', n) /\ rep f' m' q' /\ n <= len /\
    changes_only (fun a => kf_data f <= a < kf_data f + ring_bytes f) m m'.
Proof.
  intros Hr Hl Hb Hbl Ho. pose proof (kfifo_in_rep f m q buf bs len Hr Hl Hb Hbl Ho) as H.
  destruct (Queue.enqueue _ _ _ _ _) as [q' n] eqn:E.
  destruct H as (f' & m' & Hi & Hr' & _ & Hc & _). exists f', m'.
  unfold Queue.enqueue in E. simplify_eq. split_and!; try done. lia.
Qed.

(** [__kfifo_out] implements the abstract dequeue: it removes as many whole
    elements as are stored and asked for, delivers exactly their bytes in
    queue order to the caller's buffer, and changes no other byte. *)
Theorem kfifo_out_dequeues f m q buf len :
  rep f m q -> 0 <= len -> mapped m buf (len * kf_esize f) -> outside f buf (len * kf_esize f) ->
  exists f' m', let '(q', bs, n) := Queue.dequeue (kf_esize f) q len in
    __kfifo_out f m buf len = Some (f', m', n) /\ rep f' m' q' /\ holds m' buf bs /\
    q = bs ++ q' /\ changes_only (fun a => buf <= a < buf + n * kf_esize f) m m'.
Proof.
  intros Hr Hl Hb Ho. pose proof (kfifo_out_rep f m q buf len Hr Hl Hb Ho) as H.
  destruct (Queue.dequeue _ _ _) as [[q' bs] n] eqn:E.
  destruct H as (f' & m' & Hi & Hr' & Hh & _ & Hc & _). exists f', m'.
  unfold Queue.dequeue in E. simplify_eq. split_and!; try done. by rewrite take_drop.
Qed.

(** C3: refinement. Every sequence of enqueues, dequeues and peeks on a ring
    returns the counts and the bytes that the abstract queue returns, never
    runs into undefined behaviour, and ends in a ring that stores the final
    queue; the 32-bit counters may wrap around any number of times. *)
Theorem kfifo_runs_refine_queue f m q buf N os :
  rep f m q -> mapped m buf N -> outside f buf N -> Forall (op_fits (kf_esize f) N) os ->
  exists f' m', let (q', rs) := queue_ops (kfifo_cap f) (kf_esize f) q os in
    run_ops buf (f, m) os = Some (f', m', rs) /\ rep f' m' q'.
Proof.
  intros Hr Hb Ho Hf. destruct (run_ops_rep buf N os f m q Hr Hb Ho Hf) as (f' & m' & H).
  exists f', m'. by destruct (queue_ops _ _ _ _).
Qed.

(** C38: [roundup_pow_of_two] returns the least power of two that is at least
    its argument, for every argument from 1 to 2^31, and 0 for 0 and for the
    arguments above 2^31. *)
Theorem roundup_pow_of_two_least v :
  0 <= v < 2 ^ 32 ->
  if bool_decide (1 <= v <= 2 ^ 31) then
    exists j, 0 <= j <= 31 /\ roundup_pow_of_two v = 2 ^ j /\ v <= 2 ^ j /\
      forall i, 0 <= i -> v <= 2 ^ i -> 2 ^ j <= 2 ^ i
  else roundup_pow_of_two v = 0.
Proof.
  intros Hv. rewrite roundup_pow_of_two_val by done. case_bool_decide as Hb; [|done].
  exists (Z.log2_up v). pose proof (Z.log2_up_nonneg v).
  assert (Z.log2_up v <= 31) by (apply Z.log2_up_le_pow2; lia).
  split; [done|]. split; [done|]. split; [by apply Z.log2_log2_up_spec; lia|].
  intros i Hi Hle. apply Z.pow_le_mono_r; [lia|]. apply Z.log2_up_le_pow2; lia.
Qed.

(** [is_power_of_2] decides exactly whether its argument is 0 or a power
    of two. *)
Theorem is_power_of_2_spec size :
  0 <= size < 2 ^ 32 ->
  is_power_of_2 size = true <-> size = 0 \/ exists j, 0 <= j /\ size = 2 ^ j.
Proof.
  intros Hs. destruct (decide (size = 0)) as [->|H0]; [split; by auto|].
  rewrite is_power_of_2_val, bool_decide_eq_true by lia. split.
  - intros H. right. exists (Z.log2 size). split; [apply Z.log2_nonneg|done].
  - intros [?|(j & Hj & ->)]; [lia|]. by rewrite Z.log2_pow2.
Qed.

(** The ring that a successful [__kfifo_init] builds over a mapped buffer
    is empty and well formed, and it stays inside the buffer it was given if
    and only if the number of elements of the buffer is a power of two: the
    number is rounded up, so otherwise the ring reaches past the buffer. *)
Theorem kfifo_init_fits buffer size esize f m :
  0 <= size < 2 ^ 31 -> 0 < esize < 2 ^ 31 ->
  __kfifo_init buffer size esize = Some (f, 0) ->
  mapped m (kf_data f) (ring_bytes f) -> ring_bytes f < 2 ^ 32 ->
  rep f m [] /\ kf_data f = buffer /\ kf_esize f = esize /\
  (ring_bytes f <= size <-> exists j, 0 <= j /\ size / esize = 2 ^ j).
Proof.
  intros Hs He Hi Hm Hb. pose proof (__kfifo_init_wf buffer size esize f) as Hw.
  destruct Hw as (Hwf & Hl & Hd & He'); [lia|lia|done..|].
  split_and!; [|done|done|].
  { split_and!; [done|done|by rewrite Hl|]. intros i b H. done. }
  pose proof (__kfifo_init_val buffer size esize f 0) as H. simpl in H.
  specialize (H ltac:(lia) ltac:(lia) Hi). case_bool_decide as Hn; [|lia].
  destruct H as (_ & -> & Hk). unfold ring_bytes; simpl.
  set (n := size / esize) in *. replace (2 ^ Z.log2_up n - 1 + 1) with (2 ^ Z.log2_up n) by lia.
  pose proof (Z.mul_div_le size esize ltac:(lia)) as H1.
  pose proof (Z.mul_succ_div_gt size esize ltac:(lia)) as H2.
  fold n in H1, H2. pose proof (Z.log2_up_spec n ltac:(lia)) as H3. split.
  - intros Hle. exists (Z.log2_up n). split; [lia|]. nia.
  - intros (j & Hj & Heq). rewrite Heq, Z.log2_up_pow2 by done. nia.
Qed.

(** The size queries agree with the stored queue: [kfifo_len] is its number
    of elements, [kfifo_avail] and [kfifo_unused] the free room,
    [kfifo_is_empty] and [kfifo_is_full] the two extremes. *)
Theorem kfifo_queries f m q :
  rep f m q ->
  kfifo_len f = Queue.elems (kf_esize f) q /\
  kfifo_avail f = kfifo_cap f - Queue.elems (kf_esize f) q /\
  kfifo_unused f = kfifo_avail f /\
  (kfifo_is_empty f = true <-> q = []) /\
  (kfifo_is_full f = true <-> Queue.elems (kf_esize f) q = kfifo_cap f).
Proof.
  intros Hr. rewrite (rep_elems f m q Hr). destruct Hr as ((k & Hwf) & _ & Hl & _).
  pose proof (kfifo_len_range f k Hwf). pose proof (wf_k_pos f k Hwf).
  pose proof (kfifo_cap_val f k Hwf) as Hc. pose proof (kfifo_unused_val f k Hwf) as Hu.
  pose proof Hwf as (Hk & Hm & He & _ & Hi & Ho & _).
  split; [done|]. split.
  { unfold kfifo_avail. rewrite Hc, u32_small; lia. }
  split; [done|]. split.
  - unfold kfifo_is_empty. rewrite Z.eqb_eq. rewrite <- length_zero_iff_nil. split.
    + intros E. assert (kfifo_len f = 0) by (unfold kfifo_len; rewrite E, Z.sub_diag; done). nia.
    + intros E. assert (kfifo_len f = 0) as E0 by nia. rewrite (kf_in_val f k Hwf), E0, Z.add_0_r.
      by apply u32_small.
  - unfold kfifo_is_full. rewrite Hc, Hm, Z.gtb_ltb, Z.ltb_lt. lia.
Qed.

(** ** Witnesses: the theorems on a ring whose write counter has wrapped *)

(** [rep] from two loads of the ring, the stretches before and after its end. *)
Lemma rep_by_loads f k m q :
  wf_log f k -> is_Some (load_bytes m (kf_data f) (ring_bytes f)) ->
  Z.of_nat (length q) = kfifo_len f * kf_esize f ->
  let l := Z.min (Z.of_nat (length q)) (ring_bytes f - ring_start f (kf_out f)) in
  load_bytes m (kf_data f + ring_start f (kf_out f)) l = Some (take (Z.to_nat l) q) ->
  load_bytes m (kf_data f) (Z.of_nat (length q) - l) = Some (drop (Z.to_nat l) q) ->
  rep f m q.
Proof.
  intros Hwf Hm Hl l H1 H2. split_and!; [by exists k|by apply mapped_load|done|].
  apply (ring_holds_split f k Hwf).
  - rewrite Hl, (ring_bytes_val f k Hwf). pose proof (kfifo_len_range f k Hwf).
    destruct Hwf as (_&_&?&_). nia.
  - split; [by eapply load_inv|by eapply load_inv].
Qed.

Definition ring_w : __kfifo := mk_kfifo 1 4294967294 3 1 1000.
Definition mem_w : mem := mem_of 1000 [12; 0; 10; 11] ∪ mem_of 2000 [7; 8; 9; 0].

Lemma rep_w : rep ring_w mem_w [10; 11; 12].
Proof.
  apply (rep_by_loads ring_w 2); vm_compute; by eauto.
Qed.

Lemma buf_w bs : load_bytes mem_w 2000 (Z.of_nat (length bs)) = Some bs -> holds mem_w 2000 bs.
Proof. intros H. by apply load_inv in H as [_ H]. Qed.

Lemma outside_w n : outside ring_w 2000 n.
Proof. right. vm_compute. discriminate. Qed.

(** The ring has room for one of the two elements offered. *)
Lemma kfifo_in_enqueues_witness :
  exists f' m', __kfifo_in ring_w mem_w 2000 2 = Some (f', m', 1) /\ rep f' m' [10; 11; 12; 7].
Proof.
  destruct (kfifo_in_enqueues ring_w mem_w [10; 11; 12] 2000 [7; 8] 2) as (f' & m' & H).
  - exact rep_w.
  - lia.
  - by apply buf_w.
  - reflexivity.
  - apply outside_w.
  - exists f', m'. change (Queue.enqueue _ _ _ _ _) with ([10; 11; 12; 7], 1) in H.
    destruct H as (H1 & H2 & _). by split.
Defined.

Lemma kfifo_out_dequeues_witness :
  exists f' m', __kfifo_out ring_w mem_w 2000 2 = Some (f', m', 2) /\
    rep f' m' [12] /\ holds m' 2000 [10; 11].
Proof.
  destruct (kfifo_out_dequeues ring_w mem_w [10; 11; 12] 2000 2) as (f' & m' & H).
  - exact rep_w.
  - lia.
  - apply mapped_load. by eexists.
  - apply outside_w.
  - exists f', m'. change (Queue.dequeue _ _ _) with ([12], [10; 11], 2) in H.
    destruct H as (H1 & H2 & H3 & _). by split_and!.
Defined.

Lemma kfifo_runs_refine_queue_witness :
  exists f' m', run_ops 2000 (ring_w, mem_w) [Op_out 2; Op_in [1; 2; 3] 3; Op_peek 1; Op_out 4]
    = Some (f', m', [(2, [10; 11]); (3, []); (1, [12]); (4, [12; 1; 2; 3])]) /\ rep f' m' [].
Proof.
  destruct (kfifo_runs_refine_queue ring_w mem_w [10; 11; 12] 2000 4
    [Op_out 2; Op_in [1; 2; 3] 3; Op_peek 1; Op_out 4]) as (f' & m' & H).
  - exact rep_w.
  - apply mapped_load. by eexists.
  - apply outside_w.
  - repeat constructor; simpl; lia.
  - exists f', m'. exact H.
Defined.

Lemma roundup_pow_of_two_least_witness :
  exists j, 0 <= j <= 31 /\ roundup_pow_of_two 1000 = 2 ^ j /\ 1000 <= 2 ^ j /\
    forall i, 0 <= i -> 1000 <= 2 ^ i -> 2 ^ j <= 2 ^ i.
Proof. apply (roundup_pow_of_two_least 1000). lia. Defined.

Lemma is_power_of_2_spec_witness :
  is_power_of_2 4096 = true <-> 4096 = 0 \/ exists j, 0 <= j /\ 4096 = 2 ^ j.
Proof. apply (is_power_of_2_spec 4096). lia. Defined.

(** The ring of [uintr-pro/server.c] fits; one over 6 bytes does not. *)
Lemma kfifo_init_fits_witness :
  exists f, __kfifo_init 1000 6 1 = Some (f, 0) /\ ~ ring_bytes f <= 6 /\
    rep f (mem_of 1000 (replicate 8 0)) [].
Proof.
  eexists (mk_kfifo 0 0 7 1 1000). split; [reflexivity|].
  destruct (kfifo_init_fits 1000 6 1 (mk_kfifo 0 0 7 1 1000) (mem_of 1000 (replicate 8 0)))
    as (H & _).
  - lia.
  - lia.
  - reflexivity.
  - apply mapped_load. vm_compute. by eexists.
  - vm_compute. reflexivity.
  - split; [vm_compute; by intros ?|exact H].
Defined.

Lemma kfifo_queries_witness : kfifo_len ring_w = 3 /\ kfifo_is_full ring_w = false.
Proof.
  destruct (kfifo_queries ring_w mem_w [10; 11; 12]) as (H & _).
  - exact rep_w.
  - split; [exact H|reflexivity].
Defined.
