(* ===== verification/Double.v ===== *)
(** * Binary64 arithmetic

    The [double] operations of the code, as the Standard Library's specification
    of IEEE 754 rounding to nearest (53-bit significands, exponents up to 1024),
    the conversions between [double] and the integer types, and the rounding
    error of a result in the normal range. *)
From S2P Require Import Prelude.
From Stdlib Require Import Floats.SpecFloat.

Abbreviation double := spec_float.

Definition double_of_Z (z : Z) : double := binary_normalize 53 1024 z 0 false.
Definition dadd (x y : double) : double := SFadd 53 1024 x y.
Definition dmul (x y : double) : double := SFmul 53 1024 x y.
Definition ddiv (x y : double) : double := SFdiv 53 1024 x y.

(** The integer part of a finite double. *)
Definition trunc_double (d : double) : option Z :=
  match d with
  | S754_zero _ => Some 0
  | S754_finite s m e =>
      let v := Z.shiftl (Z.pos m) e in Some (if s then - v else v)
  | S754_infinity _ | S754_nan => None
  end.

(** Conversions to [unsigned long] and [int]: undefined outside the range. *)
Definition u64_of_double (d : double) : option Z :=
  v ← trunc_double d; if bool_decide (0 <= v < 2 ^ 64) then Some v else None.
Definition i32_of_double (d : double) : option Z :=
  v ← trunc_double d; i32_checked v.

(** ** Shifting right with round and sticky bits *)

(** After shifting [M] right by [k], the record holds the quotient, and its two
    bits tell where the remainder lies relative to one half. *)
Definition shifted (M k : Z) (mrs : shr_record) : Prop :=
  0 <= k /\ shr_m mrs = M / 2 ^ k /\
  let rem := M mod 2 ^ k in
  match shr_r mrs, shr_s mrs with
  | false, false => rem = 0
  | false, true => 0 < 2 * rem < 2 ^ k
  | true, false => 2 * rem = 2 ^ k
  | true, true => 2 ^ k < 2 * rem
  end.

Lemma shifted_start M : shifted M 0 (shr_record_of_loc M loc_Exact).
Proof. split; [done|]. simpl. rewrite Z.div_1_r, Z.mod_1_r. done. Qed.

Lemma shr_1_val m r s :
  0 <= m -> shr_1 {| shr_m := m; shr_r := r; shr_s := s |}
    = {| shr_m := m / 2; shr_r := Z.odd m; shr_s := r || s |}.
Proof.
  intros Hm. destruct m as [|[p|p|]|p]; try done; unfold shr_1.
  - by rewrite <- Z.div2_div.
  - by rewrite <- Z.div2_div.
Qed.

Lemma shifted_step M k mrs : 0 <= M -> shifted M k mrs -> shifted M (k + 1) (shr_1 mrs).
Proof.
  intros HM (Hk & Hm & Hloc). destruct mrs as [m r s].
  cbn [shr_m shr_r shr_s] in *. assert (Hp : 0 < 2 ^ k) by (apply Z.pow_pos_nonneg; lia).
  rewrite shr_1_val by (subst m; apply Z.div_pos; lia).
  split; [lia|]. cbn [shr_m shr_r shr_s]. rewrite Z.pow_add_r by lia. change (2 ^ 1) with 2.
  pose proof (Z.mod_pos_bound M (2 ^ k) Hp).
  rewrite <- Z.div_div, Z.rem_mul_r, <- Hm by lia. split; [done|].
  pose proof (Zmod_odd m) as Ho. destruct (Z.odd m); rewrite Ho;
    destruct r, s; simpl in *; lia.
Qed.

Lemma shifted_iter n : forall M k mrs,
  0 <= M -> shifted M k mrs -> shifted M (k + Z.pos n) (iter_pos shr_1 n mrs).
Proof.
  induction n as [n IH|n IH|]; intros M k mrs HM H; simpl.
  - replace (k + Z.pos n~1) with (k + 1 + Z.pos n + Z.pos n) by lia.
    apply IH; [done|]. apply IH; [done|]. by apply shifted_step.
  - replace (k + Z.pos n~0) with (k + Z.pos n + Z.pos n) by lia.
    apply IH; [done|]. by apply IH.
  - by apply shifted_step.
Qed.

(** Rounding to nearest stays within half a unit. *)
Lemma round_nearest_half M k mrs :
  0 <= M -> shifted M k mrs ->
  let q := round_nearest_even (shr_m mrs) (loc_of_shr_record mrs) in
  (q = M / 2 ^ k \/ q = M / 2 ^ k + 1) /\ 2 * Z.abs (q * 2 ^ k - M) <= 2 ^ k.
Proof.
  intros HM (Hk & Hm & Hloc). destruct mrs as [m r s]. simpl in *.
  assert (Hp : 0 < 2 ^ k) by (apply Z.pow_pos_nonneg; lia).
  pose proof (Z.div_mod M (2 ^ k) ltac:(lia)) as Hd.
  pose proof (Z.mod_pos_bound M (2 ^ k) Hp). rewrite <- Hm in Hd |- *.
  destruct r, s; simpl; [| destruct (Z.even m) | |]; (split; [lia|]); nia.
Qed.

Lemma digits2_log2 p : Z.pos (digits2_pos p) = Z.log2 (Z.pos p) + 1.
Proof.
  induction p as [p IH|p IH|]; simpl digits2_pos; [| |done].
  - rewrite Pos2Z.inj_succ, IH, Pos2Z.inj_xI, Z.log2_succ_double by lia. lia.
  - rewrite Pos2Z.inj_succ, IH, Pos2Z.inj_xO, Z.log2_double by lia. lia.
Qed.

(** ** Rounding a positive value in the normal range *)

(** [M * 2^e] with at least 53 bits is rounded to a multiple of its unit
    [2^(e + k)], at most half a unit away. *)
Lemma round_aux_nearest M e :
  2 ^ 52 <= M -> let k := Z.log2 M - 52 in -1074 <= e + k -> e + k <= 970 ->
  exists m' e', binary_round_aux 53 1024 false M e loc_Exact = S754_finite false m' e' /\
    e + k <= e' <= e + k + 1 /\ 2 ^ 52 <= Z.pos m' /\
    2 * Z.abs (Z.pos m' * 2 ^ (e' - e) - M) <= 2 ^ k.
Proof.
  intros HM k Hlo Hhi. destruct M as [|p|p]; [lia| |lia].
  assert (Hk : 0 <= k) by (unfold k; pose proof (Z.log2_le_mono (2 ^ 52) (Z.pos p) HM); change (Z.log2 (2 ^ 52)) with 52 in *; lia).
  set (M := Z.pos p) in *.
  assert (H1 : shr_fexp 53 1024 M e loc_Exact = (shr (shr_record_of_loc M loc_Exact) e k)).
  { unfold shr_fexp. f_equal. unfold M, Zdigits2. rewrite digits2_log2. fold M.
    unfold fexp, emin. unfold k in *. lia. }
  unfold binary_round_aux. rewrite H1.
  assert (H2 : exists mrs, shr (shr_record_of_loc M loc_Exact) e k = (mrs, e + k) /\ shifted M k mrs).
  { pose proof (shifted_start M) as H0. unfold shr. destruct k as [|n|n]; [| |lia].
    - rewrite Z.add_0_r. by eexists.
    - eexists. split; [done|]. apply (shifted_iter n M 0); [lia|done]. }
  destruct H2 as (mrs & -> & Hs).
  destruct (round_nearest_half M k mrs ltac:(lia) Hs) as [Hq Hhalf].
  set (q := round_nearest_even _ _) in *.
  assert (Hq0 : 2 ^ 52 <= M / 2 ^ k < 2 ^ 53).
  { pose proof (Z.log2_spec M ltac:(lia)) as Hl.
    replace (Z.succ (Z.log2 M)) with (53 + k) in Hl by (unfold k; lia).
    replace (Z.log2 M) with (52 + k) in Hl by (unfold k; lia).
    rewrite !Z.pow_add_r in Hl by lia. assert (0 < 2 ^ k) by (apply Z.pow_pos_nonneg; lia).
    split; [apply Z.div_le_lower_bound; lia|apply Z.div_lt_upper_bound; lia]. }
  assert (Hpos : 0 < 2 ^ k) by (apply Z.pow_pos_nonneg; lia).
  destruct (decide (q = 2 ^ 53)) as [Hmax|Hmax].
  - rewrite Hmax in *. unfold shr_fexp. change (Zdigits2 (2 ^ 53)) with 54.
    replace (fexp 53 1024 (54 + (e + k)) - (e + k)) with 1 by (unfold fexp, emin; lia).
    cbn [shr shr_record_of_loc iter_pos]. change (shr_m (shr_1 _)) with (2 ^ 52).
    cbn [Z.pow Z.pow_pos Pos.iter Z.mul Pos.mul]. rewrite (proj2 (Z.leb_le (e + k + 1) _)) by lia.
    eexists _, _. split; [done|]. split; [lia|]. split; [lia|].
    replace (e + k + 1 - e) with (k + 1) by lia. rewrite Z.pow_add_r by lia. lia.
  - assert (Hq53 : 2 ^ 52 <= q < 2 ^ 53) by lia. destruct q as [|m|m]; [lia| |lia].
    unfold shr_fexp. assert (Hd : Zdigits2 (Z.pos m) = 53).
    { unfold Zdigits2. rewrite digits2_log2, (Z.log2_unique (Z.pos m) 52); lia. }
    rewrite Hd. replace (fexp 53 1024 (53 + (e + k)) - (e + k)) with 0 by (unfold fexp, emin; lia).
    cbn [shr shr_record_of_loc shr_m]. rewrite (proj2 (Z.leb_le (e + k) _)) by lia.
    eexists _, _. split; [done|]. split; [lia|]. split; [lia|].
    replace (e + k - e) with k by lia. lia.
Qed.

(** ** Exact conversions, products and sums *)

Lemma shl_align_down m e e' :
  e' < e -> exists m', shl_align m e e' = (m', e') /\ Z.pos m' = Z.pos m * 2 ^ (e - e').
Proof.
  intros He. unfold shl_align. destruct (e' - e) as [|d|d] eqn:Hd; [lia|lia|].
  eexists. split; [done|]. change (Pos.iter xO m d) with (shift_pos d m).
  rewrite shift_pos_correct. replace (e - e') with (Z.pos d) by lia. simpl. lia.
Qed.

Lemma shl_align_up m e e' : e <= e' -> shl_align m e e' = (m, e).
Proof. intros He. unfold shl_align. by destruct (e' - e) eqn:Hd; try lia. Qed.

(** [d] is the positive integer [z], with a normalised significand. *)
Definition is_int (d : double) (z : Z) : Prop :=
  exists m e, d = S754_finite false m e /\ -60 <= e <= 0 /\
    2 ^ 52 <= Z.pos m < 2 ^ 53 /\ Z.pos m = z * 2 ^ (- e).

Lemma double_of_Z_exact z : 0 < z < 2 ^ 53 -> is_int (double_of_Z z) z.
Proof.
  intros Hz. destruct z as [|p|p]; [lia| |lia]. unfold double_of_Z, binary_normalize, binary_round.
  rewrite digits2_log2. set (z := Z.pos p) in *. set (ez := Z.log2 z - 52).
  assert (Hl : 0 <= Z.log2 z < 53) by (split; [apply Z.log2_nonneg|apply Z.log2_lt_pow2; lia]).
  replace (fexp 53 1024 (Z.log2 z + 1 + 0)) with ez by (unfold fexp, emin, ez; lia).
  pose proof (Z.log2_spec z ltac:(lia)) as Hs.
  assert (Ha : exists m, shl_align p 0 ez = (m, ez) /\ Z.pos m = z * 2 ^ (- ez)).
  { destruct (decide (ez < 0)).
    - destruct (shl_align_down p 0 ez) as (m & Hm1 & Hm2); [done|]. by exists m.
    - assert (ez = 0) as -> by lia. rewrite shl_align_up by lia. exists p. split; [done|]. lia. }
  destruct Ha as (m & -> & Hm).
  assert (Hr : 2 ^ 52 <= Z.pos m < 2 ^ 53).
  { rewrite Hm. replace 52 with (Z.log2 z + - ez) by (unfold ez; lia).
    replace 53 with (Z.succ (Z.log2 z) + - ez) by (unfold ez; lia).
    rewrite !Z.pow_add_r by lia. assert (0 < 2 ^ (- ez)) by (apply Z.pow_pos_nonneg; lia). nia. }
  assert (Hl2 : Z.log2 (Z.pos m) = 52) by (apply Z.log2_unique; lia).
  destruct (round_aux_nearest (Z.pos m) ez) as (m' & e' & -> & He & Hm' & Hh);
    [lia|rewrite Hl2; lia..|].
  rewrite Hl2 in He, Hh. assert (He' : e' = ez \/ e' = ez + 1) by lia.
  assert (Heq : Z.pos m' * 2 ^ (e' - ez) = Z.pos m) by lia.
  destruct He' as [->| ->]; [|replace (ez + 1 - ez) with 1 in Heq by lia; lia].
  rewrite Z.sub_diag, Z.mul_1_r in Heq. exists m', ez.
  split_and!; try lia. by f_equal.
Qed.

(** A rounded product of two integers whose product has 61 bits is a multiple
    of 2^8, at most 128 away. *)
Lemma dmul_61 x y a b :
  is_int x a -> is_int y b -> 2 ^ 60 <= a * b < 2 ^ 61 ->
  exists m e, dmul x y = S754_finite false m e /\ 8 <= e <= 9 /\
    Z.abs (Z.pos m * 2 ^ e - a * b) <= 128.
Proof.
  intros (m1 & e1 & -> & He1 & Hm1 & H1) (m2 & e2 & -> & He2 & Hm2 & H2) Hab.
  unfold dmul, SFmul. simpl xorb. set (M := Z.pos (m1 * m2)). set (ex := e1 + e2).
  assert (HM : M = a * b * 2 ^ (- ex)).
  { unfold M, ex. rewrite Pos2Z.inj_mul, H1, H2.
    replace (- (e1 + e2)) with (- e1 + - e2) by lia. rewrite Z.pow_add_r by lia. lia. }
  assert (Hp : 0 < 2 ^ (- ex)) by (apply Z.pow_pos_nonneg; lia).
  assert (Hl : Z.log2 M = 60 - ex).
  { apply Z.log2_unique; [lia|]. replace (60 - ex) with (60 + - ex) by lia.
    replace (Z.succ (60 + - ex)) with (61 + - ex) by lia. rewrite !Z.pow_add_r by lia. nia. }
  destruct (round_aux_nearest M ex) as (m & e & Hr & He & Hm & Hh); [nia|rewrite Hl; lia..|].
  change (Z.pos m1 * Z.pos m2) with M. rewrite Hr. exists m, e. split; [done|].
  rewrite Hl in He, Hh. split; [lia|]. clear Hr.
  replace (e - ex) with (e + - ex) in Hh by lia. rewrite (Z.pow_add_r 2 e) in Hh by lia.
  replace (60 - ex - 52) with (8 + - ex) in Hh by lia. rewrite (Z.pow_add_r 2 8), HM in Hh by lia.
  assert (Hf : Z.pos m * (2 ^ e * 2 ^ (- ex)) - a * b * 2 ^ (- ex)
    = (Z.pos m * 2 ^ e - a * b) * 2 ^ (- ex)) by lia.
  rewrite Hf, Z.abs_mul, (Z.abs_eq (2 ^ (- ex))) in Hh by lia. nia.
Qed.

Lemma dadd_61 m e y b :
  8 <= e <= 9 -> is_int y b -> 2 ^ 60 <= Z.pos m * 2 ^ e + b < 2 ^ 61 -> 0 < b ->
  exists m' e', dadd (S754_finite false m e) y = S754_finite false m' e' /\ 8 <= e' <= 9 /\
    Z.abs (Z.pos m' * 2 ^ e' - (Z.pos m * 2 ^ e + b)) <= 128.
Proof.
  intros He (m2 & e2 & -> & He2 & Hm2 & H2) Hr Hb.
  unfold dadd, SFadd. rewrite Z.min_r by lia. rewrite (shl_align_up m2 e2 e2) by lia.
  destruct (shl_align_down m e e2) as (m1 & -> & H1); [lia|]. cbn [fst cond_Zopp].
  set (S := Z.pos m * 2 ^ e + b) in *. assert (Hp : 0 < 2 ^ (- e2)) by (apply Z.pow_pos_nonneg; lia).
  assert (HS : Z.pos m1 + Z.pos m2 = S * 2 ^ (- e2)).
  { rewrite H1, H2. unfold S. replace (e - e2) with (e + - e2) by lia.
    rewrite (Z.pow_add_r 2 e) by lia. lia. }
  change (Z.pos m1 + Z.pos m2) with (Z.pos (m1 + m2)) in *. set (M := (m1 + m2)%positive) in *.
  assert (Hl : Z.log2 (Z.pos M) = 60 - e2).
  { apply Z.log2_unique; [lia|]. replace (60 - e2) with (60 + - e2) by lia.
    replace (Z.succ (60 + - e2)) with (61 + - e2) by lia. rewrite !Z.pow_add_r by lia. nia. }
  unfold binary_normalize, binary_round. rewrite digits2_log2, Hl.
  replace (fexp 53 1024 (60 - e2 + 1 + e2)) with 8 by (unfold fexp, emin; lia).
  rewrite shl_align_up by lia.
  destruct (round_aux_nearest (Z.pos M) e2) as (m' & e' & Hr' & He' & Hm & Hh);
    [nia|rewrite Hl; lia..|].
  rewrite Hr'. exists m', e'. split; [done|].
  rewrite Hl in He', Hh. split; [lia|]. clear Hr'.
  replace (e' - e2) with (e' + - e2) in Hh by lia. rewrite (Z.pow_add_r 2 e') in Hh by lia.
  replace (60 - e2 - 52) with (8 + - e2) in Hh by lia. rewrite (Z.pow_add_r 2 8), HS in Hh by lia.
  assert (Hf : Z.pos m' * (2 ^ e' * 2 ^ (- e2)) - S * 2 ^ (- e2)
    = (Z.pos m' * 2 ^ e' - S) * 2 ^ (- e2)) by lia.
  rewrite Hf, Z.abs_mul, (Z.abs_eq (2 ^ (- e2))) in Hh by lia. nia.
Qed.

(** Dividing by zero never gives a number. *)
Lemma ddiv_zero x s : trunc_double (ddiv x (S754_zero s)) = None.
Proof. by destruct x. Qed.
