(* ===== verification/Benchmarks.v ===== *)
(** * common/benchmarks.c, common/utility.c and the timed loop of the clients

    The clock [now()] in double arithmetic, the statistics record and its
    operations, the report of [evaluate], the conversions of [utility.c], and
    the measuring loop that every one-way client runs. *)
From S2P Require Import Prelude Kernel Double.
From Stdlib Require Import Floats.SpecFloat.

(** [struct Arguments] of common/arguments.h. *)
Record Arguments := mk_Arguments { arg_size : Z; arg_count : Z }.

(** ** The clock *)

Definition billion : double := double_of_Z 1000000000.

(** [ts.tv_sec * 1e9 + ts.tv_nsec], computed in double and converted to
    [unsigned long]; undefined when the conversion is out of range. *)
Definition now (tv_sec tv_nsec : Z) : option Z :=
  u64_of_double (dadd (dmul (double_of_Z tv_sec) billion) (double_of_Z tv_nsec)).

(** ** The statistics *)

Record Benchmarks := mk_Benchmarks {
  total_start : Z;
  single_start : Z;
  minimum : Z;
  maximum : Z;
  sum : Z;
  squared_sum : Z;
  count : Z;       (* int *)
}.

(** [t] is the value of [now()]. *)
Definition setup_benchmarks (t : Z) (bench : Benchmarks) : Benchmarks :=
  mk_Benchmarks t (single_start bench) INT32_MAX 0 0 0 0.

Definition set_single_start (bench : Benchmarks) (t : Z) : Benchmarks :=
  mk_Benchmarks (total_start bench) t (minimum bench) (maximum bench) (sum bench)
    (squared_sum bench) (count bench).

(** [t] is the value of [now()]; the increment of [count] overflows at
    [INT32_MAX]. *)
Definition benchmark (t : Z) (bench : Benchmarks) : option Benchmarks :=
  let time := u64 (t - single_start bench) in
  let minimum' := if time <? minimum bench then time else minimum bench in
  let maximum' := if time >? maximum bench then time else maximum bench in
  count' ← i32_checked (count bench + 1);
  Some (mk_Benchmarks (total_start bench) (single_start bench) minimum' maximum'
          (u64 (sum bench + time)) (squared_sum bench) count').

(** The numbers [evaluate] prints. *)
Record report := mk_report {
  rep_size : Z;
  rep_count : Z;
  rep_total_ms : double;
  rep_average_us : double;
  rep_minimum_us : double;
  rep_maximum_us : double;
  rep_rate : Z;
}.

(** [evaluate]: the assertion aborts, the conversion of the message rate to
    [int] is undefined outside the range. *)
Definition evaluate (bench : Benchmarks) (args : Arguments) : outcome report :=
  if bool_decide (arg_count args > 0) then
    let sum_d := double_of_Z (sum bench) in
    let count_d := double_of_Z (count bench) in
    let average := ddiv sum_d count_d in
    match i32_of_double (ddiv count_d (ddiv sum_d billion)) with
    | None => Undefined
    | Some messageRate =>
        let thousand := double_of_Z 1000 in
        Done (mk_report (arg_size args) (count bench) (ddiv sum_d (double_of_Z 1000000))
                (ddiv average thousand) (ddiv (double_of_Z (minimum bench)) thousand)
                (ddiv (double_of_Z (maximum bench)) thousand) messageRate)
    end
  else Died "Assertion `args->count > 0' failed.".

(** ** common/utility.c *)

(** [long] arithmetic, converted to [int] at each assignment. *)
Definition timeval_to_milliseconds (tv_sec tv_usec : Z) : Z :=
  let milliseconds := to_i32 (tv_sec * 1000) in
  to_i32 (milliseconds + Z.quot tv_usec 1000).

(** [gettimeofday] returned [r] and filled the structure. *)
Definition current_milliseconds (r tv_sec tv_usec : Z) : outcome Z :=
  if r =? -1 then Died "Error getting time"
  else Done (timeval_to_milliseconds tv_sec tv_usec).

Definition throw {W A} (message : string) : M W A := die message.
Definition terminate {W A} (message : string) : M W A := die message.

(** What [print_error] and [warn] write to stderr: the escape is octal 033. *)
Definition newline : string := String.String (Ascii.ascii_of_nat 10) String.EmptyString.
Definition ESC : string := String.String (Ascii.ascii_of_nat 27) String.EmptyString.
Definition print_error (message : string) : string := (message +:+ newline)%string.
Definition warn (message : string) : string :=
  (ESC +:+ "[33mWarning" +:+ ESC +:+ "[0m: " +:+ message +:+ newline)%string.

(** The body of [pin_thread] is commented out. *)
Definition pin_thread {W} (core : Z) : M W () := mret ().

(** ** The calls of the measuring programs *)

Section clients.
Context {W : Type} `{!Kernel W}.

(** [timespec_get(&ts, TIME_UTC)] and the conversion of [now]. *)
Definition read_now : M (process W) Z :=
  r ← sys Timespec_get;
  match data r with
  | [tv_sec; tv_nsec] => defined (now tv_sec tv_nsec)
  | _ => undefined
  end.

Definition setup_benchmarks_call (bench : Benchmarks) : M (process W) Benchmarks :=
  t ← read_now; mret (setup_benchmarks t bench).

(** [bench.single_start = now();] *)
Definition start_single (bench : Benchmarks) : M (process W) Benchmarks :=
  t ← read_now; mret (set_single_start bench t).

Definition benchmark_call (bench : Benchmarks) : M (process W) Benchmarks :=
  t ← read_now; defined (benchmark t bench).

(** The structure is read even when the call fails. *)
Definition gettimeofday_usec : M (process W) Z :=
  r ← sys Gettimeofday;
  match data r with
  | [tv_sec; tv_usec] => mret tv_usec
  | _ => undefined
  end.

Definition nsleep (nanoseconds : Z) : M (process W) () :=
  r ← sys_rv (Nanosleep nanoseconds);
  throw_if (r =? -1) "Sleep was interrupted".

Definition generate_key (path : string) : M (process W) Z := sys_rv (Ftok path).

End clients.

(** ** The measuring loop

    [while (1) { gettimeofday(&currentTime, NULL); if ((currentTime.tv_usec -
    startTime.tv_usec) > 100000) break; ...; cnt++; }]: [clock] reads
    [currentTime.tv_usec], [body] is the rest of an iteration over the local
    variables [a]; the loop is still running when the fuel is used up. *)
Fixpoint timed_loop {W A} (fuel : nat) (clock : M W Z) (start_usec : Z)
    (body : A -> M W A) (a : A) (cnt : Z) : M W (A * Z) :=
  match fuel with
  | O => running
  | S fuel =>
      usec ← clock;
      if usec - start_usec >? 100000 then mret (a, cnt)
      else a ← body a; timed_loop fuel clock start_usec body a (u64 (cnt + 1))
  end.

(** The end of every one-way client: [gettimeofday(&startTime)], the loop, and
    the report; the printed values are the count and the report. *)
Definition measure_loop {W} `{!Kernel W} (fuel : nat)
    (body : Benchmarks -> M (process W) Benchmarks) (bench : Benchmarks) (args : Arguments)
    : M (process W) (Z * report) :=
  start ← gettimeofday_usec;
  '(bench, cnt) ← timed_loop fuel gettimeofday_usec start body bench 0;
  r ← of_outcome (evaluate bench args); mret (cnt, r).

(** ** Lemmas *)

(** One measurement: [bench.single_start = start; ...; benchmark(&bench)] with
    the clock at [t]. *)
Definition measure (bench : Benchmarks) (m : Z * Z) : option Benchmarks :=
  benchmark m.2 (set_single_start bench m.1).

Fixpoint measures (bench : Benchmarks) (ms : list (Z * Z)) : option Benchmarks :=
  match ms with
  | [] => Some bench
  | m :: ms => bench ← measure bench m; measures bench ms
  end.

(** The duration one measurement records. *)
Definition duration (m : Z * Z) : Z := u64 (m.2 - m.1).

Definition zsum (l : list Z) : Z := foldr Z.add 0 l.

Lemma measures_val ms : forall bench,
  0 <= count bench -> count bench + Z.of_nat (length ms) <= INT32_MAX ->
  sum bench = u64 (sum bench) ->
  exists bench', measures bench ms = Some bench' /\
    count bench' = count bench + Z.of_nat (length ms) /\
    minimum bench' = foldr Z.min (minimum bench) (duration <$> ms) /\
    maximum bench' = foldr Z.max (maximum bench) (duration <$> ms) /\
    sum bench' = u64 (sum bench + zsum (duration <$> ms)) /\
    squared_sum bench' = squared_sum bench.
Proof.
  induction ms as [|m ms IH]; intros bench Hc Hle Hs.
  { exists bench. simpl. rewrite !Z.add_0_r. done. }
  cbn [length] in Hle. cbn [measures]. unfold measure, benchmark.
  cbn [count set_single_start single_start minimum maximum sum squared_sum total_start].
  fold (duration m). rewrite i32_checked_small by (unfold INT32_MIN, INT32_MAX in *; lia).
  cbn [mbind option_bind]. set (b1 := mk_Benchmarks _ _ _ _ _ _ _).
  destruct (IH b1) as (b' & Hb & Hc' & Hmin & Hmax & Hsum & Hsq); simpl; [lia|lia| |].
  { unfold u64. by rewrite Z.mod_mod. }
  exists b'. split; [done|]. split; [rewrite Hc'; simpl; lia|].
  assert (Hfold : forall (g : Z -> Z -> Z), (forall a b c, g a (g b c) = g b (g a c)) ->
    forall x y l, foldr g (g x y) l = g x (foldr g y l)).
  { intros g Hg x y l. induction l as [|z l IHl]; simpl; [done|]. by rewrite IHl, Hg. }
  split_and!; [| | |done].
  - rewrite Hmin. simpl. rewrite <- (Hfold Z.min) by lia. f_equal.
    destruct (Z.ltb_spec (duration m) (minimum bench)); lia.
  - rewrite Hmax. simpl. rewrite <- (Hfold Z.max) by lia. f_equal. rewrite Z.gtb_ltb.
    destruct (Z.ltb_spec (maximum bench) (duration m)); lia.
  - rewrite Hsum. change (sum b1) with (u64 (sum bench + duration m)).
    change (zsum (duration <$> m :: ms)) with (duration m + zsum (duration <$> ms)).
    unfold u64. rewrite Zplus_mod_idemp_l. by rewrite Z.add_assoc.
Qed.

Lemma now_val tv_sec tv_nsec :
  0 < tv_sec < 2 ^ 53 -> 0 <= tv_nsec < 1000000000 ->
  2 ^ 60 <= tv_sec * 1000000000 -> (tv_sec + 1) * 1000000000 + 128 < 2 ^ 61 ->
  exists t, now tv_sec tv_nsec = Some (256 * t) /\
    Z.abs (256 * t - (tv_sec * 1000000000 + tv_nsec)) <= 256.
Proof.
  intros Hs Hn Hlo Hhi.
  destruct (dmul_61 (double_of_Z tv_sec) billion tv_sec 1000000000) as (m & e & Hm & He & Herr);
    [by apply double_of_Z_exact|by apply double_of_Z_exact|lia|].
  assert (He' : 2 ^ e = 256 \/ 2 ^ e = 512).
  { assert (e = 8 \/ e = 9) as [->| ->] by lia; [by left|by right]. }
  assert (Hsum : exists m' e', dadd (S754_finite false m e) (double_of_Z tv_nsec)
      = S754_finite false m' e' /\ 8 <= e' <= 9 /\
      Z.abs (Z.pos m' * 2 ^ e' - (Z.pos m * 2 ^ e + tv_nsec)) <= 128).
  { destruct (decide (tv_nsec = 0)) as [->|Hn0].
    - exists m, e. split; [done|]. lia.
    - apply dadd_61; [done| |lia|lia]. apply double_of_Z_exact. lia. }
  destruct Hsum as (m' & e' & Hd & He2 & Herr').
  assert (He2' : 2 ^ e' = 256 \/ 2 ^ e' = 512).
  { assert (e' = 8 \/ e' = 9) as [->| ->] by lia; [by left|by right]. }
  unfold now. rewrite Hm, Hd. unfold u64_of_double, trunc_double.
  rewrite Z.shiftl_mul_pow2 by lia. cbn [mbind option_bind].
  rewrite bool_decide_eq_true_2 by lia.
  destruct He2' as [E|E]; rewrite E in *.
  - exists (Z.pos m'). split; [f_equal|]; lia.
  - exists (2 * Z.pos m'). split; [f_equal|]; lia.
Qed.

(** A loop body that always returns, and a clock that returns values of [P]. *)
Definition returns {W A} (body : A -> M W A) : Prop := forall a w, exists a' w', body a w = (Done a', w').
Definition ticks {W} (P : Z -> Prop) (clock : M W Z) : Prop :=
  forall w, exists v w', clock w = (Done v, w') /\ P v.

(** A clock that reads the samples of a script, and a body beside it. *)
Definition scripted {W} : M (list Z * W) Z := fun '(samples, w) =>
  match samples with
  | [] => (Running, ([], w))
  | v :: samples => (Done v, (samples, w))
  end.

Definition beside {W A} (body : A -> M W A) (a : A) : M (list Z * W) A := fun '(samples, w) =>
  let '(r, w') := body a w in (r, (samples, w')).

Lemma timed_loop_step {W A} fuel clock start (body : A -> M W A) a cnt w v w1 a' w2 :
  clock w = (Done v, w1) -> v - start <= 100000 -> body a w1 = (Done a', w2) ->
  timed_loop (S fuel) clock start body a cnt w
    = timed_loop fuel clock start body a' (u64 (cnt + 1)) w2.
Proof.
  intros Hc Hv Hb. cbn [timed_loop]. rewrite (bind_done _ _ _ _ _ Hc), Z.gtb_ltb.
  destruct (Z.ltb_spec 100000 (v - start)); [lia|]. by rewrite (bind_done _ _ _ _ _ Hb).
Qed.

Lemma timed_loop_stop {W A} fuel clock start (body : A -> M W A) a cnt w v w1 :
  clock w = (Done v, w1) -> 100000 < v - start ->
  timed_loop (S fuel) clock start body a cnt w = (Done (a, cnt), w1).
Proof.
  intros Hc Hv. cbn [timed_loop]. rewrite (bind_done _ _ _ _ _ Hc), Z.gtb_ltb.
  by destruct (Z.ltb_spec 100000 (v - start)); [|lia].
Qed.

Lemma only_read_now {W} `{!Kernel W} (P : syscall -> Prop) : P Timespec_get -> only P read_now.
Proof. intros H. unfold read_now. only_calls; done. Qed.

Lemma only_gettimeofday {W} `{!Kernel W} (P : syscall -> Prop) : P Gettimeofday -> only P gettimeofday_usec.
Proof. intros H. unfold gettimeofday_usec. only_calls; done. Qed.

Lemma only_timed_loop {W A} `{!Kernel W} (P : syscall -> Prop) fuel start (body : A -> M (process W) A) a cnt :
  P Gettimeofday -> (forall a, only P (body a)) ->
  only P (timed_loop fuel gettimeofday_usec start body a cnt).
Proof.
  intros Hg Hb. revert a cnt. induction fuel as [|fuel IH]; intros a cnt; [apply only_running|].
  cbn [timed_loop]. unfold gettimeofday_usec. only_calls; try done.
Qed.

Lemma only_measure_loop {W} `{!Kernel W} (P : syscall -> Prop) fuel body bench args :
  P Gettimeofday -> (forall a, only P (body a)) ->
  only P (measure_loop fuel body bench args).
Proof.
  intros Hg Hb. unfold measure_loop. only_calls; [by apply only_gettimeofday|].
  by apply only_timed_loop.
Qed.

Lemma read_now_did {W} `{!Kernel W} (p : process W) t q :
  read_now p = (Done t, q) -> did p q [Timespec_get].
Proof.
  intros H. apply bind_inv in H as (r & p' & H & H2). apply sys_did in H.
  destruct (data r) as [|x [|y [|]]]; try done. by apply defined_inv in H2 as [_ ->].
Qed.

(** The report repeats the requested size and the number of measurements. *)
Lemma evaluate_fields bench args r :
  evaluate bench args = Done r -> rep_size r = arg_size args /\ rep_count r = count bench.
Proof.
  unfold evaluate. case_bool_decide; [|done]. destruct (i32_of_double _); [|done]. by intros [= <-].
Qed.

Lemma benchmark_count t bench b : benchmark t bench = Some b -> count b = count bench + 1.
Proof.
  unfold benchmark, i32_checked. case_bool_decide; [|done]. by intros [= <-].
Qed.

Lemma evaluate_zero bench args :
  sum bench = 0 ->
  evaluate bench args =
    if bool_decide (arg_count args > 0) then Undefined
    else Died "Assertion `args->count > 0' failed.".
Proof.
  intros Hs. unfold evaluate. rewrite Hs. case_bool_decide; [|done].
  unfold i32_of_double. change (ddiv (double_of_Z 0) billion) with (S754_zero false).
  by rewrite ddiv_zero.
Qed.

(** ** Properties *)

(** C31: after [setup_benchmarks] and any sequence of fewer than 2^31
    measurements, the record holds the number of measurements, the sum of
    their durations modulo 2^64, their maximum, and their minimum capped at
    [INT32_MAX] nanoseconds; [squared_sum] is never accumulated. *)
Theorem benchmarks_summary t0 b0 ms :
  Z.of_nat (length ms) <= INT32_MAX ->
  exists b, measures (setup_benchmarks t0 b0) ms = Some b /\
    count b = Z.of_nat (length ms) /\
    minimum b = foldr Z.min INT32_MAX (duration <$> ms) /\
    maximum b = foldr Z.max 0 (duration <$> ms) /\
    sum b = u64 (zsum (duration <$> ms)) /\ squared_sum b = 0.
Proof.
  intros Hl. destruct (measures_val ms (setup_benchmarks t0 b0)) as (b & H); [done|done|done|].
  exists b. exact H.
Qed.

(** C40: the clock's resolution.  Between the years 2006 and 2043 every value
    of [now()] is a multiple of 256 ns, within 256 ns of the time the system
    reports: a [double] cannot hold today's nanosecond count.  Hence every
    duration a benchmark measures is a multiple of 256 ns. *)
Theorem now_granularity tv_sec tv_nsec :
  2 ^ 60 <= tv_sec * 1000000000 -> (tv_sec + 1) * 1000000000 + 128 < 2 ^ 61 ->
  0 <= tv_nsec < 1000000000 ->
  exists t, now tv_sec tv_nsec = Some t /\ t mod 256 = 0 /\
    Z.abs (t - (tv_sec * 1000000000 + tv_nsec)) <= 256.
Proof.
  intros Hlo Hhi Hn. destruct (now_val tv_sec tv_nsec) as (t & Ht & He); [lia..|].
  exists (256 * t). split; [done|]. split; [|done]. rewrite Z.mul_comm. apply Z.mod_mul. lia.
Qed.

(** A report without measured time is undefined.  When the sum of the
    durations is zero, in particular when no measurement was made, [evaluate]
    converts an infinity or a NaN to [int]; and it aborts when the requested
    count is not positive, whatever was measured. *)
Theorem evaluate_without_time bench args :
  sum bench = 0 ->
  evaluate bench args =
    if bool_decide (arg_count args > 0) then Undefined
    else Died "Assertion `args->count > 0' failed.".
Proof. apply evaluate_zero. Qed.

(** C37: the measuring loop compares only the microsecond fields.  It stops
    with the number of completed iterations at the first sample more than
    100000 above the start; and when the start is at least 899999, no clock
    with microseconds in range ever stops it, whatever the fuel. *)
Theorem timed_loop_exit {W A} start (body : A -> M W A) a cnt w pre u post fuel :
  returns body -> 0 <= cnt -> cnt + Z.of_nat (length pre) < 2 ^ 64 ->
  Forall (fun v => v - start <= 100000) pre ->
  (u - start > 100000 -> (length pre < fuel)%nat -> exists a',
   (timed_loop fuel scripted start (beside body) a cnt (pre ++ u :: post, w)).1
     = Done (a', cnt + Z.of_nat (length pre))) /\
  (899999 <= start -> forall clock, ticks (fun v => 0 <= v <= 999999) clock ->
   (timed_loop fuel clock start body a cnt w).1 = Running).
Proof.
  intros Hb Hc Hle Hpre. split.
  - intros Hu Hf. revert fuel a cnt w Hc Hle Hf.
    induction Hpre as [|v pre Hv _ IH]; intros [|fuel] a cnt w Hc Hle Hf; cbn [length] in *; try lia.
    + exists a. cbn [app]. erewrite timed_loop_stop; [|done|lia]. by rewrite Z.add_0_r.
    + destruct (Hb a w) as (a1 & w1 & E).
      destruct (IH fuel a1 (cnt + 1) w1) as [a2 H2]; [lia|lia|lia|]. exists a2. cbn [app].
      rewrite (timed_loop_step _ _ _ _ _ _ _ v (pre ++ u :: post, w) a1 (pre ++ u :: post, w1));
        [|done|done|by unfold beside; rewrite E].
      rewrite u64_small, H2 by lia. do 2 f_equal. lia.
  - intros Hs clock Ht. clear Hc Hle Hpre. revert a cnt w.
    induction fuel as [|fuel IH]; intros a cnt w; [done|].
    destruct (Ht w) as (v & w1 & Ev & Hv), (Hb a w1) as (a2 & w2 & E2).
    erewrite timed_loop_step; [apply IH|exact Ev|lia|exact E2].
Qed.

(** [timeval_to_milliseconds] is the millisecond count reduced to 32 bits:
    it is the true count only up to 2^31 - 1 ms (24.8 days), and today's time
    of day wraps; differences of two values are right modulo 2^32. *)
Theorem timeval_to_milliseconds_wraps tv_sec tv_usec :
  0 <= tv_sec -> 0 <= tv_usec < 1000000 ->
  let ms := tv_sec * 1000 + tv_usec / 1000 in
  timeval_to_milliseconds tv_sec tv_usec = to_i32 ms /\
  (timeval_to_milliseconds tv_sec tv_usec = ms <-> ms <= INT32_MAX) /\
  u32 (timeval_to_milliseconds tv_sec tv_usec) = u32 ms.
Proof.
  intros Hs Hu ms. assert (Hq : Z.quot tv_usec 1000 = tv_usec / 1000) by (apply Z.quot_div_nonneg; lia).
  assert (Hv : timeval_to_milliseconds tv_sec tv_usec = to_i32 ms).
  { unfold timeval_to_milliseconds. rewrite Hq. unfold to_i32, ms.
    replace ((tv_sec * 1000 + 2 ^ 31) mod 2 ^ 32 - 2 ^ 31 + tv_usec / 1000 + 2 ^ 31)
      with ((tv_sec * 1000 + 2 ^ 31) mod 2 ^ 32 + tv_usec / 1000) by lia.
    rewrite Zplus_mod_idemp_l. do 2 f_equal. lia. }
  assert (0 <= ms) by (unfold ms; pose proof (Z.div_pos tv_usec 1000); lia).
  rewrite Hv. split; [done|]. split.
  - split; [intros <-; apply to_i32_range|]. intros. apply to_i32_small.
    unfold INT32_MIN; lia.
  - unfold u32, to_i32. rewrite Zminus_mod_idemp_l. f_equal. lia.
Qed.

(** ** Witnesses *)

Lemma benchmarks_summary_witness :
  exists b, measures (setup_benchmarks 5 (mk_Benchmarks 0 0 0 0 0 0 0)) [(10, 30); (100, 107); (9, 8)]
    = Some b /\ count b = 3 /\ minimum b = 7 /\ maximum b = 2 ^ 64 - 1.
Proof.
  destruct (benchmarks_summary 5 (mk_Benchmarks 0 0 0 0 0 0 0) [(10, 30); (100, 107); (9, 8)])
    as (b & H1 & H2 & H3 & H4 & _); [by vm_compute|].
  exists b. rewrite H2, H3, H4. by split.
Defined.

(** 14 November 2023, 22:13:20 and 123456789 ns. *)
Lemma now_granularity_witness :
  exists t, now 1700000000 123456789 = Some t /\ t mod 256 = 0 /\
    Z.abs (t - 1700000000123456789) <= 256.
Proof. apply (now_granularity 1700000000 123456789); lia. Defined.

Lemma evaluate_without_time_witness :
  evaluate (setup_benchmarks 5 (mk_Benchmarks 0 0 0 0 0 0 0)) (mk_Arguments 4096 1000) = Undefined.
Proof. apply (evaluate_without_time _ (mk_Arguments 4096 1000)). reflexivity. Defined.

Lemma timed_loop_exit_witness :
  exists a', (timed_loop 5 scripted 200000 (beside (fun (a : Z) (w : nat) => (Done (a + 7), S w)))
    1 0 ([200001; 299999; 300000; 300001; 5], 0%nat)).1 = Done (a', 3).
Proof.
  apply (timed_loop_exit 200000 (fun (a : Z) (w : nat) => (Done (a + 7), S w)) 1 0 0%nat
    [200001; 299999; 300000] 300001 [5] 5).
  - intros a w. by exists (a + 7), (S w).
  - lia.
  - vm_compute. reflexivity.
  - repeat constructor; lia.
  - lia.
  - simpl. lia.
Defined.

Lemma timeval_to_milliseconds_wraps_witness :
  timeval_to_milliseconds 1700000000 999 = to_i32 1700000000000.
Proof. apply (timeval_to_milliseconds_wraps 1700000000 999); lia. Defined.

(** ** The types of the record's fields *)

(** [bench_t] is [unsigned long]; [count] is an [int]. *)
Definition bench_t (z : Z) : Prop := 0 <= z < 2 ^ 64.

Definition benchmarks_typed (b : Benchmarks) : Prop :=
  bench_t (total_start b) /\ bench_t (single_start b) /\ bench_t (minimum b) /\ bench_t (maximum b) /\
  bench_t (sum b) /\ bench_t (squared_sum b) /\ INT32_MIN <= count b <= INT32_MAX.

(** What the programs do to a record: the calls of the library, and storing a
    received timestamp in [single_start]. *)
Inductive bench_op := Op_setup | Op_start | Op_receive (v : Z) | Op_benchmark.

Definition bench_op_typed (o : bench_op) : Prop := match o with Op_receive v => bench_t v | _ => True end.

Definition run_bench_op {W} `{!Kernel W} (o : bench_op) (bench : Benchmarks) : M (process W) Benchmarks :=
  match o with
  | Op_setup => setup_benchmarks_call bench
  | Op_start => start_single bench
  | Op_receive v => mret (set_single_start bench v)
  | Op_benchmark => benchmark_call bench
  end.

Fixpoint run_bench_ops {W} `{!Kernel W} (os : list bench_op) (bench : Benchmarks) : M (process W) Benchmarks :=
  match os with
  | [] => mret bench
  | o :: os => bench ← run_bench_op o bench; run_bench_ops os bench
  end.

Lemma now_typed tv_sec tv_nsec t : now tv_sec tv_nsec = Some t -> bench_t t.
Proof.
  unfold now, u64_of_double. destruct (trunc_double _) as [v|]; [|done]. simpl.
  case_bool_decide; [|done]. by intros [= <-].
Qed.

Lemma read_now_typed {W} `{!Kernel W} (p : process W) t q : read_now p = (Done t, q) -> bench_t t.
Proof.
  intros H. apply bind_inv in H as (r & p1 & _ & H). destruct (data r) as [|s [|n [|]]]; try done.
  apply defined_inv in H as [H _]. by eapply now_typed.
Qed.

Lemma benchmark_typed t bench b :
  benchmarks_typed bench -> benchmark t bench = Some b -> benchmarks_typed b.
Proof.
  intros (H1 & H2 & H3 & H4 & H5 & H6 & H7) H. unfold benchmark, i32_checked in H.
  case_bool_decide; [|done]. simpl in H. injection H as <-. unfold benchmarks_typed. simpl.
  pose proof (u64_range (t - single_start bench)). pose proof (u64_range (sum bench + u64 (t - single_start bench))).
  split_and!; unfold bench_t in *; repeat case_match; lia.
Qed.

Lemma run_bench_op_typed {W} `{!Kernel W} o bench (p : process W) b q :
  bench_op_typed o -> benchmarks_typed bench -> run_bench_op o bench p = (Done b, q) -> benchmarks_typed b.
Proof.
  intros Ho Hb H. destruct o; cbn [run_bench_op] in H.
  - apply bind_inv in H as (t & p1 & H1 & [-> ->]%mret_inv). apply read_now_typed in H1.
    destruct Hb as (Ht & H2 & _). unfold benchmarks_typed, setup_benchmarks. cbn -[Z.pow Z.le Z.lt].
    split_and!; unfold bench_t, INT32_MAX, INT32_MIN in *; lia.
  - apply bind_inv in H as (t & p1 & H1 & [-> ->]%mret_inv). apply read_now_typed in H1.
    unfold benchmarks_typed in *. simpl. tauto.
  - apply mret_inv in H as [-> ->]. unfold benchmarks_typed in *. simpl. tauto.
  - apply bind_inv in H as (t & p1 & H1 & [H ->]%defined_inv). by eapply benchmark_typed.
Qed.

(** C36: the record is well typed.  Whatever the clock and the kernel answer, and
    in whatever order the operations are applied, every field of the record
    stays a value of its type: the timestamps, extremes and sums unsigned
    64-bit, the count an [int] (its overflow is undefined and is not a result);
    and from a set-up on the count is that of the measurements since, and the
    minimum at most INT32_MAX. *)
Theorem benchmarks_well_typed {W} `{!Kernel W} os bench (p : process W) b q :
  Forall bench_op_typed os -> benchmarks_typed bench -> run_bench_ops os bench p = (Done b, q) ->
  benchmarks_typed b /\
  (forall os', os = Op_setup :: os' -> Op_setup ∉ os' ->
     count b = Z.of_nat (length (List.filter (fun o => match o with Op_benchmark => true | _ => false end) os')) /\
     minimum b <= INT32_MAX).
Proof.
  intros Ho Hb H. split.
  - revert bench p Hb H. induction Ho as [|o os Ho Hos IH]; intros bench p Hb H.
    { by apply mret_inv in H as [-> ->]. }
    cbn [run_bench_ops] in H. apply bind_inv in H as (b1 & p1 & H1 & H).
    eapply IH; [by eapply run_bench_op_typed|exact H].
  - intros os' -> Hn. cbn [run_bench_ops] in H. apply bind_inv in H as (b1 & p1 & H1 & H).
    apply bind_inv in H1 as (t & p2 & _ & [-> ->]%mret_inv). clear Ho Hb.
    assert (Hgen : forall b0 (p0 : process W), run_bench_ops os' b0 p0 = (Done b, q) -> minimum b0 <= INT32_MAX ->
      count b = count b0 + Z.of_nat (length (List.filter (fun o => match o with Op_benchmark => true | _ => false end) os')) /\
      minimum b <= INT32_MAX); [|by apply (Hgen _ _ H); simpl].
    clear H. induction os' as [|o os' IH]; intros b0 p0 H Hm.
    { apply mret_inv in H as [-> ->]. simpl. split; [lia|done]. }
    cbn [run_bench_ops] in H. apply bind_inv in H as (b2 & p3 & H2 & H).
    apply not_elem_of_cons in Hn as [Hne Hn].
    assert (Hstep : count b2 = count b0 + (match o with Op_benchmark => 1 | _ => 0 end) /\ minimum b2 <= INT32_MAX).
    { destruct o; [done| | |]; cbn [run_bench_op] in H2.
      - apply bind_inv in H2 as (? & ? & _ & [-> ->]%mret_inv). simpl. split; [lia|done].
      - apply mret_inv in H2 as [-> ->]. simpl. split; [lia|done].
      - apply bind_inv in H2 as (t' & ? & _ & [H2 ->]%defined_inv). pose proof (benchmark_count _ _ _ H2).
        split; [lia|]. unfold benchmark, i32_checked in H2. case_bool_decide; [|done]. simpl in H2.
        injection H2 as <-. simpl. destruct (Z.ltb_spec (u64 (t' - single_start b0)) (minimum b0)); lia. }
    destruct Hstep as [Hc Hmin]. destruct (IH Hn b2 p3 H Hmin) as [-> Hmb]. split; [|done].
    destruct o; simpl; lia.
Qed.

Lemma benchmarks_well_typed_witness :
  let p := start [mk_result 0 0 [1700000000; 0]; mk_result 0 0 [1700000000; 2048]] in
  let run := run_bench_ops [Op_setup; Op_receive 1700000000000000000; Op_benchmark] (mk_Benchmarks 0 0 0 0 0 0 0) p in
  exists b q, run = (Done b, q) /\ benchmarks_typed b /\ count b = 1.
Proof.
  intros p run.
  assert (Ho : Forall bench_op_typed [Op_setup; Op_receive 1700000000000000000; Op_benchmark])
    by (repeat constructor; done).
  assert (Hb : benchmarks_typed (mk_Benchmarks 0 0 0 0 0 0 0)) by (by vm_compute).
  assert (Hn : Op_setup ∉ [Op_receive 1700000000000000000; Op_benchmark])
    by (rewrite !not_elem_of_cons; split_and!; [done|done|apply not_elem_of_nil]).
  destruct run as [[b| | |] q] eqn:E; try (vm_compute in E; discriminate).
  exists b, q. split; [reflexivity|].
  destruct (benchmarks_well_typed _ (mk_Benchmarks 0 0 0 0 0 0 0) p b q Ho Hb E) as [Ht Hc].
  split; [exact Ht|]. exact (proj1 (Hc _ eq_refl Hn)).
Defined.
