(* ===== verification/Linking.v ===== *)
(** * Programs over a protocol

    A protocol is a step relation on the state two processes share; a program
    is a sequence of calls.  Here one process of a protocol is replaced by its
    program: a kernel answers each call of the program by the move of the
    protocol it stands for, after any moves of the other process, and refuses a
    call that is not the next move.  A small program logic shows that a program
    only makes the protocol's moves, whatever the other process does. *)
From S2P Require Import Prelude Kernel Benchmarks.

(** ** The interface of a protocol *)

(** The answer to a call: its result and the state it leaves; it waits for
    ever when the other process does nothing more; or the process of the
    protocol does not make this call here. *)
Inductive reply (S : Type) := Answer (r : result) (s : S) | Waits | Strange.
Arguments Answer {S} r s.
Arguments Waits {S}.
Arguments Strange {S}.

(** [T] is what the environment chooses for one call: the moves of the other
    process before it, and the readings of a clock.  [link_errno] is what the
    state says of the process's [errno]. *)
Class Link (S T : Type) := {
  link_step : relation S;
  link_others : T -> S -> S;
  link_answer : T -> syscall -> S -> reply S;
  link_others_steps t s : rtc link_step s (link_others t s);
  link_answer_steps t c s r s' : link_answer t c s = Answer r s' -> rtc link_step s s';
  link_errno : Z -> S -> Prop;
  link_others_errno t e s : link_errno e s -> link_errno e (link_others t s);
  link_answer_errno t c e s r s' : link_errno e s -> link_answer t c s = Answer r s' ->
    link_errno (if rv r =? -1 then err r else e) s';
}.

(** Choices for one call: the other process's moves of type [C], those that are
    not possible being skipped; a clock; and the result of a call that is not a
    move of the protocol. *)
Record turn (C : Type) := mk_turn { tn_others : list C; tn_clock : Z * Z; tn_result : result }.
Arguments mk_turn {C} tn_others tn_clock tn_result.
Arguments tn_others {C} t.
Arguments tn_clock {C} t.
Arguments tn_result {C} t.

Definition moves_along {C S} (exec : C -> S -> option S) (cs : list C) (s : S) : S :=
  foldl (fun s c => default s (exec c s)) s cs.

Lemma moves_along_inv {C S} (exec : C -> S -> option S) (P : S -> Prop) cs : forall s,
  (forall c s s', P s -> exec c s = Some s' -> P s') -> P s -> P (moves_along exec cs s).
Proof.
  induction cs as [|c cs IH]; intros s Hx Hs; [done|]. cbn. apply IH; [done|].
  destruct (exec c s) eqn:E; [by eapply Hx|done].
Qed.

Lemma moves_along_rtc {C S} (exec : C -> S -> option S) (R : relation S) cs s :
  (forall c s s', exec c s = Some s' -> R s s') -> rtc R s (moves_along exec cs s).
Proof.
  intros Hx. apply moves_along_inv; [|apply rtc_refl].
  intros c s1 s2 Hr He. eapply rtc_r; [exact Hr|by eapply Hx].
Qed.

Lemma moves_along_idle {C S} (exec : C -> S -> option S) cs s :
  (forall c, exec c s = None \/ exec c s = Some s) -> moves_along exec cs s = s.
Proof.
  intros H. unfold moves_along. induction cs as [|c cs IH]; [done|]. cbn. destruct (H c) as [-> | ->]; exact IH.
Qed.

(** A move of the protocol, with the result its call returns. *)
Definition by_move {S} (o : option S) (r : result) : reply S :=
  match o with Some s => Answer r s | None => Waits end.

(** A move that reads the clock; a reading that [now] cannot convert, where the
    code is undefined, is not among the environment's choices. *)
Definition by_clock {C S} (t : turn C) (move : Z -> option S) : reply S :=
  match now (tn_clock t).1 (tn_clock t).2 with
  | Some v => by_move (move v) (mk_result 0 0 [(tn_clock t).1; (tn_clock t).2])
  | None => Waits
  end.

(** The move of [senduipi], or its fault.  A sender that is registered has an
    index of at least 0; a failed registration leaves a negative one. *)
Definition by_senduipi {S} (index : Z) (o : option S) (s : S) : reply S :=
  if index <? 0 then Answer (val (-1)) s else by_move o (val 0).

(** A call that is not a move of the protocol. *)
Definition by_system {C S} (t : turn C) (s : S) : reply S := Answer (tn_result t) s.

Lemma by_move_inv {S} (o : option S) r r' s : by_move o r = Answer r' s -> o = Some s.
Proof. destruct o; [by intros [= _ ->]|done]. Qed.

Lemma by_senduipi_inv {S} index (o : option S) s r s' : by_senduipi index o s = Answer r s' -> s' = s \/ o = Some s'.
Proof. unfold by_senduipi. destruct (index <? 0); [intros [= _ ->]; by left|]. intros H%by_move_inv. by right. Qed.

Lemma by_clock_inv {C S} (t : turn C) (move : Z -> option S) r s :
  by_clock t move = Answer r s -> exists v, move v = Some s.
Proof. unfold by_clock. destruct (now _ _) as [v|]; [|done]. intros H%by_move_inv. by exists v. Qed.

(** A program in the place of the process: running with the environment's
    choices to come; halted, in a call that does not return or at the end of
    the choices; or astray. *)
Inductive progress := Live | Halted | Astray.

Record world (S T : Type) := mk_world { w_state : S; w_choices : list T; w_progress : progress }.
Arguments mk_world {S T} w_state w_choices w_progress.
Arguments w_state {S T} w.
Arguments w_choices {S T} w.
Arguments w_progress {S T} w.

#[export] Instance link_kernel {S T} `{!Link S T} : Kernel (world S T) := fun c w =>
  match w_progress w, w_choices w with
  | Live, t :: ts =>
      let s := link_others t (w_state w) in
      match link_answer t c s with
      | Answer r s' => (r, mk_world s' ts Live)
      | Waits => (val (-1), mk_world s ts Halted)
      | Strange => (val (-1), mk_world s ts Astray)
      end
  | Live, [] => (val (-1), mk_world (w_state w) [] Halted)
  | _, _ => (val (-1), w)
  end.

Section logic.
Context {S T : Type} `{!Link S T}.
Implicit Types p q : process (world S T).
Implicit Types P : S -> Prop.

(** ** Programs that have halted stay where they are *)
Definition halts {A} (m : M (process (world S T)) A) : Prop :=
  forall p, w_progress (env p) = Halted -> env (m p).2 = env p.

Lemma halts_ret {A} (a : A) : halts (mret a).
Proof. done. Qed.

Lemma halts_die {A} message : halts (A:=A) (die message).
Proof. done. Qed.

Lemma halts_undefined {A} : halts (A:=A) undefined.
Proof. done. Qed.

Lemma halts_running {A} : halts (A:=A) running.
Proof. done. Qed.

Lemma halts_throw_if b message : halts (throw_if b message).
Proof. by destruct b. Qed.

Lemma halts_defined {A} (x : option A) : halts (defined x).
Proof. by destruct x. Qed.

Lemma halts_get_errno : halts get_errno.
Proof. done. Qed.

Lemma halts_of_outcome {A} (o : outcome A) : halts (of_outcome o).
Proof. done. Qed.

Lemma halts_bind {A B} (m : M _ A) (f : A -> M _ B) :
  halts m -> (forall a, halts (f a)) -> halts (a ← m; f a).
Proof.
  intros Hm Hf p Hp. specialize (Hm p Hp). unfold mbind, M_bind.
  destruct (m p) as [[a| | |] q]; cbn [snd] in *; try done.
  rewrite <- Hm in Hp. by rewrite (Hf a q Hp), Hm.
Qed.

Lemma halts_sys c : halts (sys c).
Proof.
  intros p Hp. rewrite sys_eq. destruct p as [e tr [s ts w]]. cbn in *. by subst.
Qed.

Lemma halts_sys_rv c : halts (sys_rv c).
Proof. apply halts_bind; [apply halts_sys|]. intros. apply halts_ret. Qed.

Lemma halts_sys_ c : halts (sys_ c).
Proof. apply halts_bind; [apply halts_sys|]. intros. apply halts_ret. Qed.

(** ** Triples

    [triple P m Q D R]: from a state in [P] the program makes only moves of the
    protocol; unless it halts, it returns in [Q], dies in [D] or runs out of
    fuel in [R], and never runs into undefined behaviour.  A state the program
    halts in is reached by moves too. *)
Definition ends {A} (Q : A -> S -> Prop) (D R : S -> Prop) (o : outcome A) (s : S) : Prop :=
  match o with Done a => Q a s | Died _ => D s | Running => R s | Undefined => False end.

Definition triple {A} P (m : M (process (world S T)) A) (Q : A -> S -> Prop) (D R : S -> Prop) : Prop :=
  forall p, w_progress (env p) = Live -> link_errno (errno p) (w_state (env p)) -> P (w_state (env p)) ->
    rtc link_step (w_state (env p)) (w_state (env (m p).2)) /\
    match w_progress (env (m p).2) with
    | Live => link_errno (errno (m p).2) (w_state (env (m p).2)) /\ ends Q D R (m p).1 (w_state (env (m p).2))
    | Halted => True
    | Astray => False
    end.

Lemma triple_ret {A} P (a : A) Q D R : (forall s, P s -> Q a s) -> triple P (mret a) Q D R.
Proof. intros H p Hp He HP. cbn. rewrite Hp. split; [apply rtc_refl|split; [done|by apply H]]. Qed.

Lemma triple_die {A} P message (Q : A -> S -> Prop) (D R : S -> Prop) :
  (forall s, P s -> D s) -> triple P (die message) Q D R.
Proof. intros H p Hp He HP. cbn. rewrite Hp. split; [apply rtc_refl|split; [done|by apply H]]. Qed.

Lemma triple_running {A} P (Q : A -> S -> Prop) (D R : S -> Prop) :
  (forall s, P s -> R s) -> triple P running Q D R.
Proof. intros H p Hp He HP. cbn. rewrite Hp. split; [apply rtc_refl|split; [done|by apply H]]. Qed.

Lemma triple_bind {A B} P (m : M _ A) (f : A -> M _ B) Q' Q D R :
  (forall a, halts (f a)) -> triple P m Q' D R -> (forall a, triple (Q' a) (f a) Q D R) ->
  triple P (a ← m; f a) Q D R.
Proof.
  intros Hh Hm Hf p Hp He HP. specialize (Hm p Hp He HP). unfold mbind, M_bind.
  destruct (m p) as [[a| | |] q]; cbn [fst snd] in *; try exact Hm.
  destruct Hm as [Hs Hw]. destruct (w_progress (env q)) eqn:E; [|by rewrite (Hh a q E), E|done].
  destruct Hw as [He' Hw]. destruct (Hf a q E He' Hw) as [Hs' Hw']. split; [by etrans|done].
Qed.

Lemma triple_conseq {A} P P' (m : M _ A) Q Q' (D D' R R' : S -> Prop) :
  triple P' m Q' D' R' -> (forall s, P s -> P' s) -> (forall a s, Q' a s -> Q a s) ->
  (forall s, D' s -> D s) -> (forall s, R' s -> R s) -> triple P m Q D R.
Proof.
  intros Hm HP HQ HD HR p Hp He H. destruct (Hm p Hp He (HP _ H)) as [Hs Hw]. split; [done|].
  destruct (w_progress (env (m p).2)); try done. destruct Hw as [Hw' Hw]. split; [done|].
  destruct (m p).1; simpl in *; auto.
Qed.

(** A first part whose value is known. *)
Lemma triple_bind_value {A B} P P' (m : M _ A) v (f : A -> M _ B) Q D R :
  (forall a, halts (f a)) -> triple P m (fun a s => a = v /\ P' s) D R -> triple P' (f v) Q D R ->
  triple P (a ← m; f a) Q D R.
Proof.
  intros Hh Hm Hf. eapply triple_bind; [exact Hh|exact Hm|]. intros a p Hp He [-> HP]. by apply Hf.
Qed.

(** Facts about the values and not the state can be used in the proof. *)
Lemma triple_pure {A} (F : Prop) P (m : M _ A) Q D R :
  (F -> triple P m Q D R) -> triple (fun s => F /\ P s) m Q D R.
Proof. intros H p Hp He [HF HP]. by apply H. Qed.

Lemma triple_known {A} (F : Prop) P (m : M _ A) Q D R :
  (forall s, P s -> F) -> (F -> triple P m Q D R) -> triple P m Q D R.
Proof. intros HF H p Hp He HP. exact (H (HF _ HP) p Hp He HP). Qed.

Lemma triple_exists {A X} (P : X -> S -> Prop) (m : M _ A) Q D R :
  (forall x, triple (P x) m Q D R) -> triple (fun s => exists x, P x s) m Q D R.
Proof. intros H p Hp He [x HP]. by apply (H x). Qed.

Lemma triple_or {A} P1 P2 (m : M _ A) Q D R :
  triple P1 m Q D R -> triple P2 m Q D R -> triple (fun s => P1 s \/ P2 s) m Q D R.
Proof. intros H1 H2 p Hp He [HP|HP]; [by apply H1|by apply H2]. Qed.

(** What the other process cannot change. *)
Definition stable P : Prop := forall t s, P s -> P (link_others t s).

Lemma triple_sys P c Q D R :
  stable P ->
  (forall t s, P s -> match link_answer t c s with Answer r s' => Q r s' | Waits => True | Strange => False end) ->
  triple P (sys c) Q D R.
Proof.
  intros Hst Hc p Hp He HP. rewrite sys_eq. destruct p as [e tr [s [|t ts] w]]; cbn in *; subst.
  - split; [apply rtc_refl|done].
  - unfold kernel, link_kernel. cbn. specialize (Hc t (link_others t s) (Hst t s HP)).
    pose proof (link_others_steps t s) as Hs. apply (link_others_errno t) in He.
    destruct (link_answer t c (link_others t s)) as [r s'| |] eqn:E; cbn; try done.
    split; [etrans; [exact Hs|by eapply link_answer_steps]|]. split; [by eapply link_answer_errno|done].
Qed.

Lemma triple_sys_rv P c Q D R :
  stable P ->
  (forall t s, P s -> match link_answer t c s with Answer r s' => Q (rv r) s' | Waits => True | Strange => False end) ->
  triple P (sys_rv c) Q D R.
Proof.
  intros Hst Hc. eapply (triple_bind _ _ _ (fun r => Q (rv r))); [intros; apply halts_ret| |].
  - by apply triple_sys.
  - intros r. by apply triple_ret.
Qed.

Lemma triple_get_errno P Q D R : (forall e s, link_errno e s -> P s -> Q e s) -> triple P get_errno Q D R.
Proof. intros H p Hp He HP. cbn. rewrite Hp. split; [apply rtc_refl|split; [done|by apply H]]. Qed.

(** A call that is one move of the protocol, with the answer [r]. *)
Lemma triple_move P c r (move : S -> option S) (Q : result -> S -> Prop) D R :
  stable P -> (forall t s, P s -> link_answer t c s = by_move (move s) r) ->
  (forall s s', P s -> move s = Some s' -> Q r s') -> triple P (sys c) Q D R.
Proof.
  intros Hst Ha HQ. apply triple_sys; [done|]. intros t s HP. rewrite (Ha t s HP).
  destruct (move s) as [s'|] eqn:E; [|done]. cbn. by eapply HQ.
Qed.

Lemma triple_ignoring P c Q D R : triple P (sys c) (fun _ => Q) D R -> triple P (sys_ c) (fun _ => Q) D R.
Proof. intros H. eapply triple_bind; [intros; apply halts_ret|exact H|]. intros r. by apply triple_ret. Qed.

Lemma triple_returning P c Q D R : triple P (sys c) (fun r => Q (rv r)) D R -> triple P (sys_rv c) Q D R.
Proof. intros H. eapply triple_bind; [intros; apply halts_ret|exact H|]. intros r. by apply triple_ret. Qed.

Lemma triple_throw_if P b message Q (D R : S -> Prop) :
  (b = true -> forall s, P s -> D s) -> (b = false -> forall s, P s -> Q () s) ->
  triple P (throw_if b message) Q D R.
Proof. intros Ht Hf. destruct b; [apply triple_die|apply triple_ret]; auto. Qed.

(** A sent interrupt, or the fault. *)
Lemma halts_senduipi index : halts (senduipi index).
Proof. apply halts_bind; [apply halts_sys_rv|intros; apply halts_throw_if]. Qed.

Lemma triple_senduipi P index Q (D R : S -> Prop) :
  stable P ->
  (forall t s, P s -> match link_answer t (Senduipi index) s with
     | Answer r s' => if rv r <? 0 then D s' else Q s' | Waits => True | Strange => False end) ->
  triple P (senduipi index) (fun _ => Q) D R.
Proof.
  intros Hst Hc. eapply (triple_bind _ _ _ (fun v s => if v <? 0 then D s else Q s));
    [intros; apply halts_throw_if|by apply triple_sys_rv|].
  intros v. apply triple_throw_if; by intros ->.
Qed.

(** Operations that return without a call. *)
Lemma triple_bind_ret {A B} P a (f : A -> M _ B) Q D R :
  triple P (f a) Q D R -> triple P (x ← mret a; f x) Q D R.
Proof. done. Qed.

Lemma triple_bind_defined {A B} P (x : option A) a (f : A -> M _ B) Q D R :
  x = Some a -> triple P (f a) Q D R -> triple P (x ← defined x; f x) Q D R.
Proof. by intros ->. Qed.

(** A check that passes, and one whose failure is a death in [D]. *)
Lemma triple_bind_passes {B} P b message (f : () -> M _ B) Q D R :
  b = false -> triple P (f ()) Q D R -> triple P (u ← throw_if b message; f u) Q D R.
Proof. by intros ->. Qed.

Lemma triple_bind_check {B} P b message (f : () -> M _ B) Q (D R : S -> Prop) :
  (b = true -> forall s, P s -> D s) -> (b = false -> triple P (f ()) Q D R) ->
  triple P (u ← throw_if b message; f u) Q D R.
Proof.
  intros Ht Hf. destruct b; [|by apply Hf]. exact (triple_die (A:=B) P message Q D R (Ht eq_refl)).
Qed.

(** ** Parts of a program that make no move of the protocol *)
Definition steady {A} P (m : M (process (world S T)) A) : Prop := halts m /\ triple P m (fun _ => P) P (fun _ => False).

Lemma steady_ret {A} P (a : A) : steady P (mret a).
Proof. split; [apply halts_ret|by apply triple_ret]. Qed.

Lemma steady_throw_if P b message : steady P (throw_if b message).
Proof. split; [apply halts_throw_if|by apply triple_throw_if]. Qed.

Lemma steady_bind {A B} P (m : M _ A) (f : A -> M _ B) :
  steady P m -> (forall a, steady P (f a)) -> steady P (a ← m; f a).
Proof.
  intros [Hh Hm] Hf. split; [apply halts_bind; [done|intros; apply Hf]|].
  eapply triple_bind; [intros; apply Hf|exact Hm|intros; apply Hf].
Qed.

Lemma steady_sys P c :
  stable P -> (forall t s, P s -> match link_answer t c s with Answer _ s' => P s' | Waits => True | Strange => False end) ->
  steady P (sys c).
Proof. intros Hs Hc. split; [apply halts_sys|by apply triple_sys]. Qed.

Lemma steady_sys_rv P c : steady P (sys c) -> steady P (sys_rv c).
Proof. intros H. apply steady_bind; [done|]. intros. apply steady_ret. Qed.

Lemma steady_sys_ P c : steady P (sys c) -> steady P (sys_ c).
Proof. intros H. apply steady_bind; [done|]. intros. apply steady_ret. Qed.

Lemma steady_triple {A} P (m : M _ A) R : steady P m -> triple P m (fun _ => P) P R.
Proof. intros [_ H]. by eapply triple_conseq; [exact H|..]. Qed.

Lemma steady_triple_in {A} P (m : M _ A) (D R : S -> Prop) :
  (forall s, P s -> D s) -> steady P m -> triple P m (fun _ => P) D R.
Proof. intros HD [_ H]. by eapply triple_conseq; [exact H|..]. Qed.

(** ** The measuring loop

    The invariant [I n] may depend on the iterations still allowed. *)
Lemma halts_timed_loop {A} fuel clock start_usec (body : A -> M _ A) : forall a cnt,
  halts clock -> (forall a, halts (body a)) -> halts (timed_loop fuel clock start_usec body a cnt).
Proof.
  induction fuel as [|fuel IH]; intros a cnt Hc Hb; cbn [timed_loop]; [apply halts_running|].
  apply halts_bind; [done|]. intros usec. case_match; [apply halts_ret|].
  apply halts_bind; [done|]. intros a'. by apply IH.
Qed.

Lemma triple_timed_loop {A} fuel clock start_usec (body : A -> M _ A) (I J : nat -> A -> Z -> S -> Prop) Q D R :
  halts clock -> (forall a, halts (body a)) ->
  (forall a cnt s, I 0%nat a cnt s -> R s) ->
  (forall n a cnt, triple (I (Datatypes.S n) a cnt) clock
     (fun usec s => if usec - start_usec >? 100000 then Q (a, cnt) s else J n a cnt s) D R) ->
  (forall n a cnt, triple (J n a cnt) (body a) (fun a' => I n a' (u64 (cnt + 1))) D R) ->
  forall a cnt, triple (I fuel a cnt) (timed_loop fuel clock start_usec body a cnt) Q D R.
Proof.
  intros Hhc Hhb HR Hc Hb. induction fuel as [|fuel IH]; intros a cnt; cbn [timed_loop].
  { apply triple_running, HR. }
  eapply triple_bind; [|apply Hc|].
  - intros usec. case_match; [apply halts_ret|]. apply halts_bind; [done|]. intros. by apply halts_timed_loop.
  - intros usec. cbn beta. case_match.
    + by apply triple_ret.
    + eapply triple_bind; [|apply Hb|intros a'; apply IH]. intros. by apply halts_timed_loop.
Qed.

(** A server's loop without an end. *)
Lemma halts_forever fuel (round : M (process (world S T)) ()) : halts round -> halts (forever fuel round).
Proof. intros Hr. induction fuel as [|fuel IH]; cbn [forever]; [apply halts_running|]. by apply halts_bind. Qed.

Lemma triple_forever_in P fuel (round : M _ ()) Q D (R : S -> Prop) :
  halts round -> (forall s, P s -> R s) -> triple P round (fun _ => P) D R -> triple P (forever fuel round) Q D R.
Proof.
  intros Hh HR Hr. induction fuel as [|fuel IH]; cbn [forever]; [by apply triple_running|].
  eapply triple_bind; [intros; by apply halts_forever|exact Hr|done].
Qed.

Lemma triple_forever P fuel (round : M _ ()) Q D :
  halts round -> triple P round (fun _ => P) D P -> triple P (forever fuel round) Q D P.
Proof. intros Hh Hr. by apply triple_forever_in. Qed.

(** ** The clock *)
Lemma halts_read_now : halts read_now.
Proof.
  apply halts_bind; [apply halts_sys|]. intros r.
  destruct (data r) as [|? [|? [|]]]; apply halts_defined || apply halts_undefined.
Qed.

Lemma triple_read_now P Q D R :
  stable P ->
  (forall t s, P s ->
     match link_answer t Timespec_get s with
     | Answer r s' => exists sec nsec v, data r = [sec; nsec] /\ now sec nsec = Some v /\ Q v s'
     | Waits => True | Strange => False
     end) ->
  triple P read_now Q D R.
Proof.
  intros Hst Hc. unfold read_now.
  eapply (triple_bind _ _ _ (fun r s' => exists sec nsec v, data r = [sec; nsec] /\ now sec nsec = Some v /\ Q v s')).
  - intros r. destruct (data r) as [|? [|? [|]]]; apply halts_defined || apply halts_undefined.
  - by apply triple_sys.
  - intros r p Hp He (sec & nsec & v & Hd & Hn & HQ). rewrite Hd, Hn. cbn. rewrite Hp. split; [apply rtc_refl|done].
Qed.

Lemma triple_gettimeofday P Q D R :
  stable P ->
  (forall t s, P s ->
     match link_answer t Gettimeofday s with
     | Answer r s' => exists sec usec, data r = [sec; usec] /\ Q usec s'
     | Waits => True | Strange => False
     end) ->
  triple P gettimeofday_usec Q D R.
Proof.
  intros Hst Hc. unfold gettimeofday_usec.
  eapply (triple_bind _ _ _ (fun r s' => exists sec usec, data r = [sec; usec] /\ Q usec s')).
  - intros r. destruct (data r) as [|? [|? [|]]]; apply halts_ret || apply halts_undefined.
  - by apply triple_sys.
  - intros r p Hp He (sec & usec & Hd & HQ). rewrite Hd. cbn. rewrite Hp. split; [apply rtc_refl|done].
Qed.

End logic.

#[export] Hint Resolve halts_ret halts_die halts_undefined halts_running halts_throw_if halts_defined
  halts_of_outcome halts_get_errno halts_sys halts_sys_rv halts_sys_ halts_read_now halts_senduipi : halts.

(** Proves [steady P m] for straight-line programs, leaving the calls. *)
Ltac steadying :=
  intros; repeat first
    [ simple apply steady_ret | simple apply steady_throw_if
    | simple apply steady_sys_rv | simple apply steady_sys_
    | simple apply steady_bind; [|intros ?]
    | case_match ].

(** Proves [halts m] by the structure of [m]. *)
Ltac halting :=
  intros; repeat first
    [ solve [auto with halts nocore]
    | simple apply halts_bind; [|intros ?]
    | case_match ].

(** ** What a measuring client's record holds

    The measurements started at the timestamps [starts]. *)
Definition measured (bench0 : Benchmarks) (starts : list Z) (bench : Benchmarks) : Prop :=
  exists ends, length ends = length starts /\ measures bench0 (zip starts ends) = Some bench /\
    count bench = count bench0 + Z.of_nat (length starts).

Lemma measured_nil bench : measured bench [] bench.
Proof. exists []. cbn. split_and!; [done|done|lia]. Qed.

Lemma measures_app ms ms' : forall bench, measures bench (ms ++ ms') = b ← measures bench ms; measures b ms'.
Proof.
  induction ms as [|m ms IH]; intros bench; [done|]. cbn. destruct (measure bench m); [apply IH|done].
Qed.

Lemma measured_snoc bench0 starts bench v t bench' :
  measured bench0 starts bench -> benchmark t (set_single_start bench v) = Some bench' ->
  measured bench0 (starts ++ [v]) bench'.
Proof.
  intros (ends & Hl & Hm & Hc) Hb. exists (ends ++ [t]).
  pose proof (benchmark_count _ _ _ Hb) as Hn. cbn in Hn. rewrite !length_app. cbn. split_and!; [lia| |lia].
  rewrite zip_with_app by done. rewrite measures_app, Hm. cbn. unfold measure. cbn. by rewrite Hb.
Qed.

Lemma benchmark_defined t bench :
  0 <= count bench < INT32_MAX -> exists bench', benchmark t bench = Some bench'.
Proof.
  intros H. unfold benchmark. rewrite i32_checked_small by (unfold INT32_MIN, INT32_MAX in *; lia).
  by eexists.
Qed.

(** The operations of the record are one reading of the clock each. *)
Section record.
Context {S T : Type} `{!Link S T}.
Implicit Types P Q D R : S -> Prop.

Lemma triple_setup_benchmarks P Q bench D R :
  triple P read_now (fun _ => Q) D R -> triple P (setup_benchmarks_call bench) (fun b s => count b = 0 /\ Q s) D R.
Proof.
  intros H. eapply triple_bind; [intros; apply halts_ret|exact H|]. intros t. by apply triple_ret.
Qed.

Lemma triple_start_single P Q bench D R :
  triple P read_now (fun _ => Q) D R -> triple P (start_single bench) (fun b s => count b = count bench /\ Q s) D R.
Proof.
  intros H. eapply triple_bind; [intros; apply halts_ret|exact H|]. intros t. by apply triple_ret.
Qed.

Lemma triple_benchmark P Q bench D R :
  0 <= count bench < INT32_MAX -> triple P read_now (fun _ => Q) D R ->
  triple P (benchmark_call bench)
    (fun b s => count b = count bench + 1 /\ (exists t, benchmark t bench = Some b) /\ Q s) D R.
Proof.
  intros Hc H. eapply triple_bind; [intros; apply halts_defined|exact H|]. intros t.
  destruct (benchmark_defined t bench Hc) as [b Hb]. rewrite Hb. apply triple_ret. intros s HQ.
  split; [by rewrite (benchmark_count _ _ _ Hb)|]. split; [by exists t|done].
Qed.

(** A server's: the count is what matters. *)
Lemma triple_benchmark_count P Q bench D R :
  0 <= count bench < INT32_MAX -> triple P read_now (fun _ => Q) D R ->
  triple P (benchmark_call bench) (fun b s => count b = count bench + 1 /\ Q s) D R.
Proof.
  intros Hc H. eapply triple_conseq; [by apply triple_benchmark|done| |done|done]. by intros b s (? & _ & ?).
Qed.

(** A client's, which starts from the value it has received. *)
Lemma triple_benchmark_from P (Q : Z -> S -> Prop) bench v D R :
  0 <= count bench < INT32_MAX -> triple P read_now (fun _ => Q v) D R ->
  triple P (benchmark_call (set_single_start bench v))
    (fun b s => exists v', (exists t, benchmark t (set_single_start bench v') = Some b) /\ Q v' s) D R.
Proof.
  intros Hc H. eapply triple_conseq; [by apply triple_benchmark|done| |done|done].
  intros b s (_ & Hb & HQ). by exists v.
Qed.

End record.

Section client.
Context {S T : Type} `{!Link S T} {A : Type}.
Abbreviation W := (world S T).
(** The client before its time test, after one that goes on and one that stops,
    with the values received so far; its record among its variables [A]. *)
Context (check go stop : list Z -> S -> Prop) (good : A -> Prop) (bench_of : A -> Benchmarks).
Context (start : Z) (body : A -> M (process W) A) (D R : S -> Prop).
Hypothesis halts_body : forall a, halts (body a).
Hypothesis check_runs : forall rcv s, check rcv s -> R s.
Hypothesis clock_tests : forall rcv, triple (check rcv) (gettimeofday_usec (W:=W))
  (fun usec s => if usec - start >? 100000 then stop rcv s else go rcv s) D R.
Hypothesis body_measures : forall rcv a, good a -> 0 <= count (bench_of a) < INT32_MAX ->
  triple (go rcv) (body a) (fun a' s => good a' /\ exists v,
    (exists t, benchmark t (set_single_start (bench_of a) v) = Some (bench_of a')) /\ check (rcv ++ [v]) s) D R.

(** With fuel for [n] iterations the count cannot overflow. *)
Lemma client_loops fuel a0 :
  good a0 -> 0 <= count (bench_of a0) -> count (bench_of a0) + Z.of_nat fuel <= INT32_MAX ->
  triple (check []) (timed_loop fuel gettimeofday_usec start body a0 0)
    (fun r s => exists rcv, measured (bench_of a0) rcv (bench_of r.1) /\ r.2 = Z.of_nat (length rcv) /\ stop rcv s)
    D R.
Proof.
  intros Hg Hc Hf.
  pose (ok n a cnt rcv := good a /\ measured (bench_of a0) rcv (bench_of a) /\ cnt = Z.of_nat (length rcv) /\
    (length rcv + n = fuel)%nat).
  eapply (triple_conseq _ (fun s => exists rcv, ok fuel a0 0 rcv /\ check rcv s)); [|idtac|exact (fun _ _ H => H)|done|exact (fun _ H => H)].
  - apply (triple_timed_loop _ _ _ _ (fun n a cnt s => exists rcv, ok n a cnt rcv /\ check rcv s)
      (fun n a cnt s => exists rcv, ok (Datatypes.S n) a cnt rcv /\ go rcv s)); [|done| | |].
    + unfold gettimeofday_usec. halting.
    + intros a cnt s (rcv & _ & H). by eapply check_runs.
    + intros n a cnt. apply triple_exists. intros rcv. apply triple_pure. intros Hok.
      eapply triple_conseq; [apply clock_tests|done| |done|exact (fun _ H => H)].
      intros usec s H. cbn beta in H. case_match; exists rcv; [|done].
      destruct Hok as (_ & Hm & -> & _). by split_and!.
    + intros n a cnt. apply triple_exists. intros rcv. apply triple_pure. intros (Hga & Hm & -> & Hn).
      assert (Hcnt : count (bench_of a) = count (bench_of a0) + Z.of_nat (length rcv)) by (by destruct Hm as (? & ? & ? & ?)).
      eapply triple_conseq; [apply body_measures; [done|]|done| |done|exact (fun _ H => H)]; [lia|].
      intros a' s (Hga' & v & [t Hb] & Hs). exists (rcv ++ [v]). split; [|done].
      split_and!; [done|by eapply measured_snoc| |rewrite length_app; cbn; lia].
      rewrite u64_small by (unfold INT32_MAX in *; lia). rewrite length_app. cbn. lia.
  - intros s H. exists []. split; [|done]. split_and!; [done|apply measured_nil|done|done].
Qed.

End client.
