(* ===== verification/Together.v ===== *)
(** * Two programs together

    [Linking] runs one program in the place of a process, beside any moves of
    the other process.  Here both processes are their programs: they make their
    calls in any order, each call is answered from the state they share, and
    nothing else moves.  The triples of the two programs carry over, so that a
    pair of programs only makes moves of the protocol, and what is proved of
    each of them beside the protocol holds beside the other program. *)
From S2P Require Import Prelude Kernel Benchmarks Linking.

Create HintDb interactive.
Create HintDb stable.

(** ** A program call by call

    A program is a function of the results of its calls, so the results [rs] of
    its first calls tell what it does next: a call, or its end. *)
Definition next_call {A} (m : M (process script) A) (rs : script) : option syscall :=
  calls_on m rs !! length rs.

(** ** The calls of a program as a tree

    [Asks c k]: the call [c], then [k] of its result; [Ends o e]: the end, with
    the value of [errno]. *)
Inductive tree (A : Type) := Ends (o : outcome A) (e : Z) | Asks (c : syscall) (k : result -> tree A).
Arguments Ends {A} o e.
Arguments Asks {A} c k.

Fixpoint run_tree {W A} `{!Kernel W} (t : tree A) (tr : list (syscall * result)) (w : W) : outcome A * process W :=
  match t with
  | Ends o e => (o, mk_process e tr w)
  | Asks c k => let '(r, w) := kernel c w in run_tree (k r) (tr ++ [(c, r)]) w
  end.

Fixpoint graft {A B} (t : tree A) (f : A -> Z -> tree B) : tree B :=
  match t with
  | Ends (Done a) e => f a e
  | Ends (Died msg) e => Ends (Died msg) e
  | Ends Undefined e => Ends Undefined e
  | Ends Running e => Ends Running e
  | Asks c k => Asks c (fun r => graft (k r) f)
  end.

(** A program that does nothing but call the kernel: for every kernel it is one
    tree, which may depend on [errno]. *)
Definition interactive {A} (m : forall W, Kernel W -> M (process W) A) : Type :=
  { f : Z -> tree A | forall W (K : Kernel W) p, m W K p = run_tree (f (errno p)) (trace p) (env p) }.

Lemma interactive_pure {A} (o : outcome A) : interactive (fun W _ (p : process W) => (o, p)).
Proof. exists (Ends o). by intros W K [e tr w]. Qed.

Lemma interactive_ret {A} (a : A) : interactive (fun W _ => mret a).
Proof. apply (interactive_pure (Done a)). Qed.

Lemma interactive_die {A} message : interactive (A:=A) (fun W _ => die message).
Proof. apply (interactive_pure (Died message)). Qed.

Lemma interactive_undefined {A} : interactive (A:=A) (fun W _ => undefined).
Proof. apply (interactive_pure Undefined). Qed.

Lemma interactive_running {A} : interactive (A:=A) (fun W _ => running).
Proof. apply (interactive_pure Running). Qed.

Lemma interactive_of_outcome {A} (o : outcome A) : interactive (fun W _ => of_outcome o).
Proof. apply interactive_pure. Qed.

Lemma interactive_throw_if b message : interactive (fun W _ => throw_if b message).
Proof. destruct b; [apply interactive_die|apply interactive_ret]. Qed.

Lemma interactive_defined {A} (x : option A) : interactive (fun W _ => defined x).
Proof. destruct x; [apply interactive_ret|apply interactive_undefined]. Qed.

Lemma interactive_get_errno : interactive (fun W _ => get_errno).
Proof. exists (fun e => Ends (Done e) e). by intros W K [e tr w]. Qed.

Lemma interactive_sys c : interactive (fun W _ => sys c).
Proof.
  exists (fun e => Asks c (fun r => Ends (Done r) (if rv r =? -1 then err r else e))).
  intros W K [e tr w]. unfold sys. cbn. by destruct (kernel c w).
Qed.

Lemma graft_run {W A B} `{!Kernel W} (f : A -> Z -> tree B) (t : tree A) : forall tr (w : W),
  run_tree (graft t f) tr w =
    match run_tree t tr w with
    | (Done a, p) => run_tree (f a (errno p)) (trace p) (env p)
    | (Died msg, p) => (Died msg, p)
    | (Undefined, p) => (Undefined, p)
    | (Running, p) => (Running, p)
    end.
Proof.
  induction t as [[a|msg| |] e|c k IH]; intros tr w; try done.
  cbn. destruct (kernel c w) as [r w']. apply IH.
Qed.

Lemma interactive_bind {A B} (m : forall W, Kernel W -> M (process W) A) (f : forall W, Kernel W -> A -> M (process W) B) :
  interactive m -> (forall a, interactive (fun W K => f W K a)) -> interactive (fun W K => a ← m W K; f W K a).
Proof.
  intros [tm Hm] Hf. exists (fun e => graft (tm e) (fun a => proj1_sig (Hf a))).
  intros W K p. rewrite graft_run, <- Hm. unfold mbind, M_bind. destruct (m W K p) as [[a| | |] q]; try done.
  exact (proj2_sig (Hf a) W K q).
Qed.

Lemma interactive_sys_rv c : interactive (fun W _ => sys_rv c).
Proof.
  apply (interactive_bind (fun W _ => sys c) (fun W _ r => mret (rv r)));
    [apply interactive_sys|intros; apply interactive_ret].
Qed.

Lemma interactive_sys_ c : interactive (fun W _ => sys_ c).
Proof.
  apply (interactive_bind (fun W _ => sys c) (fun W _ r => mret ()));
    [apply interactive_sys|intros; apply interactive_ret].
Qed.

Lemma interactive_senduipi index : interactive (fun W _ => senduipi index).
Proof.
  apply (interactive_bind (fun W _ => sys_rv (Senduipi index)) (fun W _ r => throw_if (r <? 0) "Segmentation fault"));
    [apply interactive_sys_rv|intros; apply interactive_throw_if].
Qed.

(** The measuring loop of the clients. *)
Lemma interactive_gettimeofday : interactive (fun W _ => gettimeofday_usec (W:=W)).
Proof.
  apply (interactive_bind (fun W _ => sys Gettimeofday)); [apply interactive_sys|]. intros r.
  destruct (data r) as [|? [|? [|]]]; apply interactive_ret || apply interactive_undefined.
Qed.

Lemma interactive_timed_loop {A} fuel start (body : forall W, Kernel W -> A -> M (process W) A) :
  (forall a, interactive (fun W K => body W K a)) ->
  forall a cnt, interactive (fun W K => timed_loop fuel (gettimeofday_usec (W:=W)) start (body W K) a cnt).
Proof.
  intros Hb. induction fuel as [|fuel IH]; intros a cnt; cbn [timed_loop]; [apply interactive_running|].
  apply (interactive_bind (fun W _ => gettimeofday_usec (W:=W))); [apply interactive_gettimeofday|]. intros usec.
  destruct (_ >? _); [apply interactive_ret|].
  apply (interactive_bind (fun W K => body W K a)); [apply Hb|]. intros a'. apply IH.
Qed.

(** What is left of a program after the results of its first calls. *)
Fixpoint after {A} (t : tree A) (rs : script) {struct rs} : option (tree A) :=
  match rs, t with
  | [], _ => Some t
  | r :: rs, Asks _ k => after (k r) rs
  | _ :: _, Ends _ _ => None
  end.

Lemma after_snoc {A} rs r : forall (t : tree A) c k, after t rs = Some (Asks c k) -> after t (rs ++ [r]) = Some (k r).
Proof.
  induction rs as [|r' rs IH]; intros t c k H; cbn in *; [by simplify_eq/=|].
  destruct t as [|c' k']; [done|]. by eapply IH.
Qed.

Lemma run_tree_trace {W A} `{!Kernel W} (t : tree A) : forall tr (w : W),
  exists tr', trace (run_tree t tr w).2 = tr ++ tr'.
Proof.
  induction t as [o e|c k IH]; intros tr w; cbn; [exists []; by rewrite app_nil_r|].
  destruct (kernel c w) as [r w']. destruct (IH r (tr ++ [(c, r)]) w') as [tr' ->]. exists ((c, r) :: tr').
  by rewrite <- app_assoc.
Qed.

Lemma run_tree_script {A} (rs : script) : forall (t t' : tree A) tr,
  after t rs = Some t' ->
  match t' with
  | Ends o _ => (run_tree t tr rs).1 = o /\ length (trace (run_tree t tr rs).2) = (length tr + length rs)%nat
  | Asks c _ => (trace (run_tree t tr rs).2).*1 !! (length tr + length rs)%nat = Some c
  end.
Proof.
  induction rs as [|r rs IH]; intros t t' tr H; cbn in H.
  - injection H as <-. rewrite Nat.add_0_r. destruct t as [o e|c k]; [done|]. cbn [run_tree].
    change (kernel c []) with (mk_result 0 0 [], [] : script). cbn iota.
    destruct (run_tree_trace (k (mk_result 0 0 [])) (tr ++ [(c, mk_result 0 0 [])]) ([] : script)) as [tr' ->].
    rewrite <- app_assoc, fmap_app, lookup_app_r by (by rewrite length_fmap).
    by rewrite length_fmap, Nat.sub_diag.
  - destruct t as [o e|c k]; [done|]. specialize (IH _ _ (tr ++ [(c, r)]) H).
    cbn [run_tree]. change (kernel c (r :: rs)) with (r, rs). cbn iota.
    rewrite length_app in IH. cbn [length] in *.
    replace (length tr + S (length rs))%nat with (length tr + 1 + length rs)%nat by lia. exact IH.
Qed.

(** The trace only records. *)
Lemma run_tree_records {W A} `{!Kernel W} (t : tree A) : forall tr tr' (w : W),
  (run_tree t tr w).1 = (run_tree t tr' w).1 /\ env (run_tree t tr w).2 = env (run_tree t tr' w).2.
Proof.
  induction t as [o e|c k IH]; intros tr tr' w; [done|]. cbn. destruct (kernel c w) as [r w']. apply IH.
Qed.

Section replay.
Context {A : Type} (m : forall W, Kernel W -> M (process W) A) (Hm : interactive m).

(** [left_after rs t]: after the results [rs] the program is [t]. *)
Definition left_after (rs : script) (t : tree A) : Prop := after (proj1_sig Hm 0) rs = Some t.

Lemma left_after_ends rs o e :
  left_after rs (Ends o e) -> next_call (m _ _) rs = None /\ outcome_on (m _ _) rs = o.
Proof.
  intros H. pose proof (run_tree_script rs _ _ [] H) as [Ho Hl]. unfold next_call, outcome_on, calls_on.
  rewrite (proj2_sig Hm script _ (start rs)). split; [|done].
  apply lookup_ge_None. rewrite length_fmap. cbn in *. lia.
Qed.

Lemma left_after_asks rs c k :
  left_after rs (Asks c k) -> next_call (m _ _) rs = Some c.
Proof.
  intros H. pose proof (run_tree_script rs _ _ [] H) as Hc. unfold next_call, calls_on.
  by rewrite (proj2_sig Hm script _ (start rs)).
Qed.

Lemma left_after_next rs t c :
  left_after rs t -> next_call (m _ _) rs = Some c -> exists k, t = Asks c k.
Proof.
  intros H Hn. destruct t as [o e|c' k].
  - by rewrite (proj1 (left_after_ends _ _ _ H)) in Hn.
  - exists k. rewrite (left_after_asks _ _ _ H) in Hn. by injection Hn as ->.
Qed.

End replay.

(** ** Two programs on one state *)

Record joint (S : Type) := mk_joint { j_state : S; j_first : script; j_second : script }.
Arguments mk_joint {S} j_state j_first j_second.
Arguments j_state {S} j.
Arguments j_first {S} j.
Arguments j_second {S} j.

(** The choices for a call can be taken without moves of the other process, or
    after more of them. *)
Class Choices (S T : Type) `{!Link S T} := {
  link_alone : T -> T;
  link_alone_others t s : link_others (link_alone t) s = s;
  link_then : T -> T -> T;
  link_then_others t1 t2 s : link_others (link_then t1 t2) s = link_others t2 (link_others t1 s);
  link_then_answer t1 t2 c s : link_answer (link_then t1 t2) c s = link_answer t2 c s;
}.

(** One of the two makes its next call, without moves of the other process: of
    the choices only the clock and the results of calls that are not moves are
    used. *)
Inductive joint_step {S TA TB A B} `{!Link S TA} `{!Link S TB} `{!Choices S TA} `{!Choices S TB}
    (ma : M (process script) A) (mb : M (process script) B) : joint S -> joint S -> Prop :=
  | First_calls t c r s s' ra rb :
      next_call ma ra = Some c -> link_answer (T:=TA) (link_alone t) c s = Answer r s' ->
      joint_step ma mb (mk_joint s ra rb) (mk_joint s' (ra ++ [r]) rb)
  | Second_calls t c r s s' ra rb :
      next_call mb rb = Some c -> link_answer (T:=TB) (link_alone t) c s = Answer r s' ->
      joint_step ma mb (mk_joint s ra rb) (mk_joint s' ra (rb ++ [r])).

(** The same, for a given schedule: whose call it is, with its choices. *)
Definition joint_move {S TA TB A B} `{!Link S TA} `{!Link S TB} `{!Choices S TA} `{!Choices S TB}
    (ma : M (process script) A) (mb : M (process script) B)
    (t : TA + TB) (j : joint S) : option (joint S) :=
  let 'mk_joint s ra rb := j in
  match t with
  | inl t =>
      c ← next_call ma ra;
      match link_answer (T:=TA) (link_alone t) c s with Answer r s' => Some (mk_joint s' (ra ++ [r]) rb) | _ => None end
  | inr t =>
      c ← next_call mb rb;
      match link_answer (T:=TB) (link_alone t) c s with Answer r s' => Some (mk_joint s' ra (rb ++ [r])) | _ => None end
  end.

Lemma joint_move_step {S TA TB A B} `{!Link S TA} `{!Link S TB} `{!Choices S TA} `{!Choices S TB}
    (ma : M (process script) A) (mb : M (process script) B) t j j' :
  joint_move (TA:=TA) (TB:=TB) ma mb t j = Some j' -> joint_step (TA:=TA) (TB:=TB) ma mb j j'.
Proof.
  destruct j as [s ra rb], t as [t|t]; cbn [joint_move]; intros H.
  - destruct (next_call ma ra) as [c|] eqn:E; [|done]. cbn in H.
    destruct (link_answer (link_alone t) c s) eqn:Ea; try done. injection H as <-. by eapply First_calls.
  - destruct (next_call mb rb) as [c|] eqn:E; [|done]. cbn in H.
    destruct (link_answer (link_alone t) c s) eqn:Ea; try done. injection H as <-. by eapply Second_calls.
Qed.

(** The calls of the one process are moves that the other one expects. *)
Class Beside (S TA TB : Type) `{!Link S TA} `{!Link S TB} `{!Choices S TB} := {
  beside_moves tb c s r s' : link_answer (T:=TB) (link_alone tb) c s = Answer r s' -> exists ta, link_others (T:=TA) ta s = s';
}.

(** One program of the two, at the state [s]: it has ended as its triple says,
    or its next call is one that its process makes there. *)
Definition abides {S T A} `{!Link S T} `{!Choices S T} (m : M (process script) A) (Q : A -> S -> Prop) (D R : S -> Prop)
    (rs : script) (s : S) : Prop :=
  match next_call m rs with
  | None => ends Q D R (outcome_on m rs) s
  | Some c => forall t, link_answer (T:=T) (link_alone t) c s <> Strange
  end.

Section residual.
Context {S T A : Type} `{!Link S T} `{!Choices S T}.
Context (Q : A -> S -> Prop) (D R : S -> Prop).

(** The rest of a program is fine from [s], whatever the choices. *)
Definition fine (t : tree A) (s : S) : Prop :=
  forall ts, let p := run_tree t [] (mk_world s ts Live) in
  match w_progress (env p.2) with
  | Live => ends Q D R p.1 (w_state (env p.2))
  | Halted => True
  | Astray => False
  end.

Lemma fine_ends o e s : fine (Ends o e) s -> ends Q D R o s.
Proof. intros H. exact (H []). Qed.

Lemma run_tree_stopped (t : tree A) : forall tr s ts w,
  w <> Live -> w_progress (env (run_tree t tr (mk_world s ts w)).2) = w.
Proof.
  induction t as [o e|c k IH]; intros tr s ts w Hw; [done|].
  cbn [run_tree]. unfold kernel, link_kernel. cbn [w_progress]. destruct w; [done| |]; by apply IH.
Qed.

(** The first call of the rest, with the other process's moves before it. *)
Lemma fine_first c k s t :
  fine (Asks c k) s ->
  match link_answer t c (link_others t s) with Answer r s' => fine (k r) s' | Waits => True | Strange => False end.
Proof.
  intros H. assert (Hr : forall ts, run_tree (Asks c k) [] (mk_world s (t :: ts) Live) =
    let '(r, w) := match link_answer t c (link_others t s) with
      | Answer r s' => (r, mk_world s' ts Live)
      | Waits => (val (-1), mk_world (link_others t s) ts Halted)
      | Strange => (val (-1), mk_world (link_others t s) ts Astray)
      end in run_tree (k r) [(c, r)] w) by done.
  destruct (link_answer t c (link_others t s)) as [r s'| |]; [|done|].
  - intros ts. specialize (H (t :: ts)). rewrite Hr in H.
    destruct (run_tree_records (k r) [(c, r)] [] (mk_world s' ts Live)) as [E1 E2]. cbn in *. by rewrite <- E1, <- E2.
  - specialize (H [t]). rewrite Hr in H. cbv zeta beta iota in H. by rewrite run_tree_stopped in H.
Qed.

Lemma fine_asks c k s t :
  fine (Asks c k) s ->
  match link_answer (link_alone t) c s with Answer r s' => fine (k r) s' | Waits => True | Strange => False end.
Proof. intros H%(fine_first _ _ _ (link_alone t)). by rewrite link_alone_others in H. Qed.

(** Moves of the other process leave the rest fine, when what is said of the
    end is stable. *)
Hypothesis stable_Q : forall a, stable (Q a).
Hypothesis stable_D : stable D.
Hypothesis stable_R : stable R.

Lemma fine_others (t : tree A) s t0 : fine t s -> fine t (link_others t0 s).
Proof.
  intros H ts. destruct t as [o e|c k].
  - specialize (H []). cbn in *. destruct o; [by apply stable_Q|by apply stable_D|done|by apply stable_R].
  - destruct ts as [|t1 ts].
    + cbn [run_tree]. unfold kernel at 1, link_kernel at 1. cbn. by rewrite run_tree_stopped.
    + specialize (H (link_then t0 t1 :: ts)). cbn [run_tree] in *. unfold kernel at 1, link_kernel at 1 in H.
      unfold kernel at 1, link_kernel at 1. cbn in *. by rewrite link_then_others, link_then_answer in H.
Qed.

Lemma fine_abides (m : forall W, Kernel W -> M (process W) A) (Hm : interactive m) rs t s :
  left_after m Hm rs t -> fine t s -> abides (T:=T) (m _ _) Q D R rs s.
Proof.
  intros Hl Hf. unfold abides. destruct t as [o e|c k].
  - destruct (left_after_ends _ _ _ _ _ Hl) as [-> ->]. exact (fine_ends _ _ _ Hf).
  - rewrite (left_after_asks _ _ _ _ _ Hl). intros t E. pose proof (fine_asks _ _ _ t Hf) as H'. by rewrite E in H'.
Qed.

(** A triple of the whole program. *)
Lemma fine_triple (m : forall W, Kernel W -> M (process W) A) (Hm : interactive m) P s :
  triple P (m _ _) Q D R -> P s -> link_errno 0 s -> fine (proj1_sig Hm 0) s.
Proof.
  intros Ht HP He ts. destruct (Ht (mk_process 0 [] (mk_world s ts Live)) eq_refl He HP) as [_ Hw].
  rewrite (proj2_sig Hm _ _ (mk_process 0 [] (mk_world s ts Live))) in Hw. cbn in *.
  destruct (w_progress _); [by destruct Hw|done|done].
Qed.

End residual.

(** Two programs that abide go on when one of the processes can, as long as an
    expected and possible call is answered. *)
Lemma joint_goes_on {S TA TB A B} `{!Link S TA} `{!Link S TB} `{!Choices S TA} `{!Choices S TB}
    (ma : M (process script) A) (mb : M (process script) B)
    QA QB (DA DB RA RB can_a can_b : S -> Prop) j :
  (forall c s, (forall t, link_answer (T:=TA) (link_alone t) c s <> Strange) -> can_a s ->
     exists t r s', link_answer (T:=TA) (link_alone t) c s = Answer r s') ->
  (forall c s, (forall t, link_answer (T:=TB) (link_alone t) c s <> Strange) -> can_b s ->
     exists t r s', link_answer (T:=TB) (link_alone t) c s = Answer r s') ->
  abides (T:=TA) ma QA DA RA (j_first j) (j_state j) -> abides (T:=TB) mb QB DB RB (j_second j) (j_state j) ->
  can_a (j_state j) \/ can_b (j_state j) ->
  (exists j', joint_step (TA:=TA) (TB:=TB) ma mb j j') \/ next_call ma (j_first j) = None \/ next_call mb (j_second j) = None.
Proof.
  destruct j as [s ra rb]. cbn [j_state j_first j_second]. unfold abides. intros Ha Hb Haa Hab Hcan.
  destruct (next_call ma ra) as [c|] eqn:Ea; [|by right; left].
  destruct (next_call mb rb) as [d|] eqn:Eb; [|by right; right]. left. destruct Hcan as [Hcan|Hcan].
  - destruct (Ha c s Haa Hcan) as (t & r & s' & E). eexists. eapply First_calls; [exact Ea|exact E].
  - destruct (Hb d s Hab Hcan) as (t & r & s' & E). eexists. eapply Second_calls; [exact Eb|exact E].
Qed.

(** ** The triples of two programs hold of the pair *)
Section pair.
Context {S TA TB A B : Type} `{LA : !Link S TA} `{LB : !Link S TB} `{!Choices S TA} `{!Choices S TB}.
Context `{!Beside S TA TB} `{!Beside S TB TA}.
Context (ma : forall W, Kernel W -> M (process W) A) (mb : forall W, Kernel W -> M (process W) B).
Context (ia : interactive ma) (ib : interactive mb).
Context (PA PB : S -> Prop) (QA : A -> S -> Prop) (QB : B -> S -> Prop) (DA DB RA RB : S -> Prop).
Hypothesis triple_first : triple (T:=TA) PA (ma _ _) QA DA RA.
Hypothesis triple_second : triple (T:=TB) PB (mb _ _) QB DB RB.
Hypothesis stable_QA : forall a, stable (T:=TA) (QA a).
Hypothesis stable_DA : stable (T:=TA) DA.
Hypothesis stable_RA : stable (T:=TA) RA.
Hypothesis stable_QB : forall b, stable (T:=TB) (QB b).
Hypothesis stable_DB : stable (T:=TB) DB.
Hypothesis stable_RB : stable (T:=TB) RB.

Definition joint_ok (j : joint S) : Prop :=
  (exists t, left_after ma ia (j_first j) t /\ fine (T:=TA) QA DA RA t (j_state j)) /\
  (exists t, left_after mb ib (j_second j) t /\ fine (T:=TB) QB DB RB t (j_state j)).

Lemma joint_ok_step j j' : joint_ok j -> joint_step (TA:=TA) (TB:=TB) (ma _ _) (mb _ _) j j' -> joint_ok j'.
Proof.
  intros [(ta & Hla & Hfa) (tb & Hlb & Hfb)] Hs. destruct Hs as [t c r s s' ra rb Hn Ha|t c r s s' ra rb Hn Ha]; cbn in *.
  - destruct (left_after_next _ _ _ _ _ Hla Hn) as [k ->]. split.
    + exists (k r). split; [by eapply after_snoc|]. pose proof (fine_asks _ _ _ _ _ _ t Hfa) as Hk. by rewrite Ha in Hk.
    + exists tb. split; [done|]. destruct (beside_moves _ _ _ _ _ Ha) as [t0 <-]. by apply fine_others.
  - destruct (left_after_next _ _ _ _ _ Hlb Hn) as [k ->]. split.
    + exists ta. split; [done|]. destruct (beside_moves _ _ _ _ _ Ha) as [t0 <-]. by apply fine_others.
    + exists (k r). split; [by eapply after_snoc|]. pose proof (fine_asks _ _ _ _ _ _ t Hfb) as Hk. by rewrite Ha in Hk.
Qed.

Lemma joint_sound s0 j :
  PA s0 -> PB s0 -> link_errno (T:=TA) 0 s0 -> link_errno (T:=TB) 0 s0 ->
  rtc (joint_step (TA:=TA) (TB:=TB) (ma _ _) (mb _ _)) (mk_joint s0 [] []) j ->
  abides (T:=TA) (ma _ _) QA DA RA (j_first j) (j_state j) /\
  abides (T:=TB) (mb _ _) QB DB RB (j_second j) (j_state j).
Proof.
  intros HA HB HeA HeB Hr. assert (Hj : joint_ok j).
  { eapply inv_rtc; [exact joint_ok_step| |exact Hr]. split.
    - exists (proj1_sig ia 0). split; [done|]. by apply (fine_triple _ _ _ _ _ PA).
    - exists (proj1_sig ib 0). split; [done|]. by apply (fine_triple _ _ _ _ _ PB). }
  destruct Hj as [(ta & Hla & Hfa) (tb & Hlb & Hfb)]. split; by eapply fine_abides.
Qed.

Lemma joint_steps s0 j :
  (forall s s', link_step (T:=TB) s s' -> link_step (T:=TA) s s') ->
  rtc (joint_step (TA:=TA) (TB:=TB) (ma _ _) (mb _ _)) (mk_joint s0 [] []) j -> rtc (link_step (T:=TA)) s0 (j_state j).
Proof.
  intros Hsub Hr.
  apply (inv_rtc (joint_step (TA:=TA) (TB:=TB) (ma _ _) (mb _ _)) (fun j => rtc (link_step (T:=TA)) s0 (j_state j))
    (mk_joint s0 [] []) j); [|apply rtc_refl|exact Hr].
  intros a b Ha Hs. destruct Hs as [t c r s s' ra rb _ E|t c r s s' ra rb _ E]; cbn in *;
    apply link_answer_steps in E; (etrans; [exact Ha|]); [done|].
  eapply rtc_subrel; [|exact E]. exact Hsub.
Qed.

End pair.

#[export] Hint Resolve interactive_ret interactive_die interactive_undefined interactive_running
  interactive_of_outcome interactive_throw_if interactive_defined interactive_get_errno interactive_sys
  interactive_sys_rv interactive_sys_ interactive_senduipi : interactive.

(** Proves [interactive m] by the structure of [m]. *)
Ltac interacting :=
  intros; repeat first
    [ solve [auto with interactive nocore]
    | simple apply interactive_bind; [|intros ?]
    | case_match ].

(** ** Choices made of a [turn] *)
Definition turn_alone {C} (t : turn C) : turn C := mk_turn [] (tn_clock t) (tn_result t).
Definition turn_then {C} (t1 t2 : turn C) : turn C := mk_turn (tn_others t1 ++ tn_others t2) (tn_clock t2) (tn_result t2).

Lemma moves_along_app {C S} (exec : C -> S -> option S) cs cs' s :
  moves_along exec (cs ++ cs') s = moves_along exec cs' (moves_along exec cs s).
Proof. apply foldl_app. Qed.

(** ** What the other process leaves alone *)
Section stability.
Context {S T : Type} `{!Link S T}.

Lemma stable_False : stable (fun _ => False).
Proof. by intros t s. Qed.

Lemma stable_exists {X} (P : X -> S -> Prop) : (forall x, stable (P x)) -> stable (fun s => exists x, P x s).
Proof. intros H t s [x HP]. exists x. by apply H. Qed.

Lemma stable_pure (F : Prop) (P : S -> Prop) : stable P -> stable (fun s => F /\ P s).
Proof. intros H t s [HF HP]. split; [done|by apply H]. Qed.

Lemma stable_or (P Q : S -> Prop) : stable P -> stable Q -> stable (fun s => P s \/ Q s).
Proof. intros HP HQ t s [H|H]; [left; by apply HP|right; by apply HQ]. Qed.

End stability.

#[export] Hint Resolve stable_False stable_exists stable_pure stable_or : stable.

(** Servers' loops, and a reading of the clock in the closed examples. *)
Lemma interactive_forever fuel (round : forall W, Kernel W -> M (process W) ()) :
  interactive round -> interactive (fun W K => forever fuel (round W K)).
Proof. intros Hr. induction fuel; cbn [forever]; interacting. Qed.

Lemma now_zero : now 0 0 = Some 0.
Proof. by vm_compute. Qed.

(** ** Programs with a bounded number of calls *)
Definition at_most {W A} (n : nat) (m : M (process W) A) : Prop :=
  forall p, (length (trace (m p).2) <= length (trace p) + n)%nat.

Lemma at_most_pure {W A} (o : outcome A) : at_most (W:=W) 0 (fun p => (o, p)).
Proof. intros p. cbn. lia. Qed.

Lemma at_most_sys {W} `{!Kernel W} c : at_most 1 (sys c).
Proof. intros p. rewrite sys_eq. cbn [snd trace]. rewrite length_app. cbn. lia. Qed.

Lemma at_most_bind {W A B} n k (m : M (process W) A) (f : A -> M (process W) B) :
  at_most n m -> (forall a, at_most k (f a)) -> at_most (n + k) (a ← m; f a).
Proof.
  intros Hm Hf p. specialize (Hm p). unfold mbind, M_bind.
  destruct (m p) as [[a| | |] q]; cbn [snd] in *; try lia. specialize (Hf a q). lia.
Qed.

Lemma at_most_le {W A} n k (m : M (process W) A) : at_most n m -> (n <= k)%nat -> at_most k m.
Proof. intros Hm Hle p. specialize (Hm p). lia. Qed.

Lemma at_most_sys_rv {W} `{!Kernel W} c : at_most 1 (sys_rv c).
Proof. apply (at_most_bind 1 0); [apply at_most_sys|]. intros r. apply at_most_pure. Qed.

Lemma at_most_sys_ {W} `{!Kernel W} c : at_most 1 (sys_ c).
Proof. apply (at_most_bind 1 0); [apply at_most_sys|intros r; apply at_most_pure]. Qed.

Lemma at_most_throw_if {W} b message : at_most (W:=W) 0 (throw_if b message).
Proof. destruct b; apply at_most_pure. Qed.

Lemma at_most_defined {W A} (x : option A) : at_most (W:=W) 0 (defined x).
Proof. destruct x; apply at_most_pure. Qed.

Lemma at_most_read_now {W} `{!Kernel W} : at_most 1 read_now.
Proof.
  apply (at_most_bind 1 0); [apply at_most_sys|]. intros r.
  destruct (data r) as [|? [|? [|]]]; try apply at_most_pure. apply at_most_defined.
Qed.

Lemma at_most_next {A} n (m : M (process script) A) rs c : at_most n m -> next_call m rs = Some c -> (length rs < n)%nat.
Proof.
  intros Hm Hn%lookup_lt_Some. unfold calls_on in Hn. rewrite length_fmap in Hn.
  specialize (Hm (start rs)). cbn in Hm. lia.
Qed.

(** Then every run of the pair is bounded: a step is a call. *)
Lemma joint_run_bounded {S TA TB A B} `{!Link S TA} `{!Link S TB} `{!Choices S TA} `{!Choices S TB} na nb (ma : M (process script) A) (mb : M (process script) B)
    n j j' :
  at_most na ma -> at_most nb mb -> (length (j_first j) <= na)%nat -> (length (j_second j) <= nb)%nat ->
  nsteps (joint_step (TA:=TA) (TB:=TB) ma mb) n j j' ->
  (n + length (j_first j) + length (j_second j) <= na + nb)%nat.
Proof.
  intros Ha Hb Hja Hjb Hn. induction Hn as [j|n j j1 j' Hs Hn IH]; [lia|].
  destruct Hs as [t c r s s' ra rb Hc _|t c r s s' ra rb Hc _]; cbn [j_first j_second] in *;
    rewrite length_app in IH; cbn [length] in IH.
  - apply (at_most_next na) in Hc; [|done]. lia.
  - apply (at_most_next nb) in Hc; [|done]. lia.
Qed.
