(* ===== verification/UintrPro.v ===== *)
(** * uintr-pro: one-way messages through a shared ring and a user interrupt

    [uintr-pro/server.c] writes 8-byte timestamps into the ring of [Kfifo] in a
    shared memory segment, sends a user interrupt and spins until the ring is
    empty; the handler of [uintr-pro/client.c] drains the ring.  The state of
    both processes, the small steps of [communicate] and [ui_handler] with
    their interleavings, and the theorems about all reachable states. *)
From S2P Require Import Prelude Memory Kfifo.

(** ** The shared segment

    [shmget(key, sizeof(struct __kfifo) + DEFAULT_MESSAGE_SIZE, ...)]: the
    structure first, then the ring buffer.  Each process maps the segment at an
    address of its own. *)
Definition DEFAULT_MESSAGE_SIZE : Z := 4096.
Definition sizeof_kfifo : Z := 24.

(** [shared_memory + sizeof(struct __kfifo)]. *)
Definition ring_of (shared_memory : Z) : Z := shared_memory + sizeof_kfifo.

(** Where the processes map the segment, where the server's local [timestamp]
    and the client's [bench.single_start] live, and whether the client has
    registered [ui_handler] with the kernel. *)
Record layout := mk_layout {
  server_base : Z;
  client_base : Z;
  timestamp_addr : Z;
  single_start_addr : Z;
  handler_registered : bool;
}.

(** Control points of the server's loop in [communicate]. *)
Inductive server_pc :=
  | S_now                     (* timestamp = now() *)
  | S_copy                    (* __kfifo_in: copy into the ring *)
  | S_publish (len : Z)       (* __kfifo_in: fifo->in += len *)
  | S_notify                  (* uintrfd_notify(CLIENT_TOKEN) *)
  | S_spin                    (* while (kfifo_len(fifo) != 0) *)
  | S_crashed.

(** Control points of the client: the measuring loop, or [ui_handler]. *)
Inductive client_pc :=
  | C_loop
  | C_set_data                (* fifo->data = shared_memory + sizeof *)
  | C_len                     (* kfifo_len(fifo) *)
  | C_peek (len : Z)          (* __kfifo_out: __kfifo_out_peek *)
  | C_consume (len : Z)       (* __kfifo_out: fifo->out += len *)
  | C_crashed.

Record state := mk_state {
  st_fifo : __kfifo;          (* the structure in the segment *)
  st_ring : list Z;           (* the ring bytes in the segment *)
  st_timestamp : Z;           (* the server's timestamp *)
  st_single_start : Z;        (* the client's bench.single_start *)
  st_pending : bool;          (* user interrupt posted, not delivered *)
  st_server : server_pc;
  st_client : client_pc;
  st_sent : list Z;           (* timestamps enqueued so far *)
  st_received : list Z;       (* single_start at each completed handler *)
}.

(** The bytes the server can address: its mapping of the ring and its local
    variable. *)
Definition server_view (L : layout) (s : state) : mem :=
  mem_of (ring_of (server_base L)) (st_ring s)
    ∪ mem_of (timestamp_addr L) (le_bytes 8 (st_timestamp s)).

Definition client_view (L : layout) (s : state) : mem :=
  mem_of (ring_of (client_base L)) (st_ring s)
    ∪ mem_of (single_start_addr L) (le_bytes 8 (st_single_start s)).

(** The copy half of [__kfifo_in]; the other half is [fifo->in += len]. *)
Definition kfifo_in_copy (f : __kfifo) (m : mem) (buf len : Z) : option (mem * Z) :=
  let l := kfifo_unused f in
  let len := if len >? l then l else len in
  m ← kfifo_copy_in f m buf len (kf_in f); Some (m, len).

Lemma kfifo_in_copy_publish f m buf len :
  __kfifo_in f m buf len =
  '(m, len) ← kfifo_in_copy f m buf len; Some (set_in f (u32 (kf_in f + len)), m, len).
Proof.
  unfold __kfifo_in, kfifo_in_copy. by destruct (kfifo_copy_in _ _ _ _ _).
Qed.

(** What the server's copy does to the segment: the ring bytes it leaves and
    the number of bytes to publish; [None] when an access faults. *)
Definition server_copy (L : layout) (s : state) : option (list Z * Z) :=
  '(m, len) ← kfifo_in_copy (st_fifo s) (server_view L s) (timestamp_addr L) 8;
  ring ← load_bytes m (ring_of (server_base L)) DEFAULT_MESSAGE_SIZE;
  Some (ring, len).

(** What the handler's peek does: the new [bench.single_start] and the number
    of bytes to consume. *)
Definition client_peek (L : layout) (s : state) (len : Z) : option (Z * Z) :=
  '(m, len) ← __kfifo_out_peek (st_fifo s) (client_view L s) (single_start_addr L) len;
  bytes ← load_bytes m (single_start_addr L) 8;
  Some (le_value bytes, len).

#[global] Arguments server_copy : simpl never.
#[global] Arguments client_peek : simpl never.

(** ** Steps of the server *)

Inductive server_step (L : layout) : state -> state -> Prop :=
  | Step_now f r ts ss p c sent rcv t :
      0 <= t < 2 ^ 64 ->
      server_step L (mk_state f r ts ss p S_now c sent rcv)
                    (mk_state f r t ss p S_copy c sent rcv)
  | Step_copy f r ts ss p c sent rcv r' len :
      server_copy L (mk_state f r ts ss p S_copy c sent rcv) = Some (r', len) ->
      server_step L (mk_state f r ts ss p S_copy c sent rcv)
                    (mk_state f r' ts ss p (S_publish len) c sent rcv)
  | Step_copy_fault f r ts ss p c sent rcv :
      server_copy L (mk_state f r ts ss p S_copy c sent rcv) = None ->
      server_step L (mk_state f r ts ss p S_copy c sent rcv)
                    (mk_state f r ts ss p S_crashed c sent rcv)
  | Step_publish f r ts ss p c sent rcv len :
      server_step L (mk_state f r ts ss p (S_publish len) c sent rcv)
                    (mk_state (set_in f (u32 (kf_in f + len))) r ts ss p S_notify c (sent ++ [ts]) rcv)
  | Step_notify f r ts ss p c sent rcv :
      server_step L (mk_state f r ts ss p S_notify c sent rcv)
                    (mk_state f r ts ss true S_spin c sent rcv)
  | Step_spin f r ts ss p c sent rcv :
      kfifo_len f <> 0 ->
      server_step L (mk_state f r ts ss p S_spin c sent rcv)
                    (mk_state f r ts ss p S_spin c sent rcv)
  | Step_drained f r ts ss p c sent rcv :
      kfifo_len f = 0 ->
      server_step L (mk_state f r ts ss p S_spin c sent rcv)
                    (mk_state f r ts ss p S_now c sent rcv).

(** ** Steps of the client

    A posted interrupt is delivered between two instructions of the client's
    loop when a handler is registered; the handler runs with interrupts off. *)
Inductive client_step (L : layout) : state -> state -> Prop :=
  | Step_deliver f r ts ss sv sent rcv :
      handler_registered L = true ->
      client_step L (mk_state f r ts ss true sv C_loop sent rcv)
                    (mk_state f r ts ss false sv C_set_data sent rcv)
  | Step_set_data f r ts ss p sv sent rcv :
      client_step L (mk_state f r ts ss p sv C_set_data sent rcv)
        (mk_state (mk_kfifo (kf_in f) (kf_out f) (kf_mask f) (kf_esize f) (ring_of (client_base L)))
           r ts ss p sv C_len sent rcv)
  | Step_len f r ts ss p sv sent rcv :
      client_step L (mk_state f r ts ss p sv C_len sent rcv)
                    (mk_state f r ts ss p sv (C_peek (kfifo_len f)) sent rcv)
  | Step_peek f r ts ss p sv sent rcv len ss' len' :
      client_peek L (mk_state f r ts ss p sv (C_peek len) sent rcv) len = Some (ss', len') ->
      client_step L (mk_state f r ts ss p sv (C_peek len) sent rcv)
                    (mk_state f r ts ss' p sv (C_consume len') sent rcv)
  | Step_peek_fault f r ts ss p sv sent rcv len :
      client_peek L (mk_state f r ts ss p sv (C_peek len) sent rcv) len = None ->
      client_step L (mk_state f r ts ss p sv (C_peek len) sent rcv)
                    (mk_state f r ts ss p sv C_crashed sent rcv)
  | Step_consume f r ts ss p sv sent rcv len :
      client_step L (mk_state f r ts ss p sv (C_consume len) sent rcv)
        (mk_state (set_out f (u32 (kf_out f + len))) r ts ss p sv C_loop sent (rcv ++ [ss])).

Definition step (L : layout) (s s' : state) : Prop := server_step L s s' \/ client_step L s s'.

(** [main] of server.c up to [communicate]: [__kfifo_init] over the segment's
    buffer; the client is in its loop with [setup_benchmarks] done.  The
    segment may hold any bytes [r0] of an earlier run. *)
Definition main_init (L : layout) (r0 : list Z) : option state :=
  '(f, _) ← __kfifo_init (ring_of (server_base L)) DEFAULT_MESSAGE_SIZE 1;
  Some (mk_state f r0 0 0 false S_now C_loop [] []).

Definition reachable (L : layout) (s : state) : Prop :=
  exists r0 s0, Z.of_nat (length r0) = DEFAULT_MESSAGE_SIZE /\
    main_init L r0 = Some s0 /\ rtc (step L) s0 s.

(** ** The invariant *)

(** The eight bytes at [p] lie outside the mapping of the ring at [base]. *)
Definition apart (base p : Z) : Prop :=
  p + 8 <= ring_of base \/ ring_of base + DEFAULT_MESSAGE_SIZE <= p.

(** The processes' own variables lie outside their mappings of the ring. *)
Definition locals_apart (L : layout) : Prop :=
  apart (server_base L) (timestamp_addr L) /\ apart (client_base L) (single_start_addr L).

(** Both processes see the segment at the same address. *)
Definition same_mapping (L : layout) : Prop :=
  server_base L = client_base L /\ locals_apart L.

(** The structure in the segment, at any time after the initialisation, when
    [fifo->data] is [d]. *)
Definition ring_ok (d : Z) (f : __kfifo) (r : list Z) : Prop :=
  wf_log f 12 /\ kf_esize f = 1 /\ kf_data f = d /\
  Z.of_nat (length r) = DEFAULT_MESSAGE_SIZE.

(** The ring holds exactly the timestamp [ts]. *)
Definition loaded (f : __kfifo) (r : list Z) (ts : Z) : Prop :=
  ring_holds f (mem_of (kf_data f) r) (kf_out f) (le_bytes 8 ts).

Definition phase_ok (s : state) : Prop :=
  let 'mk_state f r ts ss p sv c sent rcv := s in
  let empty := kfifo_len f = 0 /\ sent = rcv in
  let full := kfifo_len f = 8 /\ loaded f r ts /\ sent = rcv ++ [ts] in
  match sv, c, p with
  | S_now, C_loop, false | S_copy, C_loop, false | S_spin, C_loop, false => empty
  | S_publish n, C_loop, false => n = 8 /\ empty /\ loaded f r ts
  | S_notify, C_loop, false | S_spin, C_loop, true
  | S_spin, C_set_data, false | S_spin, C_len, false => full
  | S_spin, C_peek n, false => n = 8 /\ full
  | S_spin, C_consume n, false => n = 8 /\ ss = ts /\ full
  | _, _, _ => False
  end.

Definition inv (L : layout) (s : state) : Prop :=
  ring_ok (ring_of (server_base L)) (st_fifo s) (st_ring s) /\ 0 <= st_timestamp s < 2 ^ 64 /\ phase_ok s.

Lemma ring_ok_bytes d f r : ring_ok d f r -> ring_bytes f = DEFAULT_MESSAGE_SIZE.
Proof. intros (Hwf & He & _). rewrite (ring_bytes_val f 12 Hwf), He. reflexivity. Qed.

Lemma le_value_u64 t : 0 <= t < 2 ^ 64 -> le_value (le_bytes 8 t) = t.
Proof. intros Ht. rewrite le_value_bytes. by apply Z.mod_small. Qed.

(** Ring contents only depend on the ring's bytes. *)
Lemma ring_holds_agree d f r m o bs :
  ring_ok d f r -> holds m (kf_data f) r ->
  ring_holds f m o bs <-> ring_holds f (mem_of (kf_data f) r) o bs.
Proof.
  intros Hok Hm. pose proof (ring_ok_bytes _ f r Hok) as Hb. destruct Hok as (Hwf & _ & _ & Hl).
  assert (Ha : forall i, m !! ring_addr f o i = mem_of (kf_data f) r !! ring_addr f o i).
  { intros i. pose proof (ring_addr_range f 12 Hwf o i) as Hr.
    destruct (lookup_lt_is_Some_2 r (Z.to_nat (ring_addr f o i - kf_data f))) as [b Hi]; [lia|].
    pose proof (Hm _ _ Hi) as H1. pose proof (mem_of_holds (kf_data f) r _ _ Hi) as H2.
    replace (kf_data f + _) with (ring_addr f o i) in H1, H2 by lia. by rewrite H1, H2. }
  unfold ring_holds. split; intros H i b Hi; [rewrite <- Ha|rewrite Ha]; by apply H.
Qed.

Lemma server_copy_ok L f r ts ss p c sent rcv :
  locals_apart L -> ring_ok (ring_of (server_base L)) f r -> 0 <= ts < 2 ^ 64 ->
  kfifo_len f = 0 ->
  exists r', server_copy L (mk_state f r ts ss p S_copy c sent rcv) = Some (r', 8) /\
    ring_ok (ring_of (server_base L)) f r' /\ loaded f r' ts.
Proof.
  intros [Hts _] Hok Ht Hlen. unfold apart in Hts. pose proof (ring_ok_bytes _ f r Hok) as Hb.
  pose proof Hok as (Hwf & He & Hd & Hl).
  set (s := mk_state _ _ _ _ _ _ _ _ _). set (m := server_view L s).
  assert (Hr : holds m (kf_data f) r) by (apply holds_union_l; rewrite Hd; apply mem_of_holds).
  assert (Hm : mapped m (kf_data f) (ring_bytes f)) by (eapply holds_mapped; [done|lia]).
  destruct (kfifo_copy_in_spec f 12 m (timestamp_addr L) 8 (kf_in f) (le_bytes 8 ts))
    as (m' & Hc & Hr' & _ & Hk); [done|done| |by rewrite He|rewrite He, Hb; by vm_compute| |].
  { apply holds_union_r; [apply mem_of_holds|]. rewrite length_le_bytes. intros a Ha.
    apply mem_of_outside. simpl. lia. }
  { unfold outside. rewrite He, Hb, Hd. lia. }
  destruct (load_mapped m' (kf_data f) DEFAULT_MESSAGE_SIZE) as (r' & Hload & Hl' & Hh').
  { rewrite <- Hb. by apply Hk. }
  exists r'. unfold server_copy, kfifo_in_copy. simpl st_fifo. fold m.
  rewrite clamp_min, (kfifo_unused_val f 12 Hwf), Hlen. change (Z.min 8 _) with 8.
  rewrite Hc. cbn [mbind option_bind]. rewrite <- Hd, Hload. cbn [mbind option_bind].
  clear Hd. split; [done|]. assert (Hok' : ring_ok (kf_data f) f r') by (split_and!; [done|done|done|rewrite Hl'; done]).
  split; [done|]. unfold loaded.
  apply (ring_holds_agree (kf_data f) f r' m' (kf_out f)); [done|done|].
  assert (Hio : kf_in f = kf_out f).
  { rewrite (kf_in_val f 12 Hwf), Hlen, Z.add_0_r. apply u32_small. by destruct Hwf as (_&_&_&_&_&?&_). }
  by rewrite <- Hio.
Qed.

Lemma client_peek_ok L f r ts ss p sv sent rcv :
  locals_apart L -> ring_ok (ring_of (client_base L)) f r -> 0 <= ts < 2 ^ 64 ->
  kfifo_len f = 8 -> loaded f r ts ->
  client_peek L (mk_state f r ts ss p sv (C_peek 8) sent rcv) 8 = Some (ts, 8).
Proof.
  intros [_ Hss] Hok Ht Hlen Hld. unfold apart in Hss. pose proof (ring_ok_bytes _ f r Hok) as Hb.
  pose proof Hok as (Hwf & He & Hd & Hl).
  set (s := mk_state _ _ _ _ _ _ _ _ _). set (m := client_view L s).
  assert (Hr : holds m (kf_data f) r) by (apply holds_union_l; rewrite Hd; apply mem_of_holds).
  destruct (kfifo_copy_out_spec f 12 m (single_start_addr L) 8 (kf_out f) (le_bytes 8 ts))
    as (m' & Hc & Hh & _ & _); [done| |by rewrite He|rewrite He, Hb; by vm_compute| | |].
  { by eapply ring_holds_agree. }
  { rewrite He. eapply holds_mapped; [|by rewrite (length_le_bytes 8 ss)].
    apply holds_union_r; [apply mem_of_holds|]. rewrite length_le_bytes. intros a Ha.
    apply mem_of_outside. simpl. lia. }
  { unfold outside. rewrite He, Hb, Hd. lia. }
  unfold client_peek, __kfifo_out_peek. simpl st_fifo. fold m. rewrite clamp_min.
  fold (kfifo_len f). rewrite Hlen. change (Z.min 8 8) with 8. rewrite Hc.
  cbn [mbind option_bind]. rewrite (load_holds m' _ 8 (le_bytes 8 ts)) by done.
  cbn [mbind option_bind]. by rewrite le_value_u64.
Qed.

Lemma main_init_inv L r0 s0 :
  Z.of_nat (length r0) = DEFAULT_MESSAGE_SIZE -> main_init L r0 = Some s0 -> inv L s0.
Proof.
  intros Hr Hi. unfold main_init in Hi.
  change (__kfifo_init (ring_of (server_base L)) DEFAULT_MESSAGE_SIZE 1)
    with (Some (mk_kfifo 0 0 4095 1 (ring_of (server_base L)), 0)) in Hi.
  cbn [mbind option_bind] in Hi. simplify_eq. unfold inv, ring_ok. simpl.
  by split_and!.
Qed.

(** Setting [fifo->data] to the same address changes nothing. *)
Lemma set_data_same L f r :
  same_mapping L -> ring_ok (ring_of (server_base L)) f r ->
  mk_kfifo (kf_in f) (kf_out f) (kf_mask f) (kf_esize f) (ring_of (client_base L)) = f.
Proof. intros (Hb & _) (_ & _ & Hd & _). rewrite <- Hb, <- Hd. by destruct f. Qed.

Lemma publish_ok d f r :
  ring_ok d f r -> kfifo_len f = 0 ->
  ring_ok d (set_in f (u32 (kf_in f + 8))) r /\ kfifo_len (set_in f (u32 (kf_in f + 8))) = 8.
Proof.
  intros (Hwf & Hrest) Hlen. destruct (wf_log_bump_in f 12 8 Hwf) as [Hwf' Hl'].
  { rewrite Hlen. by vm_compute. }
  rewrite Hlen in Hl'. by split.
Qed.

Lemma consume_ok d f r :
  ring_ok d f r -> kfifo_len f = 8 ->
  ring_ok d (set_out f (u32 (kf_out f + 8))) r /\ kfifo_len (set_out f (u32 (kf_out f + 8))) = 0.
Proof.
  intros (Hwf & Hrest) Hlen. destruct (wf_log_bump_out f 12 8 Hwf) as [Hwf' Hl'].
  { rewrite Hlen. by vm_compute. }
  rewrite Hlen in Hl'. by split.
Qed.

Lemma inv_server_step L s s' : locals_apart L -> inv L s -> server_step L s s' -> inv L s'.
Proof.
  intros HL (Hok & Ht & Hp) Hs. destruct Hs; unfold inv in *; simpl in *.
  - by destruct c, p.
  - destruct c, p; try done. destruct Hp as [Hl ->].
    destruct (server_copy_ok L f r ts ss false C_loop rcv rcv HL Hok Ht Hl) as (r2 & H2 & Hok2 & Hld).
    rewrite H in H2. by simplify_eq.
  - destruct c, p; try done. destruct Hp as [Hl ->].
    destruct (server_copy_ok L f r ts ss false C_loop rcv rcv HL Hok Ht Hl) as (r2 & H2 & _).
    by rewrite H in H2.
  - destruct c, p; try done. destruct Hp as (-> & (Hl & ->) & Hld).
    destruct (publish_ok _ f r Hok Hl) as [Hok' Hl']. split_and!; try done; lia.
  - by destruct c, p.
  - done.
  - by destruct c, p; try done; destruct Hp as (? & ?); try lia.
Qed.

Lemma inv_client_step L s s' : same_mapping L -> inv L s -> client_step L s s' -> inv L s'.
Proof.
  intros HL (Hok & Ht & Hp) Hs.
  pose proof Hok as Hokc. rewrite (proj1 HL) in Hokc. pose proof (proj2 HL) as Hap.
  destruct Hs; unfold inv in *; simpl in *.
  - by destruct sv.
  - rewrite (set_data_same L f r) by done. by destruct sv, p.
  - destruct sv, p; try done. destruct Hp as (Hl & ?). by rewrite Hl.
  - destruct sv, p; try done. destruct Hp as (-> & Hl & Hld & ->).
    rewrite (client_peek_ok L f r ts) in H by done. by simplify_eq.
  - destruct sv, p; try done. destruct Hp as (-> & Hl & Hld & ->).
    by rewrite (client_peek_ok L f r ts) in H by done.
  - destruct sv, p; try done. destruct Hp as (-> & -> & Hl & Hld & ->).
    destruct (consume_ok _ f r Hok Hl) as [Hok' Hl']. split_and!; try done; lia.
Qed.

Lemma inv_reachable L s : same_mapping L -> reachable L s -> inv L s.
Proof.
  intros HL (r0 & s0 & Hr & Hi & Hs). eapply inv_rtc; [|by eapply main_init_inv|exact Hs].
  intros a b Ha [H|H]; [by eapply inv_server_step; [apply HL| |]|by eapply inv_client_step].
Qed.

(** ** Progress

    The number of steps, other than spinning, until the server can take its
    next timestamp. *)
Definition rank (s : state) : nat :=
  match st_server s with
  | S_now | S_crashed => 0
  | S_copy => 9
  | S_publish _ => 8
  | S_notify => 7
  | S_spin =>
      match st_client s with
      | C_loop => if st_pending s then 6 else 1
      | C_set_data => 5
      | C_len => 4
      | C_peek _ => 3
      | C_consume _ => 2
      | C_crashed => 0
      end
  end.

Lemma inv_rank L s s' :
  inv L s -> step L s s' -> s' = s \/ (rank s' < rank s)%nat \/ st_server s = S_now.
Proof.
  intros (_ & _ & Hp) [H|H]; destruct H; simpl in *; auto;
    try (destruct c, p; try done; auto; right; left; unfold rank; simpl; lia);
    destruct sv; try destruct p; try done; right; left; unfold rank; simpl; lia.
Qed.

Lemma inv_enabled L s :
  same_mapping L -> handler_registered L = true -> inv L s -> exists s', step L s s' /\ s' <> s.
Proof.
  intros HL Hreg (Hok & Ht & Hp). pose proof HL as [Hb Hap]. pose proof Hok as Hokc.
  rewrite Hb in Hokc. destruct s as [f r ts ss p sv c sent rcv]. simpl in *.
  destruct sv, c, p; try done.
  - eexists. split; [left; by apply (Step_now _ _ _ _ _ _ _ _ _ ts)|done].
  - destruct Hp as [Hl ->].
    destruct (server_copy_ok L f r ts ss false C_loop rcv rcv Hap Hok Ht Hl) as (r' & Hc & _).
    eexists. split; [left; by apply Step_copy|done].
  - eexists. split; [left; apply Step_publish|done].
  - eexists. split; [left; apply Step_notify|done].
  - eexists. split; [right; by apply Step_deliver|done].
  - eexists. split; [left; apply Step_drained; by destruct Hp|done].
  - eexists. split; [right; apply Step_set_data|done].
  - eexists. split; [right; apply Step_len|done].
  - destruct Hp as (-> & Hl & Hld & ->).
    eexists. split; [right; apply Step_peek; by apply (client_peek_ok L f r ts)|done].
  - eexists. split; [right; apply Step_consume|done].
Qed.

(** ** Different mappings

    The handler stores the client's address of the ring into [fifo->data],
    which lies in the shared segment: the server's next copy goes there. *)

(** The server has nothing mapped at the client's address of the ring. *)
Definition mapped_apart (L : layout) : Prop :=
  locals_apart L /\
  (ring_of (server_base L) + DEFAULT_MESSAGE_SIZE <= ring_of (client_base L) \/
   ring_of (client_base L) + DEFAULT_MESSAGE_SIZE <= ring_of (server_base L)) /\
  apart (client_base L) (timestamp_addr L).

(** Before the handler's first store, [fifo->data] is the server's address;
    afterwards the client's, and the server cannot send again. *)
Definition inv_apart (L : layout) (s : state) : Prop :=
  let 'mk_state f r ts ss p sv c sent rcv := s in
  0 <= ts < 2 ^ 64 /\ Z.of_nat (length r) = DEFAULT_MESSAGE_SIZE /\
  ((phase_ok s /\ ring_ok (ring_of (server_base L)) f r /\ rcv = [] /\
    match c with C_loop | C_set_data => True | _ => False end) \/
   (phase_ok s /\ ring_ok (ring_of (client_base L)) f r /\ length sent = 1%nat /\
    match sv, c with
    | S_now, C_loop | S_copy, C_loop => True
    | S_spin, C_loop => p = false
    | S_spin, (C_len | C_peek _ | C_consume _) => True
    | _, _ => False
    end) \/
   (sv = S_crashed /\ c = C_loop /\ p = false /\ length sent = 1%nat)).

Lemma server_copy_fault L f r ts ss p c sent rcv :
  mapped_apart L -> ring_ok (ring_of (client_base L)) f r ->
  Z.of_nat (length r) = DEFAULT_MESSAGE_SIZE -> kfifo_len f = 0 ->
  server_copy L (mk_state f r ts ss p S_copy c sent rcv) = None.
Proof.
  intros (_ & Hdis & Hap) Hok Hr Hlen. pose proof (ring_ok_bytes _ f r Hok) as Hb.
  destruct Hok as (Hwf & He & Hd & _). unfold server_copy, kfifo_in_copy. simpl st_fifo.
  set (m := server_view L _).
  rewrite clamp_min, (kfifo_unused_val f 12 Hwf), Hlen. change (Z.min 8 _) with 8.
  unfold kfifo_copy_in. rewrite (kfifo_scale_val f 12 Hwf), He, Hb by (by rewrite He).
  pose proof (ring_start_range f 12 Hwf (kf_in f)) as Hs. rewrite Hb in Hs.
  set (o := ring_start f (kf_in f)) in *. unfold apart, DEFAULT_MESSAGE_SIZE in *.
  rewrite (u32_small (4096 - o)) by lia. rewrite memcpy_unmapped; [done|lia|].
  unfold m, server_view. cbn [st_ring st_timestamp].
  apply lookup_union_None. rewrite Hd. unfold ring_of in *.
  split; apply mem_of_outside; rewrite ?length_le_bytes; lia.
Qed.

(** Moving the ring's address moves its contents along. *)
Lemma loaded_rebase f r ts d :
  loaded f r ts -> loaded (mk_kfifo (kf_in f) (kf_out f) (kf_mask f) (kf_esize f) d) r ts.
Proof.
  intros H i b Hi. specialize (H i b Hi). revert H. unfold ring_addr, ring_bytes. simpl.
  set (x := _ mod _). rewrite !lookup_mem_of.
  replace (kf_data f + x - kf_data f) with x by lia. replace (d + x - d) with x by lia.
  repeat case_decide; done || lia.
Qed.

Ltac split_apart HD :=
  destruct HD as [(Hp & Hok & Hrcv & Hc)|[(Hp & Hok & Hl & Hc)|(Hsv & Hc & Hf & Hl)]]; try done.

Lemma inv_apart_server_step L s s' :
  mapped_apart L -> inv_apart L s -> server_step L s s' -> inv_apart L s'.
Proof.
  intros HL HI Hs. pose proof HL as (Hap & _). destruct Hs; destruct HI as (Ht & Hr & HD).
  - split; [done|]. split; [done|].
    split_apart HD; destruct c, p; try done; [by left|by right; left].
  - split; [done|]. split_apart HD; destruct c, p; try done; destruct Hp as [Hl0 Hsr].
    + destruct (server_copy_ok L f r ts ss false C_loop sent rcv Hap Hok Ht Hl0)
        as (r2 & H2 & Hok2 & Hld).
      rewrite H in H2. simplify_eq. split; [by destruct Hok2 as (_&_&_&?)|]. left. by split_and!.
    + by rewrite (server_copy_fault L f r ts ss false C_loop) in H.
  - split; [done|]. split; [done|]. split_apart HD; destruct c, p; try done; destruct Hp as [Hl0 Hsr].
    + destruct (server_copy_ok L f r ts ss false C_loop sent rcv Hap Hok Ht Hl0) as (r2 & H2 & _).
      by rewrite H in H2.
    + right; right. by split_and!.
  - split; [done|]. split; [done|]. split_apart HD; destruct c, p; try done.
    destruct Hp as (-> & (Hl0 & ->) & Hld). destruct (publish_ok _ f r Hok Hl0) as [Hok' Hl'].
    left. by split_and!.
  - split; [done|]. split; [done|]. split_apart HD; destruct c, p; try done. by left.
  - exact (conj Ht (conj Hr HD)).
  - split; [done|]. split; [done|].
    split_apart HD; destruct c, p; try done; destruct Hp as (Hp & Hp'); try lia;
      [by left|by right; left].
Qed.

Lemma inv_apart_client_step L s s' :
  mapped_apart L -> inv_apart L s -> client_step L s s' -> inv_apart L s'.
Proof.
  intros HL HI Hs. pose proof HL as (Hap & _). destruct Hs; destruct HI as (Ht & Hr & HD);
    (split; [done|]); (split; [done|]).
  - split_apart HD; destruct sv; try done. by left.
  - split_apart HD; destruct sv, p; try done. destruct Hp as (Hl & Hld & ->). subst rcv.
    right; left. destruct Hok as (Hwf & He & Hd & Hl2). split_and!; try done.
    split; [done|]. split; [by apply loaded_rebase|done].
  - split_apart HD; destruct sv, p; try done. right; left. destruct Hp as (Hl0 & Hp).
    by rewrite Hl0.
  - split_apart HD; destruct sv, p; try done. destruct Hp as (-> & Hl0 & Hld & Hs).
    rewrite (client_peek_ok L f r ts) in H by done. simplify_eq. right; left. by split_and!.
  - split_apart HD; destruct sv, p; try done. destruct Hp as (-> & Hl0 & Hld & Hs).
    by rewrite (client_peek_ok L f r ts) in H.
  - split_apart HD; destruct sv, p; try done. destruct Hp as (-> & -> & Hl0 & Hld & Hs).
    destruct (consume_ok _ f r Hok Hl0) as [Hok' Hl']. right; left. by split_and!.
Qed.

Lemma inv_apart_reachable L s : mapped_apart L -> reachable L s -> inv_apart L s.
Proof.
  intros HL (r0 & s0 & Hr & Hi & Hs). eapply inv_rtc; [|idtac|exact Hs].
  - intros a b Ha [H|H]; [by eapply inv_apart_server_step|by eapply inv_apart_client_step].
  - destruct (main_init_inv L r0 s0 Hr Hi) as (Hok & Ht & Hp). unfold main_init in Hi.
    change (__kfifo_init (ring_of (server_base L)) DEFAULT_MESSAGE_SIZE 1)
      with (Some (mk_kfifo 0 0 4095 1 (ring_of (server_base L)), 0)) in Hi.
    cbn [mbind option_bind] in Hi. simplify_eq. split_and!; [lia|lia|done|]. by left.
Qed.

(** ** Without a registered handler *)

Definition inv_unregistered (L : layout) (s : state) : Prop :=
  inv L s /\ st_client s = C_loop /\ st_received s = [] /\
  (st_server s = S_spin -> st_pending s = true).

Lemma inv_unregistered_step L s s' :
  locals_apart L -> handler_registered L = false ->
  inv_unregistered L s -> step L s s' -> inv_unregistered L s'.
Proof.
  intros HL Hreg (Hi & Hc & Hr & Hp) [Hs|Hs]; [|destruct Hs; simpl in *; congruence].
  split; [by eapply inv_server_step|]. destruct Hs; simpl in *; split_and!; done || auto.
Qed.

Lemma inv_unregistered_reachable L s :
  locals_apart L -> handler_registered L = false -> reachable L s -> inv_unregistered L s.
Proof.
  intros HL Hreg (r0 & s0 & Hr & Hi & Hs). eapply inv_rtc; [|idtac|exact Hs].
  - intros a b. by apply inv_unregistered_step.
  - split; [by eapply main_init_inv|]. unfold main_init in Hi.
    destruct (__kfifo_init _ _ _) as [[f w]|]; simplify_eq/=. by split_and!.
Qed.

(** ** Executable runs

    One step of each process as a function ([t] is the value of [now()]), and
    a run along a schedule. *)
Definition server_exec (L : layout) (t : Z) (s : state) : option state :=
  let 'mk_state f r ts ss p sv c sent rcv := s in
  match sv with
  | S_now => if bool_decide (0 <= t < 2 ^ 64) then Some (mk_state f r t ss p S_copy c sent rcv) else None
  | S_copy =>
      match server_copy L s with
      | Some (r', len) => Some (mk_state f r' ts ss p (S_publish len) c sent rcv)
      | None => Some (mk_state f r ts ss p S_crashed c sent rcv)
      end
  | S_publish len =>
      Some (mk_state (set_in f (u32 (kf_in f + len))) r ts ss p S_notify c (sent ++ [ts]) rcv)
  | S_notify => Some (mk_state f r ts ss true S_spin c sent rcv)
  | S_spin =>
      Some (mk_state f r ts ss p (if kfifo_len f =? 0 then S_now else S_spin) c sent rcv)
  | S_crashed => None
  end.

Definition client_exec (L : layout) (s : state) : option state :=
  let 'mk_state f r ts ss p sv c sent rcv := s in
  match c with
  | C_loop =>
      if p && handler_registered L then Some (mk_state f r ts ss false sv C_set_data sent rcv) else None
  | C_set_data =>
      Some (mk_state (mk_kfifo (kf_in f) (kf_out f) (kf_mask f) (kf_esize f) (ring_of (client_base L)))
              r ts ss p sv C_len sent rcv)
  | C_len => Some (mk_state f r ts ss p sv (C_peek (kfifo_len f)) sent rcv)
  | C_peek len =>
      match client_peek L s len with
      | Some (ss', len') => Some (mk_state f r ts ss' p sv (C_consume len') sent rcv)
      | None => Some (mk_state f r ts ss p sv C_crashed sent rcv)
      end
  | C_consume len =>
      Some (mk_state (set_out f (u32 (kf_out f + len))) r ts ss p sv C_loop sent (rcv ++ [ss]))
  | C_crashed => None
  end.

(** A schedule: who moves next, with the clock's value for the server. *)
Inductive turn := Server (now : Z) | Client.

Definition exec (L : layout) (c : turn) (s : state) : option state :=
  match c with Server t => server_exec L t s | Client => client_exec L s end.

Definition run (L : layout) : list turn -> state -> option state := run_along (exec L).

Lemma exec_sound L c s s' : exec L c s = Some s' -> step L s s'.
Proof.
  destruct s as [f r ts ss p sv cl sent rcv]. destruct c as [t|]; simpl; intros H.
  - left. destruct sv; simplify_eq; try constructor.
    + case_bool_decide; simplify_eq. by constructor.
    + destruct (server_copy _ _) as [[r' len]|] eqn:E; simplify_eq; by constructor.
    + destruct (Z.eqb_spec (kfifo_len f) 0); by constructor.
  - right. destruct cl; simplify_eq; try constructor.
    + destruct p, (handler_registered L) eqn:E; simplify_eq/=; by constructor.
    + destruct (client_peek _ _ _) as [[ss' len']|] eqn:E; simplify_eq; by constructor.
Qed.

Lemma run_reachable L r0 s0 cs s :
  Z.of_nat (length r0) = DEFAULT_MESSAGE_SIZE -> main_init L r0 = Some s0 ->
  run L cs s0 = Some s -> reachable L s.
Proof.
  intros Hr Hi Hs. exists r0, s0. split; [done|]. split; [done|].
  eapply run_along_rtc; [|exact Hs]. intros c s1 s2. apply exec_sound.
Qed.

(** A full round: the server sends [t] and the client's handler drains it. *)
Definition round (t : Z) : list turn :=
  [Server t; Server 0; Server 0; Server 0; Server 0;
   Client; Client; Client; Client; Client; Server 0].

(** ** Properties *)

(** C1: safety and exactly-once, in-order delivery.  When both processes map
    the segment at the same address, in every reachable state neither process
    has made an invalid access, the ring holds nothing or one 8-byte
    timestamp, the handler copies at most the eight bytes of
    [bench.single_start], and the timestamps the client has received are those
    the server has sent, in order, except possibly the last one. *)
Theorem uintr_pro_lockstep L s :
  same_mapping L -> reachable L s ->
  st_server s <> S_crashed /\ st_client s <> C_crashed /\
  (kfifo_len (st_fifo s) = 0 \/ kfifo_len (st_fifo s) = 8) /\
  (forall n, st_client s = C_peek n -> n = 8) /\
  (st_sent s = st_received s \/ st_sent s = st_received s ++ [st_timestamp s]).
Proof.
  intros HL Hr. destruct (inv_reachable L s HL Hr) as (_ & _ & Hp).
  destruct s as [f r ts ss p sv c sent rcv]. simpl in *.
  destruct sv, c, p; try done; intuition congruence.
Qed.


(** C39: with different mappings the second message is never sent.  When the
    server has nothing mapped at the client's address of the ring, then in
    every reachable state at most one message has been published, and a server
    that tries to copy the next one makes an invalid access: the handler has
    replaced [fifo->data], which is shared, by the client's address. *)
Theorem uintr_pro_data_pointer L s :
  mapped_apart L -> reachable L s ->
  (length (st_sent s) <= 1)%nat /\
  (st_server s = S_copy -> st_sent s <> [] ->
   forall s', server_step L s s' -> st_server s' = S_crashed).
Proof.
  intros HL Hr. pose proof (inv_apart_reachable L s HL Hr) as Hi.
  destruct s as [f r ts ss p sv c sent rcv]. destruct Hi as (Ht & Hl & HD). split.
  - destruct HD as [(Hp & _ & -> & Hc)|[(_ & _ & Hs & _)|(_ & _ & _ & Hs)]]; simpl in *; try lia.
    destruct sv, c, p; try done; intuition (subst; simpl; try lia).
  - simpl. intros -> H1 s' Hs. inversion Hs as [|? ? ? ? ? ? ? ? ? ? Hcp| | | | |]; subst; [|done]. exfalso.
    destruct HD as [(Hp & _ & -> & Hc)|[(Hp & Hok & _ & Hc)|(? & _)]]; [| |done].
    + destruct c, p; try done. destruct Hp as [_ ->]. done.
    + destruct c, p; try done. by rewrite server_copy_fault in Hcp by (try done; by destruct Hp).
Qed.

(** Without a handler nothing is ever delivered.  When the client has not
    registered [ui_handler], as in [client_main], then in every reachable
    state the client has received nothing, the server has sent at most one
    timestamp, and once it waits for the ring to be emptied it spins for ever. *)
Theorem uintr_pro_unregistered L s :
  locals_apart L -> handler_registered L = false -> reachable L s ->
  st_received s = [] /\ (length (st_sent s) <= 1)%nat /\ st_server s <> S_crashed /\
  (st_server s = S_spin -> forall s', step L s s' -> s' = s).
Proof.
  intros HL Hreg Hr. destruct (inv_unregistered_reachable L s HL Hreg Hr) as ((_ & _ & Hp) & Hc & Hv & Hsp).
  destruct s as [f r ts ss p sv c sent rcv]. simpl in *. subst c rcv. split_and!; [done| | |].
  - destruct sv, p; try done; intuition (subst; simpl; lia).
  - by destruct sv, p.
  - intros ->. rewrite Hsp in Hp by done. destruct Hp as (Hl & _).
    intros s' [H|H]; inversion H; subst; try done; [by rewrite Hl in *|congruence].
Qed.

(** ** Witnesses *)

Definition layout_w (client_base : Z) : layout := mk_layout 65536 client_base 1000 2000 true.
Definition ring0_w : list Z := replicate 4096 0.

Definition state_at (L : layout) (cs : list turn) : state :=
  default (mk_state ring_w [] 0 0 false S_crashed C_crashed [] [])
    (s0 ← main_init L ring0_w; run L cs s0).

Definition state_w (client_base : Z) (cs : list turn) : state := state_at (layout_w client_base) cs.

Lemma same_mapping_w : same_mapping (layout_w 65536).
Proof. split; [done|]. split; left; by vm_compute. Qed.

Lemma reachable_at L cs :
  is_Some (s0 ← main_init L ring0_w; run L cs s0) -> reachable L (state_at L cs).
Proof.
  intros [s Hs]. unfold state_at. rewrite Hs. simpl.
  destruct (main_init L ring0_w) as [s0|] eqn:E; [|done]. simpl in Hs.
  by apply (run_reachable _ ring0_w s0 cs).
Qed.

(** After two rounds with the timestamps 1111 and 2^63, the third pending. *)
Lemma uintr_pro_lockstep_witness :
  let s := state_w 65536 (round 1111 ++ round (2 ^ 63) ++ take 5 (round 7)) in
  st_received s = [1111; 2 ^ 63] /\ (st_sent s = st_received s \/ st_sent s = st_received s ++ [st_timestamp s]).
Proof.
  intros s. split; [by vm_compute|].
  apply (uintr_pro_lockstep (layout_w 65536) s).
  - exact same_mapping_w.
  - apply reachable_at. vm_compute. by eexists.
Defined.


(** With the client's mapping 16 MiB away, the second copy crashes. *)
Lemma uintr_pro_data_pointer_witness :
  let s := state_w 16842752 (round 1111 ++ [Server 2222]) in
  st_sent s = [1111] /\ st_server s = S_copy /\
    forall s', server_step (layout_w 16842752) s s' -> st_server s' = S_crashed.
Proof.
  intros s. split; [by vm_compute|]. split; [by vm_compute|].
  apply (uintr_pro_data_pointer (layout_w 16842752) s).
  - unfold mapped_apart, locals_apart, apart. vm_compute. intuition discriminate.
  - apply reachable_at. vm_compute. by eexists.
  - by vm_compute.
  - by vm_compute.
Defined.

(** One send, then spinning. *)
Lemma uintr_pro_unregistered_witness :
  let L := mk_layout 65536 131072 1000 2000 false in
  let s := state_at L (take 5 (round 7)) in
  st_sent s = [7] /\ st_server s = S_spin /\ forall s', step L s s' -> s' = s.
Proof.
  intros L s. split; [by vm_compute|]. split; [by vm_compute|].
  apply (uintr_pro_unregistered L s).
  - unfold locals_apart, apart. vm_compute. intuition discriminate.
  - reflexivity.
  - apply reachable_at. vm_compute. by eexists.
  - by vm_compute.
Defined.
