(* ===== verification/UintrMain.v ===== *)
(** * uintr-pro: both programs call by call

    The calls [uintr-pro/client.c] and [uintr-pro/server.c] make, for every
    kernel: set-ups and [main], the server's loop and the handler with each
    access to the ring in the segment. *)
From S2P Require Import Prelude Kernel Memory Kfifo Benchmarks UintrPro.

(** The fields of the structure in the segment. *)
Definition fifo_field (f : __kfifo) (variable : string) : option Z :=
  match variable with
  | "fifo->in" => Some (kf_in f)
  | "fifo->out" => Some (kf_out f)
  | "fifo->mask" => Some (kf_mask f)
  | "fifo->esize" => Some (kf_esize f)
  | "fifo->data" => Some (kf_data f)
  | _ => None
  end%string.

Section mains.
Context {W : Type} `{!Kernel W}.

(** ** client.c *)

(** [uintrfd_client] is a global that no statement assigns. *)
Definition uintrfd_client : Z := 0.

Definition client_cleanup (shared_memory : Z) : M (process W) () := sys_ (Shmdt shared_memory).

Definition setup_client (shared_memory : Z) : M (process W) () :=
  mfd ← sys_rv (Socket AF_UNIX SOCK_DGRAM 0);
  ret ← sys_rv (Sendmsg_fd mfd (Path "process_b") uintrfd_client);
  throw_if (ret =? -1) "Send message failed";;
  sys_ Stui.

Definition destroy_client : M (process W) () :=
  sys_ (Close uintrfd_client);; sys_ (Uintr_unregister_handler 0).

(** [main] after [parse_arguments]; [bench0] is the zero-initialised global.
    A failing [shmget] or [shmat] only prints. *)
Definition client_main (fuel : nat) (args : Arguments) (bench0 : Benchmarks) : M (process W) (Z * report) :=
  segment_key ← sys_rv (Ftok "uintr-shm");
  segment_id ← sys_rv (Shmget segment_key (sizeof_kfifo + DEFAULT_MESSAGE_SIZE) IPC_CREAT_0666);
  shared_memory ← sys_rv (Shmat segment_id);
  bench ← setup_benchmarks_call bench0;
  setup_client shared_memory;;
  printed ← measure_loop fuel mret bench args;
  destroy_client;;
  client_cleanup shared_memory;;
  mret printed.

(** ** server.c *)

Definition server_cleanup (segment_id shared_memory : Z) : M (process W) () :=
  sys_ (Shmdt shared_memory);; sys_ (Shmctl_rmid segment_id).

(** The descriptor is read from the control message of [recvmsg]; without one
    [CMSG_FIRSTHDR] is a null pointer.  The result of the registration is not
    checked. *)
Definition setup_server (shared_memory : Z) : M (process W) Z :=
  socket_fd ← sys_rv (Socket AF_UNIX SOCK_DGRAM 0);
  sys_ (Remove "process_b");;
  bound ← sys_rv (Bind socket_fd (Path "process_b"));
  throw_if (bound <? 0) "bind failed";;
  o ← sys (Recvmsg_fd socket_fd);
  throw_if (rv o <? 0) "";;
  match data o with
  | [fd] => sys_rv (Uintr_register_sender fd 0)
  | _ => undefined
  end.

(** [main] up to the loop of [communicate]: the segment, the initialised ring
    and [uipi_index].  A failing [shmget] or [shmat] only prints; the ring
    structure is then written at the address -1. *)
Definition server_main : M (process W) (Z * __kfifo * Z) :=
  segment_key ← sys_rv (Ftok "uintr-shm");
  segment_id ← sys_rv (Shmget segment_key (sizeof_kfifo + DEFAULT_MESSAGE_SIZE) IPC_CREAT_0666);
  shared_memory ← sys_rv (Shmat segment_id);
  if shared_memory =? -1 then undefined
  else
    '(fifo, _) ← defined (__kfifo_init (ring_of shared_memory) DEFAULT_MESSAGE_SIZE 1);
    uipi_index ← setup_server shared_memory;
    mret (shared_memory, fifo, uipi_index).

(** [uintrfd_notify] sends to the same index whatever the token. *)
Definition uintrfd_notify (uipi_index token : Z) : M (process W) () := senduipi uipi_index.

(** ** The ring, one access at a time

    The functions of common/kfifo.h that the two loops call, on the structure in
    the segment: every use of a field is a load or a store of the segment, which
    the other process may have changed.  The caller's buffer is a variable of
    its own, [src] or [dst]; a count beyond its end is undefined. *)

Definition kfifo_len_shared : M (process W) Z :=
  i ← sys_rv (Load "fifo->in"); o ← sys_rv (Load "fifo->out"); mret (u32 (i - o)).

Definition kfifo_unused_shared : M (process W) Z :=
  mask ← sys_rv (Load "fifo->mask"); len ← kfifo_len_shared; mret (u32 (u32 (mask + 1) - len)).

(** The offset and the count in bytes and the count [l] of the first [memcpy],
    which both copy functions compute. *)
Definition kfifo_span_shared (len off : Z) : M (process W) (Z * Z * Z) :=
  mask ← sys_rv (Load "fifo->mask");
  esize ← sys_rv (Load "fifo->esize");
  mask' ← sys_rv (Load "fifo->mask");
  let size := u32 (mask + 1) in
  let off := Z.land off mask' in
  let '(off, size, len) :=
    if negb (esize =? 1) then (u32 (off * esize), u32 (size * esize), u32 (len * esize)) else (off, size, len) in
  mret (off, len, Z.min len (u32 (size - off))).

Definition kfifo_copy_in_shared (src : list Z) (len off : Z) : M (process W) () :=
  '(off, len, l) ← kfifo_span_shared len off;
  if Z.of_nat (length src) <? len then undefined
  else
    to ← sys_rv (Load "fifo->data");
    sys_ (Memcpy_to (to + off) (take (Z.to_nat l) src));;
    to ← sys_rv (Load "fifo->data");
    sys_ (Memcpy_to to (take (Z.to_nat (u32 (len - l))) (drop (Z.to_nat l) src))).

Definition kfifo_in_shared (src : list Z) (len : Z) : M (process W) Z :=
  l ← kfifo_unused_shared;
  let len := if len >? l then l else len in
  off ← sys_rv (Load "fifo->in");
  kfifo_copy_in_shared src len off;;
  i ← sys_rv (Load "fifo->in");
  sys_ (Store "fifo->in" (u32 (i + len)));;
  mret len.

(** Returns what [dst] holds afterwards. *)
Definition kfifo_copy_out_shared (dst : list Z) (len off : Z) : M (process W) (list Z) :=
  '(off, len, l) ← kfifo_span_shared len off;
  if Z.of_nat (length dst) <? len then undefined
  else
    from ← sys_rv (Load "fifo->data");
    r1 ← sys (Memcpy_from (from + off) l);
    from ← sys_rv (Load "fifo->data");
    r2 ← sys (Memcpy_from from (u32 (len - l)));
    mret (data r1 ++ data r2 ++ drop (Z.to_nat len) dst).

Definition kfifo_out_peek_shared (dst : list Z) (len : Z) : M (process W) (list Z * Z) :=
  l ← kfifo_len_shared;
  let len := if len >? l then l else len in
  off ← sys_rv (Load "fifo->out");
  dst ← kfifo_copy_out_shared dst len off;
  mret (dst, len).

Definition kfifo_out_shared (dst : list Z) (len : Z) : M (process W) (list Z * Z) :=
  '(dst, len) ← kfifo_out_peek_shared dst len;
  o ← sys_rv (Load "fifo->out");
  sys_ (Store "fifo->out" (u32 (o + len)));;
  mret (dst, len).

(** [while(kfifo_len(fifo)!=0);] *)
Fixpoint kfifo_drained (fuel : nat) : M (process W) () :=
  match fuel with
  | O => running
  | S fuel => len ← kfifo_len_shared; if len =? 0 then mret () else kfifo_drained fuel
  end.

(** The body of the loop of [communicate] in server.c; [CLIENT_TOKEN] is 1. *)
Definition uintr_server_round (spins : nat) (uipi_index : Z) : M (process W) () :=
  timestamp ← read_now;
  _ ← kfifo_in_shared (le_bytes 8 timestamp) 8;
  uintrfd_notify uipi_index 1;;
  kfifo_drained spins.

Definition uintr_server_loop (fuel spins : nat) (uipi_index : Z) : M (process W) () :=
  forever fuel (uintr_server_round spins uipi_index).

(** client.c: [bench] and [shared_memory] are globals. *)
Definition ui_handler (shared_memory : Z) (bench : Benchmarks) : M (process W) Benchmarks :=
  sys_ (Store "fifo->data" (ring_of shared_memory));;
  len ← kfifo_len_shared;
  '(dst, _) ← kfifo_out_shared (le_bytes 8 (single_start bench)) len;
  mret (set_single_start bench (le_value dst)).

(** [main] of server.c; [communicate] does not return. *)
Definition uintr_server_run (fuel spins : nat) : M (process W) () :=
  '(_, _, uipi_index) ← server_main; uintr_server_loop fuel spins uipi_index.

(** ** Lemmas *)

(** A loop that leaves the measurements alone ends with them unchanged. *)
Lemma timed_loop_mret fuel clock start (bench : Benchmarks) cnt (p : process W) b n :
  (timed_loop fuel clock start mret bench cnt p).1 = Done (b, n) -> b = bench.
Proof.
  revert cnt p. induction fuel as [|fuel IH]; intros cnt p H; [done|]. cbn [timed_loop] in H.
  apply bind_inv1 in H as (u & q & _ & H). case_match; [by simplify_eq/=|].
  apply bind_inv1 in H as (a & q' & E & H). unfold mret, M_ret in E. simplify_eq. by apply IH in H.
Qed.

(** ** Properties *)

(** C27: the client never makes itself reachable.  For every kernel and any
    time limit, the client registers no interrupt handler, creates no user
    interrupt descriptor and sends descriptor 0, its standard input, to the
    server; it never records a measurement, so that it never prints a report:
    it dies, is undefined or is still running. *)
Theorem uintr_client_unreachable fuel args bench0 :
  only (fun c => c <> Uintr_register_handler /\
                 (forall v f, c <> Uintr_create_fd v f) /\
                 (forall s a fd, c = Sendmsg_fd s a fd -> fd = 0))
       (client_main fuel args bench0) /\
  forall p printed, (client_main fuel args bench0 p).1 <> Done printed.
Proof.
  split.
  - unfold client_main, setup_benchmarks_call, read_now, setup_client, destroy_client, client_cleanup.
    only_calls; try (split_and!; done || by intros; simplify_eq).
    apply only_measure_loop; [split_and!; done|]. intros. apply only_ret.
  - intros p printed H. unfold client_main in H.
    apply bind_inv1 in H as (k & p1 & _ & H). apply bind_inv1 in H as (i & p2 & _ & H).
    apply bind_inv1 in H as (m & p3 & _ & H). apply bind_inv1 in H as (bench & p4 & Eb & H).
    apply bind_inv1 in H as (u & p5 & _ & H). apply bind_inv1 in H as (pr & p6 & Em & _).
    assert (Hs : sum bench = 0).
    { assert (E1 : (setup_benchmarks_call bench0 p3).1 = Done bench) by by rewrite Eb.
      apply bind_inv1 in E1 as (t & q & _ & E1). by simplify_eq/=. }
    assert (E1 : (measure_loop fuel mret bench args p5).1 = Done pr) by by rewrite Em.
    apply bind_inv1 in E1 as (st & q & _ & E1). apply bind_inv1 in E1 as ([b n] & q' & El & E1).
    assert (b = bench) as -> by (eapply timed_loop_mret; by rewrite El).
    apply bind_inv1 in E1 as (r & q2 & Er & _). unfold of_outcome in Er.
    rewrite evaluate_zero in Er by done. by case_bool_decide.
Qed.

End mains.

(** The server's set-up, on every result of the kernel.  It reaches its
    loop exactly when the segment is attached, the bind and the receive do
    not fail and a descriptor was passed; neither a failed [shmget] nor a
    failed registration as a sender stops it, and the ring it then uses is
    empty and of the capacity of its buffer. *)
Theorem uintr_server_setup_outcome rk rs ra rsock ru rb rm rg :
  outcome_on server_main [rk; rs; ra; rsock; ru; rb; rm; rg] =
    if rv ra =? -1 then Undefined
    else if rv rb <? 0 then Died "bind failed"
    else if rv rm <? 0 then Died ""
    else match data rm with
         | [fd] => Done (rv ra, mk_kfifo 0 0 4095 1 (ring_of (rv ra)), rv rg)
         | _ => Undefined
         end.
Proof.
  assert (E : forall b, __kfifo_init b DEFAULT_MESSAGE_SIZE 1 = Some (mk_kfifo 0 0 4095 1 b, 0)) by done.
  unfold server_main, setup_server. exec. destruct (rv ra =? -1); [done|]. rewrite E.
  exec_cases; by destruct (data rm) as [|? [|]].
Qed.

(** ** Access by access and at once

    On a segment that no one else uses, the functions above are those of
    [Kfifo].  The world is the structure and the bytes of an address space. *)

Definition store_field (f : __kfifo) (variable : string) (v : Z) : __kfifo :=
  match variable with
  | "fifo->in" => set_in f v
  | "fifo->out" => set_out f v
  | "fifo->data" => mk_kfifo (kf_in f) (kf_out f) (kf_mask f) (kf_esize f) v
  | _ => f
  end%string.

(** An access outside the address space has no effect here; the theorem is
    about runs in which [Kfifo] makes none. *)
#[local] Instance alone_kernel : Kernel (__kfifo * mem) := fun c '(f, m) =>
  match c with
  | Load x => (val (default 0 (fifo_field f x)), (f, m))
  | Store x v => (val 0, (store_field f x v, m))
  | Memcpy_to a bytes => (val 0, (f, default m (store_bytes m a bytes)))
  | Memcpy_from a n => (mk_result 0 0 (default [] (load_bytes m a n)), (f, m))
  | _ => (val 0, (f, m))
  end.

Lemma store_frame bs : forall m p m' a,
  store_bytes m p bs = Some m' -> a < p \/ p + Z.of_nat (length bs) <= a -> m' !! a = m !! a.
Proof.
  induction bs as [|b bs IH]; intros m p m' a H Ha; cbn [store_bytes] in H; [by injection H as ->|].
  destruct (m !! p); [|done]. cbn [mbind option_bind] in H. rewrite (IH _ _ _ a H) by (cbn in Ha; lia).
  apply lookup_insert_ne. cbn in Ha. lia.
Qed.

#[local] Arguments fifo_field : simpl never.
#[local] Arguments load_bytes : simpl never.
#[local] Arguments store_bytes : simpl never.

(** [alone c w o w']: the program's outcome and what it leaves. *)
Definition alone {A} (c : M (process (__kfifo * mem)) A) (w : __kfifo * mem) (o : outcome A) (w' : __kfifo * mem) : Prop :=
  forall e tr, (c (mk_process e tr w)).1 = o /\ env (c (mk_process e tr w)).2 = w'.

Lemma alone_bind {A B} (c : M _ A) (g : A -> M _ B) w a w1 o w2 :
  alone c w (Done a) w1 -> alone (g a) w1 o w2 -> alone (x ← c; g x) w o w2.
Proof.
  intros Hc Hg e tr. destruct (Hc e tr) as [H1 H2]. unfold mbind, M_bind.
  destruct (c (mk_process e tr w)) as [r [e1 tr1 w1']]. cbn in *. subst. apply Hg.
Qed.

Lemma alone_ret {A} (a : A) w : alone (mret a) w (Done a) w.
Proof. by intros e tr. Qed.

Lemma alone_load f m x v : fifo_field f x = Some v -> alone (sys_rv (Load x)) (f, m) (Done v) (f, m).
Proof. intros H e tr. unfold sys_rv, sys_, mbind, M_bind. rewrite sys_eq. cbn. by rewrite H. Qed.

Lemma alone_store f m x v : alone (sys_ (Store x v)) (f, m) (Done ()) (store_field f x v, m).
Proof. by intros e tr. Qed.

Lemma alone_memcpy_to f m a bytes m' :
  store_bytes m a bytes = Some m' -> alone (sys_ (Memcpy_to a bytes)) (f, m) (Done ()) (f, m').
Proof. intros H e tr. unfold sys_rv, sys_, mbind, M_bind. rewrite sys_eq. cbn. by rewrite H. Qed.

Lemma alone_memcpy_from f m a n bytes :
  load_bytes m a n = Some bytes -> alone (sys (Memcpy_from a n)) (f, m) (Done (mk_result 0 0 bytes)) (f, m).
Proof. intros H e tr. unfold sys_rv, sys_, mbind, M_bind. rewrite sys_eq. cbn. by rewrite H. Qed.

Ltac alone_load := eapply alone_bind; [by apply alone_load|].

Lemma alone_len f m : alone kfifo_len_shared (f, m) (Done (kfifo_len f)) (f, m).
Proof. unfold kfifo_len_shared. do 2 alone_load. apply alone_ret. Qed.

Lemma alone_unused f m : alone kfifo_unused_shared (f, m) (Done (kfifo_unused f)) (f, m).
Proof. unfold kfifo_unused_shared. alone_load. eapply alone_bind; [apply alone_len|]. apply alone_ret. Qed.

Lemma alone_span f m len off :
  alone (kfifo_span_shared len off) (f, m)
    (Done (let '(off, size, len) := kfifo_scale f len off in (off, len, Z.min len (u32 (size - off))))) (f, m).
Proof.
  unfold kfifo_span_shared. do 3 alone_load. unfold kfifo_scale. destruct (negb (kf_esize f =? 1)); apply alone_ret.
Qed.

(** A part of a buffer. *)
Lemma holds_part m p bs a n :
  holds m p bs -> 0 <= a -> 0 <= n -> a + n <= Z.of_nat (length bs) ->
  load_bytes m (p + a) n = Some (take (Z.to_nat n) (drop (Z.to_nat a) bs)).
Proof.
  intros H Ha Hn Hl. apply load_holds; [|rewrite length_take, length_drop; lia].
  intros i b Hi. rewrite lookup_take_Some, lookup_drop in Hi. destruct Hi as [Hi _].
  rewrite <- (H _ _ Hi). f_equal. lia.
Qed.

(** One [memcpy] whose source or destination is the private buffer. *)
Lemma memcpy_from_buffer m dst p a n bs m' :
  holds m p bs -> 0 <= a -> 0 <= n -> a + n <= Z.of_nat (length bs) -> memcpy m dst (p + a) n = Some m' ->
  store_bytes m dst (take (Z.to_nat n) (drop (Z.to_nat a) bs)) = Some m'.
Proof.
  intros H Ha Hn Hl Hc. unfold memcpy in Hc. case_bool_decide; [|done].
  by rewrite (holds_part m p bs a n) in Hc.
Qed.

Lemma alone_copy_in f k m buf src len off m' :
  wf_log f k -> holds m buf src -> outside f buf (Z.of_nat (length src)) ->
  0 <= len * kf_esize f <= Z.of_nat (length src) -> len * kf_esize f <= ring_bytes f ->
  kfifo_copy_in f m buf len off = Some m' -> alone (kfifo_copy_in_shared src len off) (f, m) (Done ()) (f, m').
Proof.
  intros Hwf Hb Hout Hl Hr Hc. unfold outside in Hout.
  pose proof (ring_bytes_range f k Hwf) as HR. pose proof (ring_start_range f k Hwf off) as HS.
  unfold kfifo_copy_in in Hc. unfold kfifo_copy_in_shared. eapply alone_bind; [apply alone_span|].
  rewrite (kfifo_scale_val f k Hwf) in * by lia. cbv beta iota in *.
  set (n := len * kf_esize f) in *. set (p := ring_start f off) in *.
  rewrite (u32_small (ring_bytes f - p)) in * by lia. set (l := Z.min n (ring_bytes f - p)) in *.
  rewrite (u32_small (n - l)) in * by lia.
  destruct (memcpy m (kf_data f + p) buf l) as [m1|] eqn:H1; [|done]. cbn [mbind option_bind] in Hc.
  rewrite (proj2 (Z.ltb_ge _ _)) by lia.
  rewrite <- (Z.add_0_r buf) in H1. apply (memcpy_from_buffer _ _ _ 0 l src) in H1; [|done|lia|lia|lia].
  assert (Hb1 : holds m1 buf src).
  { intros i b Hi. rewrite (store_frame _ _ _ _ (buf + Z.of_nat i) H1); [by apply Hb|].
    apply lookup_lt_Some in Hi. rewrite length_take, drop_0. lia. }
  apply (memcpy_from_buffer _ _ _ l (n - l) src) in Hc; [|done|lia|lia|lia].
  alone_load. eapply alone_bind; [by apply alone_memcpy_to|].
  alone_load. by apply alone_memcpy_to.
Qed.

Lemma alone_copy_out f k m buf dst len off m' :
  wf_log f k -> holds m buf dst -> outside f buf (Z.of_nat (length dst)) ->
  0 <= len * kf_esize f <= Z.of_nat (length dst) -> len * kf_esize f <= ring_bytes f ->
  kfifo_copy_out f m buf len off = Some m' ->
  exists dst', alone (kfifo_copy_out_shared dst len off) (f, m) (Done dst') (f, m) /\ holds m' buf dst'.
Proof.
  intros Hwf Hb Hout Hl Hr Hc. unfold outside in Hout.
  pose proof (ring_bytes_range f k Hwf) as HR. pose proof (ring_start_range f k Hwf off) as HS.
  unfold kfifo_copy_out in Hc. unfold kfifo_copy_out_shared.
  assert (Hsp := alone_span f m len off).
  rewrite (kfifo_scale_val f k Hwf) in * by lia. cbv beta iota in *.
  set (n := len * kf_esize f) in *. set (p := ring_start f off) in *.
  rewrite (u32_small (ring_bytes f - p)) in * by lia. set (l := Z.min n (ring_bytes f - p)) in *.
  rewrite (u32_small (n - l)) in * by lia.
  destruct (memcpy m buf (kf_data f + p) l) as [m1|] eqn:H1; [|done]. cbn [mbind option_bind] in Hc.
  unfold memcpy in H1, Hc. case_bool_decide; [|done]. case_bool_decide; [|done].
  destruct (load_bytes m (kf_data f + p) l) as [b1|] eqn:L1; [|done]. cbn [mbind option_bind] in H1.
  destruct (load_bytes m1 (kf_data f) (n - l)) as [b2|] eqn:L2; [|done]. cbn [mbind option_bind] in Hc.
  pose proof (load_inv _ _ _ _ L1) as [Hl1 Hh1]. pose proof (load_inv _ _ _ _ L2) as [Hl2 Hh2].
  assert (L2' : load_bytes m (kf_data f) (n - l) = Some b2).
  { apply load_holds; [|lia]. intros i b Hi. rewrite <- (store_frame _ _ _ _ (kf_data f + Z.of_nat i) H1).
    - by apply Hh2.
    - apply lookup_lt_Some in Hi. lia. }
  exists (b1 ++ b2 ++ drop (Z.to_nat n) dst). split.
  - eapply alone_bind; [exact Hsp|]. cbv beta iota. rewrite (proj2 (Z.ltb_ge _ _)) by lia.
    rewrite (u32_small (n - l)) by lia.
    alone_load. eapply alone_bind; [apply alone_memcpy_from; exact L1|].
    alone_load. eapply alone_bind; [apply alone_memcpy_from; exact L2'|]. apply alone_ret.
  - (* the buffer in the memory of [Kfifo] *)
    assert (Hm1 : mapped m buf (Z.of_nat (length b1))) by (eapply holds_mapped; [done|lia]).
    destruct (store_bytes_spec b1 m buf Hm1) as (m1' & E1 & G1 & F1 & K1). rewrite H1 in E1. injection E1 as <-.
    assert (Hm2 : mapped m1 (buf + l) (Z.of_nat (length b2))).
    { intros a Ha. apply (K1 buf (Z.of_nat (length dst))); [by eapply holds_mapped|lia]. }
    destruct (store_bytes_spec b2 m1 (buf + l) Hm2) as (m2' & E2 & G2 & F2 & K2). rewrite Hc in E2. injection E2 as <-.
    apply holds_app. split; [|apply holds_app; split].
    + eapply holds_frame; [exact F2| |exact G1]. intros a Ha. cbv beta. lia.
    + replace (buf + Z.of_nat (length b1)) with (buf + l) by lia. exact G2.
    + intros i b Hi. rewrite lookup_drop in Hi. rewrite F2, F1 by lia. rewrite <- (Hb _ _ Hi). f_equal. lia.
Qed.

(** C22: the functions of the ring that access the segment field by field do
    what their definitions over the whole structure do.  On a segment that no
    one else uses, with a private buffer outside the ring, [__kfifo_in] and
    [__kfifo_out] return the same count and leave the same structure and bytes,
    and the buffer holds the same. *)
Theorem kfifo_shared_alone f k m p buf len :
  wf_log f k -> holds m p buf -> outside f p (Z.of_nat (length buf)) ->
  0 <= len -> len * kf_esize f <= Z.of_nat (length buf) ->
  (forall f' m' n, __kfifo_in f m p len = Some (f', m', n) ->
     alone (kfifo_in_shared buf len) (f, m) (Done n) (f', m')) /\
  (forall f' m' n, __kfifo_out f m p len = Some (f', m', n) ->
     exists buf', alone (kfifo_out_shared buf len) (f, m) (Done (buf', n)) (f', m) /\ holds m' p buf').
Proof.
  intros Hwf Hb Hout Hlen Hl.
  pose proof Hwf as (_ & _ & He & _ & _ & _ & Hfull). pose proof (kfifo_len_range f k Hwf) as Hr.
  pose proof (ring_bytes_val f k Hwf) as HR. pose proof (kfifo_unused_val f k Hwf) as Hu.
  assert (Hn : forall l, 0 <= l <= 2 ^ k -> 0 <= Z.min len l * kf_esize f <= Z.of_nat (length buf) /\
    Z.min len l * kf_esize f <= ring_bytes f) by (intros l Hl'; rewrite HR; nia).
  split; intros f' m' n H.
  - unfold __kfifo_in in H. unfold kfifo_in_shared. eapply alone_bind; [apply alone_unused|].
    rewrite clamp_min in *. destruct (Hn (kfifo_unused f)) as [H1 H2]; [lia|].
    destruct (kfifo_copy_in _ _ _ _ _) as [m1|] eqn:Hc; [|done]. cbn [mbind option_bind] in H. injection H as <- <- <-.
    alone_load. eapply alone_bind; [by eapply alone_copy_in|]. alone_load.
    eapply alone_bind; [apply alone_store|]. apply alone_ret.
  - unfold __kfifo_out, __kfifo_out_peek in H. unfold kfifo_out_shared, kfifo_out_peek_shared.
    fold (kfifo_len f) in H. rewrite clamp_min in *. destruct (Hn (kfifo_len f)) as [H1 H2]; [lia|].
    destruct (kfifo_copy_out _ _ _ _ _) as [m1|] eqn:Hc; [|done]. cbn [mbind option_bind] in H. injection H as <- <- <-.
    destruct (alone_copy_out f k m p buf _ _ _ Hwf Hb Hout H1 H2 Hc) as (dst & Ha & Hh). exists dst. split; [|done].
    eapply (alone_bind _ _ _ (dst, Z.min len (kfifo_len f)) (f, m)).
    + eapply alone_bind; [apply alone_len|]. rewrite clamp_min. alone_load.
      eapply alone_bind; [exact Ha|]. apply alone_ret.
    + alone_load. eapply alone_bind; [apply alone_store|]. apply alone_ret.
Qed.

Lemma kfifo_shared_alone_witness :
  exists f' m', __kfifo_in ring_w mem_w 2000 2 = Some (f', m', 1) /\
    alone (kfifo_in_shared [7; 8] 2) (ring_w, mem_w) (Done 1) (f', m').
Proof.
  destruct (__kfifo_in ring_w mem_w 2000 2) as [[[f' m'] n]|] eqn:E; [|vm_compute in E; discriminate].
  assert (n = 1) as -> by (vm_compute in E; congruence).
  exists f', m'. split; [done|].
  refine (proj1 (kfifo_shared_alone ring_w 2 mem_w 2000 [7; 8] 2 _ _ _ _ _) f' m' 1 E).
  - vm_compute. intuition discriminate.
  - by apply buf_w.
  - apply outside_w.
  - done.
  - done.
Defined.
