(* ===== verification/UintrLink.v ===== *)
(** * uintr-pro: the programs make the protocol's moves

    The server's loop and the interrupt handler of [UintrMain], with every
    access to the ring a call of its own, run in the place of their processes in
    the protocol of [UintrPro], where copying a message and testing the ring are
    one move each. *)
From S2P Require Import Prelude Memory Kfifo Kernel Benchmarks UintrPro UintrMain Linking.

#[local] Arguments le_bytes : simpl never.
#[local] Arguments le_value : simpl never.

(** ** Alignment

    All counters are multiples of the message's eight bytes, so that a message
    never wraps around the end of the ring and the second [memcpy] of a copy is
    empty. *)
Definition aligned (f : __kfifo) : Prop := (8 | kf_in f) /\ (8 | kf_out f).

Definition linked (L : layout) (s : state) : Prop := inv L s /\ aligned (st_fifo s).

Lemma divide_u32_add a : (8 | a) -> (8 | u32 (a + 8)).
Proof.
  intros [k ->]. unfold u32. exists ((k + 1) mod 2 ^ 29).
  replace (k * 8 + 8) with ((k + 1) * 8) by lia. change (2 ^ 32) with (2 ^ 29 * 8). by rewrite Zmult_mod_distr_r.
Qed.

Lemma linked_server_step L s s' : locals_apart L -> linked L s -> server_step L s s' -> linked L s'.
Proof.
  intros HL [Hi Ha] Hs. split; [by eapply inv_server_step|]. destruct Hs; cbn in *; try done.
  destruct Hi as (_ & _ & Hp). cbn in Hp. destruct c, p; try done. destruct Hp as (-> & _).
  split; [apply divide_u32_add|]; apply Ha.
Qed.

Lemma linked_client_step L s s' : same_mapping L -> linked L s -> client_step L s s' -> linked L s'.
Proof.
  intros HL [Hi Ha] Hs. split; [by eapply inv_client_step|]. destruct Hs; cbn in *; try done.
  destruct Hi as (_ & _ & Hp). cbn in Hp. destruct sv, p; try done. destruct Hp as (-> & _).
  split; [|apply divide_u32_add]; apply Ha.
Qed.

Lemma linked_reachable L s : same_mapping L -> reachable L s -> linked L s.
Proof.
  intros HL (r0 & s0 & Hr & Hi & Hs). eapply inv_rtc; [|idtac|exact Hs].
  - intros a b Ha [H|H]; [by eapply linked_server_step; [apply HL| |]|by eapply linked_client_step].
  - split; [by eapply main_init_inv|]. unfold main_init in Hi.
    change (__kfifo_init (ring_of (server_base L)) DEFAULT_MESSAGE_SIZE 1)
      with (Some (mk_kfifo 0 0 4095 1 (ring_of (server_base L)), 0)) in Hi.
    cbn in Hi. simplify_eq. split; by exists 0.
Qed.

(** An executable move keeps it. *)
Lemma linked_exec L c s s' : same_mapping L -> linked L s -> exec L c s = Some s' -> linked L s'.
Proof.
  intros HL Hi H. destruct (exec_sound L c s s' H) as [Hs|Hs];
    [by eapply linked_server_step; [apply HL| |]|by eapply linked_client_step].
Qed.

(** ** Whose turn it is

    Outside the server's spin the client is in its loop and has no interrupt
    pending; within the handler the server spins. *)
Lemma client_idle L s : linked L s -> st_server s <> S_spin -> client_exec L s = None.
Proof.
  intros [(_ & _ & Hp) _] Hs. destruct s as [f r ts ss p sv c sent rcv]. cbn in *.
  by destruct sv, c, p.
Qed.

Lemma server_waits L t s : linked L s -> st_client s <> C_loop -> server_exec L t s = Some s.
Proof.
  intros [(_ & _ & Hp) _] Hc. destruct s as [f r ts ss p sv c sent rcv]. cbn in *.
  destruct sv, c, p; try done; cbn; replace (kfifo_len f) with 8 by (by intuition); done.
Qed.

Lemma client_move_keeps_in L s s' :
  client_exec L s = Some s' -> kf_in (st_fifo s') = kf_in (st_fifo s) /\ st_server s' = st_server s.
Proof.
  destruct s as [f r ts ss p sv c sent rcv]. cbn. intros H. destruct c; cbn in H; repeat case_match; by simplify_eq/=.
Qed.

Lemma server_move_keeps L t s s' :
  server_exec L t s = Some s' -> st_client s' = st_client s /\ st_received s' = st_received s.
Proof.
  destruct s as [f r ts ss p sv c sent rcv]. cbn. intros H. destruct sv; cbn in H; repeat case_match; by simplify_eq/=.
Qed.

(** Before a notification the message is on its way. *)
Lemma uintr_sent_notify L s : linked L s -> st_server s = S_notify -> st_sent s = st_received s ++ [st_timestamp s].
Proof.
  intros [(_ & _ & Hp) _] Hs. destruct s as [f r ts ss p sv c sent rcv]. cbn in *. subst. destruct c, p; try done. apply Hp.
Qed.

(** A load that is not a move of the protocol. *)
Definition by_load (s : state) (variable : string) : reply state :=
  match fifo_field (st_fifo s) variable with Some v => Answer (val v) s | None => Strange end.

Lemma by_load_inv s x r s' : by_load s x = Answer r s' -> s' = s.
Proof. unfold by_load. destruct (fifo_field _ _); [by intros [= _ ->]|done]. Qed.

(** ** The server *)

(** The choices for a call of the server: the client's moves. *)
Definition uintr_server_turn (L : layout) : Type := Linking.turn ().

Definition uintr_server_answer (L : layout) (t : uintr_server_turn L) (c : syscall) (s : state) : reply state :=
  let f := st_fifo s in
  match st_server s, c with
  | S_now, Timespec_get => by_clock t (fun v => server_exec L v s)
  | S_copy, Load x => by_load s x
  | S_copy, Memcpy_to a bytes =>
      if (a =? kf_data f + Z.land (kf_in f) (kf_mask f)) && bool_decide (bytes = le_bytes 8 (st_timestamp s))
      then by_move (server_exec L 0 s) (val 0) else Strange
  | S_publish _, Memcpy_to a [] => if a =? kf_data f then Answer (val 0) s else Strange
  | S_publish _, Load x => by_load s x
  | S_publish len, Store x v =>
      if bool_decide (x = "fifo->in"%string) && (v =? u32 (kf_in f + len))
      then by_move (server_exec L 0 s) (val 0) else Strange
  | S_notify, Senduipi index => by_senduipi index (server_exec L 0 s) s
  | S_spin, Load x =>
      if bool_decide (x = "fifo->in"%string) then Answer (val (kf_in f)) s
      else if bool_decide (x = "fifo->out"%string) then by_move (server_exec L 0 s) (val (kf_out f)) else Strange
  | _, _ => Strange
  end.

Lemma uintr_server_answer_moves L t c s r s' :
  uintr_server_answer L t c s = Answer r s' -> s' = s \/ exists v, server_exec L v s = Some s'.
Proof.
  unfold uintr_server_answer. intros H. destruct (st_server s), c; try done; repeat case_match; simplify_eq;
    try (by left); try (left; by eapply by_load_inv); try (apply by_move_inv in H; by right; eexists).
  - apply by_clock_inv in H as [v H]. right. by eexists.
  - apply by_senduipi_inv in H as [->|H]; [by left|right; by eexists].
Qed.

Lemma uintr_server_answer_steps L t c s r s' :
  uintr_server_answer L t c s = Answer r s' -> rtc (step L) s s'.
Proof.
  intros [->|[v H]]%uintr_server_answer_moves; [apply rtc_refl|]. by eapply rtc_once, (exec_sound L (Server v)).
Qed.

#[export] Instance uintr_server_link L : Link state (uintr_server_turn L) := {
  link_step := step L;
  link_others t s := moves_along (fun _ => client_exec L) (tn_others t) s;
  link_answer := uintr_server_answer L;
  link_others_steps t s := moves_along_rtc _ (step L) _ s (fun _ s1 s2 H => exec_sound L Client s1 s2 H);
  link_answer_steps := uintr_server_answer_steps L;
  link_errno _ _ := True;
  link_others_errno _ _ _ H := H;
  link_answer_errno _ _ _ _ _ _ H _ := H;
}.

(** ** The client *)

(** The choices for a call of the handler: the server's moves, with the values
    of its clock.  The delivery of an interrupt is not a call of the code; it is
    written as one of [interrupted_client]. *)
Definition uintr_client_turn (L : layout) : Type := Linking.turn Z.

Definition uintr_client_answer (L : layout) (t : uintr_client_turn L) (c : syscall) (s : state) : reply state :=
  let f := st_fifo s in
  match st_client s, c with
  | C_loop, Lib name [] => if bool_decide (name = "user interrupt"%string) then by_move (client_exec L s) (val 0) else Strange
  | C_set_data, Store x v =>
      if bool_decide (x = "fifo->data"%string) && (v =? ring_of (client_base L))
      then by_move (client_exec L s) (val 0) else Strange
  | C_len, Load x =>
      if bool_decide (x = "fifo->in"%string) then Answer (val (kf_in f)) s
      else if bool_decide (x = "fifo->out"%string) then by_move (client_exec L s) (val (kf_out f)) else Strange
  | C_peek _, Load x => by_load s x
  | C_peek _, Memcpy_from a n =>
      if (a =? kf_data f + Z.land (kf_out f) (kf_mask f)) && (n =? 8) then
        match client_exec L s with
        | Some s' => Answer (mk_result 0 0 (le_bytes 8 (st_single_start s'))) s'
        | None => Waits
        end
      else Strange
  | C_consume _, Memcpy_from a n => if (a =? kf_data f) && (n =? 0) then Answer (mk_result 0 0 []) s else Strange
  | C_consume _, Load x => by_load s x
  | C_consume len, Store x v =>
      if bool_decide (x = "fifo->out"%string) && (v =? u32 (kf_out f + len))
      then by_move (client_exec L s) (val 0) else Strange
  | _, _ => Strange
  end.

Lemma uintr_client_answer_moves L t c s r s' :
  uintr_client_answer L t c s = Answer r s' -> s' = s \/ client_exec L s = Some s'.
Proof.
  unfold uintr_client_answer. intros H. destruct (st_client s), c; try done; repeat case_match; simplify_eq;
    try (by left); try (left; by eapply by_load_inv); try (apply by_move_inv in H; by right); by right.
Qed.

Lemma uintr_client_answer_steps L t c s r s' :
  uintr_client_answer L t c s = Answer r s' -> rtc (step L) s s'.
Proof.
  intros [->|H]%uintr_client_answer_moves; [apply rtc_refl|]. by eapply rtc_once, (exec_sound L Client).
Qed.

#[export] Instance uintr_client_link L : Link state (uintr_client_turn L) := {
  link_step := step L;
  link_others t s := moves_along (server_exec L) (tn_others t) s;
  link_answer := uintr_client_answer L;
  link_others_steps t s := moves_along_rtc _ (step L) _ s (fun v s1 s2 H => exec_sound L (Server v) s1 s2 H);
  link_answer_steps := uintr_client_answer_steps L;
  link_errno _ _ := True;
  link_others_errno _ _ _ H := H;
  link_answer_errno _ _ _ _ _ _ H _ := H;
}.

(** ** Reading the ring *)
Section ring.
Context {T : Type} `{!Link state T} (f : __kfifo) (P D R : state -> Prop).
Abbreviation W := (world state T).

(** The fields have the values of [f] and the reads are no moves. *)
Hypothesis reads : forall x v, fifo_field f x = Some v ->
  triple P (sys_rv (W:=W) (Load x)) (fun v' s => v' = v /\ P s) D R.

Lemma triple_len_shared : triple P (kfifo_len_shared (W:=W)) (fun v s => v = kfifo_len f /\ P s) D R.
Proof.
  unfold kfifo_len_shared.
  eapply triple_bind_value; [halting|by apply reads|]. eapply triple_bind_value; [halting|by apply reads|].
  by apply triple_ret.
Qed.

Lemma triple_unused_shared : triple P (kfifo_unused_shared (W:=W)) (fun v s => v = kfifo_unused f /\ P s) D R.
Proof.
  unfold kfifo_unused_shared.
  eapply triple_bind_value; [unfold kfifo_len_shared; halting|by apply reads|].
  eapply triple_bind_value; [halting|apply triple_len_shared|]. by apply triple_ret.
Qed.

(** Both copy functions: the message does not wrap. *)
Lemma triple_span_shared off :
  kf_mask f = 4095 -> kf_esize f = 1 -> 0 <= off -> (8 | off) ->
  triple P (kfifo_span_shared (W:=W) 8 off) (fun v s => v = (Z.land off (kf_mask f), 8, 8) /\ P s) D R.
Proof.
  intros Hm He Hoff [k Hk]. unfold kfifo_span_shared.
  do 3 (eapply triple_bind_value; [halting|by apply reads|]).
  rewrite He. apply triple_ret. intros s HP. split; [|done]. cbn. f_equal.
  rewrite Hm. change 4095 with (Z.ones 12). rewrite Z.land_ones by lia.
  pose proof (Z.mod_pos_bound off (2 ^ 12)) as Hb. pose proof (Z.div_mod off (2 ^ 12)) as Hd.
  unfold u32. change (Z.ones 12 + 1) with 4096. rewrite (Z.mod_small 4096) by lia. rewrite Z.mod_small by lia. lia.
Qed.

End ring.

Lemma halts_span_shared {S T} `{!Link S T} len off : halts (kfifo_span_shared (W:=world S T) len off).
Proof. unfold kfifo_span_shared. halting. Qed.
#[local] Hint Resolve halts_span_shared : halts.

Lemma halts_len_shared {S T} `{!Link S T} : halts (kfifo_len_shared (W:=world S T)).
Proof. unfold kfifo_len_shared. halting. Qed.
#[local] Hint Resolve halts_len_shared : halts.

Lemma halts_copy_in_shared {S T} `{!Link S T} src len off : halts (kfifo_copy_in_shared (W:=world S T) src len off).
Proof. unfold kfifo_copy_in_shared. halting. Qed.
#[local] Hint Resolve halts_copy_in_shared : halts.

Lemma halts_in_shared {S T} `{!Link S T} src len : halts (kfifo_in_shared (W:=world S T) src len).
Proof. unfold kfifo_in_shared, kfifo_unused_shared. halting. Qed.
#[local] Hint Resolve halts_in_shared : halts.

Lemma halts_out_shared {S T} `{!Link S T} dst len : halts (kfifo_out_shared (W:=world S T) dst len).
Proof. unfold kfifo_out_shared, kfifo_out_peek_shared, kfifo_copy_out_shared. halting. Qed.
#[local] Hint Resolve halts_out_shared : halts.

Lemma halts_drained {S T} `{!Link S T} fuel : halts (kfifo_drained (W:=world S T) fuel).
Proof. induction fuel; cbn [kfifo_drained]; halting. Qed.
#[local] Hint Resolve halts_drained : halts.

(** ** The server's loop *)
Section server.
Context (L : layout) (HL : same_mapping L) (index : Z) (rcv0 : list Z).
Abbreviation T := (uintr_server_turn L).
Abbreviation W := (world state T).

(** Without an index to send to, the client receives nothing more than [rcv0]. *)
Definition uintr_keeps (s : state) : Prop := linked L s /\ (index < 0 -> st_received s = rcv0).

Lemma uintr_keeps_exec v s s' : uintr_keeps s -> server_exec L v s = Some s' -> uintr_keeps s'.
Proof.
  intros [Hi Hr] H. split; [by apply (linked_exec L (Server v) s)|]. by rewrite (proj2 (server_move_keeps L v s s' H)).
Qed.

(** The server at a place before its spin. *)
Definition uintr_server_at (pc : server_pc) (f : __kfifo) (ts : Z) (s : state) : Prop :=
  uintr_keeps s /\ st_server s = pc /\ st_fifo s = f /\ st_timestamp s = ts.

Definition uintr_server_starts (s : state) : Prop := uintr_keeps s /\ st_server s = S_now.

(** In the spin only the client changes the ring, and not [fifo->in]. *)
Definition uintr_server_spins (i : Z) (s : state) : Prop :=
  linked L s /\ st_server s = S_spin /\ kf_in (st_fifo s) = i.

(** The notification faults: the message is in the ring, the interrupt is not sent. *)
Definition uintr_server_faults (s : state) : Prop :=
  index < 0 /\ linked L s /\ st_server s = S_notify /\ st_received s = rcv0.

Lemma server_others_idle (t : T) s : linked L s -> st_server s <> S_spin -> link_others t s = s.
Proof. intros Hi Hs. apply moves_along_idle. intros c. left. by apply client_idle. Qed.

Lemma uintr_server_at_stable pc f ts : pc <> S_spin -> stable (T:=T) (uintr_server_at pc f ts).
Proof. intros Hpc t s (Hi & H). rewrite server_others_idle; [done|apply Hi|]. by destruct H as (-> & _). Qed.

Lemma uintr_server_starts_stable : stable (T:=T) uintr_server_starts.
Proof. intros t s (Hi & H). rewrite server_others_idle; [done|apply Hi|]. by rewrite H. Qed.

Lemma uintr_server_faults_stable : stable (T:=T) uintr_server_faults.
Proof. intros t s (Hx & Hi & H). rewrite server_others_idle; [done|apply Hi|]. by destruct H as [-> _]. Qed.

Lemma uintr_server_spins_stable i : stable (T:=T) (uintr_server_spins i).
Proof.
  intros t s H. cbn. apply moves_along_inv; [|done]. intros c s1 s2 (Hi & Hs & Hk) Hm.
  destruct (client_move_keeps_in L _ _ Hm) as [E1 E2].
  split_and!; [by apply (linked_exec L Client s1)|congruence|congruence].
Qed.

(** A load of the ring while the server copies or publishes. *)
Lemma uintr_server_reads pc f ts D R :
  (pc = S_copy \/ exists len, pc = S_publish len) -> forall x v, fifo_field f x = Some v ->
  triple (uintr_server_at pc f ts) (sys_rv (W:=W) (Load x)) (fun v' s => v' = v /\ uintr_server_at pc f ts s) D R.
Proof.
  intros Hpc x v Hv. apply triple_sys_rv; [apply uintr_server_at_stable; by destruct Hpc as [->|[len ->]]|].
  intros t s H. pose proof H as (_ & Es & Ef & _). cbn [link_answer uintr_server_link]. unfold uintr_server_answer.
  rewrite Es. assert (Hl : by_load s x = Answer (val v) s) by (unfold by_load; by rewrite Ef, Hv).
  destruct Hpc as [->|[len ->]]; by rewrite Hl.
Qed.

(** What the protocol says of the ring when the server copies. *)
Lemma uintr_server_copies f ts s :
  uintr_server_at S_copy f ts s ->
  kf_mask f = 4095 /\ kf_esize f = 1 /\ kfifo_unused f = 4096 /\ 0 <= kf_in f /\ (8 | kf_in f) /\
  exists s', server_exec L 0 s = Some s' /\ uintr_server_at (S_publish 8) f ts s'.
Proof.
  intros (Hi & Es & Ef & Et). pose proof (proj1 Hi) as [(Hok & Ht & Hp) Ha].
  pose proof Hok as (Hwf & He & _). pose proof Hwf as (_ & Hm & _ & _ & Hin & _).
  destruct s as [f' r ts' ss p sv c sent rcv]. cbn in Es, Ef, Et, Hok, Ht, Ha, Hm, He, Hin, Hwf. subst.
  cbn in Hp. destruct c, p; try done. destruct Hp as [Hlen ->].
  destruct (server_copy_ok L f r ts ss false C_loop rcv rcv (proj2 HL) Hok Ht Hlen) as (r' & Hc & _).
  assert (Hx : server_exec L 0 (mk_state f r ts ss false S_copy C_loop rcv rcv) =
    Some (mk_state f r' ts ss false (S_publish 8) C_loop rcv rcv)) by (cbn; by rewrite Hc).
  split_and!; [done|done| |lia|apply Ha|].
  - rewrite (kfifo_unused_val f 12 Hwf), Hlen. done.
  - eexists. split; [exact Hx|]. split; [by apply (uintr_keeps_exec 0 _ _ Hi)|done].
Qed.

(** [__kfifo_in] with the server's message: the first [memcpy] is the copy, the
    store of [fifo->in] its publication. *)
Lemma uintr_server_enqueues f ts D R :
  triple (uintr_server_at S_copy f ts) (kfifo_in_shared (W:=W) (le_bytes 8 ts) 8)
    (fun _ s => exists f', uintr_server_at S_notify f' ts s) D R.
Proof.
  eapply triple_known; [intros s H; destruct (uintr_server_copies f ts s H) as (H1 & H2 & H3 & H4 & H5 & _);
    exact (conj H1 (conj H2 (conj H3 (conj H4 H5))))|].
  intros (Hm & Hes & Hu & Hin & Ha). unfold kfifo_in_shared, kfifo_copy_in_shared.
  eapply triple_bind_value; [halting|apply triple_unused_shared, uintr_server_reads; by left|].
  rewrite Hu. change (8 >? 4096) with false. cbn iota.
  eapply triple_bind_value; [halting|by apply uintr_server_reads; [left|]|].
  eapply (triple_bind _ _ _ (fun _ => uintr_server_at (S_publish 8) f ts)); [halting| |intros u].
  { eapply triple_bind_value; [halting|apply triple_span_shared; try done; apply uintr_server_reads; by left|].
    rewrite length_le_bytes. change (Z.of_nat 8 <? 8) with false. cbn iota.
    eapply triple_bind_value; [halting|by apply uintr_server_reads; [left|]|].
    eapply (triple_bind _ _ _ (fun _ => uintr_server_at (S_publish 8) f ts)); [halting| |intros u].
    - apply triple_ignoring. apply (triple_move _ _ (val 0) (server_exec L 0)); [by apply uintr_server_at_stable| |].
      + intros t s (_ & Es & Ef & Et). cbn [link_answer uintr_server_link]. unfold uintr_server_answer.
        rewrite Es, Ef, Et, Z.eqb_refl, bool_decide_eq_true_2; [done|].
        by rewrite take_ge by (by rewrite length_le_bytes).
      + intros s s' H Hx. destruct (uintr_server_copies f ts s H) as (_ & _ & _ & _ & _ & s1 & Hx1 & H1).
        rewrite Hx in Hx1. by injection Hx1 as ->.
    - eapply triple_bind_value; [halting|apply uintr_server_reads; [right; by eexists|done]|].
      apply triple_ignoring, triple_sys; [by apply uintr_server_at_stable|].
      intros t s H. pose proof H as (_ & Es & Ef & Et). cbn [link_answer uintr_server_link]. unfold uintr_server_answer.
      rewrite Es, Ef, Z.eqb_refl, drop_ge by (by rewrite length_le_bytes). by rewrite take_nil. }
  eapply triple_bind_value; [halting|apply uintr_server_reads; [right; by eexists|done]|].
  eapply (triple_bind _ _ _ (fun _ s => exists f', uintr_server_at S_notify f' ts s)); [halting| |intros v; by apply triple_ret].
  apply triple_ignoring. apply (triple_move _ _ (val 0) (server_exec L 0)); [by apply uintr_server_at_stable| |].
  - intros t s (_ & Es & Ef & Et). cbn [link_answer uintr_server_link]. unfold uintr_server_answer.
    by rewrite Es, Ef, Z.eqb_refl, bool_decide_eq_true_2.
  - intros s s' (Hi & Es & Ef & Et) Hx. pose proof (uintr_keeps_exec 0 s s' Hi Hx) as Hi'.
    destruct s as [f' r ts' ss p sv c sent rcv]. cbn in Es, Et, Hx. subst. injection Hx as <-. by eexists.
Qed.

Lemma uintr_server_notifies f ts R :
  triple (uintr_server_at S_notify f ts) (uintrfd_notify (W:=W) index 1)
    (fun _ s => 0 <= index /\ uintr_server_spins (kf_in f) s) uintr_server_faults R.
Proof.
  apply triple_senduipi; [by apply uintr_server_at_stable|]. intros t s ([Hi Hr] & Es & Ef & Et).
  cbn [link_answer uintr_server_link]. unfold uintr_server_answer, by_senduipi. rewrite Es.
  destruct (Z.ltb_spec index 0) as [Hx|Hx]; [|].
  { change (uintr_server_faults s). split; [done|]. split; [done|]. split; [done|by apply Hr]. }
  destruct (server_exec L 0 s) as [s'|] eqn:E; [|done]. cbn. split; [done|].
  pose proof (linked_exec L (Server 0) s s' HL Hi E) as Hi'.
  destruct s as [f' r ts' ss p sv c sent rcv]. cbn in Es, Ef, E. subst. by injection E as <-.
Qed.

(** The test of the spin: the load of [fifo->out] decides. *)
Lemma uintr_server_tests i D R :
  0 <= index ->
  triple (uintr_server_spins i) (kfifo_len_shared (W:=W))
    (fun n s => n = 0 /\ uintr_server_starts s \/ n <> 0 /\ uintr_server_spins i s) D R.
Proof.
  intros Hx0. unfold kfifo_len_shared.
  eapply (triple_bind_value _ (uintr_server_spins i) _ i); [halting| |].
  { apply triple_sys_rv; [apply uintr_server_spins_stable|]. intros t s H. pose proof H as (_ & Es & Ek).
    cbn [link_answer uintr_server_link]. unfold uintr_server_answer. rewrite Es. cbn. by rewrite Ek. }
  eapply triple_bind; [halting| |intros o; apply triple_ret; exact (fun s H => H)].
  apply triple_sys_rv; [apply uintr_server_spins_stable|]. intros t s (Hi & Es & Ek).
  cbn [link_answer uintr_server_link]. unfold uintr_server_answer. rewrite Es.
  destruct (server_exec L 0 s) as [s'|] eqn:Hx; [|done]. cbn.
  pose proof (linked_exec L (Server 0) s s' HL Hi Hx) as Hi'.
  destruct s as [f r ts ss p sv c sent rcv]. cbn in Es, Ek, Hx |- *. subst. fold (kfifo_len f).
  injection Hx as <-. destruct (Z.eqb_spec (kfifo_len f) 0); [left|right]; split; try done.
  split; [split; [exact Hi'|intros; lia]|done].
Qed.

Lemma uintr_server_drained spins i D :
  0 <= index ->
  triple (uintr_server_spins i) (kfifo_drained (W:=W) spins) (fun _ => uintr_server_starts) D
    (fun s => exists i, uintr_server_spins i s).
Proof.
  intros Hx.
  induction spins as [|spins IH]; cbn [kfifo_drained]; [apply triple_running; by eexists|].
  eapply triple_bind; [halting|by apply uintr_server_tests|]. intros n. case_match eqn:E.
  - apply triple_ret. by intros s [[_ H]|[Hn _]]; [|apply Z.eqb_eq in E].
  - eapply triple_conseq; [exact IH| |done|done|done]. by intros s [[-> _]|[_ H]].
Qed.

Lemma uintr_server_reads_clock D R :
  triple uintr_server_starts (read_now (W:=W)) (fun ts s => exists f, uintr_server_at S_copy f ts s) D R.
Proof.
  apply triple_read_now; [apply uintr_server_starts_stable|]. intros t s [Hi Es].
  cbn [link_answer uintr_server_link]. unfold uintr_server_answer, by_clock. rewrite Es.
  destruct (now _ _) as [v|] eqn:Hn; [|done]. destruct (server_exec L v s) as [s'|] eqn:Hx; [|done].
  cbn. do 3 eexists. split_and!; [done|exact Hn|]. pose proof (uintr_keeps_exec v s s' Hi Hx) as Hi'.
  destruct s as [f r ts ss p sv c sent rcv]. cbn in Es, Hx. subst. case_bool_decide; [|done]. injection Hx as <-.
  by eexists.
Qed.

(** Where a server that has used up its fuel is. *)
Definition uintr_server_runs (s : state) : Prop := uintr_server_starts s \/ exists i, uintr_server_spins i s.

Lemma halts_uintr_server_round spins i : halts (uintr_server_round (W:=W) spins i).
Proof. unfold uintr_server_round, uintrfd_notify. halting. Qed.

(** A round, which only an index of at least 0 gets past the notification. *)
Lemma uintr_server_rounds spins :
  triple uintr_server_starts (uintr_server_round (W:=W) spins index) (fun _ s => 0 <= index /\ uintr_server_starts s)
    uintr_server_faults (fun s => 0 <= index /\ uintr_server_runs s).
Proof.
  unfold uintr_server_round.
  eapply triple_bind; [unfold uintrfd_notify; halting|apply uintr_server_reads_clock|intros ts].
  apply triple_exists. intros f.
  eapply triple_bind; [unfold uintrfd_notify; halting|apply uintr_server_enqueues|intros v].
  apply triple_exists. intros f'.
  eapply triple_bind; [halting|apply uintr_server_notifies|intros u].
  apply triple_pure. intros Hx. eapply triple_conseq; [by apply uintr_server_drained|done|done|exact (fun _ H => H)|].
  intros s H. split; [done|by right].
Qed.

(** The loop ends at its first notification or does not end. *)
Lemma uintr_server_loops fuel spins :
  triple uintr_server_starts (uintr_server_loop (W:=W) fuel spins index) (fun _ _ => False) uintr_server_faults
    (fun s => (0 <= index \/ fuel = 0%nat) /\ uintr_server_runs s).
Proof.
  unfold uintr_server_loop. destruct fuel as [|fuel]; cbn [forever].
  { apply triple_running. intros s H. split; [by right|by left]. }
  eapply triple_bind; [intros; apply halts_forever, halts_uintr_server_round| |intros u; apply triple_pure; intros Hx].
  - eapply triple_conseq; [apply uintr_server_rounds|exact (fun _ H => H)|exact (fun _ _ H => H)|exact (fun _ H => H)|].
    intros s [Hx H]. split; [by left|done].
  - apply triple_forever_in; [apply halts_uintr_server_round|intros s H; split; [by left|by left]|].
    eapply triple_conseq; [apply uintr_server_rounds|done|by intros u' s [_ H]|done|].
    intros s [_ H]. split; [by left|done].
Qed.

End server.

(** ** The handler *)
Section handler.
Context (L : layout) (HL : same_mapping L).
Abbreviation T := (uintr_client_turn L).
Abbreviation W := (world state T).

(** The client at a place of its handler. *)
Definition uintr_client_at (pc : client_pc) (f : __kfifo) (rcv : list Z) (s : state) : Prop :=
  linked L s /\ st_client s = pc /\ st_fifo s = f /\ st_received s = rcv.

(** Before the last store the record holds the timestamp [v]. *)
Definition uintr_client_consumes (f : __kfifo) (rcv : list Z) (v : Z) (s : state) : Prop :=
  uintr_client_at (C_consume 8) f rcv s /\ st_single_start s = v /\ 0 <= v < 2 ^ 64.

(** A handler that has returned has received the last timestamp sent. *)
Definition uintr_client_received (rcv : list Z) (v : Z) (s : state) : Prop :=
  linked L s /\ st_client s = C_loop /\ st_received s = rcv ++ [v] /\ st_sent s = rcv ++ [v].

Lemma client_others_idle (t : T) s : linked L s -> st_client s <> C_loop -> link_others t s = s.
Proof. intros Hi Hs. apply moves_along_idle. intros c. right. by apply server_waits. Qed.

Lemma uintr_client_at_stable pc f rcv : pc <> C_loop -> stable (T:=T) (uintr_client_at pc f rcv).
Proof. intros Hpc t s (Hi & H). rewrite client_others_idle; [done|done|]. by destruct H as (-> & _). Qed.

Lemma uintr_client_consumes_stable f rcv v : stable (T:=T) (uintr_client_consumes f rcv v).
Proof.
  intros t s H. pose proof H as ((Hi & Es & _) & _). rewrite client_others_idle; [done|done|by rewrite Es].
Qed.

Lemma uintr_client_reads_peek f rcv D R n : forall x v, fifo_field f x = Some v ->
  triple (uintr_client_at (C_peek n) f rcv) (sys_rv (W:=W) (Load x))
    (fun v' s => v' = v /\ uintr_client_at (C_peek n) f rcv s) D R.
Proof.
  intros x v Hv. apply triple_sys_rv; [by apply uintr_client_at_stable|].
  intros t s H. pose proof H as (_ & Es & Ef & _). cbn [link_answer uintr_client_link]. unfold uintr_client_answer.
  rewrite Es. unfold by_load. by rewrite Ef, Hv.
Qed.

Lemma uintr_client_reads_consume f rcv w D R : forall x v, fifo_field f x = Some v ->
  triple (uintr_client_consumes f rcv w) (sys_rv (W:=W) (Load x))
    (fun v' s => v' = v /\ uintr_client_consumes f rcv w s) D R.
Proof.
  intros x v Hv. apply triple_sys_rv; [apply uintr_client_consumes_stable|].
  intros t s H. pose proof H as ((_ & Es & Ef & _) & _). cbn [link_answer uintr_client_link]. unfold uintr_client_answer.
  rewrite Es. unfold by_load. by rewrite Ef, Hv.
Qed.

(** What the protocol says of the ring when the handler peeks. *)
Lemma uintr_client_peeks f rcv n s :
  uintr_client_at (C_peek n) f rcv s ->
  kf_mask f = 4095 /\ kf_esize f = 1 /\ n = 8 /\ kfifo_len f = 8 /\ 0 <= kf_out f /\ (8 | kf_out f) /\
  exists s', client_exec L s = Some s' /\ uintr_client_consumes f rcv (st_single_start s') s'.
Proof.
  intros (Hi & Es & Ef & Er). pose proof Hi as [(Hok & Ht & Hp) Ha].
  pose proof Hok as (Hwf & He & _). pose proof Hwf as (_ & Hm & _ & _ & _ & Hout & _).
  destruct s as [f' r ts ss p sv c sent rcv']. cbn in Es, Ef, Er, Hok, Ht, Ha, Hm, He, Hout, Hwf. subst.
  cbn in Hp. destruct sv, p; try done. destruct Hp as (-> & Hlen & Hld & ->).
  assert (Hok' : ring_ok (ring_of (client_base L)) f r) by (by rewrite <- (proj1 HL)).
  assert (Hx : client_exec L (mk_state f r ts ss false S_spin (C_peek 8) (rcv ++ [ts]) rcv) =
    Some (mk_state f r ts ts false S_spin (C_consume 8) (rcv ++ [ts]) rcv)).
  { cbn. by rewrite (client_peek_ok L f r ts) by (done || apply HL). }
  split_and!; [done|done|done|done|lia|apply Ha|].
  eexists. split; [exact Hx|]. split; [|split; [done|exact Ht]].
  split; [by apply (linked_exec L Client _ _ HL Hi)|done].
Qed.

(** [__kfifo_out] of one message. *)
Lemma uintr_client_dequeues f rcv n dst D R :
  length dst = 8%nat ->
  triple (uintr_client_at (C_peek n) f rcv) (kfifo_out_shared (W:=W) dst n)
    (fun r s => exists v, le_value r.1 = v /\ uintr_client_received rcv v s) D R.
Proof.
  intros Hdst. eapply triple_known; [intros s H; destruct (uintr_client_peeks f rcv n s H) as (H1 & H2 & H3 & H4 & H5 & H6 & _);
    exact (conj H1 (conj H2 (conj H3 (conj H4 (conj H5 H6)))))|].
  intros (Hm & Hes & -> & Hlen & Hout & Ha).
  unfold kfifo_out_shared, kfifo_out_peek_shared, kfifo_copy_out_shared.
  eapply (triple_bind _ _ _ (fun r s => exists v, r = (le_bytes 8 v, 8) /\ uintr_client_consumes f rcv v s));
    [intros [d l]; halting| |intros [d l]].
  { eapply triple_bind_value; [halting|apply triple_len_shared, uintr_client_reads_peek|].
    rewrite Hlen. change (8 >? 8) with false. cbn iota.
    eapply triple_bind_value; [halting|by apply uintr_client_reads_peek|].
    eapply (triple_bind _ _ _ (fun r s => exists v, r = le_bytes 8 v /\ uintr_client_consumes f rcv v s));
      [halting| |intros d; apply triple_ret; intros s (v & -> & H); by exists v].
    eapply triple_bind_value; [halting|apply triple_span_shared; try done; apply uintr_client_reads_peek|].
    rewrite Hdst. change (Z.of_nat 8 <? 8) with false. cbn iota.
    eapply triple_bind_value; [halting|by apply uintr_client_reads_peek|].
    eapply (triple_bind _ _ _ (fun r s => exists v, data r = le_bytes 8 v /\ uintr_client_consumes f rcv v s));
      [halting| |intros r1].
    - apply triple_sys; [by apply uintr_client_at_stable|]. intros t s H. pose proof H as (_ & Es & Ef & _).
      cbn [link_answer uintr_client_link]. unfold uintr_client_answer. rewrite Es, Ef, !Z.eqb_refl. cbn [andb].
      destruct (uintr_client_peeks f rcv 8 s H) as (_ & _ & _ & _ & _ & _ & s' & Hx & Hs'). rewrite Hx.
      by eexists.
    - apply triple_exists. intros v. apply triple_pure. intros Hd.
      eapply triple_bind_value; [halting|by apply uintr_client_reads_consume|].
      eapply (triple_bind _ _ _ (fun r s => data r = [] /\ uintr_client_consumes f rcv v s)); [halting| |intros r2].
      + apply triple_sys; [apply uintr_client_consumes_stable|]. intros t s H. pose proof H as ((_ & Es & Ef & _) & _).
        cbn [link_answer uintr_client_link]. unfold uintr_client_answer. by rewrite Es, Ef, Z.eqb_refl.
      + apply triple_pure. intros Hd2. apply triple_ret. intros s H. exists v. split; [|done].
        by rewrite Hd, Hd2, drop_ge, !app_nil_r by (rewrite Hdst; simpl; lia). }
  apply triple_exists. intros v. apply triple_pure. intros [= -> ->].
  eapply triple_bind_value; [halting|by apply uintr_client_reads_consume|].
  eapply (triple_bind _ _ _ (fun _ s => 0 <= v < 2 ^ 64 /\ uintr_client_received rcv v s)); [halting| |intros u].
  - apply triple_ignoring. apply (triple_move _ _ (val 0) (client_exec L)); [apply uintr_client_consumes_stable| |].
    + intros t s ((_ & Es & Ef & _) & _). cbn [link_answer uintr_client_link]. unfold uintr_client_answer.
      by rewrite Es, Ef, Z.eqb_refl, bool_decide_eq_true_2.
    + intros s s' ((Hi & Es & Ef & Er) & Ess & Hv) Hx. pose proof (linked_exec L Client s s' HL Hi Hx) as Hi'.
      destruct Hi as [(_ & _ & Hp) _]. destruct s as [f' r ts ss p sv c sent rcv']. cbn in Es, Ef, Er, Ess, Hx, Hp. subst.
      destruct sv, p; try done. destruct Hp as (_ & -> & _ & _ & ->). injection Hx as <-. split; [done|].
      split; [exact Hi'|by split_and!].
  - apply triple_pure. intros Hv. apply triple_ret. intros s H. exists v. cbn. by rewrite le_value_u64.
Qed.

(** [ui_handler], from the delivery of the interrupt. *)
Lemma uintr_handler_runs f rcv bench D R :
  triple (uintr_client_at C_set_data f rcv) (ui_handler (W:=W) (client_base L) bench)
    (fun bench' s => exists v, bench' = set_single_start bench v /\ uintr_client_received rcv v s) D R.
Proof.
  unfold ui_handler.
  eapply (triple_bind _ _ _ (fun _ s => exists f', uintr_client_at C_len f' rcv s)); [halting| |intros u].
  { apply triple_ignoring. apply (triple_move _ _ (val 0) (client_exec L)); [by apply uintr_client_at_stable| |].
    - intros t s (_ & Es & _). cbn [link_answer uintr_client_link]. unfold uintr_client_answer.
      by rewrite Es, Z.eqb_refl, bool_decide_eq_true_2.
    - intros s s' (Hi & Es & Ef & Er) Hx. pose proof (linked_exec L Client s s' HL Hi Hx) as Hi'.
      destruct s as [f' r ts ss p sv c sent rcv']. cbn in Es, Er, Hx. subst. injection Hx as <-. by eexists. }
  apply triple_exists. intros f'.
  eapply (triple_bind _ _ _ (fun n s => uintr_client_at (C_peek n) f' rcv s)); [halting| |intros n].
  { unfold kfifo_len_shared.
    eapply (triple_bind_value _ (uintr_client_at C_len f' rcv) _ (kf_in f')); [halting| |].
    - apply triple_sys_rv; [by apply uintr_client_at_stable|]. intros t s H. pose proof H as (_ & Es & Ef & _).
      cbn [link_answer uintr_client_link]. unfold uintr_client_answer. rewrite Es. cbn. by rewrite Ef.
    - eapply triple_bind; [halting| |intros o; apply triple_ret; exact (fun s H => H)].
      apply triple_sys_rv; [by apply uintr_client_at_stable|]. intros t s (Hi & Es & Ef & Er).
      cbn [link_answer uintr_client_link]. unfold uintr_client_answer. rewrite Es.
      destruct (client_exec L s) as [s'|] eqn:Hx; [|done]. cbn.
      pose proof (linked_exec L Client s s' HL Hi Hx) as Hi'.
      destruct s as [f1 r ts ss p sv c sent rcv']. cbn in Es, Ef, Er, Hx |- *. subst. injection Hx as <-. done. }
  eapply triple_bind; [intros [d l]; halting|apply uintr_client_dequeues, length_le_bytes|].
  intros [d l]. apply triple_ret. intros s (v & <- & H). by eexists.
Qed.

End handler.

(** ** The client between interrupts

    The client's loop makes no access to the segment and no measurement, so that
    of the client only the runs of its handler matter; each is started by the
    delivery of an interrupt.  After [n] of them: *)
Fixpoint interrupted_client {W} `{!Kernel W} (n : nat) (shared_memory : Z) (bench : Benchmarks)
    : M (process W) Benchmarks :=
  match n with
  | O => mret bench
  | S n =>
      sys_ (Lib "user interrupt" []);;
      bench ← ui_handler shared_memory bench;
      interrupted_client n shared_memory bench
  end.

Section interrupted.
Context (L : layout) (HL : same_mapping L).
Abbreviation T := (uintr_client_turn L).
Abbreviation W := (world state T).

(** In its loop the client has received [rcv]. *)
Definition uintr_client_loops (rcv : list Z) (s : state) : Prop :=
  linked L s /\ st_client s = C_loop /\ st_received s = rcv.

Lemma uintr_client_loops_stable rcv : stable (T:=T) (uintr_client_loops rcv).
Proof.
  intros t s H. cbn. apply moves_along_inv; [|done]. intros v s1 s2 (Hi & Hs & Hr) Hm.
  destruct (server_move_keeps L v _ _ Hm) as [E1 E2].
  split; [by apply (linked_exec L (Server v) s1)|split; congruence].
Qed.

Lemma halts_ui_handler a bench : halts (ui_handler (W:=W) a bench).
Proof. unfold ui_handler. halting. Qed.

Lemma halts_interrupted n a : forall bench, halts (interrupted_client (W:=W) n a bench).
Proof.
  induction n as [|n IH]; intros bench; cbn [interrupted_client]; [apply halts_ret|].
  apply halts_bind; [apply halts_sys_|]. intros u. apply halts_bind; [apply halts_ui_handler|done].
Qed.

(** The record after the handlers: its [single_start] is the last timestamp. *)
Definition bench_after (bench : Benchmarks) (rcv : list Z) : Benchmarks :=
  match last rcv with Some v => set_single_start bench v | None => bench end.

Lemma uintr_client_interrupted n D R : forall rcv bench,
  triple (uintr_client_loops rcv) (interrupted_client (W:=W) n (client_base L) bench)
    (fun bench' s => exists new, length new = n /\ bench' = bench_after bench new /\ uintr_client_loops (rcv ++ new) s) D R.
Proof.
  induction n as [|n IH]; intros rcv bench; cbn [interrupted_client].
  { apply triple_ret. intros s H. exists []. by rewrite app_nil_r. }
  eapply (triple_bind _ _ _ (fun _ s => exists f, uintr_client_at L C_set_data f rcv s));
    [intros u; apply halts_bind; [apply halts_ui_handler|intros; apply halts_interrupted]| |intros u].
  { apply triple_ignoring. apply (triple_move _ _ (val 0) (client_exec L)); [apply uintr_client_loops_stable| |].
    - intros t s (_ & Es & _). cbn [link_answer uintr_client_link]. unfold uintr_client_answer. by rewrite Es.
    - intros s s' (Hi & Es & Er) Hx. pose proof (linked_exec L Client s s' HL Hi Hx) as Hi'.
      destruct s as [f r ts ss p sv c sent rcv']. cbn in Es, Er, Hx. subst. case_match; [|done]. injection Hx as <-.
      eexists. split; [exact Hi'|by split_and!]. }
  apply triple_exists. intros f.
  eapply triple_bind; [intros; apply halts_interrupted|by apply uintr_handler_runs|]. intros bench'.
  apply triple_exists. intros v. apply triple_pure. intros ->.
  eapply triple_conseq; [apply (IH (rcv ++ [v]))| | |exact (fun _ H => H)|exact (fun _ H => H)].
  - intros s (Hi & Hc & Hr & _). split; [exact Hi|by split].
  - intros b s (new & Hl & -> & H). exists (v :: new). rewrite <- app_assoc in H. split; [by cbn; rewrite Hl|].
    split; [|exact H]. unfold bench_after. rewrite last_cons. by destruct (last new).
Qed.

End interrupted.

(** ** Properties *)

(** C15: the server of uintr-pro implements its side of the protocol.  With equal
    mappings, from every reachable state in which it is about to take a
    timestamp, its loop, which reads and writes the ring one field at a time,
    only makes the protocol's moves beside any client, has no undefined behaviour
    and never returns; every copy of a message is one [memcpy].  With an index of
    at least 0 it never dies.  With a negative one, which the unchecked
    registration leaves when it fails, it dies at its first notification: its
    message is in the ring and the client has received nothing more. *)
Theorem uintr_server_refines L fuel spins index p o q :
  same_mapping L -> w_progress (env p) = Live ->
  reachable L (w_state (env p)) -> st_server (w_state (env p)) = S_now ->
  uintr_server_loop (W:=world state (uintr_server_turn L)) fuel spins index p = (o, q) ->
  rtc (step L) (w_state (env p)) (w_state (env q)) /\ w_progress (env q) <> Astray /\
  (w_progress (env q) = Live ->
     match o with
     | Running => (0 <= index \/ fuel = 0%nat) /\
         (st_server (w_state (env q)) = S_now \/ st_server (w_state (env q)) = S_spin)
     | Died _ => index < 0 /\ st_server (w_state (env q)) = S_notify /\
         st_received (w_state (env q)) = st_received (w_state (env p)) /\
         st_sent (w_state (env q)) = st_received (w_state (env p)) ++ [st_timestamp (w_state (env q))]
     | _ => False
     end).
Proof.
  intros HL Hp Hr Hs E. pose proof (linked_reachable L _ HL Hr) as Hi.
  pose proof (uintr_server_loops L HL index (st_received (w_state (env p))) fuel spins p Hp I) as H.
  rewrite E in H. destruct H as [Hsteps H]; [by split|]. cbn [fst snd] in *.
  split; [done|]. destruct (w_progress (env q)); try done. split; [done|]. intros _.
  destruct H as [_ H]. destruct o; try done.
  - destruct H as (Hx & Hq & Hn & Hrcv). split; [done|]. split; [done|]. split; [done|]. rewrite <- Hrcv.
    by apply (uintr_sent_notify L).
  - destruct H as [Hx [[_ H]|(i & _ & H & _)]]; auto.
Qed.

(** C16: the handler of uintr-pro implements its side of the protocol.  With
    equal mappings, from every reachable state in which an interrupt has been
    delivered, [ui_handler], which reads and writes the ring one field at a
    time, only makes the protocol's moves beside any server; unless the other
    side's moves run out it returns, [bench.single_start] is then the timestamp
    that the server sent last, and nothing else of the record has changed. *)
Theorem uintr_handler_refines L bench p o q :
  same_mapping L -> w_progress (env p) = Live ->
  reachable L (w_state (env p)) -> st_client (w_state (env p)) = C_set_data ->
  ui_handler (W:=world state (uintr_client_turn L)) (client_base L) bench p = (o, q) ->
  rtc (step L) (w_state (env p)) (w_state (env q)) /\ w_progress (env q) <> Astray /\
  (w_progress (env q) = Live -> exists v, o = Done (set_single_start bench v) /\
     st_client (w_state (env q)) = C_loop /\ st_received (w_state (env q)) = st_received (w_state (env p)) ++ [v] /\
     st_sent (w_state (env q)) = st_received (w_state (env q))).
Proof.
  intros HL Hp Hr Hs E.
  pose proof (uintr_handler_runs L HL (st_fifo (w_state (env p))) (st_received (w_state (env p))) bench
    (fun _ => False) (fun _ => False) p Hp I) as H.
  rewrite E in H. destruct H as [Hsteps H]; [by split; [apply linked_reachable|]|]. cbn [fst snd] in *.
  split; [done|]. destruct (w_progress (env q)); try done. split; [done|]. intros _.
  destruct H as [_ H]. destruct o as [b| | |]; try done. destruct H as (v & -> & _ & Hc & Hrc & Hse).
  exists v. split_and!; [done|done|done|by rewrite Hrc, Hse].
Qed.

(** ** Witnesses *)

Lemma layout_reachable_w cs :
  is_Some (s0 ← main_init (layout_w 65536) ring0_w; run (layout_w 65536) cs s0) -> reachable (layout_w 65536) (state_w 65536 cs).
Proof. apply reachable_at. Qed.

(** The client's handler drains the ring before the first test of the spin. *)
Definition uintr_choices : list (uintr_server_turn (layout_w 65536)) :=
  let c moves := mk_turn moves (1700000000, 0) (val 0) in
  replicate 15 (c []) ++ c (replicate 5 ()) :: replicate 20 (c []).

Lemma uintr_server_refines_witness :
  let p := mk_process 0 [] (mk_world (state_w 65536 []) uintr_choices Live) in
  let run := uintr_server_loop 2 2 4 p in
  st_received (w_state (env run.2)) = [1700000000000000000] /\
  rtc (step (layout_w 65536)) (state_w 65536 []) (w_state (env run.2)).
Proof.
  intros p run. split; [by vm_compute|].
  exact (proj1 (uintr_server_refines (layout_w 65536) 2 2 4 p run.1 run.2 same_mapping_w eq_refl
    (layout_reachable_w [] ltac:(vm_compute; by eexists)) ltac:(by vm_compute) (surjective_pairing run))).
Defined.

(** The same server when its registration has failed. *)
Example uintr_server_unregistered :
  let run := uintr_server_loop 2 2 (-1) (mk_process 0 [] (mk_world (state_w 65536 []) uintr_choices Live)) in
  run.1 = Died "Segmentation fault" /\ w_progress (env run.2) = Live /\
  st_sent (w_state (env run.2)) = [1700000000000000000] /\ st_received (w_state (env run.2)) = [].
Proof. by vm_compute. Qed.

Lemma uintr_handler_refines_witness :
  let bench := mk_Benchmarks 0 0 INT32_MAX 0 0 0 0 in
  let start s : process (world state (uintr_client_turn (layout_w 65536))) :=
    mk_process 0 [] (mk_world s (replicate 20 (mk_turn [0; 0] (0, 0) (val 0))) Live) in
  let s := state_w 65536 (take 6 (round 7)) in
  let run s := ui_handler 65536 bench (start s) in
  w_progress (env (run s).2) = Live /\ (run s).1 = Done (mk_Benchmarks 0 7 INT32_MAX 0 0 0 0) /\
  rtc (step (layout_w 65536)) s (w_state (env (run s).2)).
Proof.
  intros bench start s run. split; [by vm_compute|]. split; [by vm_compute|].
  assert (H : forall s, reachable (layout_w 65536) s -> st_client s = C_set_data ->
    rtc (step (layout_w 65536)) s (w_state (env (run s).2))).
  { intros s1 Hr Hc. exact (proj1 (uintr_handler_refines (layout_w 65536) bench (start s1) (run s1).1 (run s1).2
      same_mapping_w eq_refl Hr Hc (surjective_pairing (run s1)))). }
  apply H; [apply layout_reachable_w; vm_compute; by eexists|by vm_compute].
Defined.
