(* ===== verification/UintrPair.v ===== *)
(** * uintr-pro: the server and the interrupted client together

    The loop of [uintr-pro/server.c] and the handler of [uintr-pro/client.c],
    access by access in any order, over one ring and one interrupt. *)
From S2P Require Import Prelude Memory Kfifo Kernel Benchmarks UintrPro UintrMain Linking Together UintrLink.

#[local] Arguments le_bytes : simpl never.

(** ** The programs call nothing but the kernel *)
Lemma interactive_len_shared : interactive (fun W _ => kfifo_len_shared (W:=W)).
Proof. unfold kfifo_len_shared. interacting. Qed.
#[local] Hint Resolve interactive_len_shared : interactive.

Lemma interactive_span_shared len off : interactive (fun W _ => kfifo_span_shared (W:=W) len off).
Proof. unfold kfifo_span_shared. interacting. Qed.
#[local] Hint Resolve interactive_span_shared : interactive.

Lemma interactive_in_shared src len : interactive (fun W _ => kfifo_in_shared (W:=W) src len).
Proof. unfold kfifo_in_shared, kfifo_unused_shared, kfifo_copy_in_shared. interacting. Qed.
#[local] Hint Resolve interactive_in_shared : interactive.

Lemma interactive_out_shared dst len : interactive (fun W _ => kfifo_out_shared (W:=W) dst len).
Proof. unfold kfifo_out_shared, kfifo_out_peek_shared, kfifo_copy_out_shared. interacting. Qed.
#[local] Hint Resolve interactive_out_shared : interactive.

Lemma interactive_drained fuel : interactive (fun W _ => kfifo_drained (W:=W) fuel).
Proof. induction fuel; cbn [kfifo_drained]; interacting. Qed.
#[local] Hint Resolve interactive_drained : interactive.

Lemma interactive_uintr_server_round spins index : interactive (fun W _ => uintr_server_round (W:=W) spins index).
Proof. unfold uintr_server_round, uintrfd_notify, read_now. interacting. Qed.

Lemma interactive_interrupted n a : forall bench, interactive (fun W _ => interrupted_client (W:=W) n a bench).
Proof. induction n; intros bench; cbn [interrupted_client]; unfold ui_handler; interacting. Qed.

(** ** The two sides of the protocol *)
#[export] Instance uintr_server_choices_ok L : Choices state (uintr_server_turn L).
Proof.
  refine {| link_alone := turn_alone : uintr_server_turn L -> uintr_server_turn L; link_then := turn_then |}; try done.
  intros. cbn. apply moves_along_app.
Defined.

#[export] Instance uintr_client_choices_ok L : Choices state (uintr_client_turn L).
Proof.
  refine {| link_alone := turn_alone : uintr_client_turn L -> uintr_client_turn L; link_then := turn_then |}; try done.
  intros. cbn. apply moves_along_app.
Defined.

#[export] Instance uintr_server_beside L : Beside state (uintr_server_turn L) (uintr_client_turn L).
Proof.
  constructor. intros t c s r s' H. apply (uintr_client_answer_moves L (turn_alone t) c s r s') in H as [->|H].
  - by exists (mk_turn [] (0, 0) (val 0)).
  - exists (mk_turn [()] (0, 0) (val 0)). cbn. unfold moves_along. cbn. by rewrite H.
Qed.

#[export] Instance uintr_client_beside L : Beside state (uintr_client_turn L) (uintr_server_turn L).
Proof.
  constructor. intros t c s r s' H. apply (uintr_server_answer_moves L (turn_alone t) c s r s') in H as [->|[v H]].
  - by exists (mk_turn [] (0, 0) (val 0)).
  - exists (mk_turn [v] (0, 0) (val 0)). cbn. unfold moves_along. cbn. by rewrite H.
Qed.

(** ** A call that is expected is answered *)

(** The server never waits in a call. *)
Lemma uintr_server_answers L c s :
  (forall t, uintr_server_answer L (turn_alone t) c s <> Strange) ->
  exists t r s', uintr_server_answer L (turn_alone t) c s = Answer r s'.
Proof.
  intros Hc. specialize (Hc (mk_turn [] (0, 0) (val 0))). exists (mk_turn [] (0, 0) (val 0)).
  destruct s as [f r ts ss p sv cl sent rcv].
  unfold uintr_server_answer, by_load, by_clock, by_senduipi, turn_alone in *. cbn [st_server st_fifo st_timestamp tn_clock fst snd] in *.
  destruct sv, c; try done; repeat case_match; try done; try (by do 2 eexists);
    cbn [server_exec by_move]; repeat case_match; try (by do 2 eexists).
  rewrite now_zero in H. by simplify_eq.
Qed.

(** The client waits only for an interrupt. *)
Lemma uintr_client_answers L c s :
  (forall t, uintr_client_answer L (turn_alone t) c s <> Strange) ->
  (st_client s = C_loop -> st_pending s = true /\ handler_registered L = true) ->
  exists t r s', uintr_client_answer L (turn_alone t) c s = Answer r s'.
Proof.
  intros Hc Hl. specialize (Hc (mk_turn [] (0, 0) (val 0))). exists (mk_turn [] (0, 0) (val 0)).
  destruct s as [f r ts ss p sv cl sent rcv].
  unfold uintr_client_answer, by_load, turn_alone in *. cbn [st_client st_pending st_fifo] in *.
  destruct cl, c; try done; repeat case_match; try done; try (by do 2 eexists);
    cbn [client_exec by_move] in *; repeat case_match; try done; try (by do 2 eexists).
  destruct (Hl eq_refl) as [-> Hr]. by rewrite Hr in H1.
Qed.

(** While a message is in the ring and the server spins, the client is in its
    handler or has an interrupt pending. *)
Lemma uintr_client_ready L s :
  linked L s -> st_server s = S_spin -> kfifo_len (st_fifo s) <> 0 -> st_client s = C_loop -> st_pending s = true.
Proof.
  intros [(_ & _ & Hp) _] Hs Hl Hc. destruct s as [f r ts ss p sv c sent rcv]. cbn in *. subst.
  destruct p; [done|]. by destruct Hp.
Qed.

Lemma uintr_sent L s :
  linked L s -> st_sent s = st_received s \/ st_sent s = st_received s ++ [st_timestamp s].
Proof.
  intros [(_ & _ & Hp) _]. destruct s as [f r ts ss p sv c sent rcv]. cbn in *.
  destruct sv, c, p; try done; intuition congruence.
Qed.

(** ** The pair *)
Section pair.
Context (L : layout) (HL : same_mapping L) (fuel spins n : nat) (index : Z) (bench0 : Benchmarks).

Definition uintr_server_program W `{!Kernel W} : M (process W) () := uintr_server_loop fuel spins index.
Definition uintr_client_program W `{!Kernel W} : M (process W) Benchmarks := interrupted_client n (client_base L) bench0.

Definition uintr_joint_step : relation (joint state) :=
  joint_step (TA:=uintr_server_turn L) (TB:=uintr_client_turn L) (uintr_server_program script) (uintr_client_program script).

Definition uintr_client_returned (b : Benchmarks) (s : state) : Prop :=
  exists new, length new = n /\ b = bench_after bench0 new /\ uintr_client_loops L new s.

Lemma uintr_pair_sound s0 j :
  linked L s0 -> st_server s0 = S_now -> st_client s0 = C_loop -> st_received s0 = [] ->
  rtc uintr_joint_step (mk_joint s0 [] []) j ->
  rtc (step L) s0 (j_state j) /\
  abides (T:=uintr_server_turn L) (uintr_server_program script) (fun _ _ => False) (uintr_server_faults L index [])
    (fun s => (0 <= index \/ fuel = 0%nat) /\ uintr_server_runs L index [] s) (j_first j) (j_state j) /\
  abides (T:=uintr_client_turn L) (uintr_client_program script) uintr_client_returned (fun _ => False)
    (fun _ => False) (j_second j) (j_state j).
Proof.
  intros Hi Hs Hc Hrcv Hr. split.
  - by apply (joint_steps (TA:=uintr_server_turn L) (TB:=uintr_client_turn L)
      uintr_server_program uintr_client_program) in Hr.
  - apply (joint_sound (TA:=uintr_server_turn L) (TB:=uintr_client_turn L) uintr_server_program uintr_client_program
      (interactive_forever fuel _ (interactive_uintr_server_round spins index))
      (interactive_interrupted n (client_base L) bench0)
      (uintr_server_starts L index []) (uintr_client_loops L [])) with (s0 := s0); try done.
    + by apply uintr_server_loops.
    + by apply (uintr_client_interrupted L HL n _ _ []).
    + intros a. apply stable_False.
    + apply uintr_server_faults_stable.
    + apply stable_pure, stable_or; [apply uintr_server_starts_stable|]. apply stable_exists. intros i. by apply uintr_server_spins_stable.
    + intros b. apply stable_exists. intros new. do 2 apply stable_pure. by apply uintr_client_loops_stable.
    + apply stable_False.
    + apply stable_False.
Qed.

End pair.

(** ** Properties *)

(** C2: the server of uintr-pro and the interrupted client work together when
    both map the segment at the same address.  From the initialised ring, in
    whatever order the server's loop and the client's handler read and write the
    fields and the bytes of the ring, they only make moves of the protocol and
    neither has undefined behaviour.  The client never dies; the server dies at
    its first notification when its unchecked registration has failed and left a
    negative index, and never otherwise.  What the client has received is what
    the server has sent, in order, but for one message on its way; after its
    [n]-th interrupt it has received [n] timestamps and its record starts at the
    last.  The server can make its next call at any time.  When the client has
    registered its handler, it can make its next call while a message is in the
    ring and the server spins: no interrupt is lost.  When it has not, as
    [client_main] never does, it receives nothing and the server sends at most
    one message. *)
Theorem uintr_together L fuel spins n index bench0 r0 s0 j :
  same_mapping L ->
  Z.of_nat (length r0) = DEFAULT_MESSAGE_SIZE -> main_init L r0 = Some s0 ->
  rtc (uintr_joint_step L fuel spins n index bench0) (mk_joint s0 [] []) j ->
  let server := uintr_server_program fuel spins index script in
  let client := uintr_client_program L n bench0 script in
  reachable L (j_state j) /\
  (st_sent (j_state j) = st_received (j_state j) \/
   st_sent (j_state j) = st_received (j_state j) ++ [st_timestamp (j_state j)]) /\
  (next_call server (j_first j) = None ->
     match outcome_on server (j_first j) with
     | Running => 0 <= index \/ fuel = 0%nat
     | Died _ => index < 0 /\ st_server (j_state j) = S_notify /\ st_received (j_state j) = []
     | _ => False
     end) /\
  (next_call client (j_second j) = None ->
     length (st_received (j_state j)) = n /\
     outcome_on client (j_second j) = Done (bench_after bench0 (st_received (j_state j)))) /\
  (handler_registered L = false -> st_received (j_state j) = [] /\ (length (st_sent (j_state j)) <= 1)%nat) /\
  (next_call server (j_first j) <> None -> exists t j',
     joint_move (TA:=uintr_server_turn L) (TB:=uintr_client_turn L) server client (inl t) j = Some j') /\
  (handler_registered L = true ->
   st_server (j_state j) = S_spin -> kfifo_len (st_fifo (j_state j)) <> 0 -> next_call client (j_second j) <> None ->
   exists t j', joint_move (TA:=uintr_server_turn L) (TB:=uintr_client_turn L) server client (inr t) j = Some j').
Proof.
  intros HL Hl0 Hinit Hr server client.
  assert (Hreach : reachable L s0) by (exists r0, s0; split_and!; [done|done|apply rtc_refl]).
  pose proof (linked_reachable L s0 HL Hreach) as Hi0.
  assert (Hstart : st_server s0 = S_now /\ st_client s0 = C_loop /\ st_received s0 = []).
  { unfold main_init in Hinit. destruct (__kfifo_init _ _ _) as [[f w]|]; [|done]. cbn in Hinit. by simplify_eq. }
  destruct Hstart as (H1 & H2 & H3).
  destruct (uintr_pair_sound L HL fuel spins n index bench0 s0 j Hi0 H1 H2 H3 Hr) as (Hs & Ha & Hb).
  assert (Hreach' : reachable L (j_state j)) by (exists r0, s0; by split_and!).
  pose proof (linked_reachable L _ HL Hreach') as Hi. fold server in Ha. fold client in Hb. unfold abides in Ha, Hb.
  split; [done|]. split; [by apply (uintr_sent L)|]. split_and!.
  - intros Hn. rewrite Hn in Ha. destruct (outcome_on server (j_first j)); try done; [|apply Ha].
    destruct Ha as (Hx & _ & H). by split.
  - intros Hn. rewrite Hn in Hb. destruct (outcome_on client (j_second j)) as [b| | |]; try done.
    destruct Hb as (new & <- & -> & _ & _ & <-). done.
  - intros Hreg. destruct (inv_unregistered_reachable L _ (proj2 HL) Hreg Hreach') as (_ & _ & Hrcv & _).
    split; [done|]. by destruct (uintr_sent L _ Hi) as [-> | ->]; rewrite Hrcv; cbn; lia.
  - intros Hn. destruct j as [s ra rb]. cbn [j_state j_first j_second] in *.
    destruct (next_call server ra) as [c|] eqn:E; [|done].
    destruct (uintr_server_answers L c s Ha) as (t & r & s' & Ht). exists t. eexists. cbn [joint_move]. rewrite E. cbn.
    by rewrite Ht.
  - intros Hreg Hsp Hlen Hn. destruct j as [s ra rb]. cbn [j_state j_first j_second] in *.
    destruct (next_call client rb) as [c|] eqn:E; [|done].
    destruct (uintr_client_answers L c s Hb) as (t & r & s' & Ht).
    { intros Hc. split; [by apply (uintr_client_ready L s)|done]. }
    exists t. eexists. cbn [joint_move]. rewrite E. cbn. by rewrite Ht.
Qed.

(** ** Witness *)

(** The server tests the ring twice: within the handler and after it. *)
Definition uintr_schedule : list (uintr_server_turn (layout_w 65536) + uintr_client_turn (layout_w 65536)) :=
  let s := inl (mk_turn [] (1700000000, 0) (val 0)) in
  let c := inr (mk_turn [] (0, 0) (val 0)) in
  replicate 15 s ++ replicate 9 c ++ [s; s] ++ replicate 7 c ++ [s; s].

Definition uintr_pair_bench : Benchmarks := mk_Benchmarks 0 0 INT32_MAX 0 0 0 0.

Definition uintr_pair_start : state := state_w 65536 [].

Definition uintr_pair_run : joint state :=
  state_along (joint_move (TA:=uintr_server_turn (layout_w 65536)) (TB:=uintr_client_turn (layout_w 65536))
    (uintr_server_program 2 5 4 script) (uintr_client_program (layout_w 65536) 1 uintr_pair_bench script))
    uintr_schedule (mk_joint uintr_pair_start [] []).

Lemma uintr_together_witness :
  outcome_on (uintr_client_program (layout_w 65536) 1 uintr_pair_bench script) (j_second uintr_pair_run) =
    Done (mk_Benchmarks 0 1700000000000000000 INT32_MAX 0 0 0 0) /\
  st_server (j_state uintr_pair_run) = S_now /\
  st_sent (j_state uintr_pair_run) = [1700000000000000000] /\
  reachable (layout_w 65536) (j_state uintr_pair_run).
Proof.
  split; [by vm_compute|]. split; [by vm_compute|]. split; [by vm_compute|].
  assert (Hinit : main_init (layout_w 65536) ring0_w = Some uintr_pair_start) by by vm_compute.
  refine (proj1 (uintr_together (layout_w 65536) 2 5 1 4 uintr_pair_bench ring0_w uintr_pair_start uintr_pair_run
    same_mapping_w eq_refl Hinit _)).
  apply state_along_rtc; [intros t a b; apply joint_move_step|by vm_compute; eexists].
Defined.
