(* ===== verification/SharedGuard.v ===== *)
(** * shm and mmap: the guard byte of the shared memory

    [shm/server.c], [shm/client.c], [mmap/server.c] and [mmap/client.c] run the
    same protocol over the first nine bytes of a shared mapping: byte 0 is the
    guard, bytes 1 to 8 the timestamp.  The client stores ['s'] and spins until
    the guard is ['c']; the server spins until it is ['s'], copies the
    timestamp and stores ['c'].  Guard accesses are atomic and sequentially
    consistent; [memcpy] moves one byte per step. *)
From S2P Require Import Prelude Memory.

Definition guard_s : Z := 115.
Definition guard_c : Z := 99.

(** Control points of the server's [communicate]. *)
Inductive guard_server_pc :=
  | GS_wait                 (* shm_wait: while (atomic_load(guard) != 's') *)
  | GS_now                  (* timestamp = now() *)
  | GS_copy (i : nat)       (* memcpy, [i] bytes done *)
  | GS_notify               (* shm_notify: atomic_store(guard, 'c') *)
  | GS_fault.

(** Control points of the client's loop in [main]. *)
Inductive guard_client_pc :=
  | GC_check                (* gettimeofday, and the test that ends the loop *)
  | GC_notify               (* shm_notify: atomic_store(guard, 's') *)
  | GC_wait                 (* shm_wait: while (atomic_load(guard) != 'c') *)
  | GC_copy (i : nat)       (* memcpy to single_start, [i] bytes done *)
  | GC_benchmark            (* benchmark(bench) *)
  | GC_done
  | GC_fault.

Record guard_state := mk_guard_state {
  gs_shared : list Z;         (* the mapped bytes *)
  gs_server : guard_server_pc;
  gs_timestamp : Z;           (* the server's timestamp *)
  gs_sent : list Z;           (* timestamps published so far *)
  gs_client : guard_client_pc;
  gs_single_start : list Z;   (* bytes copied to single_start in this round *)
  gs_received : list Z;       (* values measured so far *)
}.

Definition guard_is (sh : list Z) (c : Z) : bool :=
  match sh with g :: _ => g =? c | [] => false end.

(** One move of the server; [t] is the value of [now()]. *)
Definition guard_server_move (t : Z) (s : guard_state) : option guard_state :=
  let 'mk_guard_state sh sv ts sent cl ss rcv := s in
  match sv with
  | GS_wait =>
      if decide (sh = []) then Some (mk_guard_state sh GS_fault ts sent cl ss rcv)
      else Some (mk_guard_state sh (if guard_is sh guard_s then GS_now else GS_wait) ts sent cl ss rcv)
  | GS_now =>
      if decide (0 <= t < 2 ^ 64) then Some (mk_guard_state sh (GS_copy 0) t sent cl ss rcv) else None
  | GS_copy i =>
      match le_bytes 8 ts !! i with
      | None => Some (mk_guard_state sh GS_notify ts sent cl ss rcv)
      | Some b =>
          if decide (S i < length sh)%nat
          then Some (mk_guard_state (<[S i := b]> sh) (GS_copy (S i)) ts sent cl ss rcv)
          else Some (mk_guard_state sh GS_fault ts sent cl ss rcv)
      end
  | GS_notify => Some (mk_guard_state (<[0%nat := guard_c]> sh) GS_wait ts (sent ++ [ts]) cl ss rcv)
  | GS_fault => None
  end.

(** One move of the client; [stop] is the result of the loop's time test. *)
Definition guard_client_move (stop : bool) (s : guard_state) : option guard_state :=
  let 'mk_guard_state sh sv ts sent cl ss rcv := s in
  match cl with
  | GC_check => Some (mk_guard_state sh sv ts sent (if stop then GC_done else GC_notify) ss rcv)
  | GC_notify =>
      if decide (sh = []) then Some (mk_guard_state sh sv ts sent GC_fault ss rcv)
      else Some (mk_guard_state (<[0%nat := guard_s]> sh) sv ts sent GC_wait ss rcv)
  | GC_wait =>
      Some (mk_guard_state sh sv ts sent (if guard_is sh guard_c then GC_copy 0 else GC_wait)
              (if guard_is sh guard_c then [] else ss) rcv)
  | GC_copy i =>
      if decide (i = 8)%nat then Some (mk_guard_state sh sv ts sent GC_benchmark ss rcv)
      else match sh !! S i with
           | Some b => Some (mk_guard_state sh sv ts sent (GC_copy (S i)) (ss ++ [b]) rcv)
           | None => Some (mk_guard_state sh sv ts sent GC_fault ss rcv)
           end
  | GC_benchmark => Some (mk_guard_state sh sv ts sent GC_check ss (rcv ++ [le_value ss]))
  | GC_done | GC_fault => None
  end.

Inductive guard_step : guard_state -> guard_state -> Prop :=
  | Guard_server t s s' : guard_server_move t s = Some s' -> guard_step s s'
  | Guard_client stop s s' : guard_client_move stop s = Some s' -> guard_step s s'.

(** The start: the mapping holds whatever an earlier run left in it. *)
Definition guard_init (sh : list Z) : guard_state :=
  mk_guard_state sh GS_wait 0 [] GC_check [] [].

Definition guard_reachable (sh0 : list Z) (s : guard_state) : Prop :=
  rtc guard_step (guard_init sh0) s.

(** A run along a schedule. *)
Inductive guard_turn := ServerTurn (now : Z) | ClientTurn (stop : bool).

Definition guard_exec (c : guard_turn) (s : guard_state) : option guard_state :=
  match c with ServerTurn t => guard_server_move t s | ClientTurn b => guard_client_move b s end.

Definition guard_run : list guard_turn -> guard_state -> option guard_state := run_along guard_exec.

(** ** The invariant *)

Definition server_writing (s : guard_state) : bool :=
  match gs_server s with GS_now | GS_copy _ | GS_notify => true | _ => false end.

Definition client_reading (s : guard_state) : bool :=
  match gs_client s with GC_copy _ | GC_benchmark => true | _ => false end.

(** The server's bytes so far: the first [i] bytes of the timestamp are in
    place. *)
Definition copied (sh : list Z) (ts : Z) (i : nat) : Prop :=
  (i <= 8)%nat /\ take i (drop 1 sh) = take i (le_bytes 8 ts).

Definition server_ok (s : guard_state) : Prop :=
  let 'mk_guard_state sh sv ts sent cl ss rcv := s in
  match sv with
  | GS_wait => True
  | GS_now => guard_is sh guard_s = true
  | GS_copy i => guard_is sh guard_s = true /\ copied sh ts i /\ 0 <= ts < 2 ^ 64
  | GS_notify => guard_is sh guard_s = true /\ copied sh ts 8 /\ 0 <= ts < 2 ^ 64
  | GS_fault => False
  end.

(** The message in flight: published, not measured. *)
Definition in_flight (sh : list Z) (t : Z) : Prop :=
  0 <= t < 2 ^ 64 /\ take 8 (drop 1 sh) = le_bytes 8 t.

(** [lost] are the messages published before the client's first request, at
    most one, and only when the guard was ['s'] at the start. *)
Definition client_ok (stale : bool) (s : guard_state) : Prop :=
  let 'mk_guard_state sh sv ts sent cl ss rcv := s in
  exists lost, (length lost <= 1)%nat /\ (lost <> [] -> stale = true) /\
  match cl with
  | GC_check | GC_notify | GC_done =>
      sent = lost ++ rcv /\
      (guard_is sh guard_s = true -> stale = true /\ sent = [])
  | GC_wait =>
      if guard_is sh guard_s then sent = lost ++ rcv
      else guard_is sh guard_c = true /\ exists t, in_flight sh t /\ sent = lost ++ rcv ++ [t]
  | GC_copy i =>
      guard_is sh guard_c = true /\ (i <= 8)%nat /\
      exists t, in_flight sh t /\ ss = take i (le_bytes 8 t) /\ sent = lost ++ rcv ++ [t]
  | GC_benchmark =>
      guard_is sh guard_c = true /\
      exists t, in_flight sh t /\ ss = le_bytes 8 t /\ sent = lost ++ rcv ++ [t]
  | GC_fault => False
  end.

Definition guard_inv (stale : bool) (s : guard_state) : Prop :=
  (9 <= length (gs_shared s))%nat /\ server_ok s /\ client_ok stale s.

(** ** Lemmas *)

Lemma take_insert_next {A} (l k : list A) i b :
  take i l = take i k -> k !! i = Some b -> (i < length l)%nat ->
  take (S i) (<[i:=b]> l) = take (S i) k.
Proof.
  intros Ht Hk Hl. rewrite (take_S_r k i b Hk).
  rewrite (take_S_r _ i b) by (by apply list_lookup_insert_eq).
  by rewrite take_insert_ge by lia; rewrite Ht.
Qed.

Lemma le_bytes_take8 t : take 8 (le_bytes 8 t) = le_bytes 8 t.
Proof. apply take_ge. by rewrite length_le_bytes. Qed.

Lemma in_flight_lookup g p t i b :
  in_flight (g :: p) t -> (i < 8)%nat -> p !! i = Some b ->
  take i (le_bytes 8 t) ++ [b] = take (S i) (le_bytes 8 t).
Proof.
  intros [_ Ht] Hi Hb. symmetry. apply take_S_r. rewrite <- Ht. cbn [drop].
  by rewrite lookup_take_lt.
Qed.

Lemma le_value_le_bytes8 t : 0 <= t < 2 ^ 64 -> le_value (le_bytes 8 t) = t.
Proof. intros Ht. rewrite le_value_bytes. by apply Z.mod_small. Qed.

Lemma guard_s_not_c sh : guard_is sh guard_s = true -> guard_is sh guard_c = true -> False.
Proof. destruct sh; simpl; [done|]. rewrite !Z.eqb_eq. by intros ->. Qed.

(** Each process has the guard while it accesses the timestamp. *)
Lemma server_ok_guard s : server_ok s -> server_writing s = true -> guard_is (gs_shared s) guard_s = true.
Proof. destruct s as [sh [] ts sent cl ss rcv]; cbn; intuition discriminate. Qed.

Lemma client_ok_guard stale s : client_ok stale s -> client_reading s = true -> guard_is (gs_shared s) guard_c = true.
Proof. destruct s as [sh sv ts sent [] ss rcv]; intros (lost & _ & _ & Hc) H; try done; apply Hc. Qed.

Lemma guard_inv_init sh0 :
  (9 <= length sh0)%nat -> guard_inv (guard_is sh0 guard_s) (guard_init sh0).
Proof.
  intros Hl. split; [done|]. split; [done|]. exists []. simpl. split_and!; auto; lia.
Qed.

(** Publishing hands the message to the client. *)
Lemma client_ok_publish stale g p ts sent cl ss rcv :
  server_ok (mk_guard_state (g :: p) GS_notify ts sent cl ss rcv) ->
  client_ok stale (mk_guard_state (g :: p) GS_notify ts sent cl ss rcv) ->
  client_ok stale (mk_guard_state (guard_c :: p) GS_wait ts (sent ++ [ts]) cl ss rcv).
Proof.
  intros (Hg & [_ Hcp] & Ht) (lost & Hl & Hst & Hc). rewrite le_bytes_take8 in Hcp.
  assert (Hearly : sent = lost ++ rcv -> (guard_is (g :: p) guard_s = true -> stale = true /\ sent = []) ->
    exists lost', (length lost' <= 1)%nat /\ (lost' <> [] -> stale = true) /\
      sent ++ [ts] = lost' ++ rcv /\
      (guard_is (guard_c :: p) guard_s = true -> stale = true /\ sent ++ [ts] = [])).
  { intros Hs He. destruct (He Hg) as [-> ->]. destruct lost, rcv; try done.
    exists [ts]. by split_and!. }
  destruct cl; cbn [client_ok] in *; try (by apply Hearly; apply Hc).
  - exists lost. split_and!; [done|done|]. rewrite Hg in Hc. split; [done|].
    exists ts. split; [by split|]. by rewrite Hc, app_assoc.
  - exfalso. eapply guard_s_not_c; [exact Hg|apply Hc].
  - exfalso. eapply guard_s_not_c; [exact Hg|apply Hc].
  - done.
Qed.

(** The client's view does not depend on the bytes the server is writing. *)
Lemma client_ok_write stale g p p' sv sv' ts ts' sent cl ss rcv :
  guard_is (g :: p) guard_s = true ->
  client_ok stale (mk_guard_state (g :: p) sv ts sent cl ss rcv) ->
  client_ok stale (mk_guard_state (g :: p') sv' ts' sent cl ss rcv).
Proof.
  intros Hg (lost & Hl & Hst & Hc). exists lost. split_and!; [done|done|].
  destruct cl; try done; simpl in *.
  - by rewrite Hg in *.
  - destruct Hc as [Hc _]. by destruct (guard_s_not_c (g :: p)).
  - destruct Hc as [Hc _]. by destruct (guard_s_not_c (g :: p)).
Qed.

Lemma guard_inv_server stale t s s' :
  guard_inv stale s -> guard_server_move t s = Some s' -> guard_inv stale s'.
Proof.
  destruct s as [[|g p] sv ts sent cl ss rcv]; intros (Hlen & Hs & Hc) Hm; simpl in Hlen; [lia|].
  destruct sv as [| |i| |]; cbn [guard_server_move] in Hm.
  - rewrite decide_False in Hm by done. destruct (guard_is (g :: p) guard_s) eqn:Hg; simplify_eq; by split_and!.
  - case_match; simplify_eq. split_and!; [done| |].
    + split; [done|]. split; [|done]. split; [lia|done].
    + eapply client_ok_write; [exact Hs|exact Hc].
  - destruct Hs as (Hg & [Hi Hcp] & Ht). cbn [drop] in Hcp.
    destruct (le_bytes 8 ts !! i) as [b|] eqn:Hb.
    + assert (Hi8 : (i < 8)%nat) by (apply lookup_lt_Some in Hb; by rewrite length_le_bytes in Hb).
      rewrite decide_True in Hm by (simpl; lia). simplify_eq. split_and!.
      * simpl. rewrite length_insert. lia.
      * split; [done|]. split; [|done]. split; [lia|]. cbn [drop list_insert].
        apply take_insert_next; [done|done|lia].
      * by eapply client_ok_write.
    + apply lookup_ge_None in Hb. rewrite length_le_bytes in Hb.
      assert (i = 8%nat) as -> by lia. simplify_eq. by split_and!.
  - simplify_eq. split_and!; [done|done|]. by apply client_ok_publish in Hc.
  - done.
Qed.

Lemma guard_inv_client stale b s s' :
  guard_inv stale s -> guard_client_move b s = Some s' -> guard_inv stale s'.
Proof.
  destruct s as [[|g p] sv ts sent cl ss rcv]; intros (Hlen & Hs & Hc) Hm; simpl in Hlen; [lia|].
  destruct Hc as (lost & Hl & Hst & Hc). destruct cl as [| | |i| | |]; cbn [guard_client_move] in Hm; try done.
  - simplify_eq. split_and!; [done|done|]. exists lost. by destruct b.
  - rewrite decide_False in Hm by done. simplify_eq. split_and!; [done| |].
    + destruct sv; simpl in *; try done; by destruct Hs as (_ & ?).
    + exists lost. simpl. by destruct Hc.
  - destruct (guard_is (g :: p) guard_c) eqn:Hg; simplify_eq; (split; [done|]); (split; [exact Hs|]);
      exists lost; do 2 (split; [done|]); [|by rewrite Hg].
    destruct (guard_is (g :: p) guard_s) eqn:Hgs.
    { exfalso. by eapply guard_s_not_c. }
    destruct Hc as (_ & t & Hf & Hsent). split_and!; [done|lia|]. by exists t.
  - destruct Hc as (Hg & Hi & t & Hf & Hss & Hsent). destruct (decide (i = 8%nat)) as [->|Hn].
    + simplify_eq. split; [done|]. split; [exact Hs|]. exists lost. do 3 (split; [done|]).
      exists t. by rewrite le_bytes_take8.
    + cbn [lookup list_lookup] in Hm. destruct (p !! i) as [x|] eqn:Hx.
      * simplify_eq. split; [done|]. split; [exact Hs|]. exists lost. do 3 (split; [done|]). split; [lia|].
        exists t. split_and!; [done| |done]. eapply in_flight_lookup; [done|lia|done].
      * apply lookup_ge_None in Hx. simpl in Hlen. lia.
  - destruct Hc as (Hg & t & [Ht Hf] & -> & Hsent). simplify_eq. split; [done|]. split; [exact Hs|].
    exists lost. do 2 (split; [done|]). split.
    + by rewrite le_value_le_bytes8.
    + intros Hgs. exfalso. by eapply guard_s_not_c.
Qed.

Lemma guard_inv_reachable sh0 s :
  (9 <= length sh0)%nat -> guard_reachable sh0 s -> guard_inv (guard_is sh0 guard_s) s.
Proof.
  intros Hl Hr. eapply inv_rtc; [|by apply guard_inv_init|exact Hr].
  intros a b Ha Hs. destruct Hs; [by eapply guard_inv_server|by eapply guard_inv_client].
Qed.

Lemma guard_run_reachable sh0 cs s : guard_run cs (guard_init sh0) = Some s -> guard_reachable sh0 s.
Proof.
  apply run_along_rtc. intros [t|b] s1 s2 H; [by eapply Guard_server|by eapply Guard_client].
Qed.

(** The number of steps, other than spinning, to the client's next test of the
    time. *)
Definition guard_rank (s : guard_state) : nat :=
  match gs_client s with
  | GC_notify => 30 | GC_wait => 11 | GC_copy i => 10 - i | GC_benchmark => 1 | _ => 0
  end +
  match gs_server s with
  | GS_wait => if guard_is (gs_shared s) guard_s then 12 else 0
  | GS_now => 11 | GS_copy i => 10 - i | GS_notify => 1 | GS_fault => 0
  end.

Lemma guard_rank_step stale s s' :
  guard_inv stale s -> guard_step s s' ->
  s' = s \/ (guard_rank s' < guard_rank s)%nat \/ gs_client s = GC_check.
Proof.
  intros (Hlen & Hs & Hc) Hst.
  destruct Hst as [t s s' Hm|b s s' Hm]; destruct s as [[|g p] sv ts sent cl ss rcv]; simpl in Hlen; try lia.
  - destruct sv as [| |i| |]; cbn [guard_server_move] in Hm; try done.
    + rewrite decide_False in Hm by done. destruct (guard_is (g :: p) guard_s) eqn:Hg; simplify_eq; [|by left].
      right; left. unfold guard_rank. cbn [gs_client gs_server gs_shared]. rewrite Hg. lia.
    + case_match; simplify_eq. right; left. unfold guard_rank. simpl. lia.
    + destruct Hs as (_ & [Hi _] & _). destruct (le_bytes 8 ts !! i) as [x|] eqn:Hx.
      * apply lookup_lt_Some in Hx. rewrite length_le_bytes in Hx. rewrite decide_True in Hm by (simpl; lia).
        simplify_eq. right; left. unfold guard_rank. cbn [gs_client gs_server gs_shared]. lia.
      * simplify_eq. right; left. unfold guard_rank. cbn [gs_client gs_server gs_shared]. lia.
    + simplify_eq. right; left. unfold guard_rank. simpl. lia.
  - destruct Hc as (lost & _ & _ & Hc).
    destruct cl as [| | |i| | |]; cbn [guard_client_move] in Hm; try done; auto.
    + rewrite decide_False in Hm by done. simplify_eq. right; left. unfold guard_rank.
      cbn [gs_client gs_server gs_shared]. destruct sv; try case_match; lia.
    + destruct (guard_is (g :: p) guard_c); simplify_eq; [|by left]. right; left.
      unfold guard_rank. cbn [gs_client gs_server gs_shared]. lia.
    + right; left. destruct Hc as (_ & Hi & _). destruct (decide (i = 8%nat)); simplify_eq.
      * unfold guard_rank. simpl. lia.
      * cbn [lookup list_lookup] in Hm. case_match; [|apply lookup_ge_None in H; simpl in Hlen; lia].
        simplify_eq. unfold guard_rank. cbn [gs_client gs_server gs_shared]. lia.
    + simplify_eq. right; left. unfold guard_rank. simpl. lia.
Qed.

(** A step that changes something, while the client runs. *)
Lemma guard_enabled stale s :
  guard_inv stale s -> gs_client s <> GC_done -> exists s', guard_step s s' /\ s' <> s.
Proof.
  destruct s as [[|g p] sv ts sent cl ss rcv]; intros (Hlen & Hs & Hc) Hd; simpl in Hlen; [lia|].
  destruct Hc as (lost & _ & _ & Hc).
  assert (Hclient : forall b s', guard_client_move b (mk_guard_state (g :: p) sv ts sent cl ss rcv) = Some s' ->
    gs_client s' <> cl -> exists s', guard_step (mk_guard_state (g :: p) sv ts sent cl ss rcv) s' /\
      s' <> mk_guard_state (g :: p) sv ts sent cl ss rcv).
  { intros b s' Hm Hne. exists s'. split; [by eapply Guard_client|]. by intros ->. }
  assert (Hserver : forall s', guard_server_move 0 (mk_guard_state (g :: p) sv ts sent cl ss rcv) = Some s' ->
    gs_server s' <> sv -> exists s', guard_step (mk_guard_state (g :: p) sv ts sent cl ss rcv) s' /\
      s' <> mk_guard_state (g :: p) sv ts sent cl ss rcv).
  { intros s' Hm Hne. exists s'. split; [by eapply Guard_server|]. by intros ->. }
  destruct cl as [| | |i| | |]; try done.
  - by eapply (Hclient true).
  - by eapply (Hclient true).
  - destruct (guard_is (g :: p) guard_s) eqn:Hg.
    + destruct sv as [| |i| |]; [| | | |done].
      * eapply Hserver; [cbn [guard_server_move]; by rewrite decide_False, Hg by done|done].
      * by eapply Hserver.
      * destruct Hs as (_ & [Hi _] & _).
        destruct (le_bytes 8 ts !! i) as [x|] eqn:Hx.
        { pose proof (lookup_lt_Some _ _ _ Hx) as Hx8. rewrite length_le_bytes in Hx8.
          eapply Hserver; [cbn [guard_server_move]; by rewrite Hx, decide_True by (simpl; lia)|].
          simpl. intros E. injection E. lia. }
        eapply Hserver; [cbn [guard_server_move]; by rewrite Hx|done].
      * by eapply Hserver.
    + destruct Hc as (Hgc & _). eapply (Hclient true); [cbn [guard_client_move]; by rewrite Hgc|done].
  - destruct Hc as (_ & Hi & _). destruct (decide (i = 8%nat)) as [->|Hn].
    + by eapply (Hclient true).
    + destruct (lookup_lt_is_Some_2 (g :: p) (S i)) as [x Hx]; [simpl; lia|].
      eapply (Hclient true); [cbn [guard_client_move]; by rewrite decide_False, Hx by done|].
      simpl. intros E. injection E. lia.
  - by eapply (Hclient true).
Qed.

(** With fewer than nine mapped bytes the copy never ends. *)
Definition short_inv (s : guard_state) : Prop :=
  (length (gs_shared s) < 9)%nat /\ gs_sent s = [] /\ gs_received s = [] /\
  match gs_server s with GS_notify => False | GS_copy i => (i < 8)%nat | _ => True end /\
  match gs_client s with
  | GC_copy _ | GC_benchmark => False
  | GC_wait => guard_is (gs_shared s) guard_s = true
  | _ => True
  end.

Lemma short_inv_step s s' : short_inv s -> guard_step s s' -> short_inv s'.
Proof.
  intros (Hlen & Hsent & Hrcv & Hs & Hc) Hst.
  destruct Hst as [t s s' Hm|b s s' Hm]; destruct s as [sh sv ts sent cl ss rcv];
    cbn [gs_shared gs_server gs_sent gs_received gs_client] in *; subst.
  - destruct sv as [| |i| |]; cbn [guard_server_move] in Hm; try done.
    + case_decide; [simplify_eq; by split_and!|]. simplify_eq.
      split; [done|]. split; [done|]. split; [done|]. split; [|exact Hc]. by destruct (guard_is _ _).
    + case_decide; simplify_eq. split_and!; try done. simpl. lia.
    + destruct (lookup_lt_is_Some_2 (le_bytes 8 ts) i) as [x Hx]; [by rewrite length_le_bytes|].
      rewrite Hx in Hm. case_decide; simplify_eq; [|by split_and!].
      unfold short_inv. cbn [gs_shared gs_sent gs_received gs_server gs_client].
      rewrite length_insert. split_and!; try done; [lia|]. destruct cl; try done. by destruct sh.
  - destruct cl as [| | |i| | |]; cbn [guard_client_move] in Hm; try done.
    + simplify_eq. by destruct b; split_and!.
    + case_decide; simplify_eq; [by split_and!|]. unfold short_inv.
      cbn [gs_shared gs_sent gs_received gs_server gs_client]. rewrite length_insert.
      split_and!; try done. by destruct sh.
    + destruct (guard_is sh guard_c) eqn:Hg; [destruct (guard_s_not_c sh Hc Hg)|]. simplify_eq. by split_and!.
Qed.

(** ** Properties *)

(** C24: mutual exclusion and memory safety.  When at least nine bytes are
    mapped, whatever they held at the start, in every reachable state neither
    process has left the mapping, the server writes the timestamp only while the
    guard is ['s'] and the client reads it only while the guard is ['c'], so that
    they never do both at once. *)
Theorem guard_exclusion sh0 s :
  (9 <= length sh0)%nat -> guard_reachable sh0 s ->
  gs_server s <> GS_fault /\ gs_client s <> GC_fault /\
  (server_writing s = true -> guard_is (gs_shared s) guard_s = true) /\
  (client_reading s = true -> guard_is (gs_shared s) guard_c = true) /\
  server_writing s && client_reading s = false.
Proof.
  intros Hl Hr. destruct (guard_inv_reachable sh0 s Hl Hr) as (_ & Hs & Hc).
  pose proof (server_ok_guard s Hs) as Hgs. pose proof (client_ok_guard _ s Hc) as Hgc.
  destruct s as [sh sv ts sent cl ss rcv]. destruct Hc as (lost & _ & _ & Hc).
  split_and!; [by destruct sv|by destruct cl|done|done|].
  destruct (server_writing _), (client_reading _); try done.
  by destruct (guard_s_not_c sh (Hgs eq_refl) (Hgc eq_refl)).
Qed.

(** C23: no torn, lost or repeated measurement.  The timestamps the client has
    measured are those the server has published, in order, with at most the
    last one still in flight; at most the first one is lost, and only when an
    earlier run left ['s'] in the guard. *)
Theorem guard_delivery sh0 s :
  (9 <= length sh0)%nat -> guard_reachable sh0 s ->
  exists lost flying,
    gs_sent s = lost ++ gs_received s ++ flying /\
    (length lost <= 1)%nat /\ (length flying <= 1)%nat /\
    (lost <> [] -> guard_is sh0 guard_s = true).
Proof.
  intros Hl Hr. destruct (guard_inv_reachable sh0 s Hl Hr) as (_ & _ & Hc).
  destruct s as [sh sv ts sent cl ss rcv]. destruct Hc as (lost & Hlost & Hst & Hc).
  exists lost. cbn [gs_sent gs_received].
  destruct cl as [| | |i| | |]; try done.
  1,2,6: exists []; rewrite app_nil_r; destruct Hc; split_and!; done || (simpl; lia).
  - destruct (guard_is sh guard_s).
    + exists []. rewrite app_nil_r. split_and!; done || (simpl; lia).
    + destruct Hc as (_ & t & _ & Hs). exists [t]. by split_and!.
  - destruct Hc as (_ & _ & t & _ & _ & Hs). exists [t]. by split_and!.
  - destruct Hc as (_ & t & _ & _ & Hs). exists [t]. by split_and!.
Qed.


(** A mapping of fewer than nine bytes never delivers: no timestamp is
    published and nothing is measured. *)
Theorem guard_short_mapping sh0 s :
  (length sh0 < 9)%nat -> guard_reachable sh0 s -> gs_sent s = [] /\ gs_received s = [].
Proof.
  intros Hl Hr. assert (Hi : short_inv s); [|by destruct Hi as (_ & ? & ? & _)].
  eapply inv_rtc; [|idtac|exact Hr]; [intros a b; apply short_inv_step|].
  by split_and!.
Qed.

(** ** Witnesses *)

Definition guard_round (t : Z) : list guard_turn :=
  [ClientTurn false; ClientTurn false; ServerTurn 0; ServerTurn t] ++
  replicate 10 (ServerTurn 0) ++ replicate 11 (ClientTurn false).

(** A stale ['s']: the first message, 5, is lost; 700 and 2^40 arrive. *)
Definition guard_stale : list guard_turn :=
  [ServerTurn 0; ServerTurn 5] ++ replicate 10 (ServerTurn 0) ++ guard_round 700 ++ guard_round (2 ^ 40).

Definition guard_at (sh : list Z) (cs : list guard_turn) : guard_state :=
  default (guard_init []) (guard_run cs (guard_init sh)).

Lemma guard_at_reachable sh cs :
  is_Some (guard_run cs (guard_init sh)) -> guard_reachable sh (guard_at sh cs).
Proof.
  intros [s Hs]. apply (guard_run_reachable _ cs). unfold guard_at. by rewrite Hs.
Qed.

Definition guard_state_w : guard_state := guard_at (guard_s :: replicate 8 7) guard_stale.

Lemma guard_reachable_w : guard_reachable (guard_s :: replicate 8 7) guard_state_w.
Proof. apply guard_at_reachable. vm_compute. by eexists. Qed.

Lemma guard_exclusion_witness :
  gs_received guard_state_w = [700; 2 ^ 40] /\
  server_writing guard_state_w && client_reading guard_state_w = false.
Proof.
  split; [by vm_compute|].
  apply (guard_exclusion (guard_s :: replicate 8 7)); [simpl; lia|exact guard_reachable_w].
Defined.

Lemma guard_delivery_witness :
  gs_sent guard_state_w = [5; 700; 2 ^ 40] /\
  exists lost flying, gs_sent guard_state_w = lost ++ gs_received guard_state_w ++ flying /\
    (length lost <= 1)%nat /\ (length flying <= 1)%nat /\
    (lost <> [] -> guard_is (guard_s :: replicate 8 7) guard_s = true).
Proof.
  split; [by vm_compute|].
  apply (guard_delivery (guard_s :: replicate 8 7)); [simpl; lia|exact guard_reachable_w].
Defined.


(** Four payload bytes: the server faults in the middle of the copy. *)
Lemma guard_short_mapping_witness :
  let s := guard_at (replicate 5 0)
    ([ClientTurn false; ClientTurn false] ++ replicate 7 (ServerTurn 9)) in
  gs_server s = GS_fault /\ gs_sent s = [].
Proof.
  intros s. split; [by vm_compute|].
  apply (guard_short_mapping (replicate 5 0)); [simpl; lia|].
  apply guard_at_reachable. vm_compute. by eexists.
Defined.
