(* ===== verification/ShmMmap.v ===== *)
(** * shm and mmap: the four programs

    The functions of [shm/server.c], [shm/client.c], [mmap/server.c] and
    [mmap/client.c], call by call; [SharedGuard] has the interleavings of their
    loops.  Loops take fuel and are [Running] when it is used up. *)
From S2P Require Import Prelude Kernel Memory Benchmarks SharedGuard.

Section programs.
Context {W : Type} `{!Kernel W}.

(** Dereferencing the address -1, the value of a failed [shmat] or [mmap]. *)
Definition access (addr : Z) : M (process W) () := if addr =? -1 then undefined else mret ().

(** The test that a pointer is less than null: pointers compare as unsigned
    integers. *)
Definition below_null (ptr : Z) : bool := u64 ptr <? 0.

(** [while (atomic_load(guard) != wanted);] *)
Fixpoint spin (fuel : nat) (guard wanted : Z) : M (process W) () :=
  match fuel with
  | O => running
  | S fuel => v ← sys_rv (Atomic_load guard); if v =? wanted then mret () else spin fuel guard wanted
  end.

(** ** shm *)

Definition shm_server_wait (fuel : nat) (guard : Z) : M (process W) () := spin fuel guard guard_s.
Definition shm_server_notify (guard : Z) : M (process W) () := sys_ (Atomic_store guard guard_c).
Definition shm_client_wait (fuel : nat) (guard : Z) : M (process W) () := spin fuel guard guard_c.
Definition shm_client_notify (guard : Z) : M (process W) () := sys_ (Atomic_store guard guard_s).

(** One iteration of the server's loop. *)
Definition shm_server_round (fuel : nat) (shared_memory : Z) : M (process W) () :=
  shm_server_wait fuel shared_memory;;
  timestamp ← read_now;
  sys_ (Memcpy_to (shared_memory + 1) (le_bytes 8 timestamp));;
  shm_server_notify shared_memory.

Definition shm_server_communicate (fuel : nat) (shared_memory : Z) : M (process W) () :=
  forever fuel (shm_server_round fuel shared_memory).

Definition shm_server_cleanup (segment_id shared_memory : Z) : M (process W) () :=
  sys_ (Shmdt shared_memory);; sys_ (Shmctl_rmid segment_id).

Definition shm_server_main (fuel : nat) (args : Arguments) : M (process W) () :=
  segment_key ← generate_key "shm";
  size ← defined (i32_checked (1 + arg_size args));
  segment_id ← sys_rv (Shmget segment_key (u64 size) IPC_CREAT_0666);
  throw_if (segment_id <? 0) "Error allocating segment";;
  shared_memory ← sys_rv (Shmat segment_id);
  throw_if (shared_memory =? -1) "Error attaching segment";;
  shm_server_communicate fuel shared_memory;;
  shm_server_cleanup segment_id shared_memory.

Definition shm_client_msg_wait (fuel : nat) (guard shared_memory : Z) (bench : Benchmarks)
    : M (process W) Benchmarks :=
  shm_client_wait fuel guard;;
  r ← sys (Memcpy_from (shared_memory + 1) 8);
  benchmark_call (set_single_start bench (le_value (data r))).

Definition shm_client_round (fuel : nat) (shared_memory : Z) (bench : Benchmarks)
    : M (process W) Benchmarks :=
  shm_client_notify shared_memory;;
  shm_client_msg_wait fuel shared_memory shared_memory bench.

Definition shm_client_cleanup (shared_memory : Z) : M (process W) () := sys_ (Shmdt shared_memory).

(** [bench0] is the uninitialised local. *)
Definition shm_client_main (fuel : nat) (args : Arguments) (bench0 : Benchmarks)
    : M (process W) (Z * report) :=
  segment_key ← generate_key "shm";
  size ← defined (i32_checked (1 + arg_size args));
  segment_id ← sys_rv (Shmget segment_key (u64 size) IPC_CREAT_0666);
  throw_if (segment_id <? 0) "Could not get segment";;
  shared_memory ← sys_rv (Shmat segment_id);
  throw_if (below_null shared_memory) "Could not attach segment";;
  bench ← setup_benchmarks_call bench0;
  printed ← measure_loop fuel
    (fun bench => access shared_memory;; shm_client_round fuel shared_memory bench) bench args;
  shm_client_cleanup shared_memory;;
  mret printed.

(** ** mmap *)

Definition make_space (file_descriptor bytes : Z) : M (process W) () :=
  offset ← defined (i32_checked (bytes + 1));
  sys_ (Lseek file_descriptor offset);;
  written ← sys_rv (Write file_descriptor [0]);
  throw_if (written <? 1) "Error writing a single goddman byte to file. A single byte!!!!!";;
  sys_ (Lseek file_descriptor 0).

Definition mmap_server_get_file_descriptor (bytes : Z) : M (process W) Z :=
  file_descriptor ← sys_rv (Open "/tmp/mmap" O_RDWR_CREAT 438);
  throw_if (file_descriptor <? 0) "Error opening file!";;
  make_space file_descriptor bytes;;
  mret file_descriptor.

Definition mmap_client_get_file_descriptor : M (process W) Z :=
  file_descriptor ← sys_rv (Open "/tmp/mmap" O_RDWR_CREAT 438);
  throw_if (file_descriptor <? 0) "Error 1opening file!";;
  mret file_descriptor.

Definition mmap_server_wait (fuel : nat) (guard : Z) : M (process W) () := spin fuel guard guard_s.
Definition mmap_server_notify (guard : Z) : M (process W) () := sys_ (Atomic_store guard guard_c).
Definition mmap_client_wait (fuel : nat) (guard : Z) : M (process W) () := spin fuel guard guard_c.
Definition mmap_client_notify (guard : Z) : M (process W) () := sys_ (Atomic_store guard guard_s).

Definition mmap_server_round (fuel : nat) (file_memory : Z) : M (process W) () :=
  access file_memory;;
  mmap_server_wait fuel file_memory;;
  timestamp ← read_now;
  sys_ (Memcpy_to (file_memory + 1) (le_bytes 8 timestamp));;
  mmap_server_notify file_memory.

Definition mmap_server_communicate (fuel : nat) (file_memory : Z) : M (process W) () :=
  forever fuel (mmap_server_round fuel file_memory).

Definition mmap_server_main (fuel : nat) (args : Arguments) : M (process W) () :=
  file_descriptor ← mmap_server_get_file_descriptor (arg_size args);
  length ← defined (i32_checked (1 + arg_size args));
  file_memory ← sys_rv (Mmap (u64 length) file_descriptor);
  throw_if (below_null file_memory) "Error mapping file!";;
  closed ← sys_rv (Close file_descriptor);
  throw_if (closed <? 0) "Error closing file!";;
  mmap_server_communicate fuel file_memory;;
  unmapped ← sys_rv (Munmap file_memory (u64 (arg_size args)));
  throw_if (unmapped <? 0) "Error unmapping file!";;
  sys_ (Close file_descriptor).

Definition mmap_client_msg_wait (fuel : nat) (guard file_memory : Z) (bench : Benchmarks)
    : M (process W) Benchmarks :=
  mmap_client_wait fuel guard;;
  r ← sys (Memcpy_from (file_memory + 1) 8);
  benchmark_call (set_single_start bench (le_value (data r))).

Definition mmap_client_round (fuel : nat) (file_memory : Z) (bench : Benchmarks)
    : M (process W) Benchmarks :=
  access file_memory;;
  mmap_client_notify file_memory;;
  mmap_client_msg_wait fuel file_memory file_memory bench.

Definition mmap_client_main (fuel : nat) (args : Arguments) (bench0 : Benchmarks)
    : M (process W) (Z * report) :=
  file_descriptor ← mmap_client_get_file_descriptor;
  length ← defined (i32_checked (arg_size args + 1));
  file_memory ← sys_rv (Mmap (u64 length) file_descriptor);
  throw_if (below_null file_memory) "Error mapping file!";;
  closed ← sys_rv (Close file_descriptor);
  throw_if (closed <? 0) "Error closing file!";;
  bench ← setup_benchmarks_call bench0;
  printed ← measure_loop fuel (mmap_client_round fuel file_memory) bench args;
  unmapped ← sys_rv (Munmap file_memory (u64 (arg_size args)));
  throw_if (unmapped <? 0) "Error unmapping file!";;
  sys_ (Remove "/tmp/mmap");;
  sys_ (Close file_descriptor);;
  mret printed.

End programs.

(** ** Lemmas *)

(** The results of a spin that reads [ls] and then [wanted]. *)
Definition loads (guard : Z) (vs : list Z) : list (syscall * result) :=
  (fun v => (Atomic_load guard, val v)) <$> vs.

Lemma spin_script ls : forall fuel guard wanted rs e tr,
  Forall (fun v => v <> wanted) ls -> (length ls < fuel)%nat ->
  exists e', spin fuel guard wanted (mk_process e tr ((val <$> ls) ++ val wanted :: rs))
    = (Done (), mk_process e' (tr ++ loads guard (ls ++ [wanted])) rs).
Proof.
  induction ls as [|v ls IH]; intros [|fuel] guard wanted rs e tr Hls Hf; cbn [length] in *; try lia.
  - eexists. cbn [spin app fmap list_fmap]. erewrite bind_done by apply sys_rv_script.
    cbn [val rv]. by rewrite Z.eqb_refl.
  - inversion Hls as [|? ? Hv Hls']; subst. cbn [spin app fmap list_fmap].
    erewrite bind_done by apply sys_rv_script. cbn [val rv].
    rewrite (proj2 (Z.eqb_neq v wanted)) by done.
    destruct (IH fuel guard wanted rs (if v =? -1 then 0 else e)
      (tr ++ [(Atomic_load guard, val v)])) as [e' He']; [done|lia|].
    exists e'. cbn [err val]. rewrite He'. by rewrite <- app_assoc.
Qed.

Lemma only_spin {W} `{!Kernel W} (P : syscall -> Prop) fuel a wanted :
  P (Atomic_load a) -> only P (spin fuel a wanted).
Proof.
  intros HP. induction fuel as [|fuel IH]; [apply only_running|]. cbn [spin]. only_calls; done.
Qed.

(** The result of [timespec_get] at a time. *)
Definition timespec (tv_sec tv_nsec : Z) : result := mk_result 0 0 [tv_sec; tv_nsec].

Lemma loads_calls guard vs : (loads guard vs).*1 = replicate (length vs) (Atomic_load guard).
Proof. induction vs as [|v vs IH]; [done|]. cbn. by rewrite <- IH. Qed.

Lemma mmap_server_round_shm {W} `{!Kernel W} fuel a (p : process W) :
  a <> -1 -> mmap_server_round fuel a p = shm_server_round fuel a p.
Proof. intros Ha. unfold mmap_server_round, access. by rewrite (proj2 (Z.eqb_neq a (-1))). Qed.

Lemma mmap_client_round_shm {W} `{!Kernel W} fuel a bench (p : process W) :
  a <> -1 -> mmap_client_round fuel a bench p = shm_client_round fuel a bench p.
Proof. intros Ha. unfold mmap_client_round, access. by rewrite (proj2 (Z.eqb_neq a (-1))). Qed.

(** ** Properties *)

(** The programs follow the protocol.  Whatever other values the guard
    shows first, one iteration of either server loads the guard until it is
    ['s'], and only then reads the clock, copies the eight bytes of the
    timestamp behind the guard and stores ['c'], in this order. *)
Theorem guard_server_calls fuel a ls sec nsec t rs :
  a <> -1 -> Forall (fun v => v <> guard_s) ls -> (length ls < fuel)%nat -> now sec nsec = Some t ->
  let answers := (val <$> ls) ++ val guard_s :: timespec sec nsec :: rs in
  let calls := replicate (length ls + 1) (Atomic_load a) ++
    [Timespec_get; Memcpy_to (a + 1) (le_bytes 8 t); Atomic_store a guard_c] in
  (outcome_on (shm_server_round fuel a) answers = Done () /\
   calls_on (shm_server_round fuel a) answers = calls) /\
  (outcome_on (mmap_server_round fuel a) answers = Done () /\
   calls_on (mmap_server_round fuel a) answers = calls).
Proof.
  intros Ha Hls Hf Hn answers calls.
  destruct (spin_script ls fuel a guard_s (timespec sec nsec :: rs) 0 []) as [e He]; [done|done|].
  unfold outcome_on, calls_on, start. rewrite mmap_server_round_shm by done.
  unfold shm_server_round, shm_server_wait, answers. rewrite (bind_done _ _ _ _ _ He).
  unfold shm_server_notify, read_now. exec. cbn [timespec data]. rewrite Hn. exec.
  destruct rs as [|r1 [|r2 rs]]; exec; cbn [app];
    rewrite !fmap_fst_app, loads_calls, length_app; cbn [length fmap list_fmap fst];
    unfold calls; rewrite <- !app_assoc; done.
Qed.

(** One iteration of either client stores ['s'], loads the guard until it
    is ['c'], and only then copies the eight bytes into [single_start] and
    measures with the clock read after the copy. *)
Theorem guard_client_calls fuel a bench ls r0 bytes sec nsec t rs :
  a <> -1 -> Forall (fun v => v <> guard_c) ls -> (length ls < fuel)%nat -> now sec nsec = Some t ->
  let answers := r0 :: (val <$> ls) ++ val guard_c :: mk_result 0 0 bytes :: timespec sec nsec :: rs in
  let calls := Atomic_store a guard_s :: replicate (length ls + 1) (Atomic_load a) ++
    [Memcpy_from (a + 1) 8; Timespec_get] in
  let result := match benchmark t (set_single_start bench (le_value bytes)) with
                | Some bench' => Done bench' | None => Undefined end in
  (outcome_on (shm_client_round fuel a bench) answers = result /\
   calls_on (shm_client_round fuel a bench) answers = calls) /\
  (outcome_on (mmap_client_round fuel a bench) answers = result /\
   calls_on (mmap_client_round fuel a bench) answers = calls).
Proof.
  intros Ha Hls Hf Hn answers calls result.
  destruct (spin_script ls fuel a guard_c (mk_result 0 0 bytes :: timespec sec nsec :: rs)
    (if rv r0 =? -1 then err r0 else 0) [(Atomic_store a guard_s, r0)]) as [e He]; [done|done|].
  unfold outcome_on, calls_on, start. rewrite mmap_client_round_shm by done.
  unfold shm_client_round, shm_client_notify, shm_client_msg_wait, shm_client_wait, answers.
  rewrite (bind_done (sys_ _) _ _ () (mk_process (if rv r0 =? -1 then err r0 else 0)
    [(Atomic_store a guard_s, r0)] ((val <$> ls) ++ val guard_c :: mk_result 0 0 bytes :: timespec sec nsec :: rs)))
    by done.
  rewrite (bind_done _ _ _ _ _ He).
  unfold benchmark_call, read_now. exec. cbn [timespec data]. rewrite Hn. exec.
  unfold result, calls. destruct (benchmark _ _); exec;
    rewrite !fmap_fst_app, loads_calls, length_app; cbn [length fmap list_fmap fst];
    rewrite <- !app_assoc; done.
Qed.

Definition timeval (tv_sec tv_usec : Z) : result := mk_result 0 0 [tv_sec; tv_usec].

(** A failed attachment.  The server of shm dies with its message when
    [shmat] returns -1; the other three programs compare the pointer with
    null, which never succeeds, and run on into an invalid access. *)
Theorem attach_failure fuel args bench0 ra rk rid rfd rl1 rw rl2 rc sec nsec t s0 u0 s1 u1 rest :
  0 <= arg_size args < INT32_MAX -> rv ra = -1 -> 0 <= rv rid -> 0 <= rv rfd -> 1 <= rv rw ->
  0 <= rv rc -> now sec nsec = Some t -> u1 - u0 <= 100000 ->
  let loop := timespec sec nsec :: timeval s0 u0 :: timeval s1 u1 :: rest in
  outcome_on (shm_server_main fuel args) (rk :: rid :: ra :: rest) = Died "Error attaching segment" /\
  outcome_on (shm_client_main (S fuel) args bench0) (rk :: rid :: ra :: loop) = Undefined /\
  outcome_on (mmap_server_main (S fuel) args) (rfd :: rl1 :: rw :: rl2 :: ra :: rc :: rest) = Undefined /\
  outcome_on (mmap_client_main (S fuel) args bench0) (rfd :: ra :: rc :: loop) = Undefined.
Proof.
  intros Hs Ha Hid Hfd Hw Hc Hn Hu loop. unfold INT32_MAX in Hs.
  assert (E1 : i32_checked (1 + arg_size args) = Some (1 + arg_size args))
    by (apply i32_checked_small; unfold INT32_MIN, INT32_MAX; lia).
  assert (E2 : i32_checked (arg_size args + 1) = Some (arg_size args + 1))
    by (apply i32_checked_small; unfold INT32_MIN, INT32_MAX; lia).
  assert (Eid : (rv rid <? 0) = false) by (apply Z.ltb_ge; lia).
  assert (Efd : (rv rfd <? 0) = false) by (apply Z.ltb_ge; lia).
  assert (Ew : (rv rw <? 1) = false) by (apply Z.ltb_ge; lia).
  assert (Ec : (rv rc <? 0) = false) by (apply Z.ltb_ge; lia).
  assert (Eu : (u1 - u0 >? 100000) = false) by (rewrite Z.gtb_ltb; apply Z.ltb_ge; lia).
  unfold shm_server_main, shm_client_main, mmap_server_main, mmap_client_main,
    mmap_server_get_file_descriptor, mmap_client_get_file_descriptor, make_space, generate_key,
    setup_benchmarks_call, read_now, measure_loop, gettimeofday_usec, loop, timespec, timeval,
    mmap_server_communicate, mmap_server_round, mmap_client_round, access.
  rewrite E1, E2. cbn [timed_loop forever]. rewrite ?Ha.
  assert (Em : (-1 =? -1) = true) by done. assert (En : below_null (-1) = false) by done.
  split_and!; do 6 (exec; rewrite ?Ha, ?Em, ?En, ?Eid, ?Efd, ?Ew, ?Ec, ?Hn, ?Eu; cbn [data]); reflexivity.
Qed.

(** Who sizes the file.  Opening the file, the server of mmap extends it
    to [size + 2] bytes, one more than it will map, and stops when the byte
    cannot be written; the client of mmap maps the file without ever writing
    to it, whatever the kernel answers: started first, it maps an empty file. *)
Theorem mmap_file_size :
  (forall bytes rfd rl1 rw rl2, 0 <= bytes < INT32_MAX ->
     let open := mmap_server_get_file_descriptor bytes in
     let answers := [rfd; rl1; rw; rl2] in
     outcome_on open answers =
       (if rv rfd <? 0 then Died "Error opening file!"
        else if rv rw <? 1 then Died "Error writing a single goddman byte to file. A single byte!!!!!"
        else Done (rv rfd)) /\
     (0 <= rv rfd -> 1 <= rv rw ->
        calls_on open answers = [Open "/tmp/mmap" O_RDWR_CREAT 438; Lseek (rv rfd) (bytes + 1);
                                 Write (rv rfd) [0]; Lseek (rv rfd) 0])) /\
  (forall W (K : Kernel W) fuel args bench0,
     only (fun c => (forall fd bs, c <> Write fd bs) /\ (forall fd o, c <> Lseek fd o))
       (mmap_client_main fuel args bench0)).
Proof.
  split.
  - intros bytes rfd rl1 rw rl2 Hs open answers. unfold INT32_MAX in Hs.
    assert (E2 : i32_checked (bytes + 1) = Some (bytes + 1))
      by (apply i32_checked_small; unfold INT32_MIN, INT32_MAX; lia).
    unfold open, answers, mmap_server_get_file_descriptor, make_space. rewrite E2.
    split; [exec_cases|]. intros Hfd Hw. rewrite <- Z.ltb_ge in Hfd, Hw.
    exec. rewrite Hfd. exec. rewrite Hw. exec. done.
  - intros W K fuel args bench0.
    unfold mmap_client_main, mmap_client_get_file_descriptor, setup_benchmarks_call, read_now.
    only_calls; try (split; done).
    apply only_measure_loop; [split; done|]. intros b.
    unfold mmap_client_round, mmap_client_notify, mmap_client_msg_wait, mmap_client_wait, access,
      benchmark_call, read_now.
    only_calls; try (split; done).
    apply only_spin. split; done.
Qed.

(** ** Witnesses *)

Lemma now_w : now 1700000000 0 = Some 1700000000000000000.
Proof. vm_compute. reflexivity. Qed.

Lemma guard_server_calls_witness :
  calls_on (shm_server_round 9 4096) ((val <$> [0; 99; 99]) ++ val 115 :: [timespec 1700000000 0]) =
    replicate 4 (Atomic_load 4096) ++
    [Timespec_get; Memcpy_to 4097 (le_bytes 8 1700000000000000000); Atomic_store 4096 99].
Proof.
  apply (guard_server_calls 9 4096 [0; 99; 99] 1700000000 0 1700000000000000000 []).
  - done.
  - repeat constructor; done.
  - simpl; lia.
  - exact now_w.
Defined.

Lemma guard_client_calls_witness :
  calls_on (mmap_client_round 9 4096 (mk_Benchmarks 0 0 0 0 0 0 0))
    (val 0 :: (val <$> [115]) ++ val 99 :: mk_result 0 0 [1; 2] :: [timespec 1700000000 0]) =
    Atomic_store 4096 115 :: replicate 2 (Atomic_load 4096) ++ [Memcpy_from 4097 8; Timespec_get].
Proof.
  apply (guard_client_calls 9 4096 (mk_Benchmarks 0 0 0 0 0 0 0) [115] (val 0) [1; 2]
    1700000000 0 1700000000000000000 []).
  - done.
  - repeat constructor; done.
  - simpl; lia.
  - exact now_w.
Defined.

Lemma attach_failure_witness :
  outcome_on (shm_client_main 3 (mk_Arguments 8 10) (mk_Benchmarks 0 0 0 0 0 0 0))
    [val 7; val 1; fails 12; timespec 1700000000 0; timeval 0 0; timeval 0 5] = Undefined.
Proof.
  apply (attach_failure 2 (mk_Arguments 8 10) (mk_Benchmarks 0 0 0 0 0 0 0) (fails 12) (val 7) (val 1)
    (val 3) (val 0) (val 1) (val 0) (val 0) 1700000000 0 1700000000000000000 0 0 0 5 []);
    vm_compute; intuition discriminate.
Defined.

Lemma mmap_file_size_witness :
  outcome_on (mmap_server_get_file_descriptor 8) [val 3; val 0; fails 28; val 0] =
    Died "Error writing a single goddman byte to file. A single byte!!!!!".
Proof.
  destruct mmap_file_size as [H _]. apply (H 8 (val 3) (val 0) (fails 28) (val 0)).
  by vm_compute.
Defined.
