(* ===== verification/GuardLink.v ===== *)
(** * shm and mmap: the programs make the protocol's moves

    The loops of the four programs of [ShmMmap] run in the place of their
    processes in the protocol of [SharedGuard].  A call of [memcpy] is several
    moves, with moves of the other process between them. *)
From S2P Require Import Prelude Kernel Memory Benchmarks Linking SharedGuard ShmMmap.

#[local] Arguments le_bytes : simpl never.

(** A call of [n] moves; [within] are the other process's moves after each. *)
Fixpoint copying {C S} (move : S -> option S) (others : C -> S -> option S) (n : nat) (within : list (list C)) (s : S)
    : option S :=
  match n with
  | O => Some s
  | Datatypes.S n => s ← move s; copying move others n (tail within) (moves_along others (default [] (head within)) s)
  end.

Lemma copying_rtc {C S} (move : S -> option S) (others : C -> S -> option S) (R : relation S) n : forall within s s',
  (forall a b, move a = Some b -> R a b) -> (forall c a b, others c a = Some b -> R a b) ->
  copying move others n within s = Some s' -> rtc R s s'.
Proof.
  induction n as [|n IH]; intros within s s' Hm Ho H; cbn [copying] in H; [by simplify_eq|].
  destruct (move s) as [s1|] eqn:E; [|done]. cbn in H.
  eapply rtc_l; [by apply Hm|]. etrans; [by eapply moves_along_rtc|by eapply IH].
Qed.

(** The load of the guard by a process that waits. *)
Definition guard_value (s : guard_state) : Z := default 0 (head (gs_shared s)).

(** ** The servers *)

(** The choices for a call of a server at the address [base]: the client's
    moves, also those within a copy. *)
Definition guard_server_turn (base : Z) : Type := turn bool * list (list bool).

Definition guard_server_answer (base : Z) (t : guard_server_turn base) (c : syscall) (s : guard_state)
    : reply guard_state :=
  match gs_server s, c with
  | GS_wait, Atomic_load a =>
      if a =? base then by_move (guard_server_move 0 s) (val (guard_value s)) else Strange
  | GS_now, Timespec_get => by_clock t.1 (fun v => guard_server_move v s)
  | GS_copy 0, Memcpy_to a bytes =>
      if (a =? base + 1) && bool_decide (bytes = le_bytes 8 (gs_timestamp s))
      then by_move (copying (guard_server_move 0) guard_client_move 9 t.2 s) (val 0) else Strange
  | GS_notify, Atomic_store a v =>
      if (a =? base) && (v =? guard_c) then by_move (guard_server_move 0 s) (val 0) else Strange
  | _, _ => Strange
  end.

Lemma guard_server_answer_steps base t c s r s' :
  guard_server_answer base t c s = Answer r s' -> rtc guard_step s s'.
Proof.
  assert (Hm : forall v s1, guard_server_move v s = Some s1 -> rtc guard_step s s1)
    by (intros v s1 H; eapply rtc_once, Guard_server, H).
  unfold guard_server_answer. intros H. destruct (gs_server s) as [| |[|]| |], c; try done;
    repeat case_match; simplify_eq.
  - apply by_move_inv in H. by eapply Hm.
  - apply by_clock_inv in H as [v H]. by eapply Hm.
  - apply by_move_inv in H. eapply copying_rtc; [|idtac|exact H]; [apply Guard_server|apply Guard_client].
  - apply by_move_inv in H. by eapply Hm.
Qed.

#[export] Instance guard_server_link base : Link guard_state (guard_server_turn base) := {
  link_step := guard_step;
  link_others t s := moves_along guard_client_move (tn_others t.1) s;
  link_answer := guard_server_answer base;
  link_others_steps t s := moves_along_rtc _ guard_step _ s (fun b s1 s2 => Guard_client b s1 s2);
  link_answer_steps := guard_server_answer_steps base;
  link_errno _ _ := True;
  link_others_errno _ _ _ H := H;
  link_answer_errno _ _ _ _ _ _ H _ := H;
}.

(** The server at a place of its protocol, with its timestamp. *)
Definition guard_server_at (stale : bool) (pc : guard_server_pc) (ts : option Z) (s : guard_state) : Prop :=
  guard_inv stale s /\ gs_server s = pc /\ match ts with Some v => gs_timestamp s = v | None => True end.

Lemma guard_client_move_keeps b s s' :
  guard_client_move b s = Some s' -> gs_server s' = gs_server s /\ gs_timestamp s' = gs_timestamp s.
Proof.
  destruct s as [sh sv ts sent cl ss rcv]. destruct cl; cbn [guard_client_move]; intros H;
    repeat case_match; by simplify_eq.
Qed.

Lemma guard_server_at_moves stale pc ts bs s :
  guard_server_at stale pc ts s -> guard_server_at stale pc ts (moves_along guard_client_move bs s).
Proof.
  intros H. apply moves_along_inv; [|done].
  intros b s1 s2 (H1 & H2 & H3) Hm. destruct (guard_client_move_keeps _ _ _ Hm) as [E1 E2].
  split; [by eapply guard_inv_client|]. by rewrite E1, E2.
Qed.

Lemma guard_server_at_stable base stale pc ts : stable (T:=guard_server_turn base) (guard_server_at stale pc ts).
Proof. intros t s H. by apply guard_server_at_moves. Qed.

(** The server's copy: [n] bytes to go, and the last move. *)
Lemma guard_server_copies stale n : forall i within s s',
  (i + n = 8)%nat -> guard_server_at stale (GS_copy i) None s ->
  copying (guard_server_move 0) guard_client_move (Datatypes.S n) within s = Some s' ->
  guard_server_at stale GS_notify None s'.
Proof.
  induction n as [|n IH]; intros i within s s' Hn (Hi & Hpc & _) H; cbn [copying] in H;
    destruct (guard_server_move 0 s) as [s1|] eqn:Hm; try done; cbn [mbind option_bind] in H;
    pose proof (guard_inv_server _ _ _ _ Hi Hm) as Hi1;
    destruct s as [sh sv ts sent cl ss rcv]; simpl in Hpc; subst sv; cbn [guard_server_move] in Hm.
  - rewrite (proj2 (lookup_ge_None (le_bytes 8 ts) i)) in Hm by (rewrite length_le_bytes; lia).
    injection Hm as <-. injection H as <-. apply guard_server_at_moves. by split_and!.
  - destruct (lookup_lt_is_Some_2 (le_bytes 8 ts) i) as [b Hb]; [rewrite length_le_bytes; lia|].
    rewrite Hb in Hm. destruct Hi as (Hl & _). simpl in Hl. rewrite decide_True in Hm by lia. injection Hm as <-.
    eapply (IH (Datatypes.S i)); [lia| |exact H]. apply guard_server_at_moves. by split_and!.
Qed.

(** ** Spinning *)
Section spin.
Context {S T : Type} `{!Link S T}.

Lemma halts_spin fuel guard wanted : halts (spin (W:=world S T) fuel guard wanted).
Proof.
  induction fuel as [|fuel IH]; cbn [spin]; [apply halts_running|].
  apply halts_bind; [apply halts_sys_rv|]. intros v. case_match; [apply halts_ret|exact IH].
Qed.

Lemma triple_spin fuel guard wanted (P Q D R : S -> Prop) :
  (forall s, P s -> R s) ->
  triple P (sys_rv (Atomic_load guard)) (fun v s => v = wanted /\ Q s \/ v <> wanted /\ P s) D R ->
  triple P (spin (W:=world S T) fuel guard wanted) (fun _ => Q) D R.
Proof.
  intros HR Hl. induction fuel as [|fuel IH]; cbn [spin]; [by apply triple_running|].
  eapply triple_bind; [|exact Hl|]; intros v.
  { case_match; [apply halts_ret|apply halts_spin]. }
  destruct (Z.eqb_spec v wanted) as [Hv|Hv].
  - apply triple_ret. by intros s [[_ H]|[H _]].
  - eapply triple_conseq; [exact IH| |done|done|done]. by intros s [[H _]|[_ H]].
Qed.

End spin.

Section server.
Context (base : Z) (stale : bool).
Abbreviation W := (world guard_state (guard_server_turn base)).
Abbreviation waiting := (guard_server_at stale GS_wait None).

Lemma guard_server_loads D R :
  triple waiting (sys_rv (W:=W) (Atomic_load base))
    (fun v s => v = guard_s /\ guard_server_at stale GS_now None s \/ v <> guard_s /\ waiting s) D R.
Proof.
  apply triple_sys_rv; [apply guard_server_at_stable|]. intros t s (Hi & Hpc & _).
  cbn [link_answer guard_server_link]. unfold guard_server_answer. rewrite Hpc, Z.eqb_refl.
  destruct (guard_server_move 0 s) as [s'|] eqn:Hm; [|done]. cbn [by_move rv val].
  pose proof (guard_inv_server _ _ _ _ Hi Hm) as Hi'.
  destruct s as [[|g sh] sv ts sent cl ss rcv]; simpl in Hpc; subst sv; [destruct Hi as (Hl & _); simpl in Hl; lia|].
  cbn [guard_server_move guard_is] in Hm. rewrite decide_False in Hm by done. injection Hm as <-.
  unfold guard_value. cbn. cbn in Hi'. destruct (Z.eqb_spec g guard_s); [left|right]; (split; [done|]; by split_and!).
Qed.

Lemma guard_server_rounds fuel D R :
  (forall s, waiting s -> R s) ->
  triple waiting (shm_server_round (W:=W) fuel base) (fun _ => waiting) D R.
Proof.
  intros HR. unfold shm_server_round, shm_server_wait, shm_server_notify.
  eapply triple_bind; [halting|apply triple_spin; [done|apply guard_server_loads]|intros u].
  eapply triple_bind; [halting| |intros v].
  { apply (triple_read_now _ (fun v => guard_server_at stale (GS_copy 0) (Some v))); [apply guard_server_at_stable|].
    intros t s (Hi & Hpc & _). cbn [link_answer guard_server_link]. unfold guard_server_answer, by_clock.
    rewrite Hpc. destruct (now _ _) as [v|] eqn:Hn; [|done].
    destruct (guard_server_move v s) as [s'|] eqn:Hm; [|done]. cbn. do 3 eexists. split_and!; [done|exact Hn|].
    pose proof (guard_inv_server _ _ _ _ Hi Hm) as Hi'.
    destruct s as [sh sv ts sent cl ss rcv]. simpl in Hpc. subst sv. cbn [guard_server_move] in Hm.
    case_decide; [|done]. injection Hm as <-. by split_and!. }
  eapply (triple_bind _ _ _ (fun _ => guard_server_at stale GS_notify None)); [halting| |intros w].
  { apply triple_ignoring, triple_sys; [apply guard_server_at_stable|]. intros t s (Hi & Hpc & Hts).
    cbn [link_answer guard_server_link]. unfold guard_server_answer.
    rewrite Hpc, Hts, Z.eqb_refl, bool_decide_eq_true_2 by done. cbn [andb].
    destruct (copying _ _ 9 t.2 s) as [s'|] eqn:Hm; [|done]. cbn.
    eapply (guard_server_copies stale 8 0); [done| |exact Hm]. by split_and!. }
  apply triple_ignoring. apply (triple_move _ _ (val 0) (guard_server_move 0)); [apply guard_server_at_stable| |].
  - intros t s (_ & Hpc & _). cbn. unfold guard_server_answer. rewrite Hpc, Z.eqb_refl. done.
  - intros s s' (Hi & Hpc & _) Hm. pose proof (guard_inv_server _ _ _ _ Hi Hm) as Hi'.
    destruct s as [sh sv ts sent cl ss rcv]. simpl in Hpc. subst sv. cbn [guard_server_move] in Hm.
    injection Hm as <-. by split_and!.
Qed.

Lemma halts_guard_server_round fuel : halts (shm_server_round (W:=W) fuel base).
Proof.
  unfold shm_server_round, shm_server_wait, shm_server_notify. apply halts_bind; [apply halts_spin|]. halting.
Qed.

(** The loops of both servers; a mapping is not at the address -1. *)
Lemma guard_servers_loop fuel D :
  triple waiting (shm_server_communicate (W:=W) fuel base) (fun _ _ => False) D waiting /\
  (base <> -1 -> triple waiting (mmap_server_communicate (W:=W) fuel base) (fun _ _ => False) D waiting).
Proof.
  split; [|intros Hb].
  - apply triple_forever; [apply halts_guard_server_round|by apply guard_server_rounds].
  - unfold mmap_server_communicate, mmap_server_round, access. rewrite (proj2 (Z.eqb_neq _ _) Hb).
    apply triple_forever; [apply halts_guard_server_round|by apply guard_server_rounds].
Qed.

End server.

(** ** The clients *)

(** The choices for a call of a client at the address [base]: the server's
    moves.  [start] is the microseconds the time test compares with. *)
Definition guard_client_turn (base start : Z) : Type := turn Z * list (list Z).

Definition guard_client_answer (base start : Z) (t : guard_client_turn base start) (c : syscall) (s : guard_state)
    : reply guard_state :=
  match gs_client s, c with
  | GC_check, Gettimeofday =>
      by_move (guard_client_move ((tn_clock t.1).2 - start >? 100000) s)
        (mk_result 0 0 [(tn_clock t.1).1; (tn_clock t.1).2])
  | GC_notify, Atomic_store a v =>
      if (a =? base) && (v =? guard_s) then by_move (guard_client_move false s) (val 0) else Strange
  | GC_wait, Atomic_load a =>
      if a =? base then by_move (guard_client_move false s) (val (guard_value s)) else Strange
  | GC_copy 0, Memcpy_from a size =>
      if (a =? base + 1) && (size =? 8) then
        match copying (guard_client_move false) guard_server_move 9 t.2 s with
        | Some s' => Answer (mk_result 0 0 (gs_single_start s')) s'
        | None => Waits
        end
      else Strange
  | GC_benchmark, Timespec_get => by_clock t.1 (fun _ => guard_client_move false s)
  | _, _ => Strange
  end.

Lemma guard_client_answer_steps base start t c s r s' :
  guard_client_answer base start t c s = Answer r s' -> rtc guard_step s s'.
Proof.
  assert (Hm : forall b s1, guard_client_move b s = Some s1 -> rtc guard_step s s1)
    by (intros b s1 H; eapply rtc_once, Guard_client, H).
  unfold guard_client_answer. intros H. destruct (gs_client s) as [| | |[|]| | |], c; try done.
  - apply by_move_inv in H. by eapply Hm.
  - case_match; [|done]. apply by_move_inv in H. by eapply Hm.
  - case_match; [|done]. apply by_move_inv in H. by eapply Hm.
  - case_match; [|done]. destruct (copying _ _ _ _ _) as [s1|] eqn:E; [|done]. injection H as _ <-.
    eapply copying_rtc; [|idtac|exact E]; [apply Guard_client|apply Guard_server].
  - apply by_clock_inv in H as [v H]. by eapply Hm.
Qed.

#[export] Instance guard_client_link base start : Link guard_state (guard_client_turn base start) := {
  link_step := guard_step;
  link_others t s := moves_along guard_server_move (tn_others t.1) s;
  link_answer := guard_client_answer base start;
  link_others_steps t s := moves_along_rtc _ guard_step _ s (fun v s1 s2 => Guard_server v s1 s2);
  link_answer_steps := guard_client_answer_steps base start;
  link_errno _ _ := True;
  link_others_errno _ _ _ H := H;
  link_answer_errno _ _ _ _ _ _ H _ := H;
}.

(** The client at a place, with what it has received and the bytes it has read. *)
Definition guard_client_at (stale : bool) (pc : guard_client_pc) (rcv : list Z) (ss : option (list Z)) (s : guard_state)
    : Prop :=
  guard_inv stale s /\ gs_client s = pc /\ gs_received s = rcv /\
  match ss with Some bytes => gs_single_start s = bytes | None => True end.

Lemma guard_server_move_keeps t s s' :
  guard_server_move t s = Some s' ->
  gs_client s' = gs_client s /\ gs_received s' = gs_received s /\ gs_single_start s' = gs_single_start s.
Proof.
  destruct s as [sh sv ts sent cl ss rcv]. destruct sv; cbn [guard_server_move]; intros H;
    repeat case_match; by simplify_eq.
Qed.

Lemma guard_client_at_moves stale pc rcv ss vs s :
  guard_client_at stale pc rcv ss s -> guard_client_at stale pc rcv ss (moves_along guard_server_move vs s).
Proof.
  intros H. apply moves_along_inv; [|done].
  intros v s1 s2 (H1 & H2 & H3 & H4) Hm. destruct (guard_server_move_keeps _ _ _ Hm) as (E1 & E2 & E3).
  split; [by eapply guard_inv_server|]. by rewrite E1, E2, E3.
Qed.

Lemma guard_client_at_stable base start stale pc rcv ss :
  stable (T:=guard_client_turn base start) (guard_client_at stale pc rcv ss).
Proof. intros t s H. by apply guard_client_at_moves. Qed.

(** The client's copy: [n] bytes to go, and the last move. *)
Lemma guard_client_copies stale rcv n : forall i within s s',
  (i + n = 8)%nat -> guard_client_at stale (GC_copy i) rcv None s ->
  copying (guard_client_move false) guard_server_move (Datatypes.S n) within s = Some s' ->
  guard_client_at stale GC_benchmark rcv None s'.
Proof.
  induction n as [|n IH]; intros i within s s' Hn (Hi & Hpc & Hr & _) H; cbn [copying] in H;
    destruct (guard_client_move false s) as [s1|] eqn:Hm; try done; cbn [mbind option_bind] in H;
    pose proof (guard_inv_client _ _ _ _ Hi Hm) as Hi1;
    destruct s as [sh sv ts sent cl ss rcv']; simpl in Hpc, Hr; subst; cbn [guard_client_move] in Hm.
  - rewrite decide_True in Hm by lia. injection Hm as <-. injection H as <-.
    apply guard_client_at_moves. by split_and!.
  - rewrite decide_False in Hm by lia. destruct Hi as (Hl & _). simpl in Hl.
    destruct (lookup_lt_is_Some_2 sh (Datatypes.S i)) as [b Hb]; [lia|]. rewrite Hb in Hm. injection Hm as <-.
    eapply (IH (Datatypes.S i)); [lia| |exact H]. apply guard_client_at_moves. by split_and!.
Qed.

(** One move of the client from a place, and where it leads. *)
Lemma guard_client_moves stale pc rcv b s s' :
  guard_client_at stale pc rcv None s -> guard_client_move b s = Some s' ->
  match pc with
  | GC_check => guard_client_at stale (if b then GC_done else GC_notify) rcv None s'
  | GC_notify => guard_client_at stale GC_wait rcv None s'
  | GC_benchmark => guard_client_at stale GC_check (rcv ++ [le_value (gs_single_start s)]) None s'
  | _ => True
  end.
Proof.
  intros (Hi & Hpc & Hr & _) Hm. pose proof (guard_inv_client _ _ _ _ Hi Hm) as Hi'.
  destruct s as [sh sv ts sent cl ss rcv']; simpl in Hpc, Hr; subst; destruct pc; try done; cbn [guard_client_move] in Hm.
  - injection Hm as <-. destruct b; by split_and!.
  - destruct Hi as (Hl & _). simpl in Hl. rewrite decide_False in Hm by (intros ->; simpl in Hl; lia).
    injection Hm as <-. by split_and!.
  - injection Hm as <-. by split_and!.
Qed.

Section client.
Context (base start : Z) (stale : bool).
Abbreviation W := (world guard_state (guard_client_turn base start)).

Lemma guard_client_tests rcv D R :
  triple (guard_client_at stale GC_check rcv None) (gettimeofday_usec (W:=W))
    (fun usec s => if usec - start >? 100000 then guard_client_at stale GC_done rcv None s
                   else guard_client_at stale GC_notify rcv None s) D R.
Proof.
  apply triple_gettimeofday; [apply guard_client_at_stable|]. intros t s H. pose proof H as (_ & Hpc & _).
  cbn [link_answer guard_client_link]. unfold guard_client_answer. rewrite Hpc.
  destruct (guard_client_move _ s) as [s'|] eqn:Hm; [|done]. cbn. do 2 eexists. split; [done|].
  pose proof (guard_client_moves _ _ _ _ _ _ H Hm) as H'. cbn in H'. by destruct (_ >? _).
Qed.

Lemma guard_client_loads rcv D R :
  triple (guard_client_at stale GC_wait rcv None) (sys_rv (W:=W) (Atomic_load base))
    (fun v s => v = guard_c /\ guard_client_at stale (GC_copy 0) rcv None s \/
                v <> guard_c /\ guard_client_at stale GC_wait rcv None s) D R.
Proof.
  apply triple_sys_rv; [apply guard_client_at_stable|]. intros t s (Hi & Hpc & Hr & _).
  cbn [link_answer guard_client_link]. unfold guard_client_answer. rewrite Hpc, Z.eqb_refl.
  destruct (guard_client_move false s) as [s'|] eqn:Hm; [|done]. cbn [by_move rv val].
  pose proof (guard_inv_client _ _ _ _ Hi Hm) as Hi'.
  destruct s as [[|g sh] sv ts sent cl ss rcv']; simpl in Hpc, Hr; subst; [destruct Hi as (Hl & _); simpl in Hl; lia|].
  cbn [guard_client_move guard_is] in Hm. injection Hm as <-. unfold guard_value. cbn. cbn in Hi'.
  destruct (Z.eqb_spec g guard_c); [left|right]; (split; [done|]; by split_and!).
Qed.

(** One iteration of both clients. *)
Lemma guard_client_rounds fuel bench rcv D R :
  (forall s, guard_client_at stale GC_wait rcv None s -> R s) -> 0 <= count bench < INT32_MAX ->
  triple (guard_client_at stale GC_notify rcv None) (shm_client_round (W:=W) fuel base bench)
    (fun b s => exists v, (exists t, benchmark t (set_single_start bench v) = Some b) /\
       guard_client_at stale GC_check (rcv ++ [v]) None s) D R.
Proof.
  intros HR Hc. unfold shm_client_round, shm_client_msg_wait, shm_client_wait, shm_client_notify, benchmark_call.
  eapply (triple_bind _ _ _ (fun _ => guard_client_at stale GC_wait rcv None)); [| |intros u].
  { intros u. apply halts_bind; [apply halts_spin|]. halting. }
  { apply triple_ignoring. apply (triple_move _ _ (val 0) (guard_client_move false)); [apply guard_client_at_stable| |].
    - intros t s (_ & Hpc & _). cbn. unfold guard_client_answer. by rewrite Hpc, Z.eqb_refl.
    - intros s s' H Hm. exact (guard_client_moves _ _ _ _ _ _ H Hm). }
  eapply triple_bind; [halting|apply triple_spin; [done|apply guard_client_loads]|intros u'].
  eapply (triple_bind _ _ _ (fun r => guard_client_at stale GC_benchmark rcv (Some (data r)))); [halting| |intros r].
  { apply triple_sys; [apply guard_client_at_stable|]. intros t s H. pose proof H as (_ & Hpc & _).
    cbn [link_answer guard_client_link]. unfold guard_client_answer. rewrite Hpc, !Z.eqb_refl. cbn [andb].
    destruct (copying _ _ 9 t.2 s) as [s'|] eqn:Hm; [|done].
    destruct (guard_client_copies stale rcv 8 0 _ _ _ eq_refl H Hm) as (H1 & H2 & H3 & _). by split_and!. }
  apply (triple_benchmark_from _ (fun v => guard_client_at stale GC_check (rcv ++ [v]) None)); [done|].
  apply triple_read_now; [apply guard_client_at_stable|].
  intros t s (Hi & Hpc & Hr & Hss). cbn [link_answer guard_client_link]. unfold guard_client_answer, by_clock.
  rewrite Hpc. destruct (now _ _) as [w|] eqn:Hn; [|done].
  destruct (guard_client_move false s) as [s'|] eqn:Hm; [|done]. cbn. do 3 eexists. split_and!; [done|exact Hn|].
  rewrite <- Hss. apply (guard_client_moves stale GC_benchmark rcv false); [by split_and!|done].
Qed.

Lemma halts_guard_client_round fuel bench : halts (shm_client_round (W:=W) fuel base bench).
Proof.
  unfold shm_client_round, shm_client_msg_wait, shm_client_wait, shm_client_notify, benchmark_call.
  apply halts_bind; [halting|]. intros u. apply halts_bind; [apply halts_spin|]. halting.
Qed.

(** The whole loop, for both clients. *)
Definition guard_client_done (bench0 : Benchmarks) (r : Benchmarks * Z) (s : guard_state) : Prop :=
  exists rcv, measured bench0 rcv r.1 /\ r.2 = Z.of_nat (length rcv) /\ guard_client_at stale GC_done rcv None s.

(** What was received is what was sent, when the client is done, but for a
    timestamp sent before the first request. *)
Lemma guard_client_done_sent bench0 r s :
  guard_client_done bench0 r s ->
  gs_client s = GC_done /\ r.2 = Z.of_nat (length (gs_received s)) /\ measured bench0 (gs_received s) r.1 /\
  exists lost, gs_sent s = lost ++ gs_received s /\ (length lost <= 1)%nat /\ (lost <> [] -> stale = true).
Proof.
  intros (rcv & Hm & -> & (_ & _ & Hok) & Hd & Hrc & _).
  destruct s as [sh sv ts sent cl ss rcv']. simpl in Hd, Hrc. subst.
  destruct Hok as (lost & H1 & H2 & H3 & _). split_and!; [done..|]. by exists lost.
Qed.

Lemma guard_client_measures fuel spins round bench0 :
  base <> -1 ->
  round = (fun bench => access (W:=W) base;; shm_client_round spins base bench) \/ round = mmap_client_round spins base ->
  0 <= count bench0 -> count bench0 + Z.of_nat fuel <= INT32_MAX ->
  triple (guard_client_at stale GC_check [] None) (timed_loop fuel gettimeofday_usec start round bench0 0)
    (guard_client_done bench0) (fun _ => False) (fun _ => True).
Proof.
  intros Hb Hround Hc Hf.
  assert (Heq : round = shm_client_round spins base).
  { destruct Hround as [-> | ->]; unfold mmap_client_round, access; by rewrite (proj2 (Z.eqb_neq _ _) Hb). }
  apply (client_loops (fun rcv => guard_client_at stale GC_check rcv None)
    (fun rcv => guard_client_at stale GC_notify rcv None) (fun rcv => guard_client_at stale GC_done rcv None)
    (fun _ => True) (fun b => b)); try done.
  - intros b. rewrite Heq. apply halts_guard_client_round.
  - intros rcv. apply guard_client_tests.
  - intros rcv b _ Hcnt. rewrite Heq.
    eapply triple_conseq; [by apply guard_client_rounds|exact (fun _ H => H)| |exact (fun _ H => H)|exact (fun _ _ => I)].
    intros b' s H. exact (conj I H).
Qed.

End client.

(** ** Properties *)

(** The servers of shm and mmap make the moves of their protocol.  Over a
    mapping of nine bytes and beside any client, their loops only load the
    guard, read the clock, copy that timestamp behind the guard and store the
    guard, as [guard_server_move] does; they do not die, have no undefined
    behaviour, and are waiting for the guard when their fuel is used up. *)
Theorem guard_servers_refine base fuel sh0 serve (p : process (world guard_state (guard_server_turn base))) o q :
  (9 <= length sh0)%nat ->
  serve = shm_server_communicate fuel base \/ (base <> -1 /\ serve = mmap_server_communicate fuel base) ->
  w_progress (env p) = Live -> guard_reachable sh0 (w_state (env p)) -> gs_server (w_state (env p)) = GS_wait ->
  serve p = (o, q) ->
  rtc guard_step (w_state (env p)) (w_state (env q)) /\
  match w_progress (env q) with
  | Live => o = Running /\ gs_server (w_state (env q)) = GS_wait
  | Halted => True
  | Astray => False
  end.
Proof.
  intros Hl Hserve Hp Hreach Hpc Hrun.
  destruct (guard_servers_loop base (guard_is sh0 guard_s) fuel (fun _ => False)) as [H1 H2].
  assert (Ht : triple (guard_server_at (guard_is sh0 guard_s) GS_wait None) serve (fun _ _ => False) (fun _ => False)
    (guard_server_at (guard_is sh0 guard_s) GS_wait None)) by (destruct Hserve as [-> |[Hb ->]]; auto).
  destruct (Ht p Hp I) as [Hr He]; [split; [by apply guard_inv_reachable|done]|].
  rewrite Hrun in Hr, He. cbn [fst snd] in *. split; [done|].
  destruct (w_progress (env q)); [destruct He as [_ He]|done|done].
  destruct o as [a|message| |]; try done. by destruct He as (_ & H & _).
Qed.

(** C18: the clients of shm and mmap measure what the server sends.  Over a
    mapping of at least nine bytes their loop, run beside any server from a state in which nothing has been received,
    makes only the moves of the protocol and never dies; when it ends, the
    count it prints and its record are those of one measurement from each
    timestamp received, and these are the timestamps the server has sent, in
    order, but for one that the server sends before the first request when the
    mapping held an ['s'] at the start. *)
Theorem guard_clients_measure base start fuel spins sh0 round bench0
    (p : process (world guard_state (guard_client_turn base start))) o q :
  (9 <= length sh0)%nat -> base <> -1 ->
  round = (fun bench => access base;; shm_client_round spins base bench) \/ round = mmap_client_round spins base ->
  0 <= count bench0 -> count bench0 + Z.of_nat fuel <= INT32_MAX ->
  w_progress (env p) = Live -> guard_reachable sh0 (w_state (env p)) ->
  gs_client (w_state (env p)) = GC_check -> gs_received (w_state (env p)) = [] ->
  timed_loop fuel gettimeofday_usec start round bench0 0 p = (o, q) ->
  rtc guard_step (w_state (env p)) (w_state (env q)) /\
  match w_progress (env q) with
  | Live => o = Running \/
            exists bench cnt lost, o = Done (bench, cnt) /\ gs_client (w_state (env q)) = GC_done /\
              cnt = Z.of_nat (length (gs_received (w_state (env q)))) /\
              measured bench0 (gs_received (w_state (env q))) bench /\
              gs_sent (w_state (env q)) = lost ++ gs_received (w_state (env q)) /\
              (length lost <= 1)%nat /\ (lost <> [] -> guard_is sh0 guard_s = true)
  | Halted => True
  | Astray => False
  end.
Proof.
  intros Hl Hb Hround Hc Hf Hp Hreach Hpc Hrcv Hrun. pose (stale := guard_is sh0 guard_s).
  destruct (guard_client_measures base start stale fuel spins round bench0) with (p := p) as [Hsteps He]; try done.
  { split; [by apply guard_inv_reachable|done]. }
  rewrite Hrun in Hsteps, He. cbn [fst snd] in *. split; [done|].
  destruct (w_progress (env q)); [destruct He as [_ He]|done|done].
  destruct o as [[b cnt]|msg| |]; [|done|done|by left]; cbn in He. right.
  apply guard_client_done_sent in He as (H1 & H2 & H3 & lost & H4). by exists b, cnt, lost.
Qed.

(** ** Witnesses *)

Definition shm_choices : list (guard_server_turn 4096) :=
  let c moves within := (mk_turn moves (1700000000, 0) (val 0), within) in
  [c [] []; c [false; false] []; c [] []; c [] [[]; [false]; [false; false]]; c [] [];
   c [] []].

Lemma guard_servers_refine_witness :
  let sh0 := replicate 9 0 in
  let p := mk_process 0 [] (mk_world (guard_init sh0) shm_choices Live) in
  let run := shm_server_communicate 2 4096 p in
  gs_sent (w_state (env run.2)) = [1700000000000000000] /\
  rtc guard_step (guard_init sh0) (w_state (env run.2)).
Proof.
  intros sh0 p run. split; [by vm_compute|].
  assert (Hl : (9 <= length sh0)%nat) by (unfold sh0; rewrite length_replicate; lia).
  exact (proj1 (guard_servers_refine 4096 2 sh0 (shm_server_communicate 2 4096) p run.1 run.2 Hl
    (or_introl eq_refl) eq_refl (rtc_refl _ _) eq_refl (surjective_pairing run))).
Defined.

Definition mmap_choices : list (guard_client_turn 4096 500000) :=
  let c moves usec := (mk_turn moves (1700000000, usec) (val 0), []) in
  [c [] 500100; c [] 0; c [0; 1699999999999999744] 0; c (replicate 10 0) 0; c [] 0; c [] 256; c [] 600001].

Lemma guard_clients_measure_witness :
  let sh0 := replicate 9 0 in
  let p := mk_process 0 [] (mk_world (guard_init sh0) mmap_choices Live) in
  let run := timed_loop 3 gettimeofday_usec 500000 (mmap_client_round 5 4096) (mk_Benchmarks 0 0 INT32_MAX 0 0 0 0) 0 p in
  w_progress (env run.2) = Live /\ gs_client (w_state (env run.2)) = GC_done /\
  gs_received (w_state (env run.2)) = [1699999999999999744] /\
  rtc guard_step (guard_init sh0) (w_state (env run.2)).
Proof.
  intros sh0 p run. split; [by vm_compute|]. split; [by vm_compute|]. split; [by vm_compute|].
  assert (Hl : (9 <= length sh0)%nat) by (unfold sh0; rewrite length_replicate; lia).
  exact (proj1 (guard_clients_measure 4096 500000 3 5 sh0 (mmap_client_round 5 4096) (mk_Benchmarks 0 0 INT32_MAX 0 0 0 0) p
    run.1 run.2 Hl ltac:(done) (or_intror eq_refl) ltac:(done) ltac:(by vm_compute) eq_refl (rtc_refl _ _) eq_refl eq_refl
    (surjective_pairing run))).
Defined.
