(* ===== verification/GuardPair.v ===== *)
(** * shm and mmap: the two programs together

    The loops of the servers and the clients of shm/ and mmap/, call by call in
    any order, over one mapping.  A call of [memcpy] is whole here; [GuardLink]
    interleaves its bytes. *)
From S2P Require Import Prelude Kernel Memory Benchmarks Linking Together SharedGuard ShmMmap GuardLink.

#[local] Arguments le_bytes : simpl never.

(** ** The programs call nothing but the kernel *)
Lemma interactive_spin fuel guard wanted : interactive (fun W _ => spin (W:=W) fuel guard wanted).
Proof. induction fuel; cbn [spin]; interacting. Qed.
#[local] Hint Resolve interactive_spin : interactive.

(** The server of shm, or of mmap. *)
Definition guard_server_round (mmap : bool) (spins : nat) (base : Z) W `{!Kernel W} : M (process W) () :=
  if mmap then mmap_server_round spins base else shm_server_round spins base.
Definition guard_client_round (mmap : bool) (spins : nat) (base : Z) (bench : Benchmarks) W `{!Kernel W}
    : M (process W) Benchmarks :=
  if mmap then mmap_client_round spins base bench else access base;; shm_client_round spins base bench.

Lemma interactive_guard_server mmap spins base : interactive (guard_server_round mmap spins base).
Proof.
  unfold guard_server_round, mmap_server_round, mmap_server_wait, mmap_server_notify, shm_server_round, shm_server_wait, shm_server_notify, access, read_now.
  destruct mmap; interacting.
Qed.

Lemma interactive_guard_client mmap spins base bench : interactive (guard_client_round mmap spins base bench).
Proof.
  unfold guard_client_round, mmap_client_round, mmap_client_msg_wait, mmap_client_wait, mmap_client_notify, shm_client_round, shm_client_msg_wait, shm_client_wait, shm_client_notify,
    benchmark_call, access, read_now.
  destruct mmap; interacting.
Qed.

(** ** The two sides of the protocol *)
#[export] Instance guard_server_choices_ok base : Choices guard_state (guard_server_turn base).
Proof.
  refine {| link_alone (t : guard_server_turn base) := (turn_alone t.1, []) : guard_server_turn base;
            link_then t1 t2 := (turn_then t1.1 t2.1, t2.2) |}; try done.
  intros. cbn. apply moves_along_app.
Defined.

#[export] Instance guard_client_choices_ok base start : Choices guard_state (guard_client_turn base start).
Proof.
  refine {| link_alone (t : guard_client_turn base start) := (turn_alone t.1, []) : guard_client_turn base start;
            link_then t1 t2 := (turn_then t1.1 t2.1, t2.2) |}; try done.
  intros. cbn. apply moves_along_app.
Defined.

(** A copy without moves of the other process is a sequence of moves. *)
Lemma copying_alone {C C' S} (move : C -> S -> option S) (others : C' -> S -> option S) c n : forall s s',
  copying (move c) others n [] s = Some s' -> moves_along move (replicate n c) s = s'.
Proof.
  induction n as [|n IH]; intros s s' H; cbn [copying] in H; [by injection H as <-|].
  destruct (move c s) as [s1|] eqn:E; [|done]. cbn in H. unfold moves_along. cbn. rewrite E. by apply IH.
Qed.

Lemma guard_client_answer_moves base start (t : guard_client_turn base start) c s r s' :
  guard_client_answer base start (turn_alone t.1, []) c s = Answer r s' ->
  exists bs, moves_along guard_client_move bs s = s'.
Proof.
  assert (Hm : forall b s1, guard_client_move b s = Some s1 -> exists bs, moves_along guard_client_move bs s = s1)
    by (intros b s1 H; exists [b]; unfold moves_along; cbn; by rewrite H).
  unfold guard_client_answer. intros H. destruct (gs_client s) as [| | |[|]| | |], c; try done.
  - apply by_move_inv in H. by eapply Hm.
  - case_match; [|done]. apply by_move_inv in H. by eapply Hm.
  - case_match; [|done]. apply by_move_inv in H. by eapply Hm.
  - case_match; [|done]. cbn [snd] in H. destruct (copying _ _ 9 [] s) as [s1|] eqn:E; [|done]. injection H as _ <-.
    exists (replicate 9 false). by eapply copying_alone.
  - apply by_clock_inv in H as [v H]. by eapply Hm.
Qed.

Lemma guard_server_answer_moves base (t : guard_server_turn base) c s r s' :
  guard_server_answer base (turn_alone t.1, []) c s = Answer r s' ->
  exists vs, moves_along guard_server_move vs s = s'.
Proof.
  assert (Hm : forall v s1, guard_server_move v s = Some s1 -> exists vs, moves_along guard_server_move vs s = s1)
    by (intros v s1 H; exists [v]; unfold moves_along; cbn; by rewrite H).
  unfold guard_server_answer. intros H. destruct (gs_server s) as [| |[|]| |], c; try done.
  - case_match; [|done]. apply by_move_inv in H. by eapply Hm.
  - apply by_clock_inv in H as [v H]. by eapply Hm.
  - case_match; [|done]. apply by_move_inv in H. exists (replicate 9 0). by eapply copying_alone.
  - case_match; [|done]. apply by_move_inv in H. by eapply Hm.
Qed.

#[export] Instance guard_server_beside base_s base_c start :
  Beside guard_state (guard_server_turn base_s) (guard_client_turn base_c start).
Proof.
  constructor. intros t c s r s' H. apply (guard_client_answer_moves base_c start t c s r s') in H as [bs H].
  by exists (mk_turn bs (0, 0) (val 0), []).
Qed.

#[export] Instance guard_client_beside base_s base_c start :
  Beside guard_state (guard_client_turn base_c start) (guard_server_turn base_s).
Proof.
  constructor. intros t c s r s' H. apply (guard_server_answer_moves base_s t c s r s') in H as [vs H].
  by exists (mk_turn vs (0, 0) (val 0), []).
Qed.

(** ** The pair *)
Section pair.
Context (mmap : bool) (start base_s base_c : Z) (fuel_s fuel_c spins_s spins_c : nat) (bench0 : Benchmarks).

Definition guard_server_program W `{!Kernel W} : M (process W) () :=
  forever fuel_s (guard_server_round mmap spins_s base_s W).
Definition guard_client_program W `{!Kernel W} : M (process W) (Benchmarks * Z) :=
  timed_loop fuel_c gettimeofday_usec start (fun bench => guard_client_round mmap spins_c base_c bench W) bench0 0.

Definition guard_joint_step : relation (joint guard_state) :=
  joint_step (TA:=guard_server_turn base_s) (TB:=guard_client_turn base_c start)
    (guard_server_program script) (guard_client_program script).

Lemma guard_pair_sound stale s0 j :
  base_s <> -1 -> base_c <> -1 -> 0 <= count bench0 -> count bench0 + Z.of_nat fuel_c <= INT32_MAX ->
  guard_server_at stale GS_wait None s0 -> guard_client_at stale GC_check [] None s0 ->
  rtc guard_joint_step (mk_joint s0 [] []) j ->
  rtc guard_step s0 (j_state j) /\
  abides (T:=guard_server_turn base_s) (guard_server_program script) (fun _ _ => False) (fun _ => False)
    (guard_server_at stale GS_wait None) (j_first j) (j_state j) /\
  abides (T:=guard_client_turn base_c start) (guard_client_program script) (guard_client_done stale bench0)
    (fun _ => False) (fun _ => True) (j_second j) (j_state j).
Proof.
  intros Hbs Hbc Hc Hf Hs0 Hc0 Hr. split.
  - by apply (joint_steps (TA:=guard_server_turn base_s) (TB:=guard_client_turn base_c start)
      guard_server_program guard_client_program) in Hr.
  - apply (joint_sound (TA:=guard_server_turn base_s) (TB:=guard_client_turn base_c start)
      guard_server_program guard_client_program
      (interactive_forever fuel_s _ (interactive_guard_server mmap spins_s base_s))
      (interactive_timed_loop fuel_c start (fun W _ bench => guard_client_round mmap spins_c base_c bench W)
         (interactive_guard_client mmap spins_c base_c) bench0 0)
      (guard_server_at stale GS_wait None) (guard_client_at stale GC_check [] None)) with (s0 := s0); try done.
    + assert (E : forall p, guard_server_round mmap spins_s base_s (world guard_state (guard_server_turn base_s)) p
        = shm_server_round spins_s base_s p).
      { intros p. destruct mmap; [|done]. cbn. unfold mmap_server_round, access. by rewrite (proj2 (Z.eqb_neq _ _) Hbs). }
      apply triple_forever.
      * intros p Hp. rewrite E. by apply halts_guard_server_round.
      * intros p Hp He HP. rewrite E. by apply (guard_server_rounds base_s stale spins_s).
    + apply (guard_client_measures base_c start stale fuel_c spins_c); try done. destruct mmap; auto.
    + intros a. apply stable_False.
    + apply stable_False.
    + apply guard_server_at_stable.
    + intros r. apply stable_exists. intros rcv. do 2 apply stable_pure. apply guard_client_at_stable.
    + apply stable_False.
Qed.

End pair.

(** ** Properties *)

(** C6: the two programs of shm, and of mmap, work together.  Each with its own
    address of a mapping of at least nine bytes, in whatever order they poll, copy and store the
    guard, the loops only make moves of the protocol: neither dies or has
    undefined behaviour, the server never returns, and a client that returns
    has the count and the measurements of the timestamps the server sent, but
    for at most one that the server sends before the first request when the
    mapping held an ['s'] at the start. *)
Theorem guard_together mmap start base_s base_c fuel_s fuel_c spins_s spins_c bench0 sh0 j :
  (9 <= length sh0)%nat -> base_s <> -1 -> base_c <> -1 ->
  0 <= count bench0 -> count bench0 + Z.of_nat fuel_c <= INT32_MAX ->
  rtc (guard_joint_step mmap start base_s base_c fuel_s fuel_c spins_s spins_c bench0) (mk_joint (guard_init sh0) [] []) j ->
  let server := guard_server_program mmap base_s fuel_s spins_s script in
  let client := guard_client_program mmap start base_c fuel_c spins_c bench0 script in
  guard_reachable sh0 (j_state j) /\
  (next_call server (j_first j) = None -> outcome_on server (j_first j) = Running) /\
  (next_call client (j_second j) = None ->
     (exists bench lost,
        outcome_on client (j_second j) = Done (bench, Z.of_nat (length (gs_received (j_state j)))) /\
        measured bench0 (gs_received (j_state j)) bench /\ gs_sent (j_state j) = lost ++ gs_received (j_state j) /\
        (length lost <= 1)%nat /\ (lost <> [] -> guard_is sh0 guard_s = true)) \/
     outcome_on client (j_second j) = Running).
Proof.
  intros Hl Hbs Hbc Hc Hf Hr server client.
  assert (Hi : guard_inv (guard_is sh0 guard_s) (guard_init sh0)) by (apply guard_inv_reachable; [done|apply rtc_refl]).
  destruct (guard_pair_sound mmap start base_s base_c fuel_s fuel_c spins_s spins_c bench0 (guard_is sh0 guard_s)
    (guard_init sh0) j) as (Hs & Ha & Hb); try done.
  fold server in Ha. fold client in Hb. split_and!; [done|..].
  - intros Hn. unfold abides in Ha. rewrite Hn in Ha. by destruct (outcome_on server (j_first j)).
  - intros Hn. unfold abides in Hb. rewrite Hn in Hb. destruct (outcome_on client (j_second j)) as [[b cnt]| | |];
      try done; [left|by right].
    apply guard_client_done_sent in Hb as (_ & Hcnt & Hm & lost & H). cbn in Hcnt, Hm. subst. by exists b, lost.
Qed.

(** ** Witness *)

(** Both poll once in vain. *)
Definition shm_schedule : list (guard_server_turn 4096 + guard_client_turn 8192 500000) :=
  let s := inl (mk_turn [] (1699999999, 999999744) (val 0), []) in
  let c usec := inr (mk_turn [] (1700000000, usec) (val 0), []) in
  [s; c 500100; c 0; c 0; s; s; s; s; c 0; c 0; c 256; c 600001].

Definition shm_pair_bench : Benchmarks := mk_Benchmarks 0 0 INT32_MAX 0 0 0 0.

Definition shm_pair_run : joint guard_state :=
  state_along (joint_move (guard_server_program false 4096 3 4 script)
      (guard_client_program false 500000 8192 3 5 shm_pair_bench script)) shm_schedule
    (mk_joint (guard_init (replicate 9 0)) [] []).

Lemma guard_together_witness :
  next_call (guard_client_program false 500000 8192 3 5 shm_pair_bench script) (j_second shm_pair_run) = None /\
  gs_sent (j_state shm_pair_run) = [1699999999999999744] /\
  guard_reachable (replicate 9 0) (j_state shm_pair_run).
Proof.
  split; [by vm_compute|]. split; [by vm_compute|].
  refine (proj1 (guard_together false 500000 4096 8192 3 3 4 5 shm_pair_bench (replicate 9 0) shm_pair_run _ _ _ _ _ _));
    [rewrite length_replicate; lia|done|done|by vm_compute|by vm_compute|].
  apply state_along_rtc; [intros t a b; apply joint_move_step|by vm_compute; eexists].
Defined.
