(* ===== verification/Sockets.v ===== *)
(** * common/sockets.c

    Options, flags and timeouts of sockets, and [receive] with its two modes,
    for every kernel; what the flag operations promise under the documented
    behaviour of [fcntl]. *)
From S2P Require Import Prelude Kernel Double.
From Stdlib Require Import Floats.SpecFloat.

Definition BUFFER_SIZE : Z := 64000.

Inductive Direction := SEND | RECEIVE.

Definition buffer_option (direction : Direction) : Z :=
  match direction with SEND => SO_SNDBUF | RECEIVE => SO_RCVBUF end.
Definition timeout_option (direction : Direction) : Z :=
  match direction with SEND => SO_SNDTIMEO | RECEIVE => SO_RCVTIMEO end.

Section sockets.
Context {W : Type} `{!Kernel W}.

Definition socket_buffer_size (socket_fd : Z) (direction : Direction) : M (process W) Z :=
  r ← sys (Getsockopt socket_fd (buffer_option direction));
  throw_if (rv r =? -1) "Error getting buffer size";;
  match data r with [buffer_size] => mret buffer_size | _ => undefined end.

Definition socket_timeout (socket_fd : Z) (direction : Direction) : M (process W) (Z * Z) :=
  r ← sys (Getsockopt socket_fd (timeout_option direction));
  throw_if (rv r =? -1) "Error getting socket timeout";;
  match data r with [tv_sec; tv_usec] => mret (tv_sec, tv_usec) | _ => undefined end.

(** [timeout.tv_sec + (timeout.tv_usec / 1e6)]. *)
Definition socket_timeout_seconds (socket_fd : Z) (direction : Direction) : M (process W) double :=
  '(tv_sec, tv_usec) ← socket_timeout socket_fd direction;
  mret (dadd (double_of_Z tv_sec) (ddiv (double_of_Z tv_usec) (double_of_Z 1000000))).

Definition set_socket_buffer_size (socket_fd : Z) (direction : Direction) : M (process W) () :=
  return_code ← sys_rv (Setsockopt socket_fd (buffer_option direction) [BUFFER_SIZE]);
  throw_if (return_code =? -1) "Error setting socket buffer size".

Definition set_socket_both_buffer_sizes (socket_fd : Z) : M (process W) () :=
  set_socket_buffer_size socket_fd SEND;; set_socket_buffer_size socket_fd RECEIVE.

Definition set_socket_timeout (socket_fd : Z) (timeout : Z * Z) (direction : Direction) : M (process W) () :=
  return_code ← sys_rv (Setsockopt socket_fd (timeout_option direction) [timeout.1; timeout.2]);
  throw_if (return_code =? -1) "Error setting blocking timeout".

Definition set_socket_both_timeouts (socket_fd seconds microseconds : Z) : M (process W) () :=
  set_socket_timeout socket_fd (seconds, microseconds) SEND;;
  set_socket_timeout socket_fd (seconds, microseconds) RECEIVE.

(** The second call counts as failed whenever it does not return 0. *)
Definition set_io_flag (socket_fd flag : Z) : M (process W) Z :=
  old_flags ← sys_rv (Fcntl socket_fd F_GETFL 0);
  if old_flags =? -1 then mret (-1)
  else
    set ← sys_rv (Fcntl socket_fd F_SETFL (Z.lor old_flags flag));
    if negb (set =? 0) then mret (-1) else mret 0.

Definition get_socket_flags (socket_fd : Z) : M (process W) Z :=
  flags ← sys_rv (Fcntl socket_fd F_GETFL 0);
  throw_if (flags =? -1) "Error retrieving flags";;
  mret flags.

Definition set_socket_flags (socket_fd flags : Z) : M (process W) () :=
  flags ← sys_rv (Fcntl socket_fd F_SETFL flags);
  throw_if (flags =? -1) "Error setting flags".

Definition set_socket_non_blocking (socket_fd : Z) : M (process W) Z :=
  flags ← get_socket_flags socket_fd;
  let flags := Z.lor flags O_NONBLOCK in
  set_socket_flags socket_fd flags;;
  mret flags.

Definition unset_socket_non_blocking (socket_fd : Z) : M (process W) Z :=
  flags ← get_socket_flags socket_fd;
  set_socket_flags socket_fd (Z.land flags (Z.lnot O_NONBLOCK));;
  mret flags.

Definition socket_is_non_blocking (socket_fd : Z) : M (process W) bool :=
  flags ← get_socket_flags socket_fd;
  mret (negb (Z.land flags O_NONBLOCK =? 0)).

(** [while (recv(connection, buffer, size, 0) < size) if (errno != EAGAIN)
    return -1;]: each call fills the buffer from its start; the bytes of the
    call that ends the loop are returned with the status. *)
Fixpoint receive_busy (fuel : nat) (connection size : Z) : M (process W) (Z * list Z) :=
  match fuel with
  | O => running
  | S fuel =>
      r ← sys (Recv connection size);
      if rv r <? size then
        e ← get_errno;
        if negb (e =? EAGAIN) then mret (-1, data r) else receive_busy fuel connection size
      else mret (0, data r)
  end.

Definition receive (fuel : nat) (connection size : Z) (busy_waiting : bool) : M (process W) (Z * list Z) :=
  if busy_waiting then receive_busy fuel connection size
  else
    r ← sys (Recv connection size);
    if rv r <? size then mret (-1, data r) else mret (0, data r).

End sockets.

(** ** The contract of [fcntl]

    A descriptor has status flags; [F_GETFL] returns them, [F_SETFL] replaces
    those the system lets a program change, among them [O_NONBLOCK]; both
    succeed on an open descriptor and leave the others alone. *)
Class FcntlContract (W : Type) `{!Kernel W} := {
  status_flags : W -> Z -> Z;
  settable : Z;
  settable_nonblock : Z.testbit settable 11 = true;
  getfl w fd : rv (kernel (Fcntl fd F_GETFL 0) w).1 = status_flags w fd;
  getfl_keeps w fd fd' : status_flags (kernel (Fcntl fd F_GETFL 0) w).2 fd' = status_flags w fd';
  setfl w fd v : rv (kernel (Fcntl fd F_SETFL v) w).1 = 0;
  setfl_flags w fd v :
    status_flags (kernel (Fcntl fd F_SETFL v) w).2 fd
      = Z.lor (Z.land (status_flags w fd) (Z.lnot settable)) (Z.land v settable);
  setfl_other w fd fd' v : fd <> fd' ->
    status_flags (kernel (Fcntl fd F_SETFL v) w).2 fd' = status_flags w fd';
}.

(** Replacing flags by flags that agree outside the bit of [O_NONBLOCK]. *)
Lemma setfl_bits old v mask i :
  Z.testbit mask 11 = true -> 0 <= i ->
  (i <> 11 -> Z.testbit v i = Z.testbit old i) ->
  Z.testbit (Z.lor (Z.land old (Z.lnot mask)) (Z.land v mask)) i =
    if i =? 11 then Z.testbit v 11 else Z.testbit old i.
Proof.
  intros Hm Hi Hv. rewrite Z.lor_spec, !Z.land_spec, Z.lnot_spec by done.
  destruct (Z.eqb_spec i 11) as [->|Hne].
  - rewrite Hm. destruct (Z.testbit old 11), (Z.testbit v 11); done.
  - rewrite Hv by done. by destruct (Z.testbit old i), (Z.testbit mask i).
Qed.

Lemma nonblock_testbit i : 0 <= i -> Z.testbit O_NONBLOCK i = (i =? 11).
Proof.
  intros Hi. change O_NONBLOCK with (2 ^ 11). rewrite Z.eqb_sym. by apply Z.pow2_bits_eqb.
Qed.

Lemma nonblock_set_iff z : (Z.land z O_NONBLOCK =? 0) = negb (Z.testbit z 11).
Proof.
  destruct (Z.eqb_spec (Z.land z O_NONBLOCK) 0) as [E|E].
  - assert (H : Z.testbit (Z.land z O_NONBLOCK) 11 = false) by (rewrite E; apply Z.testbit_0_l).
    rewrite Z.land_spec, nonblock_testbit in H by done. by destruct (Z.testbit z 11).
  - destruct (Z.testbit z 11) eqn:Hb; [done|]. destruct E. apply Z.bits_inj'. intros i Hi.
    rewrite Z.land_spec, nonblock_testbit, Z.testbit_0_l by done.
    destruct (Z.eqb_spec i 11) as [->|]; [by rewrite Hb|apply andb_false_r].
Qed.

Section contract.
Context {W : Type} `{FC : FcntlContract W}.

Lemma get_socket_flags_ok fd (p : process W) :
  0 <= status_flags (env p) fd ->
  exists q, get_socket_flags fd p = (Done (status_flags (env p) fd), q) /\
    forall fd', status_flags (env q) fd' = status_flags (env p) fd'.
Proof.
  intros H. unfold get_socket_flags, sys_rv. unfold mbind, M_bind. rewrite sys_eq.
  unfold mret, M_ret, throw_if. rewrite getfl. destruct (Z.eqb_spec (status_flags (env p) fd) (-1)); [lia|].
  eexists. split; [done|]. intros fd'. apply getfl_keeps.
Qed.

Lemma set_socket_flags_ok fd v (p : process W) :
  exists q, set_socket_flags fd v p = (Done (), q) /\
    status_flags (env q) fd = Z.lor (Z.land (status_flags (env p) fd) (Z.lnot settable)) (Z.land v settable) /\
    forall fd', fd' <> fd -> status_flags (env q) fd' = status_flags (env p) fd'.
Proof.
  unfold set_socket_flags, sys_rv. unfold mbind, M_bind. rewrite sys_eq.
  unfold mret, M_ret, throw_if. rewrite setfl. eexists. split; [done|]. split; [apply setfl_flags|].
  intros fd' Hne. by apply setfl_other.
Qed.

(** Setting a flag word that agrees with the current one outside [O_NONBLOCK]. *)
Lemma set_flags_bits fd v (p : process W) :
  (forall i, 0 <= i -> i <> 11 -> Z.testbit v i = Z.testbit (status_flags (env p) fd) i) ->
  exists q, set_socket_flags fd v p = (Done (), q) /\
    (forall i, 0 <= i -> Z.testbit (status_flags (env q) fd) i =
       if i =? 11 then Z.testbit v 11 else Z.testbit (status_flags (env p) fd) i) /\
    forall fd', fd' <> fd -> status_flags (env q) fd' = status_flags (env p) fd'.
Proof.
  intros Hv. destruct (set_socket_flags_ok fd v p) as (q & Hq & Hf & Ho). exists q.
  split; [done|]. split; [|done]. intros i Hi. rewrite Hf.
  apply setfl_bits; [apply settable_nonblock|done|auto].
Qed.

Lemma is_non_blocking_ok fd (p : process W) :
  0 <= status_flags (env p) fd ->
  (socket_is_non_blocking fd p).1 = Done (Z.testbit (status_flags (env p) fd) 11).
Proof.
  intros H. destruct (get_socket_flags_ok fd p H) as (q & Hq & _). unfold socket_is_non_blocking.
  rewrite (bind_done _ _ _ _ _ Hq), nonblock_set_iff, negb_involutive. done.
Qed.

Lemma bits_nonneg z z' n : 0 <= z -> 0 <= n ->
  (forall i, 0 <= i -> i <> n -> Z.testbit z' i = Z.testbit z i) -> 0 <= z'.
Proof.
  intros Hz Hn H. apply Z.bits_iff_nonneg_ex. apply Z.bits_iff_nonneg_ex in Hz as [k Hk].
  exists (Z.max (Z.max k n) 0). intros m Hm. rewrite H by lia. apply Hk. lia.
Qed.

(** What setting or clearing the flag leaves. *)
Definition flag_changed (b : bool) fd (p q : process W) : Prop :=
  (socket_is_non_blocking fd q).1 = Done b /\
  (forall i, 0 <= i -> i <> 11 ->
     Z.testbit (status_flags (env q) fd) i = Z.testbit (status_flags (env p) fd) i) /\
  (forall fd', fd' <> fd -> status_flags (env q) fd' = status_flags (env p) fd').

Lemma change_flag fd (b : bool) v (p q0 : process W) :
  0 <= status_flags (env p) fd ->
  (forall fd', status_flags (env q0) fd' = status_flags (env p) fd') ->
  (forall i, 0 <= i -> Z.testbit v i = if i =? 11 then b else Z.testbit (status_flags (env p) fd) i) ->
  exists q, set_socket_flags fd v q0 = (Done (), q) /\ flag_changed b fd p q.
Proof.
  intros Hp Hq0 Hv. destruct (set_flags_bits fd v q0) as (q & Hq & Hb & Ho).
  { intros i Hi Hne. rewrite Hv, Hq0 by done. by rewrite (proj2 (Z.eqb_neq i 11)). }
  assert (Hbits : forall i, 0 <= i -> i <> 11 ->
    Z.testbit (status_flags (env q) fd) i = Z.testbit (status_flags (env p) fd) i).
  { intros i Hi Hne. rewrite Hb, Hq0 by done. by rewrite (proj2 (Z.eqb_neq i 11)). }
  exists q. split; [done|]. split; [|split; [done|]].
  - rewrite is_non_blocking_ok by (eapply bits_nonneg; [exact Hp| |exact Hbits]; lia).
    rewrite Hb by lia. rewrite Z.eqb_refl, Hv by lia. by rewrite Z.eqb_refl.
  - intros fd' Hne. by rewrite Ho, Hq0.
Qed.

(** ** Properties *)

(** The non-blocking flag.  Under the documented behaviour of [fcntl], on
    an open descriptor, [set_socket_non_blocking] returns the new flags and
    makes [socket_is_non_blocking] true, [unset_socket_non_blocking] returns
    the old flags and makes it false; no other flag and no other descriptor
    changes. *)
Theorem non_blocking_flag fd (p : process W) :
  0 <= status_flags (env p) fd ->
  (exists q, set_socket_non_blocking fd p = (Done (Z.lor (status_flags (env p) fd) O_NONBLOCK), q) /\
     flag_changed true fd p q) /\
  (exists q, unset_socket_non_blocking fd p = (Done (status_flags (env p) fd), q) /\
     flag_changed false fd p q).
Proof.
  intros Hp. destruct (get_socket_flags_ok fd p Hp) as (q0 & Hq0 & Hk).
  unfold set_socket_non_blocking, unset_socket_non_blocking. rewrite !(bind_done _ _ _ _ _ Hq0). split.
  - destruct (change_flag fd true (Z.lor (status_flags (env p) fd) O_NONBLOCK) p q0) as (q & Hq & Hc);
      [done|done| |].
    { intros i Hi. rewrite Z.lor_spec, nonblock_testbit by done. destruct (Z.eqb_spec i 11).
      - apply orb_true_r.
      - apply orb_false_r. }
    exists q. by rewrite (bind_done _ _ _ _ _ Hq).
  - destruct (change_flag fd false (Z.land (status_flags (env p) fd) (Z.lnot O_NONBLOCK)) p q0)
      as (q & Hq & Hc); [done|done| |].
    { intros i Hi. rewrite Z.land_spec, Z.lnot_spec, nonblock_testbit by done. destruct (Z.eqb_spec i 11).
      - apply andb_false_r.
      - apply andb_true_r. }
    exists q. by rewrite (bind_done _ _ _ _ _ Hq).
Qed.

End contract.

(** ** [receive] *)

(** A result the busy loop retries once [errno] is [EAGAIN]. *)
Definition retried (size : Z) (r : result) : Prop := rv r < size /\ (rv r = -1 -> err r = EAGAIN).

Lemma receive_busy_step fuel fd size r rs tr e :
  rv r < size -> (if rv r =? -1 then err r else e) = EAGAIN ->
  receive_busy (S fuel) fd size (mk_process e tr (r :: rs))
    = receive_busy fuel fd size (mk_process EAGAIN (tr ++ [(Recv fd size, r)]) rs).
Proof.
  intros Hr He. cbn [receive_busy]. unfold mbind, M_bind. rewrite sys_eq. cbn [kernel script_kernel env errno fst snd].
  unfold kernel, script_kernel. cbn [fst snd errno trace]. rewrite He.
  destruct (Z.ltb_spec (rv r) size); [|lia]. unfold get_errno. cbn [errno]. by rewrite Z.eqb_refl.
Qed.

Lemma receive_busy_end fuel fd size r rs tr e :
  size <= rv r \/ (if rv r =? -1 then err r else e) <> EAGAIN ->
  receive_busy (S fuel) fd size (mk_process e tr (r :: rs))
    = (Done (if rv r <? size then -1 else 0, data r),
       mk_process (if rv r =? -1 then err r else e) (tr ++ [(Recv fd size, r)]) rs).
Proof.
  intros Hr. cbn [receive_busy]. unfold mbind, M_bind. rewrite sys_eq.
  unfold kernel, script_kernel. cbn [fst snd errno trace env].
  destruct (Z.ltb_spec (rv r) size); [|done]. unfold get_errno. cbn [errno].
  destruct Hr as [Hr|Hr]; [lia|]. by rewrite (proj2 (Z.eqb_neq _ _) Hr).
Qed.

Lemma receive_busy_pre pre : forall fuel fd size rs tr e,
  Forall (retried size) pre -> (pre = [] \/ e = EAGAIN \/ exists x, head pre = Some x /\ rv x = -1) ->
  exists e', (pre = [] /\ e' = e \/ e' = EAGAIN) /\
    receive_busy (length pre + fuel) fd size (mk_process e tr (pre ++ rs))
      = receive_busy fuel fd size (mk_process e' (tr ++ ((fun r => (Recv fd size, r)) <$> pre)) rs).
Proof.
  induction pre as [|r pre IH]; intros fuel fd size rs tr e Hpre He.
  - exists e. split; [by left|]. cbn. by rewrite app_nil_r.
  - inversion Hpre as [|? ? [Hr Hagain] Hpre']; subst. cbn [length Nat.add app].
    assert (E : (if rv r =? -1 then err r else e) = EAGAIN).
    { destruct (Z.eqb_spec (rv r) (-1)); [auto|].
      destruct He as [?|[?|(x & [= ->] & ?)]]; done. }
    rewrite receive_busy_step by done.
    destruct (IH fuel fd size rs (tr ++ [(Recv fd size, r)]) EAGAIN) as (e' & He' & ->); [done|auto|].
    exists EAGAIN. split; [by right|]. destruct He' as [[_ ->]| ->]; by rewrite <- app_assoc.
Qed.

(** The busy mode of [receive].  After a first [EAGAIN], every call that
    returns fewer bytes than asked, whether it failed with [EAGAIN], returned
    part of the message or found the end of the stream, is repeated with the
    whole buffer: the bytes it returned are dropped.  The first complete
    answer ends the loop with 0, the first other error with -1. *)
Theorem receive_busy_retries fuel fd size pre r rs :
  Forall (retried size) pre -> (forall x, head pre = Some x -> rv x = -1) ->
  (length pre < fuel)%nat ->
  size <= rv r \/ rv r = -1 /\ err r <> EAGAIN ->
  outcome_on (receive fuel fd size true) (pre ++ r :: rs)
    = Done (if rv r <? size then -1 else 0, data r) /\
  calls_on (receive fuel fd size true) (pre ++ r :: rs) = replicate (length pre + 1) (Recv fd size).
Proof.
  intros Hpre Hhd Hf Hr. unfold outcome_on, calls_on, start.
  change (receive fuel fd size true) with (receive_busy (W:=script) fuel fd size).
  destruct (receive_busy_pre pre (fuel - length pre) fd size (r :: rs) [] 0) as (e' & _ & He); [done| |].
  { destruct pre as [|x pre]; [by left|]. right; right. exists x. auto. }
  replace (length pre + (fuel - length pre))%nat with fuel in He by lia. rewrite He.
  destruct (fuel - length pre)%nat as [|k] eqn:Ek; [lia|].
  rewrite receive_busy_end.
  - split; [done|]. cbn [fst snd trace app]. rewrite fmap_app, <- list_fmap_compose.
    rewrite replicate_add. f_equal. clear. induction pre as [|y pre IH]; [done|]. cbn. by f_equal.
  - destruct Hr as [Hr|[H1 H2]]; [by left|]. right. by rewrite H1.
Qed.

(** Incomplete messages.  In the blocking mode a call that returns part of
    a message is a failure, and the rest is never read; in the busy mode, once
    the first call found nothing, a closed connection makes the loop run for
    ever. *)
Theorem receive_incomplete fuel fd size r rs :
  0 <= rv r < size ->
  (outcome_on (receive fuel fd size false) (r :: rs) = Done (-1, data r) /\
   calls_on (receive fuel fd size false) (r :: rs) = [Recv fd size]) /\
  outcome_on (receive fuel fd size true) (fails EAGAIN :: replicate fuel (val 0)) = Running.
Proof.
  intros Hr. split.
  - unfold receive. exec. rewrite (proj2 (Z.ltb_lt (rv r) size)) by lia. by exec.
  - unfold outcome_on, start. change (receive fuel fd size true) with (receive_busy (W:=script) fuel fd size).
    destruct fuel as [|fuel]; [done|].
    replace (replicate (S fuel) (val 0)) with (replicate fuel (val 0) ++ [val 0])
      by (rewrite <- replicate_S_end; done).
    change (fails EAGAIN :: replicate fuel (val 0) ++ [val 0])
      with ((fails EAGAIN :: replicate fuel (val 0)) ++ [val 0]).
    destruct (receive_busy_pre (fails EAGAIN :: replicate fuel (val 0)) 0 fd size [val 0] [] 0)
      as (e' & _ & He).
    + constructor; [by split; simpl; [lia|]|]. apply Forall_replicate. split; simpl; [lia|done].
    + right; right. by exists (fails EAGAIN).
    + rewrite Nat.add_0_r in He. cbn [length] in He. rewrite length_replicate in He. by rewrite He.
Qed.

(** Sizes and timeouts.  Each setter asks for the send side first and the
    receive side second, with [BUFFER_SIZE] or the given time, and dies at the
    first failure without trying the other; the getters return what the
    kernel stored. *)
Theorem socket_options fd sec usec r1 r2 b d :
  outcome_on (set_socket_both_buffer_sizes fd) [r1; r2] =
    (if (rv r1 =? -1) || (rv r2 =? -1) then Died "Error setting socket buffer size" else Done ()) /\
  calls_on (set_socket_both_buffer_sizes fd) [r1; r2] =
    Setsockopt fd SO_SNDBUF [BUFFER_SIZE] ::
    (if rv r1 =? -1 then [] else [Setsockopt fd SO_RCVBUF [BUFFER_SIZE]]) /\
  outcome_on (set_socket_both_timeouts fd sec usec) [r1; r2] =
    (if (rv r1 =? -1) || (rv r2 =? -1) then Died "Error setting blocking timeout" else Done ()) /\
  calls_on (set_socket_both_timeouts fd sec usec) [r1; r2] =
    Setsockopt fd SO_SNDTIMEO [sec; usec] ::
    (if rv r1 =? -1 then [] else [Setsockopt fd SO_RCVTIMEO [sec; usec]]) /\
  outcome_on (socket_buffer_size fd d) [mk_result 0 0 [b]] = Done b /\
  outcome_on (socket_timeout fd d) [mk_result 0 0 [sec; usec]] = Done (sec, usec).
Proof.
  unfold set_socket_both_buffer_sizes, set_socket_buffer_size, set_socket_both_timeouts,
    set_socket_timeout. split_and!; try done.
  all: exec; destruct (rv r1 =? -1); exec; try done; destruct (rv r2 =? -1); done.
Qed.

(** ** Witnesses

    A kernel with status flags per descriptor, of which [O_APPEND] and
    [O_NONBLOCK] can be changed. *)
#[local] Instance flags_kernel : Kernel (gmap Z Z) := fun c w =>
  match c with
  | Fcntl fd cmd arg =>
      let old := default 2 (w !! fd) in
      if cmd =? F_GETFL then (val old, w)
      else (val 0, <[fd := Z.lor (Z.land old (Z.lnot 3072)) (Z.land arg 3072)]> w)
  | _ => (val 0, w)
  end.

#[local] Instance flags_contract : FcntlContract (gmap Z Z).
Proof.
  refine (Build_FcntlContract _ _ (fun w fd => default 2 (w !! fd)) 3072 _ _ _ _ _ _); try done.
  - intros w fd v. unfold kernel, flags_kernel. cbn. by rewrite lookup_insert_eq.
  - intros w fd fd' v Hne. unfold kernel, flags_kernel. cbn. by rewrite lookup_insert_ne.
Defined.

Lemma non_blocking_flag_witness :
  exists q, set_socket_non_blocking 3 (mk_process 0 [] (∅ : gmap Z Z)) = (Done 2050, q) /\
    flag_changed true 3 (mk_process 0 [] (∅ : gmap Z Z)) q.
Proof.
  destruct (non_blocking_flag 3 (mk_process 0 [] (∅ : gmap Z Z))) as [H _]; [done|exact H].
Defined.

(** Nothing, then three of eight bytes, then eight: the three are dropped. *)
Lemma receive_busy_retries_witness :
  outcome_on (receive 5 4 8 true) [fails 11; mk_result 3 0 [1; 2; 3]; mk_result 8 0 [4; 5; 6; 7; 8; 9; 10; 11]]
    = Done (0, [4; 5; 6; 7; 8; 9; 10; 11]).
Proof.
  apply (receive_busy_retries 5 4 8 [fails 11; mk_result 3 0 [1; 2; 3]]
    (mk_result 8 0 [4; 5; 6; 7; 8; 9; 10; 11]) []).
  - repeat constructor; simpl; lia.
  - by intros x [= <-].
  - simpl; lia.
  - left. done.
Defined.

Lemma receive_incomplete_witness :
  outcome_on (receive 5 4 8 false) [mk_result 3 0 [1; 2; 3]] = Done (-1, [1; 2; 3]).
Proof. apply (receive_incomplete 5 4 8 (mk_result 3 0 [1; 2; 3]) []). simpl; lia. Defined.
