(* ===== verification/Signals.v ===== *)
(** * common/signals.c and the programs of signal/

    The set-up of SIGUSR1 and SIGUSR2 on each side, notifying and waiting, for
    every kernel; the signal benchmark; and a model of the two signals of a
    server and a client in one process group. *)
From S2P Require Import Prelude Kernel Benchmarks.

(** [IGNORE_USR1] and [IGNORE_USR2] are both 0. *)
Definition IGNORE_USR1 : Z := 0.
Definition IGNORE_USR2 : Z := 0.
Definition BLOCK_USR1 : Z := 1.
Definition BLOCK_USR2 : Z := 2.

(** [SIG_DFL], and the address of the empty [signal_handler]. *)
Definition SIG_DFL : Z := 0.
Definition signal_handler : Z := 4198400.

Inductive operation := WAIT | NOTIFY.

Record sigaction := mk_sigaction { sa_handler : Z; sa_mask : list Z; sa_flags : Z }.

(** [flags & bit]. *)
Definition flag_set (flags bit : Z) : bool := negb (Z.land flags bit =? 0).

Section signals.
Context {W : Type} `{!Kernel W}.

Definition setup_ignored_signals (sa : sigaction) (flags : Z) : M (process W) sigaction :=
  let sa := mk_sigaction signal_handler (sa_mask sa) (sa_flags sa) in
  (if negb (flag_set flags BLOCK_USR1) then
     r ← sys_rv (Sigaction SIGUSR1 (sa_handler sa) (sa_flags sa) (sa_mask sa));
     throw_if (negb (r =? 0)) "Error registering SIGUSR1 signal handler for server"
   else mret ());;
  (if negb (flag_set flags BLOCK_USR2) then
     r ← sys_rv (Sigaction SIGUSR2 (sa_handler sa) (sa_flags sa) (sa_mask sa));
     throw_if (negb (r =? 0)) "Error registering SIGUSR2 signal handler for server"
   else mret ());;
  mret sa.

(** The result of [sigprocmask] is not checked. *)
Definition setup_blocked_signals (sa : sigaction) (flags : Z) : M (process W) sigaction :=
  let mask := sa_mask sa in
  let mask := if flag_set flags BLOCK_USR1 then mask ++ [SIGUSR1] else mask in
  let mask := if flag_set flags BLOCK_USR2 then mask ++ [SIGUSR2] else mask in
  sys_ (Sigprocmask_block mask);;
  mret (mk_sigaction SIG_DFL mask (sa_flags sa)).

Definition setup_signals (sa : sigaction) (flags : Z) : M (process W) sigaction :=
  let sa := mk_sigaction (sa_handler sa) [] SA_RESTART in
  sa ← setup_ignored_signals sa flags;
  setup_blocked_signals (mk_sigaction (sa_handler sa) [] (sa_flags sa)) flags.

(** [sa0] is the uninitialised local. *)
Definition setup_parent_signals (sa0 : sigaction) : M (process W) () :=
  _ ← setup_signals sa0 (Z.lor IGNORE_USR1 IGNORE_USR2); mret ().

Definition setup_server_signals (sa : sigaction) : M (process W) sigaction :=
  sa ← setup_signals sa (Z.lor BLOCK_USR1 IGNORE_USR2); sys_ (Usleep 1000);; mret sa.

Definition setup_client_signals (sa : sigaction) : M (process W) sigaction :=
  sa ← setup_signals sa (Z.lor IGNORE_USR1 BLOCK_USR2); sys_ (Usleep 1000);; mret sa.

Definition notify_server : M (process W) () := sys_ (Kill 0 SIGUSR1).
Definition notify_client : M (process W) () := sys_ (Kill 0 SIGUSR2).

Definition wait_for_signal (sa : sigaction) : M (process W) () := sys_ (Sigwait (sa_mask sa)).

Definition client_once (sa0 : sigaction) (op : operation) : M (process W) () :=
  sa ← setup_client_signals sa0;
  match op with WAIT => wait_for_signal sa | NOTIFY => notify_server end.

Definition server_once (sa0 : sigaction) (op : operation) : M (process W) () :=
  sa ← setup_server_signals sa0;
  match op with WAIT => wait_for_signal sa | NOTIFY => notify_client end.

(** ** signal/client.c *)

(** [for (; args->count > 0; --args->size)]: the step decrements the size. *)
Fixpoint signal_client_loop (fuel : nat) (sa : sigaction) (args : Arguments) : M (process W) () :=
  match fuel with
  | O => running
  | S fuel =>
      if arg_count args >? 0 then
        wait_for_signal sa;;
        notify_server;;
        size ← defined (i32_checked (arg_size args - 1));
        signal_client_loop fuel sa (mk_Arguments size (arg_count args))
      else mret ()
  end.

Definition signal_client_communicate (fuel : nat) (sa : sigaction) (args : Arguments) : M (process W) () :=
  notify_server;; signal_client_loop fuel sa args.

Definition signal_client_main (fuel : nat) (sa0 : sigaction) (args : Arguments) : M (process W) () :=
  sa ← setup_client_signals sa0; signal_client_communicate fuel sa args.

(** ** signal/server.c *)

(** [for (message = 0; message < args->count; ++message)], as the number of
    messages left. *)
Fixpoint signal_server_loop (remaining : nat) (sa : sigaction) (bench : Benchmarks) : M (process W) Benchmarks :=
  match remaining with
  | O => mret bench
  | S remaining =>
      bench ← start_single bench;
      notify_client;;
      wait_for_signal sa;;
      bench ← benchmark_call bench;
      signal_server_loop remaining sa bench
  end.

Definition signal_server_communicate (sa : sigaction) (args : Arguments) (bench0 : Benchmarks)
    : M (process W) report :=
  wait_for_signal sa;;
  bench ← setup_benchmarks_call bench0;
  bench ← signal_server_loop (Z.to_nat (arg_count args)) sa bench;
  of_outcome (evaluate bench (mk_Arguments 1 (arg_count args))).

Definition signal_server_main (sa0 : sigaction) (args : Arguments) (bench0 : Benchmarks)
    : M (process W) report :=
  sa ← setup_server_signals sa0; signal_server_communicate sa args bench0.

End signals.

(** ** Properties *)

(** What the set-ups establish.  Whatever the structure held, the server
    catches SIGUSR2 with the empty handler and blocks exactly SIGUSR1, on
    which it will wait; the client the other way round; the parent catches
    both and blocks none.  A failing registration stops them before any
    signal is blocked. *)
Theorem setup_signals_spec sa0 r1 r2 r3 :
  let server := setup_server_signals sa0 in
  let client := setup_client_signals sa0 in
  let parent := setup_parent_signals sa0 in
  (outcome_on server [r1; r2; r3] =
     if rv r1 =? 0 then Done (mk_sigaction SIG_DFL [SIGUSR1] SA_RESTART)
     else Died "Error registering SIGUSR2 signal handler for server") /\
  (calls_on server [r1; r2; r3] =
     Sigaction SIGUSR2 signal_handler SA_RESTART [] ::
     if rv r1 =? 0 then [Sigprocmask_block [SIGUSR1]; Usleep 1000] else []) /\
  (outcome_on client [r1; r2; r3] =
     if rv r1 =? 0 then Done (mk_sigaction SIG_DFL [SIGUSR2] SA_RESTART)
     else Died "Error registering SIGUSR1 signal handler for server") /\
  (calls_on client [r1; r2; r3] =
     Sigaction SIGUSR1 signal_handler SA_RESTART [] ::
     if rv r1 =? 0 then [Sigprocmask_block [SIGUSR2]; Usleep 1000] else []) /\
  (rv r1 = 0 -> rv r2 = 0 ->
   calls_on parent [r1; r2; r3] =
     [Sigaction SIGUSR1 signal_handler SA_RESTART []; Sigaction SIGUSR2 signal_handler SA_RESTART [];
      Sigprocmask_block []]).
Proof.
  intros server client parent.
  unfold server, client, parent, setup_server_signals, setup_client_signals, setup_parent_signals,
    setup_signals, setup_ignored_signals, setup_blocked_signals. cbn [flag_set Z.lor].
  change (flag_set (Z.lor BLOCK_USR1 IGNORE_USR2) BLOCK_USR1) with true.
  change (flag_set (Z.lor BLOCK_USR1 IGNORE_USR2) BLOCK_USR2) with false.
  change (flag_set (Z.lor IGNORE_USR1 BLOCK_USR2) BLOCK_USR1) with false.
  change (flag_set (Z.lor IGNORE_USR1 BLOCK_USR2) BLOCK_USR2) with true.
  change (flag_set (Z.lor IGNORE_USR1 IGNORE_USR2) BLOCK_USR1) with false.
  change (flag_set (Z.lor IGNORE_USR1 IGNORE_USR2) BLOCK_USR2) with false.
  split_and!.
  5: intros E1 E2; cbn [negb sa_mask]; exec; rewrite E1; cbn [Z.eqb negb]; exec; rewrite E2; done.
  all: cbn [negb sa_mask]; exec; destruct (rv r1 =? 0); done.
Qed.

(** ** The programs of signal/ *)

Lemma signal_client_loop_val {W} `{!Kernel W} fuel : forall sa size count (p : process W),
  count > 0 -> INT32_MIN <= size <= INT32_MAX ->
  (signal_client_loop fuel sa (mk_Arguments size count) p).1 =
    if Z.of_nat fuel <=? size - INT32_MIN then Running else Undefined.
Proof.
  induction fuel as [|fuel IH]; intros sa size count p Hc Hs.
  { cbn [signal_client_loop]. destruct (Z.leb_spec (Z.of_nat 0) (size - INT32_MIN)); [done|lia]. }
  cbn [signal_client_loop arg_count arg_size]. rewrite Z.gtb_ltb, (proj2 (Z.ltb_lt 0 count)) by lia.
  unfold wait_for_signal, notify_server, sys_, mbind, M_bind. rewrite !sys_eq.
  cbn [mret M_ret]. rewrite sys_eq.
  destruct (decide (INT32_MIN <= size - 1)) as [Hle|Hgt].
  - rewrite i32_checked_small by lia. cbn [defined mret M_ret]. unfold mret, M_ret.
    rewrite IH by lia. zbool; done || lia.
  - unfold i32_checked. rewrite bool_decide_eq_false_2 by lia. cbn [defined undefined fst].
    destruct (Z.leb_spec (Z.of_nat (S fuel)) (size - INT32_MIN)); [lia|done].
Qed.

Lemma signal_server_loop_did {W} `{!Kernel W} n : forall sa bench (p : process W) b q,
  signal_server_loop n sa bench p = (Done b, q) ->
  did p q (concat (replicate n [Timespec_get; Kill 0 SIGUSR2; Sigwait (sa_mask sa); Timespec_get])) /\
  count b = count bench + Z.of_nat n.
Proof.
  induction n as [|n IH]; intros sa bench p b q H.
  { apply mret_inv in H as [-> ->]. split; [apply did_nil|lia]. }
  cbn [signal_server_loop] in H.
  apply bind_inv in H as (b1 & p1 & H1 & H). apply bind_inv in H1 as (t & p1' & H1 & [-> ->]%mret_inv).
  apply read_now_did in H1. apply bind_inv in H as (? & p2 & H2 & H). apply sys__did in H2.
  apply bind_inv in H as (? & p3 & H3 & H). apply sys__did in H3.
  apply bind_inv in H as (b4 & p4 & H4 & H). apply bind_inv in H4 as (t' & p4' & H4 & [Hb ->]%defined_inv).
  apply read_now_did in H4. apply IH in H as [H Hc]. split.
  - cbn [replicate concat]. change [Timespec_get; Kill 0 SIGUSR2; Sigwait (sa_mask sa); Timespec_get]
      with ([Timespec_get] ++ [Kill 0 SIGUSR2] ++ [Sigwait (sa_mask sa)] ++ [Timespec_get]).
    rewrite <- !app_assoc. repeat (eapply did_trans; [eassumption|]). done.
  - apply benchmark_count in Hb. cbn [set_single_start count] in Hb. lia.
Qed.

(** The client of signal never stops.  With a positive count, its loop
    decrements the size instead of the count: for every kernel it is still
    running after [size + 2^31] answered signals, and the next iteration
    overflows the size.  With no messages to send it returns. *)
Theorem signal_client_never_stops {W} `{!Kernel W} fuel sa size count (p : process W) :
  INT32_MIN <= size <= INT32_MAX ->
  (signal_client_communicate (S fuel) sa (mk_Arguments size count) p).1 =
    if 0 <? count then
      if Z.of_nat (S fuel) <=? size - INT32_MIN then Running else Undefined
    else Done ().
Proof.
  intros Hs. unfold signal_client_communicate, notify_server, sys_. unfold mbind at 1 2, M_bind at 1 2.
  rewrite sys_eq. unfold mret at 1, M_ret at 1. destruct (Z.ltb_spec 0 count).
  - apply signal_client_loop_val; lia.
  - cbn [signal_client_loop arg_count]. rewrite Z.gtb_ltb. by rewrite (proj2 (Z.ltb_ge 0 count)) by lia.
Qed.

(** The rounds of the signal server.  Whenever the server ends with a
    report, for any kernel, it has waited for the client once, then in each
    of the [count] rounds read the clock, notified the client, waited for its
    answer and read the clock, in this order; the report shows that count and
    a size of 1. *)
Theorem signal_server_rounds {W} `{!Kernel W} sa args bench0 (p : process W) r q :
  signal_server_communicate sa args bench0 p = (Done r, q) ->
  did p q ([Sigwait (sa_mask sa); Timespec_get] ++
    concat (replicate (Z.to_nat (arg_count args))
      [Timespec_get; Kill 0 SIGUSR2; Sigwait (sa_mask sa); Timespec_get])) /\
  rep_size r = 1 /\ rep_count r = arg_count args.
Proof.
  intros H. unfold signal_server_communicate in H.
  apply bind_inv in H as (? & p1 & H1 & H). apply sys__did in H1.
  apply bind_inv in H as (b & p2 & H2 & H). apply bind_inv in H2 as (t & p2' & H2 & [-> ->]%mret_inv).
  apply read_now_did in H2. apply bind_inv in H as (b3 & p3 & H3 & H).
  apply signal_server_loop_did in H3 as [H3 Hc]. unfold of_outcome in H. injection H as He <-.
  assert (Hpos : arg_count args > 0).
  { revert He. unfold evaluate. cbn [arg_count]. case_bool_decide; done. }
  apply evaluate_fields in He as [-> ->]. cbn [arg_size setup_benchmarks count] in *. split_and!; [|done|lia].
  change [Sigwait (sa_mask sa); Timespec_get] with ([Sigwait (sa_mask sa)] ++ [Timespec_get]).
  rewrite <- app_assoc. repeat (eapply did_trans; [eassumption|]). done.
Qed.

(** ** Witnesses *)

Definition clock (sec nsec : Z) : result := mk_result 0 0 [sec; nsec].

Lemma signal_client_never_stops_witness :
  (signal_client_communicate 4 (mk_sigaction 0 [12] 0) (mk_Arguments 1 7) (start [])).1 = Running.
Proof. apply (signal_client_never_stops 3 (mk_sigaction 0 [12] 0) 1 7 (start [])). by vm_compute. Defined.

(** One round of 2048 ns. *)
Lemma signal_server_rounds_witness :
  let p := start [val 0; clock 1700000000 0; clock 1700000000 1024; val 0; val 0; clock 1700000000 3072] in
  let run := signal_server_communicate (mk_sigaction 0 [10] 0) (mk_Arguments 4096 1)
    (mk_Benchmarks 0 0 0 0 0 0 0) p in
  exists r q, run = (Done r, q) /\ rep_minimum_us r <> SpecFloat.S754_nan /\ rep_size r = 1.
Proof.
  intros p run. destruct run as [[r| | |] q] eqn:E; try (vm_compute in E; discriminate).
  exists r, q. split; [done|]. split.
  - vm_compute in E. injection E as <- _. done.
  - by apply (signal_server_rounds (mk_sigaction 0 [10] 0) (mk_Arguments 4096 1)
      (mk_Benchmarks 0 0 0 0 0 0 0) p r q).
Defined.
