(* ===== verification/SignalPair.v ===== *)
(** * The signal benchmark: its two processes, alone and together

    [communicate] of [signal/server.c] and of [signal/client.c] over the two
    signals, from the end of both set-ups: the server blocks SIGUSR1 and the
    client SIGUSR2, so that each is pending until it is waited for, and the
    other process's handler of it is empty. *)
From S2P Require Import Prelude Kernel Benchmarks Linking Together Signals.

(** ** The two processes *)

Inductive sg_server_pc :=
  | SV_first                (* the wait before the loop *)
  | SV_send                 (* setup_benchmarks, or the loop: before notify_client() *)
  | SV_wait.                (* wait_for_signal() in the loop *)

Inductive sg_client_pc :=
  | CL_notify               (* notify_server() *)
  | CL_wait.                (* wait_for_signal() *)
#[export] Instance sg_client_pc_eq_dec : EqDecision sg_client_pc.
Proof. solve_decision. Defined.

Record sg_state := mk_sg_state {
  sg_usr1 : bool;            (* pending for the server *)
  sg_usr2 : bool;            (* pending for the client *)
  sg_server : sg_server_pc;
  sg_left : nat;             (* args->count - message *)
  sg_client : sg_client_pc;
  sg_got : nat;              (* signals the client has waited for *)
}.

Definition sg_server_move (s : sg_state) : option sg_state :=
  let 'mk_sg_state u1 u2 sv l cl g := s in
  match sv with
  | SV_first => if u1 then Some (mk_sg_state false u2 SV_send l cl g) else None
  | SV_send => match l with O => None | S _ => Some (mk_sg_state u1 true SV_wait l cl g) end
  | SV_wait => if u1 then Some (mk_sg_state false u2 SV_send (l - 1) cl g) else None
  end.

Definition sg_client_move (s : sg_state) : option sg_state :=
  let 'mk_sg_state u1 u2 sv l cl g := s in
  match cl with
  | CL_notify => Some (mk_sg_state true u2 sv l CL_wait g)
  | CL_wait => if u2 then Some (mk_sg_state u1 false sv l CL_notify (S g)) else None
  end.

Inductive sg_step : sg_state -> sg_state -> Prop :=
  | Sg_server s s' : sg_server_move s = Some s' -> sg_step s s'
  | Sg_client s s' : sg_client_move s = Some s' -> sg_step s s'.

Definition sg_init (count : nat) : sg_state := mk_sg_state false false SV_first count CL_notify 0.

(** One signal at a time, and the messages add up. *)
Definition sg_inv (count : nat) (s : sg_state) : Prop :=
  let 'mk_sg_state u1 u2 sv l cl g := s in
  match sv with
  | SV_first => u2 = false /\ l = count /\ g = 0%nat /\ u1 = match cl with CL_notify => false | CL_wait => true end
  | SV_send => u1 = false /\ u2 = false /\ cl = CL_wait /\ (l + g = count)%nat
  | SV_wait =>
      (0 < l)%nat /\
      ((u1 = false /\ u2 = true /\ cl = CL_wait /\ (l + g = count)%nat) \/
       (u1 = false /\ u2 = false /\ cl = CL_notify /\ (l + g = S count)%nat) \/
       (u1 = true /\ u2 = false /\ cl = CL_wait /\ (l + g = S count)%nat))
  end.

Lemma sg_inv_server count s s' : sg_inv count s -> sg_server_move s = Some s' -> sg_inv count s'.
Proof.
  destruct s as [u1 u2 sv l cl g]. intros Hi Hm. destruct sv; cbn in Hi, Hm.
  - destruct u1; [|done]. injection Hm as <-. cbn. destruct cl; intuition (done || lia).
  - destruct l; [done|]. injection Hm as <-. cbn. intuition lia.
  - destruct u1; [|done]. injection Hm as <-. cbn. intuition (done || lia).
Qed.

Lemma sg_inv_client count s s' : sg_inv count s -> sg_client_move s = Some s' -> sg_inv count s'.
Proof.
  destruct s as [u1 u2 sv l cl g]. intros Hi Hm. destruct cl; cbn in Hm.
  - injection Hm as <-. destruct sv; cbn in *; intuition (done || lia).
  - destruct u2; [|done]. injection Hm as <-. destruct sv; cbn in *; intuition (done || lia).
Qed.

Lemma sg_inv_reachable count s : rtc sg_step (sg_init count) s -> sg_inv count s.
Proof.
  intros Hr. eapply inv_rtc; [|idtac|exact Hr]; [|by split_and!].
  intros a b Ha Hs. destruct Hs; [by eapply sg_inv_server|by eapply sg_inv_client].
Qed.

Lemma sg_got_count count s : sg_inv count s -> (sg_got s <= count)%nat.
Proof. destruct s as [u1 u2 [] l cl g]; cbn; intuition lia. Qed.

(** ** The links *)

(** The choices for a call are the other process's moves. *)
Variant sg_goes := Other_goes.
Definition sg_turn (server : bool) : Type := turn sg_goes.

Definition sg_move (server : bool) : sg_state -> option sg_state := if server then sg_server_move else sg_client_move.

Definition sg_answer (server : bool) (t : sg_turn server) (c : syscall) (s : sg_state) : reply sg_state :=
  if server then
    match sg_server s, c with
    | (SV_first | SV_wait), Sigwait mask => if bool_decide (mask = [SIGUSR1]) then by_move (sg_server_move s) (val 0) else Strange
    | SV_send, Timespec_get => by_clock t (fun _ => Some s)
    | SV_send, Kill pid signal =>
        if (pid =? 0) && (signal =? SIGUSR2) && (0 <? sg_left s)%nat then by_move (sg_server_move s) (val 0) else Strange
    | _, _ => Strange
    end
  else
    match sg_client s, c with
    | CL_notify, Kill pid signal => if (pid =? 0) && (signal =? SIGUSR1) then by_move (sg_client_move s) (val 0) else Strange
    | CL_wait, Sigwait mask => if bool_decide (mask = [SIGUSR2]) then by_move (sg_client_move s) (val 0) else Strange
    | _, _ => Strange
    end.

Lemma sg_move_step server s s' : sg_move server s = Some s' -> sg_step s s'.
Proof. destruct server; cbn; by constructor. Qed.

Lemma sg_answer_moves server t c s r s' : sg_answer server t c s = Answer r s' -> s' = s \/ sg_move server s = Some s'.
Proof.
  unfold sg_answer. intros H. destruct server.
  - destruct (sg_server s), c; try done; repeat case_match; try done;
      try (apply by_clock_inv in H as [? H]; injection H as <-; by left); apply by_move_inv in H; by right.
  - destruct (sg_client s), c; try done; case_match; try done; apply by_move_inv in H; by right.
Qed.

Lemma sg_answer_steps server t c s r s' : sg_answer server t c s = Answer r s' -> rtc sg_step s s'.
Proof. intros [-> | H]%sg_answer_moves; [apply rtc_refl|]. by eapply rtc_once, sg_move_step. Qed.

#[export] Instance sg_link server : Link sg_state (sg_turn server) := {
  link_step := sg_step;
  link_others t s := moves_along (fun _ => sg_move (negb server)) (tn_others t) s;
  link_answer := sg_answer server;
  link_others_steps t s := moves_along_rtc _ sg_step _ s (fun _ => sg_move_step (negb server));
  link_answer_steps := sg_answer_steps server;
  link_errno _ _ := True;
  link_others_errno _ _ _ H := H;
  link_answer_errno _ _ _ _ _ _ H _ := H;
}.

(** ** The client *)
Section client.
Context (count : nat).

Definition sg_client_at (pc : sg_client_pc) (got : nat) (s : sg_state) : Prop :=
  sg_inv count s /\ sg_client s = pc /\ sg_got s = got.

Lemma sg_server_move_keeps s s' : sg_server_move s = Some s' -> sg_client s' = sg_client s /\ sg_got s' = sg_got s.
Proof. destruct s as [u1 u2 sv l cl g]. destruct sv; cbn; intros H; repeat case_match; by simplify_eq. Qed.

Lemma sg_client_stable pc got : stable (T:=sg_turn false) (sg_client_at pc got).
Proof.
  intros t s H. cbn. apply moves_along_inv; [|done]. intros c s1 s2 (H1 & H2 & H3) Hm. cbn in Hm.
  destruct (sg_server_move_keeps _ _ Hm) as [E1 E2]. split; [by eapply sg_inv_server|]. by rewrite E1, E2.
Qed.

(** A call of the client is its next move. *)
Lemma sg_client_calls pc got c pc' got' D R :
  (forall t s, sg_client s = pc -> sg_answer false t c s = by_move (sg_client_move s) (val 0)) ->
  (forall s s', sg_client s = pc -> sg_client_move s = Some s' -> sg_client s' = pc' /\ sg_got s' = (sg_got s + got')%nat) ->
  triple (T:=sg_turn false) (sg_client_at pc got) (sys_ c) (fun _ => sg_client_at pc' (got + got')) D R.
Proof.
  intros Ha Hm. apply triple_ignoring, (triple_move _ _ (val 0) sg_client_move); [apply sg_client_stable| |].
  - intros t s (_ & Hpc & _). by apply Ha.
  - intros s s' (Hi & Hpc & Hg) E. destruct (Hm s s' Hpc E) as [H1 H2].
    split; [by eapply sg_inv_client|]. split; [done|lia].
Qed.

Lemma sg_client_notifies got D R :
  triple (T:=sg_turn false) (sg_client_at CL_notify got) notify_server (fun _ => sg_client_at CL_wait got) D R.
Proof.
  pose proof (sg_client_calls CL_notify got (Kill 0 SIGUSR1) CL_wait 0 D R) as H. rewrite Nat.add_0_r in H. apply H.
  - intros t s Hpc. unfold sg_answer. by rewrite Hpc.
  - intros [u1 u2 sv l cl g] s' Hpc. cbn in Hpc. subst. cbn. intros [= <-]. cbn. split; [done|lia].
Qed.

Lemma sg_client_waits sa got D R :
  sa_mask sa = [SIGUSR2] ->
  triple (T:=sg_turn false) (sg_client_at CL_wait got) (wait_for_signal sa) (fun _ => sg_client_at CL_notify (S got)) D R.
Proof.
  intros Hsa. replace (S got) with (got + 1)%nat by lia. apply sg_client_calls.
  - intros t s Hpc. unfold sg_answer. by rewrite Hpc, Hsa, bool_decide_eq_true_2.
  - intros [u1 u2 sv l cl g] s' Hpc. cbn in Hpc. subst. cbn. destruct u2; [|done]. intros [= <-]. cbn. split; [done|lia].
Qed.

Lemma halts_sg_client_loop fuel {T} `{!Link sg_state T} sa : forall args,
  halts (signal_client_loop (W:=world sg_state T) fuel sa args).
Proof.
  induction fuel; intros args; cbn [signal_client_loop]; unfold wait_for_signal, notify_server; halting.
Qed.
#[local] Hint Resolve halts_sg_client_loop : halts.

(** The size counts the signals, and there are no more than messages. *)
Lemma sg_client_loops fuel sa size n D : sa_mask sa = [SIGUSR2] ->
  0 < n -> size <= INT32_MAX -> INT32_MIN <= size - Z.of_nat count ->
  forall got,
  triple (T:=sg_turn false) (sg_client_at CL_wait got)
    (signal_client_loop fuel sa (mk_Arguments (size - Z.of_nat got) n)) (fun _ _ => False)
    D (fun s => sg_inv count s /\ sg_client s = CL_wait).
Proof.
  intros Hsa Hn Hmax Hmin. induction fuel as [|fuel IH]; intros got; cbn [signal_client_loop].
  { apply triple_running. intros s (Hi & Hpc & _). by split. }
  cbn [arg_count arg_size]. rewrite Z.gtb_ltb, (proj2 (Z.ltb_lt 0 n)) by done.
  eapply triple_bind; [unfold notify_server; halting|by apply sg_client_waits|intros u].
  apply (triple_known (S got <= count)%nat); [intros s (Hi & _ & <-); by eapply sg_got_count|intros Hg].
  eapply triple_bind; [halting|apply sg_client_notifies|intros u'].
  apply (triple_bind_defined _ _ (size - Z.of_nat (S got)));
    [rewrite i32_checked_small by lia; f_equal; lia|apply IH].
Qed.

Lemma sg_client_communicates fuel sa args D : sa_mask sa = [SIGUSR2] ->
  0 < arg_count args -> arg_size args <= INT32_MAX -> INT32_MIN <= arg_size args - Z.of_nat count ->
  triple (T:=sg_turn false) (sg_client_at CL_notify 0) (signal_client_communicate fuel sa args) (fun _ _ => False)
    D (fun s => sg_inv count s /\ sg_client s = CL_wait).
Proof.
  intros Hsa Hn Hmax Hmin. unfold signal_client_communicate.
  eapply triple_bind; [halting|apply sg_client_notifies|intros u].
  pose proof (sg_client_loops fuel sa (arg_size args) (arg_count args) D Hsa Hn Hmax Hmin 0) as H.
  rewrite Z.sub_0_r in H. destruct args. exact H.
Qed.

End client.

(** ** The server *)

(** [communicate] of [signal/server.c] up to [evaluate]. *)
Definition signal_server_measures {W} `{!Kernel W} (sa : sigaction) (args : Arguments) (bench0 : Benchmarks)
    : M (process W) Benchmarks :=
  wait_for_signal sa;;
  bench ← setup_benchmarks_call bench0;
  signal_server_loop (Z.to_nat (arg_count args)) sa bench.

Lemma signal_server_communicate_split {W} `{!Kernel W} sa args bench0 (p : process W) :
  signal_server_communicate sa args bench0 p =
  (bench ← signal_server_measures sa args bench0; of_outcome (evaluate bench (mk_Arguments 1 (arg_count args)))) p.
Proof.
  unfold signal_server_communicate, signal_server_measures, mbind, M_bind.
  destruct (wait_for_signal sa p) as [[u| | |] p1]; try done.
  by destruct (setup_benchmarks_call bench0 p1) as [[b| | |] p2].
Qed.

Section server.
Context (count0 : nat).

Definition sg_server_at (pc : sg_server_pc) (left : nat) (s : sg_state) : Prop :=
  sg_inv count0 s /\ sg_server s = pc /\ sg_left s = left.

Lemma sg_client_move_keeps s s' : sg_client_move s = Some s' -> sg_server s' = sg_server s /\ sg_left s' = sg_left s.
Proof. destruct s as [u1 u2 sv l cl g]. destruct cl; cbn; intros H; repeat case_match; by simplify_eq. Qed.

Lemma sg_server_stable pc left : stable (T:=sg_turn true) (sg_server_at pc left).
Proof.
  intros t s H. cbn. apply moves_along_inv; [|done]. intros c s1 s2 (H1 & H2 & H3) Hm. cbn in Hm.
  destruct (sg_client_move_keeps _ _ Hm) as [E1 E2]. split; [by eapply sg_inv_client|]. by rewrite E1, E2.
Qed.

Lemma sg_server_calls pc left c pc' left' D R :
  (forall t s, sg_server s = pc -> sg_left s = left -> sg_answer true t c s = by_move (sg_server_move s) (val 0)) ->
  (forall s s', sg_server s = pc -> sg_left s = left -> sg_server_move s = Some s' ->
     sg_server s' = pc' /\ sg_left s' = left') ->
  triple (T:=sg_turn true) (sg_server_at pc left) (sys_ c) (fun _ => sg_server_at pc' left') D R.
Proof.
  intros Ha Hm. apply triple_ignoring, (triple_move _ _ (val 0) sg_server_move); [apply sg_server_stable| |].
  - intros t s (_ & Hpc & Hl). by apply Ha.
  - intros s s' (Hi & Hpc & Hl) E. split; [by eapply sg_inv_server|]. by eapply Hm.
Qed.

(** The wait before the loop and the one in it. *)
Lemma sg_server_waits sa pc left D R :
  sa_mask sa = [SIGUSR1] -> pc <> SV_send ->
  triple (T:=sg_turn true) (sg_server_at pc left) (wait_for_signal sa)
    (fun _ => sg_server_at SV_send (match pc with SV_wait => left - 1 | _ => left end)) D R.
Proof.
  intros Hsa Hpc. apply sg_server_calls.
  - intros t s H _. unfold sg_answer. rewrite H, Hsa, bool_decide_eq_true_2 by done. by destruct pc.
  - intros [u1 u2 sv l cl g] s' H Hl. cbn in H, Hl. subst. destruct pc; cbn; try done; destruct u1; try done; by intros [= <-].
Qed.

Lemma sg_server_notifies left D R :
  triple (T:=sg_turn true) (sg_server_at SV_send (S left)) notify_client (fun _ => sg_server_at SV_wait (S left)) D R.
Proof.
  apply sg_server_calls.
  - intros t s H Hl. unfold sg_answer. by rewrite H, Hl.
  - intros [u1 u2 sv l cl g] s' H Hl. cbn in H, Hl. subst. cbn. by intros [= <-].
Qed.

Lemma sg_server_clock left D R :
  triple (T:=sg_turn true) (sg_server_at SV_send left) read_now (fun _ => sg_server_at SV_send left) D R.
Proof.
  apply triple_read_now; [apply sg_server_stable|]. intros t s H. cbn [link_answer sg_link]. unfold sg_answer.
  rewrite (proj1 (proj2 H)). unfold by_clock. destruct (now _ _) as [v|] eqn:E; [|done]. cbn. by do 3 eexists.
Qed.

Lemma halts_sg_server_loop n {T} `{!Link sg_state T} sa : forall bench,
  halts (signal_server_loop (W:=world sg_state T) n sa bench).
Proof.
  induction n; intros bench; cbn [signal_server_loop];
    unfold start_single, notify_client, wait_for_signal, benchmark_call; halting.
Qed.
#[local] Hint Resolve halts_sg_server_loop : halts.

Lemma sg_server_loops sa n D R : sa_mask sa = [SIGUSR1] -> forall bench,
  0 <= count bench -> count bench + Z.of_nat n <= INT32_MAX ->
  triple (T:=sg_turn true) (sg_server_at SV_send n) (signal_server_loop n sa bench)
    (fun b s => count b = count bench + Z.of_nat n /\ sg_server_at SV_send 0 s) D R.
Proof.
  intros Hsa. induction n as [|n IH]; intros bench Hc Hle; cbn [signal_server_loop].
  { apply triple_ret. intros s H. split; [lia|done]. }
  eapply (triple_bind _ _ _ (fun b s => count b = count bench /\ sg_server_at SV_send (S n) s));
    [unfold notify_client, wait_for_signal, benchmark_call; halting| |intros b; apply triple_pure; intros Hb].
  { apply triple_start_single, sg_server_clock. }
  eapply triple_bind; [unfold wait_for_signal, benchmark_call; halting|apply sg_server_notifies|intros u].
  eapply triple_bind; [unfold benchmark_call; halting|by apply sg_server_waits|intros u'].
  replace (S n - 1)%nat with n by lia.
  eapply (triple_bind _ _ _ (fun b' s => count b' = count bench + 1 /\ sg_server_at SV_send n s));
    [halting| |intros b'; apply triple_pure; intros Hb'].
  - rewrite <- Hb. apply triple_benchmark_count; [lia|apply sg_server_clock].
  - eapply triple_conseq; [apply IH; lia|done| |exact (fun _ H => H)|exact (fun _ H => H)].
    intros b'' s [H1 H2]. split; [lia|done].
Qed.

Lemma sg_server_measures sa args bench0 D R : sa_mask sa = [SIGUSR1] ->
  0 <= arg_count args <= INT32_MAX -> count0 = Z.to_nat (arg_count args) ->
  triple (T:=sg_turn true) (sg_server_at SV_first count0) (signal_server_measures sa args bench0)
    (fun b s => count b = arg_count args /\ sg_server_at SV_send 0 s) D R.
Proof.
  intros Hsa [H0 Hmax] Hn. unfold signal_server_measures. rewrite <- Hn.
  eapply triple_bind; [unfold setup_benchmarks_call; halting|by apply sg_server_waits|intros u].
  eapply (triple_bind _ _ _ (fun b s => count b = 0 /\ sg_server_at SV_send count0 s)); [halting| |intros b; apply triple_pure; intros Hb].
  - apply triple_setup_benchmarks, sg_server_clock.
  - eapply triple_conseq; [apply sg_server_loops; [done|lia..]|done| |exact (fun _ H => H)|exact (fun _ H => H)].
    intros b' s [H1 H2]. split; [lia|done].
Qed.

End server.

(** ** The two programs together *)
Lemma interactive_sg_client fuel sa args : interactive (fun W _ => signal_client_communicate (W:=W) fuel sa args).
Proof.
  assert (H : forall args, interactive (fun W _ => signal_client_loop (W:=W) fuel sa args)).
  { induction fuel; intros a; cbn [signal_client_loop]; unfold wait_for_signal, notify_server; interacting. }
  unfold signal_client_communicate, notify_server. interacting.
Qed.

Lemma interactive_sg_loop n sa : forall bench, interactive (fun W _ => signal_server_loop (W:=W) n sa bench).
Proof.
  induction n; intros bench; cbn [signal_server_loop];
    unfold start_single, notify_client, wait_for_signal, benchmark_call, read_now; interacting.
Qed.
#[local] Hint Resolve interactive_sg_loop : interactive.

Lemma interactive_sg_server sa args bench : interactive (fun W _ => signal_server_measures (W:=W) sa args bench).
Proof. unfold signal_server_measures, wait_for_signal, setup_benchmarks_call, read_now. interacting. Qed.

#[export] Instance sg_choices server : Choices sg_state (sg_turn server).
Proof.
  refine {| link_alone := turn_alone : sg_turn server -> sg_turn server; link_then := turn_then |}; try done.
  intros. cbn. apply moves_along_app.
Defined.

Lemma sg_calls_beside server (t : sg_turn (negb server)) c s r s' :
  sg_answer (negb server) t c s = Answer r s' -> exists cs, moves_along (fun _ : sg_goes => sg_move (negb server)) cs s = s'.
Proof.
  intros [-> | H]%sg_answer_moves; [by exists []|]. exists [Other_goes]. unfold moves_along. cbn. by rewrite H.
Qed.

#[export] Instance sg_client_beside : Beside sg_state (sg_turn false) (sg_turn true).
Proof.
  constructor. intros t c s r s' [cs H]%(sg_calls_beside false (turn_alone t) c s r s').
  by exists (mk_turn cs (0, 0) (val 0)).
Qed.

#[export] Instance sg_server_beside : Beside sg_state (sg_turn true) (sg_turn false).
Proof.
  constructor. intros t c s r s' [cs H]%(sg_calls_beside true (turn_alone t) c s r s').
  by exists (mk_turn cs (0, 0) (val 0)).
Qed.

(** An expected call is answered when the process can move, or reads the clock. *)
Definition sg_ready (server : bool) (s : sg_state) : Prop :=
  is_Some (sg_move server s) \/ (server = true /\ sg_server s = SV_send).

Lemma sg_answers server c s :
  (forall t : sg_turn server, sg_answer server (turn_alone t) c s <> Strange) -> sg_ready server s ->
  exists (t : sg_turn server) r s', sg_answer server (turn_alone t) c s = Answer r s'.
Proof.
  intros Hc Hr. set (t := mk_turn [] (0, 0) (val 0) : sg_turn server). specialize (Hc t). exists t.
  unfold sg_answer, by_clock, turn_alone in *. cbn [t tn_clock fst snd] in *. rewrite now_zero in *.
  destruct s as [u1 u2 sv l cl g], server; cbn [sg_server sg_client sg_left] in *.
  - destruct sv, c; try done; try (by do 2 eexists); case_match; try done.
    + destruct Hr as [[s' Hm]|[_ ?]]; [|done]. cbn in Hm |- *. destruct u1; [by do 2 eexists|done].
    + apply andb_true_iff in H as [_ H]. destruct l; [done|]. by do 2 eexists.
    + destruct Hr as [[s' Hm]|[_ ?]]; [|done]. cbn in Hm |- *. destruct u1; [by do 2 eexists|done].
  - destruct Hr as [[s' Hm]|[? _]]; [|done]. destruct cl, c; try done; case_match; try done; [by do 2 eexists|].
    cbn in Hm |- *. destruct u2; [by do 2 eexists|done].
Qed.

Lemma sg_someone_ready count s : sg_inv count s -> sg_ready false s \/ sg_ready true s.
Proof.
  destruct s as [u1 u2 sv l cl g]. unfold sg_ready. destruct sv; cbn; intros Hi.
  - destruct Hi as (_ & _ & _ & ->). destruct cl; [left|right]; left; by eexists.
  - right. by right.
  - destruct Hi as (_ & [(-> & -> & -> & _)|[(-> & -> & -> & _)|(-> & _)]]); [left|left|right]; left; by eexists.
Qed.

Section pair.
Context (fuel : nat) (sa_c sa_s : sigaction) (args : Arguments) (bench0 : Benchmarks).
Abbreviation n := (Z.to_nat (arg_count args)).

Definition sg_client_program W `{!Kernel W} : M (process W) () := signal_client_communicate fuel sa_c args.
Definition sg_server_program W `{!Kernel W} : M (process W) Benchmarks := signal_server_measures sa_s args bench0.

Definition sg_joint_step : relation (joint sg_state) :=
  joint_step (TA:=sg_turn false) (TB:=sg_turn true) (sg_client_program script) (sg_server_program script).
Definition sg_joint_init : joint sg_state := mk_joint (sg_init n) [] [].

Lemma sg_pair_sound j :
  sa_mask sa_c = [SIGUSR2] -> sa_mask sa_s = [SIGUSR1] ->
  0 < arg_count args <= INT32_MAX -> 0 <= arg_size args <= INT32_MAX -> rtc sg_joint_step sg_joint_init j ->
  rtc sg_step (sg_init n) (j_state j) /\
  abides (T:=sg_turn false) (sg_client_program script) (fun _ _ => False) (fun _ => False)
    (fun s => sg_inv n s /\ sg_client s = CL_wait) (j_first j) (j_state j) /\
  abides (T:=sg_turn true) (sg_server_program script) (fun b s => count b = arg_count args /\ sg_server_at n SV_send 0 s)
    (fun _ => False) (fun _ => False) (j_second j) (j_state j).
Proof.
  intros Hc Hs Hn Hsize Hr. split.
  - by apply (joint_steps (TA:=sg_turn false) (TB:=sg_turn true) sg_client_program sg_server_program) in Hr.
  - apply (joint_sound (TA:=sg_turn false) (TB:=sg_turn true) sg_client_program sg_server_program
      (interactive_sg_client fuel sa_c args) (interactive_sg_server sa_s args bench0)
      (sg_client_at n CL_notify 0) (sg_server_at n SV_first n)) with (s0 := sg_init n);
      try done; try (intros; apply stable_False).
    + apply sg_client_communicates; [done|lia|lia|]. unfold INT32_MIN, INT32_MAX in *. lia.
    + apply sg_server_measures; [done|lia|done].
    + intros t s [Hi Hpc]. destruct (sg_client_stable n CL_wait (sg_got s) t s) as (H1 & H2 & _); done.
    + intros b. apply stable_pure, sg_server_stable.
Qed.

End pair.

(** ** Properties *)

(** C12: the two programs of the signal benchmark together, from the end of their
    set-ups: the server finishes and leaves the client behind.  In whatever
    order they make their calls, no signal is merged with another and neither
    process dies or has undefined behaviour (the client's size, which it counts
    down, does not overflow); one of them can make its next call until the
    server has returned or the client's fuel is used up.  The server returns
    with [count] measurements when the client has waited for as many signals;
    the client never returns, and from then on it waits in [sigwait] for ever. *)
Theorem signal_together fuel sa_c sa_s args bench0 j :
  sa_mask sa_c = [SIGUSR2] -> sa_mask sa_s = [SIGUSR1] ->
  0 < arg_count args <= INT32_MAX -> 0 <= arg_size args <= INT32_MAX ->
  rtc (sg_joint_step fuel sa_c sa_s args bench0) (sg_joint_init args) j ->
  let client := sg_client_program fuel sa_c args script in
  let server := sg_server_program sa_s args bench0 script in
  rtc sg_step (sg_init (Z.to_nat (arg_count args))) (j_state j) /\
  (next_call client (j_first j) = None -> outcome_on client (j_first j) = Running) /\
  (next_call client (j_first j) <> None -> next_call server (j_second j) <> None ->
     exists j', sg_joint_step fuel sa_c sa_s args bench0 j j') /\
  (next_call server (j_second j) = None ->
     (exists bench, outcome_on server (j_second j) = Done bench /\ count bench = arg_count args) /\
     Z.of_nat (sg_got (j_state j)) = arg_count args /\
     (forall c, next_call client (j_first j) = Some c -> c = Sigwait [SIGUSR2]) /\
     (forall j', ~ sg_joint_step fuel sa_c sa_s args bench0 j j')).
Proof.
  intros Hc Hs Hn Hsize Hr client server.
  destruct (sg_pair_sound fuel sa_c sa_s args bench0 j Hc Hs Hn Hsize Hr) as (Hst & Ha & Hb).
  fold client in Ha. fold server in Hb. split; [done|]. split_and!.
  - intros E. unfold abides in Ha. rewrite E in Ha. by destruct (outcome_on client (j_first j)).
  - intros Ec Es. pose proof (sg_someone_ready _ _ (sg_inv_reachable _ _ Hst)) as Hready.
    assert (H : (exists j', sg_joint_step fuel sa_c sa_s args bench0 j j') \/
      next_call client (j_first j) = None \/ next_call server (j_second j) = None); [|by destruct H as [H|[H|H]]].
    eapply (joint_goes_on (TA:=sg_turn false) (TB:=sg_turn true)) with (can_a := sg_ready false) (can_b := sg_ready true);
      [apply sg_answers|apply sg_answers|exact Ha|exact Hb|exact Hready].
  - intros E. unfold abides in Ha, Hb. rewrite E in Hb.
    destruct (outcome_on server (j_second j)) as [b| | |] eqn:Eo; try done. destruct Hb as (Hb & Hi & Hpc & Hl).
    destruct j as [[u1 u2 sv l cl g] ra rb]. cbn [j_state j_first j_second sg_server sg_left sg_got] in *. subst sv l.
    destruct Hi as (-> & -> & -> & Hg). split; [by exists b|]. split; [lia|].
    assert (Hcall : forall c, next_call client ra = Some c -> c = Sigwait [SIGUSR2]).
    { intros c Ec. rewrite Ec in Ha. specialize (Ha (mk_turn [] (0, 0) (val 0))). cbn in Ha. destruct c; try done.
      by case_bool_decide; subst. }
    split; [done|]. intros j' Hstep. inversion Hstep as [t c r s s' ra' rb' Hnc Hans|t c r s s' ra' rb' Hnc Hans]; subst.
    + apply Hcall in Hnc as ->. done.
    + unfold server in E. by rewrite E in Hnc.
Qed.

(** ** Witness *)

(** One message.  The server has returned; the client waits for a second signal. *)
Definition sg_schedule : list (sg_turn false + sg_turn true) :=
  let c := inl (mk_turn [] (0, 0) (val 0)) in
  let s := inr (mk_turn [] (1700000000, 0) (val 0)) in
  [c; s; s; s; s; c; c; s; s].

Definition sg_pair_args : Arguments := mk_Arguments 4096 1.
Definition sg_pair_bench : Benchmarks := mk_Benchmarks 0 0 0 0 0 0 0.

Definition sg_pair_run : joint sg_state :=
  state_along (joint_move (TA:=sg_turn false) (TB:=sg_turn true)
    (sg_client_program 9 (mk_sigaction 0 [SIGUSR2] 0) sg_pair_args script)
    (sg_server_program (mk_sigaction 0 [SIGUSR1] 0) sg_pair_args sg_pair_bench script)) sg_schedule (sg_joint_init sg_pair_args).

Lemma signal_together_witness :
  next_call (sg_server_program (mk_sigaction 0 [SIGUSR1] 0) sg_pair_args sg_pair_bench script) (j_second sg_pair_run) = None /\
  next_call (sg_client_program 9 (mk_sigaction 0 [SIGUSR2] 0) sg_pair_args script) (j_first sg_pair_run) = Some (Sigwait [SIGUSR2]) /\
  rtc sg_step (sg_init 1) (j_state sg_pair_run).
Proof.
  split; [by vm_compute|]. split; [by vm_compute|].
  refine (proj1 (signal_together 9 (mk_sigaction 0 [SIGUSR2] 0) (mk_sigaction 0 [SIGUSR1] 0) sg_pair_args sg_pair_bench
    sg_pair_run eq_refl eq_refl _ _ _)); [by vm_compute|by vm_compute|].
  apply state_along_rtc; [intros t a b; apply joint_move_step|by vm_compute; eexists].
Defined.
