(* ===== verification/Mq.v ===== *)
(** * mq: the benchmark over a System V message queue

    [mq/mq-common.c], [mq/server.c] and [mq/client.c] call by call, with the
    heap object both sides use for their messages; then the two processes over
    one queue of typed messages. *)
From S2P Require Import Prelude Kernel Memory Benchmarks Signals.

Definition MAXIMUM_MESSAGE_SIZE : Z := 2048.
Definition CLIENT_MESSAGE : Z := 1.
Definition SERVER_MESSAGE : Z := 2.

(** [IPC_NOWAIT], and the permissions [0666] of the client's [msgget]. *)
Definition IPC_NOWAIT : Z := 2048.
Definition MODE_0666 : Z := 438.

(** [struct Message]: the address and the room [malloc] gave for [buffer], the
    type, and the bytes written to [buffer] so far, from its start. *)
Record Message := mk_Message {
  msg_addr : Z;
  msg_room : Z;
  msg_type : Z;
  msg_buffer : list Z;
}.

(** An access needs an object, and stays inside it. *)
Definition message_room (m : Message) (n : Z) : bool :=
  negb (msg_addr m =? 0) && (n <=? msg_room m).

(** Writing bytes to [message->buffer], and [message->type = t]. *)
Definition fill_message (m : Message) (bytes : list Z) : option Message :=
  if message_room m (Z.of_nat (length bytes))
  then Some (mk_Message (msg_addr m) (msg_room m) (msg_type m)
               (bytes ++ drop (length bytes) (msg_buffer m)))
  else None.

Definition type_message (m : Message) (t : Z) : option Message :=
  if message_room m 0 then Some (mk_Message (msg_addr m) (msg_room m) t (msg_buffer m)) else None.

(** [memset(message->buffer, c, n)]; [n] may be larger than any list. *)
Definition set_message (m : Message) (c n : Z) : option Message :=
  if message_room m n then fill_message m (replicate (Z.to_nat n) c) else None.

(** The first [n] bytes of [message->buffer], when they have been written. *)
Definition read_message (m : Message) (n : Z) : option (list Z) :=
  if message_room m n && (n <=? Z.of_nat (length (msg_buffer m)))
  then Some (take (Z.to_nat n) (msg_buffer m)) else None.

Section programs.
Context {W : Type} `{!Kernel W}.

(** [malloc] of the header and [args->size] bytes: the
    size is converted to [size_t]; [sizeof(struct Message)] is 8. *)
Definition create_message (args : Arguments) : M (process W) Message :=
  let bytes := u64 (8 + u64 (arg_size args)) in
  message ← sys_rv (Malloc bytes);
  mret (mk_Message message (bytes - 8) 0 []).

(** [msgrcv(mq, message, size, type, 0)]: a successful call stores the type and
    the bytes it received. *)
Definition msgrcv (mq : Z) (message : Message) (size type : Z) : M (process W) (Z * Message) :=
  r ← sys (Msgrcv mq (u64 size) type 0);
  if rv r <? 0 then mret (rv r, message)
  else message ← defined (type_message message type ≫= fun m => fill_message m (data r));
       mret (rv r, message).

Definition msgsnd (mq : Z) (message : Message) (size flags : Z) : M (process W) Z :=
  bytes ← defined (read_message message (u64 size));
  sys_rv (Msgsnd mq (msg_type message) bytes flags).

(** ** server.c *)

Definition mq_server_cleanup (mq : Z) (message : Message) : M (process W) () :=
  r ← sys_rv (Msgctl_rmid mq);
  throw_if (r =? -1) "Error removing message queue";;
  sys_ (Free (msg_addr message)).

(** One iteration of [communicate]. *)
Definition mq_server_round (mq : Z) (args : Arguments) (message : Message) : M (process W) Message :=
  '(received, message) ← msgrcv mq message (arg_size args) CLIENT_MESSAGE;
  throw_if (received <? arg_size args) "Error receiving on server-side";;
  timestamp ← read_now;
  message ← defined (type_message message SERVER_MESSAGE);
  message ← defined (fill_message message (le_bytes 8 timestamp));
  sent ← msgsnd mq message 8 IPC_NOWAIT;
  throw_if (sent =? -1) "Error sending on server-side";;
  mret message.

Fixpoint mq_server_loop (fuel : nat) (mq : Z) (args : Arguments) (message : Message) : M (process W) Message :=
  match fuel with
  | O => running
  | S fuel => message ← mq_server_round mq args message; mq_server_loop fuel mq args message
  end.

Definition mq_server_communicate (fuel : nat) (mq : Z) (args : Arguments) : M (process W) () :=
  message ← create_message args;
  message ← mq_server_loop fuel mq args message;
  mq_server_cleanup mq message.

Definition mq_server_create_mq (sa0 : sigaction) : M (process W) Z :=
  key ← generate_key "mq";
  mq ← sys_rv (Msgget key IPC_CREAT_0666);
  throw_if (mq =? -1) "Error creating message-queue on server-side";;
  server_once sa0 NOTIFY;;
  mret mq.

(** The message on stderr is not modelled. *)
Definition limit_message_size (args : Arguments) : Arguments :=
  if arg_size args >? MAXIMUM_MESSAGE_SIZE
  then mk_Arguments MAXIMUM_MESSAGE_SIZE (arg_count args) else args.

(** [main] after the command line; [sa0] is the local of [server_once]. *)
Definition mq_server_main (fuel : nat) (sa0 : sigaction) (args : Arguments) : M (process W) () :=
  let args := limit_message_size args in
  mq ← mq_server_create_mq sa0;
  mq_server_communicate fuel mq args.

(** ** client.c *)

Definition mq_client_msg_wait (mq : Z) (message : Message) (bench : Benchmarks)
    : M (process W) (Message * Benchmarks) :=
  '(received, message) ← msgrcv mq message 8 SERVER_MESSAGE;
  throw_if (received <? 8) "Error receiving on client-side";;
  bytes ← defined (read_message message 8);
  bench ← benchmark_call (set_single_start bench (le_value bytes));
  mret (message, bench).

Definition mq_client_create_mq (sa0 : sigaction) : M (process W) Z :=
  client_once sa0 WAIT;;
  key ← generate_key "mq";
  mq ← sys_rv (Msgget key MODE_0666);
  throw_if (mq =? -1) "Error retrieving message-queue on client-side";;
  mret mq.

(** One iteration of the loop in [main]. *)
Definition mq_client_round (mq : Z) (args : Arguments) (local : Message * Benchmarks)
    : M (process W) (Message * Benchmarks) :=
  let '(message, bench) := local in
  message ← defined (type_message message CLIENT_MESSAGE);
  message ← defined (set_message message 49 (u64 (arg_size args)));
  sent ← msgsnd mq message (arg_size args) 0;
  throw_if (sent =? -1) "Error sending on client-side";;
  mq_client_msg_wait mq message bench.

Definition mq_client_main (fuel : nat) (sa0 : sigaction) (args : Arguments) (bench0 : Benchmarks)
    : M (process W) (Z * report) :=
  let args := limit_message_size args in
  message ← create_message args;
  mq ← mq_client_create_mq sa0;
  bench ← setup_benchmarks_call bench0;
  start ← gettimeofday_usec;
  '(local, cnt) ← timed_loop fuel gettimeofday_usec start (mq_client_round mq args) (message, bench) 0;
  r ← of_outcome (evaluate local.2 args);
  sys_ (Free (msg_addr message));;
  mret (cnt, r).

End programs.

#[local] Arguments le_bytes : simpl never.

(** ** The two processes over the queue

    The queue keeps typed messages in order; [msgrcv] takes the first message
    of its type.  SIGUSR2 tells the client that the queue exists. *)
Fixpoint take_type (type : Z) (q : list (Z * list Z)) : option (list Z * list (Z * list Z)) :=
  match q with
  | [] => None
  | (t, bytes) :: q =>
      if t =? type then Some (bytes, q)
      else '(found, q) ← take_type type q; Some (found, (t, bytes) :: q)
  end.

(** The bytes in the queue, and the room the system gives one queue. *)
Definition queued (q : list (Z * list Z)) : nat := sum_list_with (fun m => length m.2) q.
Definition MSGMNB : Z := 16384.

Inductive mq_server_pc :=
  | MS_start                 (* create_mq: before kill(0, SIGUSR2) *)
  | MS_receive               (* msgrcv(CLIENT_MESSAGE) *)
  | MS_now
  | MS_send                  (* memcpy of the timestamp and msgsnd *)
  | MS_died.

Inductive mq_client_pc :=
  | MC_start                 (* before sigprocmask *)
  | MC_signal                (* client_once(WAIT): sigwait *)
  | MC_check                 (* the time test *)
  | MC_send                  (* msgsnd(CLIENT_MESSAGE) *)
  | MC_receive               (* msgrcv(SERVER_MESSAGE) *)
  | MC_benchmark
  | MC_done | MC_killed.

Record mq_state := mk_mq_state {
  mq_usr2 : bool;            (* SIGUSR2 pending for the client *)
  mq_queue : list (Z * list Z);
  mq_server : mq_server_pc;
  mq_timestamp : Z;
  mq_sent : list Z;          (* timestamps sent so far *)
  mq_client : mq_client_pc;
  mq_single_start : Z;
  mq_received : list Z;      (* values measured so far *)
}.

(** One move of the server; [size] is the message size, [t] the clock. *)
Definition mq_server_move (size : nat) (t : Z) (s : mq_state) : option mq_state :=
  let 'mk_mq_state u q sv ts sent cl ss rcv := s in
  match sv with
  | MS_start =>
      match cl with
      | MC_start => Some (mk_mq_state u q MS_receive ts sent MC_killed ss rcv)
      | _ => Some (mk_mq_state true q MS_receive ts sent cl ss rcv)
      end
  | MS_receive =>
      '(bytes, q) ← take_type CLIENT_MESSAGE q;
      Some (mk_mq_state u q (if decide (length bytes < size)%nat then MS_died else MS_now) ts sent cl ss rcv)
  | MS_now => if decide (0 <= t < 2 ^ 64) then Some (mk_mq_state u q MS_send t sent cl ss rcv) else None
  | MS_send =>
      if decide (Z.of_nat (queued q) + 8 <= MSGMNB)
      then Some (mk_mq_state u (q ++ [(SERVER_MESSAGE, le_bytes 8 ts)]) MS_receive ts (sent ++ [ts]) cl ss rcv)
      else Some (mk_mq_state u q MS_died ts sent cl ss rcv)
  | MS_died => None
  end.

(** One move of the client; its [msgsnd] waits for room. *)
Definition mq_client_move (size : nat) (stop : bool) (s : mq_state) : option mq_state :=
  let 'mk_mq_state u q sv ts sent cl ss rcv := s in
  match cl with
  | MC_start => Some (mk_mq_state u q sv ts sent MC_signal ss rcv)
  | MC_signal => if u then Some (mk_mq_state false q sv ts sent MC_check ss rcv) else None
  | MC_check => Some (mk_mq_state u q sv ts sent (if stop then MC_done else MC_send) ss rcv)
  | MC_send =>
      if decide (Z.of_nat (queued q + size) <= MSGMNB)
      then Some (mk_mq_state u (q ++ [(CLIENT_MESSAGE, replicate size 49)]) sv ts sent MC_receive ss rcv)
      else None
  | MC_receive =>
      '(bytes, q) ← take_type SERVER_MESSAGE q;
      if decide (8 <= length bytes)%nat
      then Some (mk_mq_state u q sv ts sent MC_benchmark (le_value (take 8 bytes)) rcv)
      else None
  | MC_benchmark => Some (mk_mq_state u q sv ts sent MC_check ss (rcv ++ [ss]))
  | MC_done | MC_killed => None
  end.

Inductive mq_step (size : nat) : mq_state -> mq_state -> Prop :=
  | Mq_server t s s' : mq_server_move size t s = Some s' -> mq_step size s s'
  | Mq_client stop s s' : mq_client_move size stop s = Some s' -> mq_step size s s'.

(** The start: a new queue; [cl] is how far the client's set-up is. *)
Definition mq_init (cl : mq_client_pc) : mq_state := mk_mq_state false [] MS_start 0 [] cl 0 [].

(** ** The invariant: one message in the queue, or one process at work *)
Definition mq_inv (size : nat) (s : mq_state) : Prop :=
  let 'mk_mq_state u q sv ts sent cl ss rcv := s in
  let idle := q = [] /\ sent = rcv in
  match cl with
  | MC_start => False
  | MC_signal => idle /\ (sv = MS_start /\ u = false \/ sv = MS_receive /\ u = true)
  | MC_check | MC_send | MC_done => idle /\ sv = MS_receive /\ u = false
  | MC_receive =>
      u = false /\
      match sv with
      | MS_receive =>
          q = [(CLIENT_MESSAGE, replicate size 49)] /\ sent = rcv \/
          q = [(SERVER_MESSAGE, le_bytes 8 ts)] /\ 0 <= ts < 2 ^ 64 /\ sent = rcv ++ [ts]
      | MS_now => idle
      | MS_send => idle /\ 0 <= ts < 2 ^ 64
      | _ => False
      end
  | MC_benchmark => u = false /\ sv = MS_receive /\ q = [] /\ sent = rcv ++ [ss]
  | MC_killed => False
  end.

(** Receiving the reply that carries [ts]. *)
Lemma mq_receive_reply size b u ts sv sent ss rcv :
  0 <= ts < 2 ^ 64 ->
  mq_client_move size b (mk_mq_state u [(SERVER_MESSAGE, le_bytes 8 ts)] sv ts sent MC_receive ss rcv)
    = Some (mk_mq_state u [] sv ts sent MC_benchmark ts rcv).
Proof.
  intros Ht. unfold mq_client_move. cbn [take_type]. change (SERVER_MESSAGE =? SERVER_MESSAGE) with true.
  cbn [mbind option_bind]. rewrite decide_True by (rewrite length_le_bytes; lia).
  rewrite take_ge by (rewrite length_le_bytes; lia). by rewrite le_value_bytes, Z.mod_small.
Qed.

Lemma mq_inv_server size t s s' :
  mq_inv size s -> mq_server_move size t s = Some s' -> mq_inv size s'.
Proof.
  destruct s as [u q sv ts sent cl ss rcv]. intros Hi Hm.
  destruct cl; simpl in Hi; try done; destruct Hi as [H1 H2].
  - destruct H1 as [-> ->], H2 as [[-> ->]|[-> ->]]; simpl in Hm; simplify_eq. simpl. auto.
  - destruct H1 as [-> ->], H2 as [-> ->]. by simpl in Hm.
  - destruct H1 as [-> ->], H2 as [-> ->]. by simpl in Hm.
  - destruct sv; try done; simpl in Hm.
    + destruct H2 as [[-> ->]|(-> & Ht & ->)]; simpl in Hm; [|done].
      rewrite length_replicate, decide_False in Hm by lia. simplify_eq. by simpl.
    + case_decide; simplify_eq. by simpl.
    + destruct H2 as [[-> ->] Ht]. rewrite decide_True in Hm by done. simplify_eq. simpl. auto.
  - destruct H2 as (-> & -> & ->). by simpl in Hm.
  - destruct H1 as [-> ->], H2 as [-> ->]. by simpl in Hm.
Qed.

Lemma mq_inv_client size b s s' :
  mq_inv size s -> mq_client_move size b s = Some s' -> mq_inv size s'.
Proof.
  destruct s as [u q sv ts sent cl ss rcv]. intros Hi Hm.
  destruct cl; simpl in Hi; try done.
  - destruct Hi as [Hid [[-> ->]|[-> ->]]]; simpl in Hm; simplify_eq. by simpl.
  - simpl in Hm. simplify_eq. by destruct b.
  - destruct Hi as ([-> ->] & -> & ->). simpl in Hm. case_decide; simplify_eq. simpl. auto.
  - destruct Hi as [-> Hi]. destruct sv; try done; try (destruct Hi as [-> _]; done);
      [|by destruct Hi as [[-> _] _]].
    destruct Hi as [[-> ->]|(-> & Ht & ->)]; [done|].
    rewrite mq_receive_reply in Hm by done. simplify_eq. by simpl.
  - simpl in Hm. simplify_eq. destruct Hi as (-> & -> & -> & ->). by simpl.
Qed.

Lemma mq_inv_reachable size s : rtc (mq_step size) (mq_init MC_signal) s -> mq_inv size s.
Proof.
  intros Hr. eapply inv_rtc; [|idtac|exact Hr]; [|simpl; auto].
  intros a b Ha Hs. destruct Hs; [by eapply mq_inv_server|by eapply mq_inv_client].
Qed.

(** The steps to the client's next time test. *)
Definition mq_rank (s : mq_state) : nat :=
  match mq_client s with
  | MC_start => 20
  | MC_signal => if mq_usr2 s then 1 else 2
  | MC_send => 7
  | MC_receive =>
      match mq_server s, mq_queue s with
      | MS_now, _ => 5 | MS_send, _ => 4
      | _, (t, _) :: _ => if t =? CLIENT_MESSAGE then 6 else 3
      | _, _ => 0
      end
  | MC_benchmark => 2
  | _ => 0
  end.

Lemma mq_rank_step size s s' :
  mq_inv size s -> mq_step size s s' -> (mq_rank s' < mq_rank s)%nat \/ mq_client s = MC_check.
Proof.
  intros Hi Hst. destruct Hst as [t s s' Hm|b s s' Hm]; destruct s as [u q sv ts sent cl ss rcv].
  - destruct cl; simpl in Hi; try done; auto; left; destruct Hi as [H1 H2].
    + destruct H1 as [-> ->], H2 as [[-> ->]|[-> ->]]; simpl in Hm; simplify_eq. unfold mq_rank. simpl. lia.
    + destruct H1 as [-> ->], H2 as [-> ->]. by simpl in Hm.
    + destruct sv; try done; simpl in Hm.
      * destruct H2 as [[-> ->]|(-> & Ht & ->)]; simpl in Hm; [|done].
        rewrite length_replicate, decide_False in Hm by lia. simplify_eq. unfold mq_rank. simpl. lia.
      * case_decide; simplify_eq. unfold mq_rank. simpl. lia.
      * destruct H2 as [[-> ->] Ht]. rewrite decide_True in Hm by done. simplify_eq. unfold mq_rank. simpl. lia.
    + destruct H2 as (-> & -> & ->). by simpl in Hm.
    + destruct H1 as [-> ->], H2 as [-> ->]. by simpl in Hm.
  - destruct cl; simpl in Hi; try done; auto; left.
    + destruct Hi as [Hid [[-> ->]|[-> ->]]]; simpl in Hm; simplify_eq. unfold mq_rank. simpl. lia.
    + destruct Hi as ([-> ->] & -> & ->). simpl in Hm. case_decide; simplify_eq. unfold mq_rank. simpl. lia.
    + destruct Hi as [-> Hi]. destruct sv; try done; try (destruct Hi as [-> _]; done);
        [|by destruct Hi as [[-> _] _]].
      destruct Hi as [[-> ->]|(-> & Ht & ->)]; [done|].
      rewrite mq_receive_reply in Hm by done. simplify_eq. unfold mq_rank. simpl. lia.
    + simpl in Hm. simplify_eq. destruct Hi as (-> & -> & -> & ->). unfold mq_rank. simpl. lia.
Qed.

Lemma mq_enabled size s :
  (Z.of_nat size <= MSGMNB) -> mq_inv size s -> mq_client s <> MC_done -> exists s', mq_step size s s'.
Proof.
  intros Hsz. destruct s as [u q sv ts sent cl ss rcv]. intros Hi Hd.
  assert (Hs : forall s', mq_server_move size 0 (mk_mq_state u q sv ts sent cl ss rcv) = Some s' ->
    exists s', mq_step size (mk_mq_state u q sv ts sent cl ss rcv) s')
    by (intros s' H; exists s'; by eapply Mq_server).
  assert (Hc : forall s', mq_client_move size true (mk_mq_state u q sv ts sent cl ss rcv) = Some s' ->
    exists s', mq_step size (mk_mq_state u q sv ts sent cl ss rcv) s')
    by (intros s' H; exists s'; by eapply Mq_client).
  destruct cl; simpl in Hi; try done; try (by eapply Hc).
  - destruct Hi as [_ [[-> ->]|[-> ->]]]; [by eapply Hs|by eapply Hc].
  - destruct Hi as ([-> _] & -> & ->). eapply Hc. simpl. by rewrite decide_True by done.
  - destruct Hi as [-> Hi]. destruct sv; try done; [|by eapply Hs|].
    2:{ destruct Hi as [[-> _] _]. by eapply Hs. }
    destruct Hi as [[-> _]|(-> & Ht & _)]; [by eapply Hs|]. eapply Hc. by apply mq_receive_reply.
Qed.

(** A run along a schedule. *)
Inductive mq_turn := MqServer (now : Z) | MqClient (stop : bool).

Definition mq_exec (size : nat) (c : mq_turn) (s : mq_state) : option mq_state :=
  match c with MqServer t => mq_server_move size t s | MqClient b => mq_client_move size b s end.

Lemma mq_exec_step size c s s' : mq_exec size c s = Some s' -> mq_step size s s'.
Proof. destruct c; [apply Mq_server|apply Mq_client]. Qed.

(** ** Lemmas on the message object *)

Lemma fill_message_fits m bytes :
  msg_addr m <> 0 -> Z.of_nat (length bytes) <= msg_room m ->
  fill_message m bytes = Some (mk_Message (msg_addr m) (msg_room m) (msg_type m)
    (bytes ++ drop (length bytes) (msg_buffer m))).
Proof.
  intros Ha Hr. unfold fill_message, message_room.
  by rewrite (proj2 (Z.eqb_neq _ _) Ha), (proj2 (Z.leb_le _ _) Hr).
Qed.

Lemma fill_message_overflow m bytes : msg_room m < Z.of_nat (length bytes) -> fill_message m bytes = None.
Proof.
  intros Hr. unfold fill_message, message_room. rewrite (proj2 (Z.leb_gt _ _) Hr).
  by rewrite andb_false_r.
Qed.

Lemma type_message_fits m t :
  msg_addr m <> 0 -> 0 <= msg_room m ->
  type_message m t = Some (mk_Message (msg_addr m) (msg_room m) t (msg_buffer m)).
Proof.
  intros Ha Hr. unfold type_message, message_room.
  by rewrite (proj2 (Z.eqb_neq _ _) Ha), (proj2 (Z.leb_le _ _) Hr).
Qed.

Lemma read_message_fits m bytes rest :
  msg_addr m <> 0 -> msg_buffer m = bytes ++ rest -> Z.of_nat (length bytes) <= msg_room m ->
  read_message m (Z.of_nat (length bytes)) = Some bytes.
Proof.
  intros Ha Hb Hr. unfold read_message, message_room.
  rewrite (proj2 (Z.eqb_neq _ _) Ha), (proj2 (Z.leb_le _ _) Hr), Hb.
  rewrite (proj2 (Z.leb_le _ _)) by (rewrite length_app; lia).
  cbn [negb andb]. by rewrite Nat2Z.id, take_app_length.
Qed.

Lemma set_message_fits m c n :
  msg_addr m <> 0 -> Z.of_nat n <= msg_room m ->
  set_message m c (Z.of_nat n) = Some (mk_Message (msg_addr m) (msg_room m) (msg_type m)
    (replicate n c ++ drop n (msg_buffer m))).
Proof.
  intros Ha Hr. unfold set_message, message_room.
  rewrite (proj2 (Z.eqb_neq _ _) Ha), (proj2 (Z.leb_le _ _) Hr). cbn [negb andb].
  rewrite Nat2Z.id, fill_message_fits by (rewrite ?length_replicate; done). by rewrite length_replicate.
Qed.

Lemma msgrcv_script mq a room ty buf size type bytes rs e tr :
  a <> 0 -> 0 <= size < 2 ^ 64 -> Z.of_nat (length bytes) <= room ->
  msgrcv mq (mk_Message a room ty buf) size type
      (mk_process e tr (mk_result (Z.of_nat (length bytes)) 0 bytes :: rs))
    = (Done (Z.of_nat (length bytes), mk_Message a room type (bytes ++ drop (length bytes) buf)),
       mk_process e (tr ++ [(Msgrcv mq size type 0, mk_result (Z.of_nat (length bytes)) 0 bytes)]) rs).
Proof.
  intros Ha Hs Hr. unfold msgrcv. rewrite u64_small by done. exec. cbn [rv data].
  rewrite (proj2 (Z.ltb_ge _ 0)) by lia. rewrite type_message_fits by (simpl; lia).
  cbn [mbind option_bind msg_addr msg_room msg_buffer]. rewrite fill_message_fits by (simpl; lia).
  cbn [msg_addr msg_room msg_type msg_buffer]. by rewrite (proj2 (Z.eqb_neq _ (-1))) by lia.
Qed.

(** ** Properties *)

(** One iteration of the server of mq.  A message of the expected size is
    received as a client message, the clock is read after it, and the reply is
    a server message of the eight bytes of the timestamp, whatever the buffer
    held; the server dies exactly when the queue rejects the reply, and keeps
    the same object otherwise. *)
Theorem mq_server_replies mq args a ty buf bytes sec nsec t rsend rest :
  a <> 0 -> 8 <= arg_size args <= MAXIMUM_MESSAGE_SIZE -> Z.of_nat (length bytes) = arg_size args ->
  now sec nsec = Some t ->
  let round := mq_server_round mq args (mk_Message a (arg_size args) ty buf) in
  let answers := mk_result (arg_size args) 0 bytes :: mk_result 0 0 [sec; nsec] :: rsend :: rest in
  calls_on round answers =
    [Msgrcv mq (arg_size args) CLIENT_MESSAGE 0; Timespec_get;
     Msgsnd mq SERVER_MESSAGE (le_bytes 8 t) IPC_NOWAIT] /\
  outcome_on round answers =
    (if rv rsend =? -1 then Died "Error sending on server-side"
     else Done (mk_Message a (arg_size args) SERVER_MESSAGE (le_bytes 8 t ++ drop 8 (bytes ++ drop (length bytes) buf)))).
Proof.
  intros Ha Hs Hl Hn round answers. unfold MAXIMUM_MESSAGE_SIZE in Hs.
  assert (H8 : length (le_bytes 8 t) = 8%nat) by apply length_le_bytes.
  pose proof (msgrcv_script mq a (arg_size args) ty buf (arg_size args) CLIENT_MESSAGE bytes
    (mk_result 0 0 [sec; nsec] :: rsend :: rest) 0 [] Ha ltac:(lia) ltac:(lia)) as Hrcv.
  rewrite Hl in Hrcv.
  assert (Hfill : fill_message (mk_Message a (arg_size args) SERVER_MESSAGE (bytes ++ drop (length bytes) buf))
      (le_bytes 8 t) = Some (mk_Message a (arg_size args) SERVER_MESSAGE
        (le_bytes 8 t ++ drop 8 (bytes ++ drop (length bytes) buf)))).
  { rewrite fill_message_fits by (rewrite ?H8; simpl; lia). by rewrite H8. }
  assert (Hread : read_message (mk_Message a (arg_size args) SERVER_MESSAGE
      (le_bytes 8 t ++ drop 8 (bytes ++ drop (length bytes) buf))) (u64 8) = Some (le_bytes 8 t)).
  { change (u64 8) with (Z.of_nat 8). rewrite <- H8 at 3.
    eapply read_message_fits; [done|done|rewrite H8; simpl; lia]. }
  unfold calls_on, outcome_on, start, round, answers, mq_server_round, msgsnd, read_now.
  rewrite !(bind_done _ _ _ _ _ Hrcv), Z.ltb_irrefl. exec. cbn [data]. rewrite Hn. exec.
  rewrite type_message_fits by (simpl; lia). cbn [msg_addr msg_room msg_buffer]. exec.
  rewrite Hfill. exec. rewrite Hread. exec. by destruct (rv rsend =? -1).
Qed.

(** C33: messages smaller than a timestamp overflow the object.  [create_message]
    allocates [size] bytes for the buffer; with a size from 0 to 7, accepted by
    the command line and by [limit_message_size], the server writes the
    timestamp beyond it before it replies to anything, and the client's
    receive of a reply of eight bytes stores beyond it. *)
Theorem mq_small_messages mq args a bytes reply bench sec nsec t rmsg rest :
  a <> 0 -> 0 <= arg_size args < 8 -> Z.of_nat (length bytes) = arg_size args -> length reply = 8%nat ->
  now sec nsec = Some t -> rv rmsg = 0 ->
  let message := mk_Message a (arg_size args) 0 [] in
  limit_message_size args = args /\
  outcome_on (create_message args) (val a :: rest) = Done message /\
  calls_on (create_message args) (val a :: rest) = [Malloc (8 + arg_size args)] /\
  (let answers := mk_result (arg_size args) 0 bytes :: mk_result 0 0 [sec; nsec] :: rest in
   outcome_on (mq_server_round mq args message) answers = Undefined /\
   calls_on (mq_server_round mq args message) answers =
     [Msgrcv mq (arg_size args) CLIENT_MESSAGE 0; Timespec_get]) /\
  (let answers := rmsg :: mk_result 8 0 reply :: rest in
   outcome_on (mq_client_round mq args (message, bench)) answers = Undefined /\
   calls_on (mq_client_round mq args (message, bench)) answers =
     [Msgsnd mq CLIENT_MESSAGE (replicate (Z.to_nat (arg_size args)) 49) 0; Msgrcv mq 8 SERVER_MESSAGE 0]).
Proof.
  intros Ha Hs Hl Hr Hn Hm message.
  assert (H8 : length (le_bytes 8 t) = 8%nat) by apply length_le_bytes.
  assert (Hu : u64 (arg_size args) = arg_size args) by (apply u64_small; lia).
  split; [unfold limit_message_size, MAXIMUM_MESSAGE_SIZE; rewrite Z.gtb_ltb; by rewrite (proj2 (Z.ltb_ge _ _)) by lia|].
  assert (Hc : outcome_on (create_message args) (val a :: rest) = Done message /\
      calls_on (create_message args) (val a :: rest) = [Malloc (8 + arg_size args)]).
  { unfold create_message. rewrite Hu, u64_small by lia. exec. cbn [rv val app fmap list_fmap fst].
    split; [|done]. unfold message. by replace (8 + arg_size args - 8) with (arg_size args) by lia. }
  destruct Hc as [Hc1 Hc2]. split; [exact Hc1|]. split; [exact Hc2|]. clear Hc1 Hc2. split.
  - pose proof (msgrcv_script mq a (arg_size args) 0 [] (arg_size args) CLIENT_MESSAGE bytes
      (mk_result 0 0 [sec; nsec] :: rest) 0 [] Ha ltac:(lia) ltac:(lia)) as Hrcv. rewrite Hl in Hrcv.
    unfold calls_on, outcome_on, start, mq_server_round, read_now.
    rewrite !(bind_done _ _ _ _ _ Hrcv), Z.ltb_irrefl. exec. cbn [data]. rewrite Hn. exec.
    rewrite type_message_fits by (simpl; lia). cbn [msg_addr msg_room msg_buffer]. exec.
    by rewrite fill_message_overflow by (rewrite H8; simpl; lia).
  - destruct args as [size count]. cbn [arg_size] in *.
    assert (exists n, size = Z.of_nat n) as [n ->] by (exists (Z.to_nat size); lia).
    unfold calls_on, outcome_on, start, mq_client_round, msgsnd, mq_client_msg_wait, msgrcv, message.
    cbn [arg_size]. rewrite Hu. exec. rewrite type_message_fits by (simpl; lia).
    cbn [msg_addr msg_room msg_buffer]. exec. rewrite set_message_fits by (simpl; lia).
    cbn [msg_addr msg_room msg_type msg_buffer]. exec.
    assert (Hread : read_message (mk_Message a (Z.of_nat n) CLIENT_MESSAGE (replicate n 49 ++ drop n []))
        (Z.of_nat n) = Some (replicate n 49)).
    { rewrite <- (length_replicate n 49) at 4. eapply read_message_fits; [done|done|]. rewrite length_replicate. simpl. lia. }
    rewrite Hread. exec. rewrite Hm. change (0 =? -1) with false. exec. cbn [rv data].
    change (8 <? 0) with false. exec. rewrite type_message_fits by (simpl; lia).
    cbn [option_bind msg_addr msg_room msg_buffer]. rewrite Nat2Z.id.
    by rewrite fill_message_overflow by (rewrite Hr; simpl; lia).
Qed.

(** The mq benchmark delivers.  Once the client has set up its signals
    (otherwise the server's signal can kill it), every reachable state has at
    most one message in the queue, nobody has died or been killed, and the
    client has measured exactly the timestamps sent, in order, with at most the
    last one on its way. *)
Theorem mq_delivery size s :
  rtc (mq_step size) (mq_init MC_signal) s ->
  (length (mq_queue s) <= 1)%nat /\ mq_server s <> MS_died /\ mq_client s <> MC_killed /\
  exists flying, mq_sent s = mq_received s ++ flying /\ (length flying <= 1)%nat.
Proof.
  intros Hr. pose proof (mq_inv_reachable size s Hr) as Hi.
  destruct s as [u q sv ts sent cl ss rcv]. simpl in *.
  assert (H0 : forall l : list Z, exists flying, l = l ++ flying /\ (length flying <= 1)%nat)
    by (intros l; exists []; rewrite app_nil_r; split; [done|simpl; lia]).
  assert (H1 : forall (l : list Z) x, exists flying, l ++ [x] = l ++ flying /\ (length flying <= 1)%nat)
    by (intros l x; by exists [x]).
  destruct cl, sv; try done; repeat match goal with H : _ /\ _ |- _ => destruct H | H : _ \/ _ |- _ => destruct H end;
    subst; try done; (split; [simpl; lia|]); split_and!; auto.
Qed.

(** The mq benchmark makes progress.  Under the same condition, with
    messages that fit the queue, some process can move until the client stops,
    and every move other than the client's time test brings the next time test
    closer: an iteration is at most seven moves. *)
Theorem mq_progress size s :
  Z.of_nat size <= MSGMNB -> rtc (mq_step size) (mq_init MC_signal) s -> mq_client s <> MC_done ->
  (mq_rank s <= 7)%nat /\ (exists s', mq_step size s s') /\
  (forall s', mq_step size s s' -> (mq_rank s' < mq_rank s)%nat \/ mq_client s = MC_check).
Proof.
  intros Hs Hr Hd. pose proof (mq_inv_reachable size s Hr) as Hi. split_and!.
  - destruct s as [u q sv ts sent cl ss rcv]. unfold mq_rank. simpl in *.
    destruct cl; try done; try lia; repeat case_match; lia.
  - by apply mq_enabled.
  - intros s'. by apply mq_rank_step.
Qed.

(** A start in the other order: the signal finds the client before its set-up. *)
Lemma mq_start_race size :
  exists s, rtc (mq_step size) (mq_init MC_start) s /\ mq_client s = MC_killed /\ forall s', ~ mq_step size s s'.
Proof.
  exists (mk_mq_state false [] MS_receive 0 [] MC_killed 0 []). split; [|split; [done|]].
  - eapply rtc_l; [|apply rtc_refl]. by apply (Mq_server size 0).
  - intros s' H. inversion H; simplify_eq.
Qed.

(** ** Witnesses *)

Definition mq_iteration (t : Z) : list mq_turn :=
  [MqClient false; MqClient false; MqServer 0; MqServer t; MqServer 0; MqClient false; MqClient false].

Definition mq_schedule : list mq_turn :=
  [MqServer 0; MqClient false] ++ mq_iteration 77 ++ mq_iteration (2 ^ 50) ++ [MqClient false; MqClient false].

Definition mq_state_w : mq_state := state_along (mq_exec 16) mq_schedule (mq_init MC_signal).

Lemma mq_reachable_w : rtc (mq_step 16) (mq_init MC_signal) mq_state_w.
Proof. apply state_along_rtc; [apply mq_exec_step|]. vm_compute. by eexists. Qed.

Lemma mq_delivery_witness : mq_received mq_state_w = [77; 2 ^ 50] /\ (length (mq_queue mq_state_w) <= 1)%nat.
Proof. split; [by vm_compute|]. apply (mq_delivery 16 mq_state_w). exact mq_reachable_w. Defined.

Lemma mq_progress_witness : exists s', mq_step 16 mq_state_w s'.
Proof. apply (mq_progress 16 mq_state_w); [done|exact mq_reachable_w|by vm_compute]. Defined.

Lemma mq_server_replies_witness :
  outcome_on (mq_server_round 5 (mk_Arguments 8 1000) (mk_Message 4096 8 1 []))
    [mk_result 8 0 (replicate 8 49); mk_result 0 0 [1700000000; 0]; val (-1)]
  = Died "Error sending on server-side".
Proof.
  apply (mq_server_replies 5 (mk_Arguments 8 1000) 4096 1 [] (replicate 8 49) 1700000000 0
    1700000000000000000 (val (-1)) []); [done|by simpl|done|by vm_compute].
Defined.

Lemma mq_small_messages_witness :
  outcome_on (create_message (mk_Arguments 4 1000)) [val 4096] = Done (mk_Message 4096 4 0 []) /\
  limit_message_size (mk_Arguments 4 1000) = mk_Arguments 4 1000.
Proof.
  destruct (mq_small_messages 5 (mk_Arguments 4 1000) 4096 (replicate 4 49) (replicate 8 0)
    (mk_Benchmarks 0 0 0 0 0 0 0) 1700000000 0 1700000000000000000 (val 0) []) as (H1 & H2 & _);
    [done|by simpl|done|done|by vm_compute|done|by split].
Defined.
