(* ===== verification/MqLink.v ===== *)
(** * mq: the programs make the protocol's moves

    [mq_server_main] and the loop of [mq_client_main] run in the place of their
    processes in the protocol of [Mq]. *)
From S2P Require Import Prelude Kernel Memory Benchmarks Linking Signals Mq.

#[local] Arguments le_bytes : simpl never.

(** ** The server *)

(** The choices for a call of the server: the client's moves.  A [malloc] that
    fails, after which the code writes through a null pointer, is not among them. *)
Definition mq_server_turn (size : nat) : Type := turn bool.

Definition mq_server_answer (size : nat) (t : mq_server_turn size) (c : syscall) (s : mq_state) : reply mq_state :=
  match mq_server s, c with
  | MS_start, Kill pid signal =>
      if (pid =? 0) && (signal =? SIGUSR2) then by_move (mq_server_move size 0 s) (val 0) else Strange
  | MS_start, (Sigaction _ _ _ _ | Sigprocmask_block _ | Usleep _ | Ftok _ | Msgget _ _) => by_system t s
  | MS_receive, Malloc _ => if rv (tn_result t) =? 0 then Waits else by_system t s
  | MS_receive, Msgrcv _ n type flags =>
      if (n =? Z.of_nat size) && (type =? CLIENT_MESSAGE) && (flags =? 0) then
        match take_type CLIENT_MESSAGE (mq_queue s) with
        | Some (bytes, _) =>
            if decide (length bytes <= size)%nat
            then by_move (mq_server_move size 0 s) (mk_result (Z.of_nat (length bytes)) 0 bytes)
            else Strange
        | None => Waits
        end
      else Strange
  | MS_now, Timespec_get => by_clock t (fun v => mq_server_move size v s)
  | MS_send, Msgsnd _ type bytes flags =>
      if (type =? SERVER_MESSAGE) && bool_decide (bytes = le_bytes 8 (mq_timestamp s)) && (flags =? IPC_NOWAIT) then
        by_move (mq_server_move size 0 s)
          (if decide (Z.of_nat (queued (mq_queue s)) + 8 <= MSGMNB) then val 0 else fails EAGAIN)
      else Strange
  | _, _ => Strange
  end.

Lemma mq_server_answer_steps size t c s r s' :
  mq_server_answer size t c s = Answer r s' -> rtc (mq_step size) s s'.
Proof.
  assert (Hm : forall v s1, mq_server_move size v s = Some s1 -> rtc (mq_step size) s s1)
    by (intros v s1 H; eapply rtc_once, Mq_server, H).
  unfold mq_server_answer. intros H. destruct (mq_server s), c; try done;
    repeat case_match; simplify_eq; try (apply by_move_inv in H; by eapply Hm).
  all: try (injection H as _ <-; apply rtc_refl).
  apply by_clock_inv in H as [v H]. by eapply Hm.
Qed.

#[export] Instance mq_server_link size : Link mq_state (mq_server_turn size) := {
  link_step := mq_step size;
  link_others t s := moves_along (mq_client_move size) (tn_others t) s;
  link_answer := mq_server_answer size;
  link_others_steps t s := moves_along_rtc _ (mq_step size) _ s (fun b s1 s2 => Mq_client size b s1 s2);
  link_answer_steps := mq_server_answer_steps size;
  link_errno _ _ := True;
  link_others_errno _ _ _ H := H;
  link_answer_errno _ _ _ _ _ _ H _ := H;
}.

(** The server at a place of its protocol. *)
Definition server_at (size : nat) (pc : mq_server_pc) (s : mq_state) : Prop :=
  mq_inv size s /\ mq_server s = pc.

(** The client's moves leave the server's own variables alone. *)
Lemma mq_client_move_keeps size b s s' :
  mq_client_move size b s = Some s' -> mq_server s' = mq_server s /\ mq_timestamp s' = mq_timestamp s.
Proof.
  destruct s as [u q sv ts sent cl ss rcv]. destruct cl; cbn [mq_client_move]; intros H;
    try (by simplify_eq); try (destruct u; by simplify_eq); try (case_decide; by simplify_eq).
  destruct (take_type _ _) as [[bytes q']|]; [|done]. cbn in H. case_decide; by simplify_eq.
Qed.

Lemma server_at_stable size pc v :
  stable (T:=mq_server_turn size) (fun s => server_at size pc s /\ (pc = MS_send -> mq_timestamp s = v)).
Proof.
  intros t s [[Hi Hs] Hv]. cbn. apply moves_along_inv; [|by split].
  intros b s1 s2 [[H1 H2] H3] Hm. destruct (mq_client_move_keeps _ _ _ _ Hm) as [E1 E2].
  split; [split; [by eapply mq_inv_client|by rewrite E1]|by rewrite E2].
Qed.

Lemma server_at_stable' size pc : stable (T:=mq_server_turn size) (server_at size pc).
Proof.
  intros t s [Hi Hs]. cbn. apply moves_along_inv; [|done].
  intros b s1 s2 [H1 H2] Hm. destruct (mq_client_move_keeps _ _ _ _ Hm) as [E1 _].
  split; [by eapply mq_inv_client|by rewrite E1].
Qed.

(** In the reachable states a message to the server is a whole one. *)
Lemma client_message_length size s bytes q' :
  mq_inv size s -> mq_server s = MS_receive -> take_type CLIENT_MESSAGE (mq_queue s) = Some (bytes, q') ->
  length bytes = size.
Proof.
  destruct s as [u q sv ts sent cl ss rcv]. intros Hi Hpc Ht. simpl in Hpc, Ht. subst sv.
  destruct cl; simpl in Hi; try done;
    try (destruct Hi as [[-> _] _] || destruct Hi as (_ & _ & -> & _); done).
  destruct Hi as (_ & [[-> _]|(-> & _)]); [|done].
  cbn in Ht. injection Ht as <- _. apply length_replicate.
Qed.

Section server.
Context (size : nat).
Abbreviation W := (world mq_state (mq_server_turn size)).

(** The object both sides use. *)
Definition message_fits (args : Arguments) (m : Message) : Prop :=
  msg_addr m <> 0 /\ msg_room m = Z.of_nat size /\ arg_size args = Z.of_nat size /\ (8 <= size <= 2048)%nat.

Lemma server_receives mq args message D R :
  message_fits args message ->
  triple (server_at size MS_receive) (msgrcv (W:=W) mq message (arg_size args) CLIENT_MESSAGE)
    (fun r s => (r.1 = Z.of_nat size /\ message_fits args r.2) /\ server_at size MS_now s) D R.
Proof.
  intros (Ha & Hr & Hs & Hb). unfold msgrcv.
  eapply (triple_bind _ _ _ (fun r s => (rv r = Z.of_nat size /\ length (data r) = size) /\ server_at size MS_now s));
    [halting| |].
  - apply triple_sys; [apply server_at_stable'|]. intros t s [Hi Hpc].
    cbn [link_answer mq_server_link]. unfold mq_server_answer. rewrite Hpc, Hs, u64_small, !Z.eqb_refl by lia.
    cbn [andb]. destruct (take_type _ _) as [[bytes q']|] eqn:Ht; [|done].
    pose proof (client_message_length size s bytes q' Hi Hpc Ht) as Hl. rewrite decide_True by lia.
    destruct (mq_server_move size 0 s) as [s'|] eqn:Hm; [|done]. cbn. split_and!; [by rewrite Hl|done|].
    split; [by eapply mq_inv_server|].
    destruct s as [u q sv ts sent cl ss rcv]. simpl in Hpc, Ht. subst sv. cbn [mq_server_move] in Hm.
    rewrite Ht in Hm. cbn in Hm. rewrite decide_False in Hm by lia. by injection Hm as <-.
  - intros r. apply triple_pure. intros [Hv Hl]. rewrite (proj2 (Z.ltb_ge _ _)) by lia.
    eapply triple_bind_defined.
    + rewrite type_message_fits by lia. cbn. apply fill_message_fits; simpl; lia.
    + apply triple_ret. intros s H. cbn. split; [|done]. done.
Qed.

(** Between reading the clock and sending, the message holds the timestamp. *)
Definition server_sends (t : Z) (s : mq_state) : Prop :=
  server_at size MS_send s /\ (MS_send = MS_send -> mq_timestamp s = t).

Lemma server_reads_clock D R : triple (server_at size MS_now) (read_now (W:=W)) server_sends D R.
Proof.
  apply triple_read_now; [apply server_at_stable'|]. intros t s [Hi Hpc].
  cbn [link_answer mq_server_link]. unfold mq_server_answer, by_clock. rewrite Hpc.
  destruct (now _ _) as [v|] eqn:Hn; [|done]. destruct (mq_server_move size v s) as [s'|] eqn:Hm; [|done].
  cbn. do 3 eexists. split_and!; [done|exact Hn|]. split; [split; [by eapply mq_inv_server|]|];
    destruct s as [u q sv ts sent cl ss rcv]; simpl in Hpc; subst sv; cbn [mq_server_move] in Hm;
    case_decide; by simplify_eq.
Qed.

Lemma server_replies mq args message t D R :
  message_fits args message -> msg_type message = SERVER_MESSAGE ->
  (exists rest, msg_buffer message = le_bytes 8 t ++ rest) ->
  triple (server_sends t) (msgsnd (W:=W) mq message 8 IPC_NOWAIT)
    (fun v s => v = 0 /\ server_at size MS_receive s) D R.
Proof.
  intros (Ha & Hr & _ & Hb) Hty [rest Hbuf]. unfold msgsnd.
  eapply triple_bind_defined.
  { change (u64 8) with (Z.of_nat 8). rewrite <- (length_le_bytes 8 t).
    eapply read_message_fits; [done|exact Hbuf|rewrite length_le_bytes; lia]. }
  apply triple_sys_rv; [apply server_at_stable|]. intros c s [[Hi Hpc] Ht].
  specialize (Ht eq_refl). cbn [link_answer mq_server_link]. unfold mq_server_answer.
  rewrite Hpc, Hty, Ht, bool_decide_eq_true_2, !Z.eqb_refl by done. cbn [andb].
  destruct (mq_server_move size 0 s) as [s'|] eqn:Hm; [|done]. cbn [by_move].
  assert (Hq : mq_queue s = []).
  { destruct s as [u q sv ts sent cl ss rcv]. simpl in Hpc. subst sv. simpl in Hi.
    destruct cl; intuition congruence. }
  rewrite Hq, decide_True by done. split; [done|]. split; [by eapply mq_inv_server|].
  destruct s as [u q sv ts sent cl ss rcv]. simpl in Hpc, Hq. subst sv q. cbn [mq_server_move] in Hm.
  rewrite decide_True in Hm by done. by injection Hm as <-.
Qed.

Lemma server_rounds mq args message D R :
  message_fits args message ->
  triple (server_at size MS_receive) (mq_server_round (W:=W) mq args message)
    (fun m s => message_fits args m /\ server_at size MS_receive s) D R.
Proof.
  intros Hf. unfold mq_server_round.
  eapply triple_bind; [intros [v m]; unfold msgsnd; halting|by apply server_receives|].
  intros [v m]. apply triple_pure. cbn [fst snd]. intros [-> (Ha & Hr & Hs & Hb)].
  apply triple_bind_passes; [apply Z.ltb_ge; lia|].
  eapply triple_bind; [intros; unfold msgsnd; halting|apply server_reads_clock|]. intros t.
  eapply triple_bind_defined; [apply type_message_fits; [done|lia]|].
  eapply triple_bind_defined; [apply fill_message_fits; [done|cbn [msg_room]; rewrite length_le_bytes; lia]|].
  eapply triple_bind; [intros; halting| |].
  - eapply (server_replies _ args); [unfold message_fits; cbn; auto|done|by eexists].
  - intros v. apply triple_pure. intros ->. apply triple_bind_passes; [done|]. apply triple_ret.
    intros s H. split; [unfold message_fits; cbn; auto|done].
Qed.

Lemma halts_server_round mq args message : halts (mq_server_round (W:=W) mq args message).
Proof. unfold mq_server_round, msgrcv, msgsnd. halting. Qed.

Lemma halts_server_loop fuel mq args : forall message, halts (mq_server_loop (W:=W) fuel mq args message).
Proof.
  induction fuel as [|fuel IH]; intros message; cbn [mq_server_loop]; [apply halts_running|].
  apply halts_bind; [apply halts_server_round|done].
Qed.

Lemma server_loops fuel mq args message D :
  message_fits args message ->
  triple (server_at size MS_receive) (mq_server_loop (W:=W) fuel mq args message) (fun _ _ => False) D
    (server_at size MS_receive).
Proof.
  revert message. induction fuel as [|fuel IH]; intros message Hf; cbn [mq_server_loop].
  { by apply triple_running. }
  eapply triple_bind; [intros; apply halts_server_loop|by apply server_rounds|].
  intros m. apply triple_pure. intros Hm. by apply IH.
Qed.

(** ** Setting up *)
Lemma server_sets_up c :
  match c with Sigaction _ _ _ _ | Sigprocmask_block _ | Usleep _ | Ftok _ | Msgget _ _ => True | _ => False end ->
  steady (server_at size MS_start) (sys (W:=W) c).
Proof.
  intros Hc. apply steady_sys; [apply server_at_stable'|]. intros t s [Hi Hpc].
  cbn [link_answer mq_server_link]. unfold mq_server_answer. rewrite Hpc. by destruct c.
Qed.

Lemma server_signals D R :
  triple (server_at size MS_start) (notify_client (W:=W)) (fun _ => server_at size MS_receive) D R.
Proof.
  unfold notify_client, sys_.
  eapply triple_bind; [intros; halting| |intros r; apply triple_ret; intros s H; exact H].
  apply triple_sys; [apply server_at_stable'|]. intros t s [Hi Hpc].
  cbn [link_answer mq_server_link]. unfold mq_server_answer. rewrite Hpc.
  change ((0 =? 0) && (SIGUSR2 =? SIGUSR2)) with true. cbn iota.
  destruct (mq_server_move size 0 s) as [s'|] eqn:Hm; [|done]. cbn. split; [by eapply mq_inv_server|].
  destruct s as [u q sv ts sent cl ss rcv]. simpl in Hpc. subst sv. cbn [mq_server_move] in Hm.
  by destruct cl; simplify_eq.
Qed.

Lemma server_creates sa0 R :
  triple (server_at size MS_start) (mq_server_create_mq (W:=W) sa0) (fun _ => server_at size MS_receive)
    (server_at size MS_start) R.
Proof.
  assert (Hset : steady (server_at size MS_start) (setup_server_signals (W:=W) sa0)).
  { unfold setup_server_signals, setup_signals, setup_ignored_signals, setup_blocked_signals.
    steadying; by apply server_sets_up. }
  assert (Hrest : forall mq : Z, halts (server_once (W:=W) sa0 NOTIFY;; mret mq))
    by (intros mq; unfold server_once, notify_client; halting; apply Hset).
  unfold mq_server_create_mq, generate_key.
  eapply triple_bind; [halting; apply Hrest| |intros key].
  { apply steady_triple, steady_sys_rv. by apply server_sets_up. }
  eapply triple_bind; [halting; apply Hrest| |intros mq].
  { apply steady_triple, steady_sys_rv. by apply server_sets_up. }
  apply triple_bind_check; [done|]. intros _.
  eapply triple_bind; [intros; halting| |intros u; apply triple_ret; intros s H; exact H].
  unfold server_once. eapply triple_bind; [unfold notify_client; halting|by apply steady_triple|].
  intros sa. apply server_signals.
Qed.

Lemma server_allocates args D R :
  arg_size args = Z.of_nat size -> (8 <= size <= 2048)%nat ->
  triple (server_at size MS_receive) (create_message (W:=W) args)
    (fun m s => message_fits args m /\ server_at size MS_receive s) D R.
Proof.
  intros Hs Hb. unfold create_message.
  eapply (triple_bind _ _ _ (fun a s => a <> 0 /\ server_at size MS_receive s)); [halting| |].
  - apply triple_sys_rv; [apply server_at_stable'|]. intros t s [Hi Hpc].
    cbn [link_answer mq_server_link]. unfold mq_server_answer. rewrite Hpc.
    destruct (Z.eqb_spec (rv (tn_result t)) 0); [done|]. by split.
  - intros a. apply triple_pure. intros Ha. apply triple_ret. intros s H. split; [|done].
    unfold message_fits. cbn. rewrite Hs, !u64_small by (rewrite ?u64_small; lia). split_and!; lia.
Qed.

(** The whole server: it dies only while it sets up. *)
Lemma server_refines fuel sa0 args :
  arg_size (limit_message_size args) = Z.of_nat size -> 8 <= arg_size args ->
  triple (server_at size MS_start) (mq_server_main (W:=W) fuel sa0 args) (fun _ _ => False)
    (server_at size MS_start) (server_at size MS_receive).
Proof.
  intros Hs Hmin. assert (Hb : (8 <= size <= 2048)%nat).
  { revert Hs. unfold limit_message_size, MAXIMUM_MESSAGE_SIZE. case_match; simpl; lia. }
  unfold mq_server_main, mq_server_communicate.
  eapply triple_bind; [|apply server_creates|intros mq].
  { intros mq. unfold create_message, mq_server_cleanup. halting. apply halts_server_loop. }
  eapply triple_bind; [|by apply server_allocates|intros m].
  { intros m. unfold mq_server_cleanup. halting. apply halts_server_loop. }
  apply triple_pure. intros Hm.
  eapply triple_bind; [unfold mq_server_cleanup; halting|by apply server_loops|].
  intros m' p Hp He [].
Qed.

End server.

(** ** The client *)

(** The choices for a call of the client: the server's moves.  [start] is the
    microseconds the time test compares with. *)
Definition mq_client_turn (size : nat) (start : Z) : Type := turn Z.

Definition mq_client_answer (size : nat) (start : Z) (t : mq_client_turn size start) (c : syscall) (s : mq_state)
    : reply mq_state :=
  match mq_client s, c with
  | MC_check, Gettimeofday =>
      by_move (mq_client_move size ((tn_clock t).2 - start >? 100000) s)
        (mk_result 0 0 [(tn_clock t).1; (tn_clock t).2])
  | MC_send, Msgsnd _ type bytes flags =>
      if (type =? CLIENT_MESSAGE) && bool_decide (bytes = replicate size 49) && (flags =? 0)
      then by_move (mq_client_move size false s) (val 0) else Strange
  | MC_receive, Msgrcv _ n type flags =>
      if (n =? 8) && (type =? SERVER_MESSAGE) && (flags =? 0) then
        match take_type SERVER_MESSAGE (mq_queue s) with
        | Some (bytes, _) =>
            if decide (length bytes <= 8)%nat
            then by_move (mq_client_move size false s) (mk_result (Z.of_nat (length bytes)) 0 bytes)
            else Strange
        | None => Waits
        end
      else Strange
  | MC_benchmark, Timespec_get => by_clock t (fun _ => mq_client_move size false s)
  | _, _ => Strange
  end.

Lemma mq_client_answer_steps size start t c s r s' :
  mq_client_answer size start t c s = Answer r s' -> rtc (mq_step size) s s'.
Proof.
  assert (Hm : forall b s1, mq_client_move size b s = Some s1 -> rtc (mq_step size) s s1)
    by (intros b s1 H; eapply rtc_once, Mq_client, H).
  unfold mq_client_answer. intros H. destruct (mq_client s), c; try done;
    repeat case_match; simplify_eq; try (apply by_move_inv in H; by eapply Hm).
  apply by_clock_inv in H as [v H]. by eapply Hm.
Qed.

#[export] Instance mq_client_link size start : Link mq_state (mq_client_turn size start) := {
  link_step := mq_step size;
  link_others t s := moves_along (mq_server_move size) (tn_others t) s;
  link_answer := mq_client_answer size start;
  link_others_steps t s := moves_along_rtc _ (mq_step size) _ s (fun b s1 s2 => Mq_server size b s1 s2);
  link_answer_steps := mq_client_answer_steps size start;
  link_errno _ _ := True;
  link_others_errno _ _ _ H := H;
  link_answer_errno _ _ _ _ _ _ H _ := H;
}.

Definition client_at (size : nat) (pc : mq_client_pc) (rcv : list Z) (ss : option Z) (s : mq_state) : Prop :=
  mq_inv size s /\ mq_client s = pc /\ mq_received s = rcv /\
  match ss with Some v => mq_single_start s = v | None => True end.

Lemma mq_server_move_keeps size t s s' :
  mq_inv size s -> mq_server_move size t s = Some s' ->
  mq_client s' = mq_client s /\ mq_received s' = mq_received s /\ mq_single_start s' = mq_single_start s.
Proof.
  destruct s as [u q sv ts sent cl ss rcv]. intros Hi. destruct sv; cbn [mq_server_move]; intros H;
    try (case_decide; by simplify_eq); try done.
  - by destruct cl; simplify_eq.
  - destruct (take_type _ _) as [[bytes q']|]; [|done]. cbn in H. by simplify_eq.
Qed.

Lemma client_at_stable size start pc rcv ss : stable (T:=mq_client_turn size start) (client_at size pc rcv ss).
Proof.
  intros t s (Hi & H). cbn. apply moves_along_inv; [|done].
  intros v s1 s2 (H1 & H2 & H3 & H4) Hm. destruct (mq_server_move_keeps _ _ _ _ H1 Hm) as (E1 & E2 & E3).
  split; [by eapply mq_inv_server|]. by rewrite E1, E2, E3.
Qed.

Section client.
Context (size : nat) (start : Z).
Abbreviation W := (world mq_state (mq_client_turn size start)).

Lemma client_tests_time rcv D R :
  triple (client_at size MC_check rcv None) (gettimeofday_usec (W:=W))
    (fun usec s => if usec - start >? 100000 then client_at size MC_done rcv None s
                   else client_at size MC_send rcv None s) D R.
Proof.
  apply triple_gettimeofday; [apply client_at_stable|]. intros t s (Hi & Hpc & Hr & _).
  cbn [link_answer mq_client_link]. unfold mq_client_answer. rewrite Hpc.
  destruct (mq_client_move _ _ s) as [s'|] eqn:Hm; [|done]. cbn. do 2 eexists. split; [done|].
  pose proof (mq_inv_client _ _ _ _ Hi Hm) as Hi'.
  destruct s as [u q sv ts sent cl ss rcv']. simpl in Hpc, Hr. subst. cbn [mq_client_move] in Hm.
  destruct (_ >? _); injection Hm as <-; by split_and!.
Qed.

Lemma client_sends mq args message rcv D R :
  message_fits size args message -> msg_type message = CLIENT_MESSAGE ->
  (exists rest, msg_buffer message = replicate size 49 ++ rest) ->
  triple (client_at size MC_send rcv None) (msgsnd (W:=W) mq message (arg_size args) 0)
    (fun v s => v = 0 /\ client_at size MC_receive rcv None s) D R.
Proof.
  intros (Ha & Hr & Hs & Hb) Hty [rest Hbuf]. unfold msgsnd.
  assert (Hread : read_message message (u64 (arg_size args)) = Some (replicate size 49)).
  { rewrite Hs, u64_small by lia. rewrite <- (length_replicate size 49) at 1.
    eapply read_message_fits; [done|exact Hbuf|rewrite length_replicate; lia]. }
  eapply triple_bind_defined; [exact Hread|].
  apply triple_sys_rv; [apply client_at_stable|]. intros c s (Hi & Hpc & Hrc & _).
  cbn [link_answer mq_client_link]. unfold mq_client_answer.
  rewrite Hpc, Hty, bool_decide_eq_true_2, !Z.eqb_refl by done. cbn [andb].
  destruct (mq_client_move size false s) as [s'|] eqn:Hm; [|done]. cbn. split; [done|].
  pose proof (mq_inv_client _ _ _ _ Hi Hm) as Hi'.
  destruct s as [u q sv ts sent cl ss rcv']. simpl in Hpc, Hrc. subst. cbn [mq_client_move] in Hm.
  case_decide; [|done]. injection Hm as <-. by split_and!.
Qed.

(** A reply in the queue is eight bytes, and the only one. *)
Lemma server_message_length s bytes q' :
  mq_inv size s -> mq_client s = MC_receive -> take_type SERVER_MESSAGE (mq_queue s) = Some (bytes, q') ->
  length bytes = 8%nat.
Proof.
  destruct s as [u q sv ts sent cl ss rcv]. intros Hi Hpc Ht. simpl in Hpc, Ht. subst cl.
  destruct Hi as [_ Hi]. destruct sv; try done; try (destruct Hi as [-> _]; done);
    [|by destruct Hi as [[-> _] _]].
  destruct Hi as [[-> _]|(-> & _)]; [done|]. cbn in Ht. injection Ht as <- _. apply length_le_bytes.
Qed.

Lemma client_receives mq args message rcv D R :
  message_fits size args message ->
  triple (client_at size MC_receive rcv None) (msgrcv (W:=W) mq message 8 SERVER_MESSAGE)
    (fun r s => exists bytes, (r.1 = 8 /\ message_fits size args r.2 /\ length bytes = 8%nat /\
        exists rest, msg_buffer r.2 = bytes ++ rest) /\
      client_at size MC_benchmark rcv (Some (le_value bytes)) s) D R.
Proof.
  intros (Ha & Hr & Hs & Hb). unfold msgrcv.
  eapply (triple_bind _ _ _ (fun r s => (rv r = 8 /\ length (data r) = 8%nat) /\
    client_at size MC_benchmark rcv (Some (le_value (data r))) s)); [halting| |].
  - apply triple_sys; [apply client_at_stable|]. intros t s (Hi & Hpc & Hrc & _).
    cbn [link_answer mq_client_link]. unfold mq_client_answer. rewrite Hpc.
    change ((u64 8 =? 8) && (SERVER_MESSAGE =? SERVER_MESSAGE) && (0 =? 0)) with true. cbn iota.
    destruct (take_type _ _) as [[bytes q']|] eqn:Ht; [|done].
    pose proof (server_message_length s bytes q' Hi Hpc Ht) as Hl. rewrite decide_True by lia.
    destruct (mq_client_move size false s) as [s'|] eqn:Hm; [|done]. cbn.
    pose proof (mq_inv_client _ _ _ _ Hi Hm) as Hi'. split; [by rewrite Hl|].
    destruct s as [u q sv ts sent cl ss rcv']. simpl in Hpc, Ht, Hrc. subst. cbn [mq_client_move] in Hm.
    rewrite Ht in Hm. cbn in Hm. rewrite decide_True in Hm by lia. injection Hm as <-.
    rewrite take_ge by lia. rewrite take_ge in Hi' by lia. by split_and!.
  - intros r. apply triple_pure. intros [Hv Hl]. rewrite (proj2 (Z.ltb_ge _ _)) by lia.
    eapply triple_bind_defined.
    + rewrite type_message_fits by lia. cbn [mbind option_bind]. apply fill_message_fits; cbn [msg_addr msg_room]; lia.
    + apply triple_ret. intros s H. exists (data r). split; [|done]. cbn [fst snd].
      split_and!; [done|unfold message_fits; cbn; auto|done|by eexists].
Qed.

(** One iteration measures the reply it received. *)
Lemma client_rounds mq args rcv (local : Message * Benchmarks) D R :
  message_fits size args local.1 -> 0 <= count local.2 < INT32_MAX ->
  triple (client_at size MC_send rcv None) (mq_client_round (W:=W) mq args local)
    (fun a s => message_fits size args a.1 /\ exists v,
      (exists t, benchmark t (set_single_start local.2 v) = Some a.2) /\ client_at size MC_check (rcv ++ [v]) None s) D R.
Proof.
  destruct local as [message bench]. cbn [fst snd]. intros (Ha & Hr & Hs & Hb) Hc. unfold mq_client_round.
  eapply triple_bind_defined; [apply type_message_fits; [done|lia]|].
  eapply triple_bind_defined; [rewrite Hs, u64_small by lia; apply set_message_fits; cbn [msg_addr msg_room]; [done|lia]|].
  eapply triple_bind; [unfold mq_client_msg_wait, msgrcv, benchmark_call; halting| |].
  { apply client_sends; [unfold message_fits; cbn; auto|done|by eexists]. }
  intros v. apply triple_pure. intros ->. apply triple_bind_passes; [done|]. unfold mq_client_msg_wait.
  eapply triple_bind; [unfold benchmark_call; halting|apply (client_receives _ args); unfold message_fits; cbn; auto|].
  intros [v m]. apply triple_exists. intros bytes. apply triple_pure. cbn [fst snd].
  intros (-> & Hm & Hl & rest & Hbuf). apply triple_bind_passes; [done|].
  eapply triple_bind_defined.
  { change 8 with (Z.of_nat 8). rewrite <- Hl. destruct Hm as (? & Hroom & _).
    eapply read_message_fits; [done|exact Hbuf|lia]. }
  eapply triple_bind; [halting| |].
  - apply (triple_benchmark_from _ (fun v => client_at size MC_check (rcv ++ [v]) None)); [done|].
    apply triple_read_now; [apply client_at_stable|].
    intros t s (Hi & Hpc & Hrc & Hss). cbn [link_answer mq_client_link]. unfold mq_client_answer, by_clock. rewrite Hpc.
    destruct (now _ _) as [v|] eqn:Hn; [|done]. destruct (mq_client_move size false s) as [s'|] eqn:Hmv; [|done].
    cbn. do 3 eexists. split_and!; [done|exact Hn|]. pose proof (mq_inv_client _ _ _ _ Hi Hmv) as Hi'.
    destruct s as [u q sv ts sent cl ss rcv']. simpl in Hpc, Hrc, Hss. subst. cbn [mq_client_move] in Hmv.
    injection Hmv as <-. by split_and!.
  - intros b. apply triple_ret. intros s (v & Hex & H). cbn [fst snd]. split; [done|]. by exists v.
Qed.

(** The whole loop. *)
Definition client_done (bench0 : Benchmarks) (r : Message * Benchmarks * Z) (s : mq_state) : Prop :=
  exists rcv, measured bench0 rcv r.1.2 /\ r.2 = Z.of_nat (length rcv) /\ client_at size MC_done rcv None s.
Definition client_running (s : mq_state) : Prop := exists rcv, client_at size MC_check rcv None s.

(** What was received is what was sent, when the client is done. *)
Lemma client_done_sent bench0 r s :
  client_done bench0 r s ->
  mq_client s = MC_done /\ r.2 = Z.of_nat (length (mq_sent s)) /\ measured bench0 (mq_sent s) r.1.2.
Proof.
  intros (rcv & Hm & Hl & Hi & Hd & Hrc & _). destruct s as [u q sv ts sent cl ss rcv'].
  simpl in Hd, Hrc. subst. by destruct Hi as [[_ <-] _].
Qed.

Lemma halts_client_round mq args a : halts (mq_client_round (W:=W) mq args a).
Proof. unfold mq_client_round, mq_client_msg_wait, msgrcv, msgsnd, benchmark_call. halting. Qed.

Lemma client_measures mq args fuel message bench0 :
  message_fits size args message -> 0 <= count bench0 -> count bench0 + Z.of_nat fuel <= INT32_MAX ->
  triple (client_at size MC_check [] None)
    (timed_loop fuel gettimeofday_usec start (mq_client_round (W:=W) mq args) (message, bench0) 0)
    (client_done bench0) (fun _ => False) client_running.
Proof.
  intros Hm Hc Hf.
  apply (client_loops (fun rcv => client_at size MC_check rcv None) (fun rcv => client_at size MC_send rcv None)
    (fun rcv => client_at size MC_done rcv None) (fun a => message_fits size args a.1) snd); try done.
  - apply halts_client_round.
  - intros rcv s H. by exists rcv.
  - intros rcv. apply client_tests_time.
  - intros rcv a Hg Hcnt. by apply client_rounds.
Qed.

End client.

(** ** Properties *)

(** The server of mq makes the moves of its protocol.  Run from its start
    beside any client, [mq_server_main] calls nothing but its set-up and the
    moves of [mq_server_move], in their order and with the right arguments; it
    has no undefined behaviour, dies only when its set-up fails, and otherwise
    is at the start of an iteration when the fuel of its loop is used up. *)
Theorem mq_server_refines size fuel sa0 args (p : process (world mq_state (mq_server_turn size))) o q :
  arg_size (limit_message_size args) = Z.of_nat size -> 8 <= arg_size args ->
  w_progress (env p) = Live -> w_state (env p) = mq_init MC_signal ->
  mq_server_main fuel sa0 args p = (o, q) ->
  rtc (mq_step size) (mq_init MC_signal) (w_state (env q)) /\
  match w_progress (env q) with
  | Live => o = Running /\ mq_server (w_state (env q)) = MS_receive \/
            (exists message, o = Died message) /\ mq_server (w_state (env q)) = MS_start
  | Halted => True
  | Astray => False
  end.
Proof.
  intros Hs Hb Hp Hw Hrun.
  destruct (server_refines size fuel sa0 args Hs Hb p Hp I) as [Hr He].
  { rewrite Hw. split; [apply mq_inv_reachable, rtc_refl|done]. }
  rewrite Hrun in Hr, He. rewrite Hw in Hr. cbn [fst snd] in *. split; [done|].
  destruct (w_progress (env q)); [destruct He as [_ He]|done|done].
  destruct o as [a|message| |]; [done|right|done|left]; destruct He as [_ He]; eauto.
Qed.

(** C17: the client of mq measures what the server sends.  With a size from 8 to
    the cap of 2048 that the code enforces, its loop, run beside any server from a state in which it has received nothing, makes only the
    moves of its protocol and never dies; when it ends, the count it prints is
    that of the timestamps the server has sent, and its record that of one
    measurement from each of them, in order. *)
Theorem mq_client_measures size start fuel mq args message bench0
    (p : process (world mq_state (mq_client_turn size start))) o q :
  msg_addr message <> 0 -> msg_room message = Z.of_nat size -> arg_size args = Z.of_nat size -> (8 <= size <= 2048)%nat ->
  0 <= count bench0 -> count bench0 + Z.of_nat fuel <= INT32_MAX ->
  w_progress (env p) = Live -> rtc (mq_step size) (mq_init MC_signal) (w_state (env p)) ->
  mq_client (w_state (env p)) = MC_check -> mq_received (w_state (env p)) = [] ->
  timed_loop fuel gettimeofday_usec start (mq_client_round mq args) (message, bench0) 0 p = (o, q) ->
  rtc (mq_step size) (w_state (env p)) (w_state (env q)) /\
  match w_progress (env q) with
  | Live => o = Running /\ mq_client (w_state (env q)) = MC_check \/
            exists message' bench cnt, o = Done (message', bench, cnt) /\ mq_client (w_state (env q)) = MC_done /\
              cnt = Z.of_nat (length (mq_sent (w_state (env q)))) /\
              measured bench0 (mq_sent (w_state (env q))) bench
  | Halted => True
  | Astray => False
  end.
Proof.
  intros Ha Hr Hs Hb Hc Hf Hp Hreach Hpc Hrcv Hrun.
  destruct (client_measures size start mq args fuel message bench0) with (p := p) as [Hsteps He]; try done.
  { split; [by apply mq_inv_reachable|done]. }
  rewrite Hrun in Hsteps, He. cbn [fst snd] in *. split; [done|].
  destruct (w_progress (env q)); [destruct He as [_ He]|done|done].
  destruct o as [[[m b] cnt]|msg| |]; [|done|done|]; cbn in He.
  - right. apply client_done_sent in He as (H1 & H2 & H3). by exists m, b, cnt.
  - left. destruct He as (rcv & _ & Hd & _). done.
Qed.

(** ** Witnesses *)

Definition served_choices : list (mq_server_turn 16) :=
  let c moves r := mk_turn moves (1700000000, 0) r in
  [c [] (val 1); c [] (val 7); c [] (val 0); c [] (val 0); c [] (val 0); c [] (val 0); c [] (val 4096);
   c [false; false; false] (val 0); c [] (val 0); c [] (val 0);
   c [false; false; false; false] (val 0); c [] (val 0); c [] (val 0)].

Lemma mq_server_refines_witness :
  let p := mk_process 0 [] (mk_world (mq_init MC_signal) served_choices Live) in
  let run := mq_server_main 2 (mk_sigaction 0 [] 0) (mk_Arguments 16 1000) p in
  w_progress (env run.2) = Live /\ mq_sent (w_state (env run.2)) = [1700000000000000000; 1700000000000000000] /\
  rtc (mq_step 16) (mq_init MC_signal) (w_state (env run.2)).
Proof.
  intros p run. split; [by vm_compute|]. split; [by vm_compute|].
  exact (proj1 (mq_server_refines 16 2 (mk_sigaction 0 [] 0) (mk_Arguments 16 1000) p run.1 run.2
    eq_refl ltac:(done) eq_refl eq_refl (surjective_pairing run))).
Defined.

Definition client_choices : list (mq_client_turn 16 500000) :=
  let c moves usec := mk_turn moves (1700000000, usec) (val 0) in
  [c [] 500100; c [] 0; c [0; 1699999999999999744; 0] 0; c [] 256; c [] 600001].

Lemma mq_client_measures_witness :
  let s := state_along (mq_exec 16) [MqServer 0; MqClient false] (mq_init MC_signal) in
  let p := mk_process 0 [] (mk_world s client_choices Live) in
  let run := timed_loop 3 gettimeofday_usec 500000 (mq_client_round 7 (mk_Arguments 16 1000))
    (mk_Message 4096 16 0 [], mk_Benchmarks 0 0 INT32_MAX 0 0 0 0) 0 p in
  w_progress (env run.2) = Live /\ mq_client (w_state (env run.2)) = MC_done /\
  mq_sent (w_state (env run.2)) = [1699999999999999744] /\
  rtc (mq_step 16) s (w_state (env run.2)).
Proof.
  intros s p run. split; [by vm_compute|]. split; [by vm_compute|]. split; [by vm_compute|].
  assert (Hs : rtc (mq_step 16) (mq_init MC_signal) s)
    by (apply state_along_rtc; [apply mq_exec_step|by vm_compute; eexists]).
  exact (proj1 (mq_client_measures 16 500000 3 7 (mk_Arguments 16 1000) (mk_Message 4096 16 0 [])
    (mk_Benchmarks 0 0 INT32_MAX 0 0 0 0) p run.1 run.2
    ltac:(done) eq_refl eq_refl ltac:(lia) ltac:(done) ltac:(by vm_compute) eq_refl Hs eq_refl eq_refl
    (surjective_pairing run))).
Defined.
