(* ===== verification/MqPair.v ===== *)
(** * mq: the two programs together

    The loops of [mq/server.c] and [mq/client.c], call by call in any order,
    over one queue. *)
From S2P Require Import Prelude Kernel Memory Benchmarks Linking Together Signals Mq MqLink.

#[local] Arguments le_bytes : simpl never.

(** ** The programs call nothing but the kernel *)
Lemma interactive_mq_server fuel mq args : forall message,
  interactive (fun W _ => mq_server_loop (W:=W) fuel mq args message).
Proof.
  induction fuel; intros message; cbn [mq_server_loop];
    unfold mq_server_round, msgrcv, msgsnd, read_now; interacting.
Qed.

Lemma interactive_mq_client_round mq args local : interactive (fun W _ => mq_client_round (W:=W) mq args local).
Proof. unfold mq_client_round, mq_client_msg_wait, msgrcv, msgsnd, benchmark_call, read_now. interacting. Qed.

(** ** The two sides of the protocol *)
#[export] Instance mq_server_choices_ok size : Choices mq_state (mq_server_turn size).
Proof.
  refine {| link_alone := turn_alone : mq_server_turn size -> mq_server_turn size; link_then := turn_then |}; try done.
  intros. cbn. apply moves_along_app.
Defined.

#[export] Instance mq_client_choices_ok size start : Choices mq_state (mq_client_turn size start).
Proof.
  refine {| link_alone := turn_alone : mq_client_turn size start -> mq_client_turn size start; link_then := turn_then |}; try done.
  intros. cbn. apply moves_along_app.
Defined.

#[export] Instance mq_server_beside size start : Beside mq_state (mq_server_turn size) (mq_client_turn size start).
Proof.
  constructor. intros t c s r s' H. cbn in H.
  assert (exists b, mq_client_move size b s = Some s') as [b Hm].
  { unfold mq_client_answer in H. destruct (mq_client s), c; try done; repeat case_match; simplify_eq;
      try (apply by_move_inv in H; by eexists). apply by_clock_inv in H as [v H]. by eexists. }
  exists (mk_turn [b] (0, 0) (val 0)). cbn. unfold moves_along. cbn. by rewrite Hm.
Qed.

#[export] Instance mq_client_beside size start : Beside mq_state (mq_client_turn size start) (mq_server_turn size).
Proof.
  constructor. intros t c s r s' H. cbn in H.
  assert (s' = s \/ exists v, mq_server_move size v s = Some s') as [->|[v Hm]].
  { unfold mq_server_answer in H. destruct (mq_server s), c; try done; repeat case_match; simplify_eq;
      try (apply by_move_inv in H; right; by eexists); try (injection H as _ <-; by left).
    apply by_clock_inv in H as [v H]. right. by eexists. }
  - by exists (mk_turn [] (0, 0) (val 0)).
  - exists (mk_turn [v] (0, 0) (val 0)). cbn. unfold moves_along. cbn. by rewrite Hm.
Qed.

(** ** A call that is expected and possible is answered *)
Lemma mq_client_answers size start c s :
  (forall t, mq_client_answer size start (turn_alone t) c s <> Strange) -> is_Some (mq_client_move size false s) ->
  exists t r s', mq_client_answer size start (turn_alone t) c s = Answer r s'.
Proof.
  intros Hc [s' Hm]. specialize (Hc (mk_turn [] (0, 0) (val 0))). exists (mk_turn [] (0, 0) (val 0)).
  unfold mq_client_answer, by_clock, turn_alone in *. cbn [tn_clock tn_result fst snd] in *.
  destruct (mq_client s) eqn:Hpc, c; try done; rewrite ?Hm in *.
  - destruct s as [u q sv ts sent cl ss rcv]. simpl in Hpc. subst. by do 2 eexists.
  - case_match; [|done]. by do 2 eexists.
  - case_match; [|done]. destruct (take_type _ _) as [[bytes q']|] eqn:Et.
    + case_match; [|done]. by do 2 eexists.
    + destruct s as [u q sv ts sent cl ss rcv]. simpl in Hpc, Et. subst. cbn [mq_client_move] in Hm. by rewrite Et in Hm.
  - destruct (now 0 0) eqn:E; [by do 2 eexists|by vm_compute in E].
Qed.

Lemma mq_server_answers size c s :
  (forall t, mq_server_answer size (turn_alone t) c s <> Strange) -> is_Some (mq_server_move size 0 s) ->
  exists t r s', mq_server_answer size (turn_alone t) c s = Answer r s'.
Proof.
  intros Hc [s' Hm]. specialize (Hc (mk_turn [] (0, 0) (val 1))). exists (mk_turn [] (0, 0) (val 1)).
  unfold mq_server_answer, by_clock, turn_alone in *. cbn [tn_clock tn_result fst snd] in *.
  destruct (mq_server s) eqn:Hpc, c; try done; rewrite ?Hm in *; try by do 2 eexists.
  - case_match; [|done]. by do 2 eexists.
  - case_match; [|done]. destruct (take_type _ _) as [[bytes q']|] eqn:Et.
    + case_match; [|done]. by do 2 eexists.
    + destruct s as [u q sv ts sent cl ss rcv]. simpl in Hpc, Et. subst. cbn [mq_server_move] in Hm. by rewrite Et in Hm.
  - destruct (now 0 0) as [v|] eqn:E; [|by vm_compute in E]. vm_compute in E. injection E as <-. rewrite Hm.
    by do 2 eexists.
  - case_match; [|done]. by do 2 eexists.
Qed.

(** Until the client is done, somebody can go on. *)
Lemma mq_ready size s :
  (size <= 2048)%nat -> mq_inv size s ->
  mq_client s = MC_done \/ is_Some (mq_client_move size false s) \/ is_Some (mq_server_move size 0 s).
Proof.
  destruct s as [u q sv ts sent cl ss rcv]. intros Hs Hi. destruct cl; simpl in Hi; try done.
  - destruct Hi as [_ [[-> ->]|[-> ->]]]; [right; right|right; left]; by eexists.
  - right; left. by eexists.
  - destruct Hi as ([-> _] & _). right; left. cbn. rewrite decide_True; [by eexists|]. unfold MSGMNB. lia.
  - destruct Hi as [_ Hi]. destruct sv; try done.
    + destruct Hi as [[-> ->]|(-> & Ht & ->)]; [right; right; by eexists|right; left].
      rewrite mq_receive_reply by done. by eexists.
    + right; right. by eexists.
    + destruct Hi as [[-> _] _]. right; right. cbn. rewrite decide_True by done. by eexists.
  - right; left. by eexists.
  - by left.
Qed.

(** ** The pair *)
Section pair.
Context (size : nat) (start : Z) (fuel_s fuel_c : nat) (mq_s mq_c : Z) (args : Arguments).
Context (message_s message_c : Message) (bench0 : Benchmarks).

Definition mq_server_program W `{!Kernel W} : M (process W) Message := mq_server_loop fuel_s mq_s args message_s.
Definition mq_client_program W `{!Kernel W} : M (process W) (Message * Benchmarks * Z) :=
  timed_loop fuel_c gettimeofday_usec start (mq_client_round mq_c args) (message_c, bench0) 0.

Definition mq_joint_step : relation (joint mq_state) :=
  joint_step (TA:=mq_server_turn size) (TB:=mq_client_turn size start) (mq_server_program script) (mq_client_program script).

Lemma mq_pair_sound s0 j :
  message_fits size args message_s -> message_fits size args message_c ->
  0 <= count bench0 -> count bench0 + Z.of_nat fuel_c <= INT32_MAX ->
  server_at size MS_receive s0 -> client_at size MC_check [] None s0 ->
  rtc mq_joint_step (mk_joint s0 [] []) j ->
  rtc (mq_step size) s0 (j_state j) /\
  abides (T:=mq_server_turn size) (mq_server_program script) (fun _ _ => False) (fun _ => False)
    (server_at size MS_receive) (j_first j) (j_state j) /\
  abides (T:=mq_client_turn size start) (mq_client_program script) (client_done size bench0) (fun _ => False)
    (client_running size) (j_second j) (j_state j).
Proof.
  intros Hms Hmc Hc Hf Hs0 Hc0 Hr. split.
  - by apply (joint_steps (TA:=mq_server_turn size) (TB:=mq_client_turn size start) mq_server_program mq_client_program) in Hr.
  - assert (ic : interactive mq_client_program).
    { apply (interactive_timed_loop fuel_c start (fun W _ => mq_client_round (W:=W) mq_c args)).
      apply interactive_mq_client_round. }
    apply (joint_sound (TA:=mq_server_turn size) (TB:=mq_client_turn size start) mq_server_program mq_client_program
      (interactive_mq_server fuel_s mq_s args message_s) ic (server_at size MS_receive) (client_at size MC_check [] None))
      with (s0 := s0); try done.
    + by apply server_loops.
    + by apply client_measures.
    + intros a. apply stable_False.
    + apply stable_False.
    + apply server_at_stable'.
    + intros r. apply stable_exists. intros rcv. do 2 apply stable_pure. apply client_at_stable.
    + apply stable_False.
    + apply stable_exists. intros rcv. apply client_at_stable.
Qed.

End pair.

(** ** Properties *)

(** C4: the two programs of mq work together.  With a size from 8 to the cap of
    2048 that the code enforces, from the end of both set-ups, in
    whatever order they make their calls on the queue, the loops only make
    moves of the protocol: neither dies or has undefined behaviour, the client
    returns the count and the measurements of the timestamps the server sent,
    and until the client has returned (or a loop has used up its fuel) one of
    the two can make its next call: they never deadlock. *)
Theorem mq_together size start fuel_s fuel_c mq_s mq_c args message_s message_c bench0 s0 j :
  message_fits size args message_s -> message_fits size args message_c ->
  0 <= count bench0 -> count bench0 + Z.of_nat fuel_c <= INT32_MAX ->
  rtc (mq_step size) (mq_init MC_signal) s0 -> mq_server s0 = MS_receive -> mq_client s0 = MC_check -> mq_received s0 = [] ->
  rtc (mq_joint_step size start fuel_s fuel_c mq_s mq_c args message_s message_c bench0) (mk_joint s0 [] []) j ->
  let server := mq_server_program fuel_s mq_s args message_s script in
  let client := mq_client_program start fuel_c mq_c args message_c bench0 script in
  rtc (mq_step size) s0 (j_state j) /\
  (next_call server (j_first j) = None -> outcome_on server (j_first j) = Running) /\
  (next_call client (j_second j) = None ->
     (exists m bench, outcome_on client (j_second j) = Done (m, bench, Z.of_nat (length (mq_sent (j_state j)))) /\
        measured bench0 (mq_sent (j_state j)) bench) \/
     outcome_on client (j_second j) = Running) /\
  ((exists j', mq_joint_step size start fuel_s fuel_c mq_s mq_c args message_s message_c bench0 j j') \/
   next_call server (j_first j) = None \/ next_call client (j_second j) = None).
Proof.
  intros Hms Hmc Hc Hf Hreach Hsv Hcl Hrcv Hr server client.
  pose proof (mq_inv_reachable size s0 Hreach) as Hi0.
  destruct (mq_pair_sound size start fuel_s fuel_c mq_s mq_c args message_s message_c bench0 s0 j) as (Hs & Ha & Hb); try done.
  assert (Hi : mq_inv size (j_state j)) by (apply mq_inv_reachable; by etrans). fold server in Ha. fold client in Hb.
  split_and!; [done|..].
  - intros Hn. unfold abides in Ha. rewrite Hn in Ha. by destruct (outcome_on server (j_first j)).
  - intros Hn. unfold abides in Hb. rewrite Hn in Hb. destruct (outcome_on client (j_second j)) as [[[m b] cnt]| | |]; try done; [left|by right].
    apply client_done_sent in Hb as (_ & Hl & Hm). cbn in Hl, Hm. subst. by exists m, b.
  - assert (Hsz : (size <= 2048)%nat) by (destruct Hms as (_ & _ & _ & ?); lia).
    destruct (mq_ready size _ Hsz Hi) as [Hd|Hm].
    + right; right. unfold abides in Hb. destruct (next_call client (j_second j)) as [d|]; [|done].
      destruct (Hb (mk_turn [] (0, 0) (val 0))). cbn. unfold mq_client_answer. rewrite Hd. by destruct d.
    + eapply joint_goes_on; [apply mq_server_answers|apply mq_client_answers|exact Ha|exact Hb|by apply or_comm].
Qed.

(** ** Witness *)

(** One message is measured; the client then stops. *)
Definition mq_schedule : list (mq_server_turn 16 + mq_client_turn 16 500000) :=
  let s := inl (mk_turn [] (1699999999, 999999744) (val 0)) in
  let c usec := inr (mk_turn [] (1700000000, usec) (val 0)) in
  [c 500100; c 0; s; s; s; c 0; c 256; c 600001].

Definition mq_pair_start : mq_state := state_along (mq_exec 16) [MqServer 0; MqClient false] (mq_init MC_signal).

Definition mq_pair_args : Arguments := mk_Arguments 16 1000.
Definition mq_pair_bench : Benchmarks := mk_Benchmarks 0 0 INT32_MAX 0 0 0 0.

Definition mq_pair_run : joint mq_state :=
  state_along (joint_move (mq_server_program 3 7 mq_pair_args (mk_Message 8192 16 0 []) script)
      (mq_client_program 500000 3 7 mq_pair_args (mk_Message 4096 16 0 []) mq_pair_bench script))
    mq_schedule (mk_joint mq_pair_start [] []).

Lemma mq_together_witness :
  next_call (mq_client_program 500000 3 7 mq_pair_args (mk_Message 4096 16 0 []) mq_pair_bench script) (j_second mq_pair_run) = None /\
  mq_sent (j_state mq_pair_run) = [1699999999999999744] /\
  rtc (mq_step 16) mq_pair_start (j_state mq_pair_run).
Proof.
  split; [by vm_compute|]. split; [by vm_compute|].
  assert (Hs : rtc (mq_step 16) (mq_init MC_signal) mq_pair_start)
    by (apply state_along_rtc; [apply mq_exec_step|by vm_compute; eexists]).
  refine (proj1 (mq_together 16 500000 3 3 7 7 mq_pair_args (mk_Message 8192 16 0 []) (mk_Message 4096 16 0 [])
    mq_pair_bench mq_pair_start mq_pair_run _ _ _ _ Hs eq_refl eq_refl eq_refl _)).
  1, 2: unfold message_fits; cbn; lia.
  1, 2: by vm_compute.
  apply state_along_rtc; [intros t a b; apply joint_move_step|by vm_compute; eexists].
Defined.
