(* ===== verification/FifoPipe.v ===== *)
(** * fifo and pipe: messages through a stream, paced by signals

    The programs of [fifo/server.c], [fifo/client.c] and [pipe/pipe.c] call by
    call, and the protocol they run: the client sends SIGUSR1 and waits for
    SIGUSR2; the server waits for SIGUSR1, writes eight bytes into the stream
    and sends SIGUSR2.  The protocol includes the start: a process that gets a
    signal before it has blocked or caught it is killed. *)
From S2P Require Import Prelude Kernel Memory Benchmarks Signals.

Section programs.
Context {W : Type} `{!Kernel W}.

(** [fread(&bench.single_start, 8, 1, stream)] stores the bytes it gets. *)
Definition fread_into (old : Z) (bytes : list Z) : Z :=
  le_value (bytes ++ drop (length bytes) (le_bytes 8 old)).

Definition store_single_start (bench : Benchmarks) (bytes : list Z) : Benchmarks :=
  set_single_start bench (fread_into (single_start bench) bytes).

(** ** fifo *)

Definition FIFO_PATH : string := "/tmp/ipc_bench_fifo".

Definition fifo_server_cleanup (stream : Z) : M (process W) () :=
  sys_ (Fclose stream);;
  removed ← sys_rv (Remove FIFO_PATH);
  throw_if (removed =? -1) "Error removing FIFO".

Definition fifo_server_round (stream : Z) (sa : sigaction) : M (process W) () :=
  wait_for_signal sa;;
  timestamp ← read_now;
  written ← sys_rv (Fwrite stream (le_bytes 8 timestamp));
  throw_if (written =? 0) "Error writing buffer";;
  sys_ (Fflush stream);;
  notify_client.

Definition fifo_server_communicate (fuel : nat) (stream : Z) (sa : sigaction) : M (process W) () :=
  forever fuel (fifo_server_round stream sa);;
  fifo_server_cleanup stream.

(** A null stream is 0. *)
Definition fifo_server_open_fifo : M (process W) Z :=
  made ← sys_rv (Mkfifo FIFO_PATH 438);
  throw_if (made >? 0) "Error creating FIFO";;
  stream ← sys_rv (Fopen FIFO_PATH "w");
  throw_if (stream =? 0) "Error opening descriptor to FIFO on server side";;
  mret stream.

Definition fifo_server_main (fuel : nat) (sa0 : sigaction) (args : Arguments) : M (process W) () :=
  sa ← setup_server_signals sa0;
  stream ← fifo_server_open_fifo;
  fifo_server_communicate fuel stream sa.

Definition fifo_client_open_fifo : M (process W) Z :=
  stream ← sys_rv (Fopen FIFO_PATH "r");
  throw_if (stream =? 0) "Error opening stream to FIFO on client-side";;
  mret stream.

Definition fifo_client_msg_wait (stream : Z) (sa : sigaction) (bench : Benchmarks)
    : M (process W) Benchmarks :=
  wait_for_signal sa;;
  r ← sys (Fread stream 8);
  throw_if (rv r =? 0) "Error reading buffer";;
  benchmark_call (store_single_start bench (data r)).

Definition fifo_client_round (stream : Z) (sa : sigaction) (bench : Benchmarks) : M (process W) Benchmarks :=
  notify_server;; fifo_client_msg_wait stream sa bench.

Definition fifo_client_cleanup (stream : Z) : M (process W) () := sys_ (Fclose stream).

Definition fifo_client_main (fuel : nat) (sa0 : sigaction) (args : Arguments) (bench0 : Benchmarks)
    : M (process W) (Z * report) :=
  sa ← setup_client_signals sa0;
  stream ← fifo_client_open_fifo;
  bench ← setup_benchmarks_call bench0;
  printed ← measure_loop fuel (fifo_client_round stream sa) bench args;
  fifo_client_cleanup stream;;
  mret printed.

(** ** pipe *)

(** The mode is an array of one character, without a terminator. *)
Definition open_stream (file_descriptor : Z * Z) (to_open : bool) : M (process W) Z :=
  let mode := [if to_open then 119 else 114] in
  sys_ (Close (if to_open then file_descriptor.1 else file_descriptor.2));;
  stream ← sys_rv (Fdopen (if to_open then file_descriptor.2 else file_descriptor.1) mode);
  throw_if (stream =? 0) "Could not open stream for reading";;
  mret stream.

(** [fread] and [fwrite] return a [size_t], compared with -1. *)
Definition pipe_client_round (stream : Z) (sa : sigaction) (bench : Benchmarks) : M (process W) Benchmarks :=
  notify_server;;
  wait_for_signal sa;;
  r ← sys (Fread stream 8);
  throw_if (rv r =? u64 (-1)) "Error reading from pipe";;
  benchmark_call (store_single_start bench (data r)).

Definition pipe_client_communicate (fuel : nat) (sa0 : sigaction) (file_descriptors : Z * Z)
    (args : Arguments) (bench0 : Benchmarks) : M (process W) (Z * report) :=
  stream ← open_stream file_descriptors false;
  sa ← setup_client_signals sa0;
  bench ← setup_benchmarks_call bench0;
  printed ← measure_loop fuel (pipe_client_round stream sa) bench args;
  sys_ (Close file_descriptors.2);;
  mret printed.

Definition pipe_server_round (stream : Z) (sa : sigaction) : M (process W) () :=
  wait_for_signal sa;;
  timestamp ← read_now;
  written ← sys_rv (Fwrite stream (le_bytes 8 timestamp));
  throw_if (written =? u64 (-1)) "Error writing to pipe";;
  sys_ (Fflush stream);;
  notify_client.

Definition pipe_server_communicate (fuel : nat) (sa0 : sigaction) (file_descriptors : Z * Z)
    : M (process W) () :=
  stream ← open_stream file_descriptors true;
  sa ← setup_server_signals sa0;
  forever fuel (pipe_server_round stream sa);;
  sys_ (Close file_descriptors.2).

(** The child is the client; only the client prints. *)
Definition pipe_communicate (fuel : nat) (sa0 : sigaction) (file_descriptors : Z * Z)
    (args : Arguments) (bench0 : Benchmarks) : M (process W) (option (Z * report)) :=
  pid ← sys_rv Fork;
  throw_if (pid =? -1) "Error forking process";;
  if pid =? 0 then
    printed ← pipe_client_communicate fuel sa0 file_descriptors args bench0; mret (Some printed)
  else
    pipe_server_communicate fuel sa0 file_descriptors;; mret None.

Definition pipe_main (fuel : nat) (sa0 : sigaction) (args : Arguments) (bench0 : Benchmarks)
    : M (process W) (option (Z * report)) :=
  r ← sys Pipe;
  throw_if (rv r <? 0) "Error opening pipe!";;
  match data r with
  | [read_end; write_end] => pipe_communicate fuel sa0 (read_end, write_end) args bench0
  | _ => undefined
  end.

End programs.

#[local] Arguments le_bytes : simpl never.

(** ** The protocol *)

Inductive stream_server_pc :=
  | SS_start                 (* before sigprocmask *)
  | SS_masked                (* set up, opening the stream *)
  | SS_wait                  (* sigwait *)
  | SS_now
  | SS_write                 (* fwrite, into the buffer of the stream *)
  | SS_flush                 (* fflush *)
  | SS_notify                (* kill(0, SIGUSR2) *)
  | SS_killed.

Inductive stream_client_pc :=
  | SC_start | SC_masked
  | SC_check                 (* the time test *)
  | SC_notify                (* kill(0, SIGUSR1) *)
  | SC_wait                  (* sigwait *)
  | SC_read                  (* fread *)
  | SC_benchmark
  | SC_done | SC_killed.

(** Standard signals do not queue: a pending signal is a flag. *)
Record stream_state := mk_stream_state {
  ss_usr1 : bool;            (* SIGUSR1 pending for the server *)
  ss_usr2 : bool;            (* SIGUSR2 pending for the client *)
  ss_stream : list Z;        (* bytes written and not read *)
  ss_server : stream_server_pc;
  ss_timestamp : Z;
  ss_sent : list Z;
  ss_client : stream_client_pc;
  ss_single_start : Z;
  ss_received : list Z;
}.

Definition server_opening (s : stream_server_pc) : bool := match s with SS_start => false | _ => true end.
Definition client_opening (c : stream_client_pc) : bool := match c with SC_start => false | _ => true end.

(** One move of the server; [rendezvous]: opening the stream waits for the
    other side, as it does for a FIFO and not for a pipe. *)
Definition stream_server_move (rendezvous : bool) (t : Z) (s : stream_state) : option stream_state :=
  let 'mk_stream_state u1 u2 st sv ts sent cl ss rcv := s in
  match sv with
  | SS_start => Some (mk_stream_state u1 u2 st SS_masked ts sent cl ss rcv)
  | SS_masked =>
      if implb rendezvous (client_opening cl) then Some (mk_stream_state u1 u2 st SS_wait ts sent cl ss rcv)
      else None
  | SS_wait => if u1 then Some (mk_stream_state false u2 st SS_now ts sent cl ss rcv) else None
  | SS_now => if decide (0 <= t < 2 ^ 64) then Some (mk_stream_state u1 u2 st SS_write t sent cl ss rcv) else None
  | SS_write => Some (mk_stream_state u1 u2 st SS_flush ts sent cl ss rcv)
  | SS_flush => Some (mk_stream_state u1 u2 (st ++ le_bytes 8 ts) SS_notify ts (sent ++ [ts]) cl ss rcv)
  | SS_notify =>
      match cl with
      | SC_start => Some (mk_stream_state u1 u2 st SS_wait ts sent SC_killed ss rcv)
      | SC_killed | SC_done => Some (mk_stream_state u1 u2 st SS_wait ts sent cl ss rcv)
      | _ => Some (mk_stream_state u1 true st SS_wait ts sent cl ss rcv)
      end
  | SS_killed => None
  end.

(** One move of the client. *)
Definition stream_client_move (rendezvous stop : bool) (s : stream_state) : option stream_state :=
  let 'mk_stream_state u1 u2 st sv ts sent cl ss rcv := s in
  match cl with
  | SC_start => Some (mk_stream_state u1 u2 st sv ts sent SC_masked ss rcv)
  | SC_masked =>
      if implb rendezvous (server_opening sv) then Some (mk_stream_state u1 u2 st sv ts sent SC_check ss rcv)
      else None
  | SC_check => Some (mk_stream_state u1 u2 st sv ts sent (if stop then SC_done else SC_notify) ss rcv)
  | SC_notify =>
      match sv with
      | SS_start => Some (mk_stream_state u1 u2 st SS_killed ts sent SC_wait ss rcv)
      | SS_killed => Some (mk_stream_state u1 u2 st sv ts sent SC_wait ss rcv)
      | _ => Some (mk_stream_state true u2 st sv ts sent SC_wait ss rcv)
      end
  | SC_wait => if u2 then Some (mk_stream_state u1 false st sv ts sent SC_read ss rcv) else None
  | SC_read =>
      if decide (8 <= length st)%nat
      then Some (mk_stream_state u1 u2 (drop 8 st) sv ts sent SC_benchmark (le_value (take 8 st)) rcv)
      else None
  | SC_benchmark => Some (mk_stream_state u1 u2 st sv ts sent SC_check ss (rcv ++ [ss]))
  | SC_done | SC_killed => None
  end.

Inductive stream_step (rendezvous : bool) : stream_state -> stream_state -> Prop :=
  | Stream_server t s s' : stream_server_move rendezvous t s = Some s' -> stream_step rendezvous s s'
  | Stream_client stop s s' : stream_client_move rendezvous stop s = Some s' -> stream_step rendezvous s s'.

(** The start: nothing pending, an empty stream; [sv] is how far the server's
    set-up is. *)
Definition stream_init (sv : stream_server_pc) : stream_state :=
  mk_stream_state false false [] sv 0 [] SC_start 0 [].

(** The token is with one of the two signals, the server, the stream or the
    client. *)
Definition stream_ok (s : stream_state) : Prop :=
  let 'mk_stream_state u1 u2 st sv ts sent cl ss rcv := s in
  let idle := u1 = false /\ u2 = false /\ st = [] /\ sent = rcv in
  let flying := u1 = false /\ st = le_bytes 8 ts /\ 0 <= ts < 2 ^ 64 /\ sent = rcv ++ [ts] in
  match cl with
  | SC_start | SC_masked => idle /\ match sv with SS_start | SS_masked | SS_wait => True | _ => False end
  | SC_check | SC_notify | SC_done => idle /\ match sv with SS_masked | SS_wait => True | _ => False end
  | SC_wait =>
      match sv with
      | SS_masked => u1 = true /\ u2 = false /\ st = [] /\ sent = rcv
      | SS_wait => (u1 = true /\ u2 = false /\ st = [] /\ sent = rcv) \/ (u2 = true /\ flying)
      | SS_now => idle
      | SS_write | SS_flush => idle /\ 0 <= ts < 2 ^ 64
      | SS_notify => u2 = false /\ flying
      | _ => False
      end
  | SC_read => sv = SS_wait /\ u2 = false /\ flying
  | SC_benchmark => sv = SS_wait /\ u1 = false /\ u2 = false /\ st = [] /\ sent = rcv ++ [ss]
  | SC_killed => False
  end.

Definition stream_inv (rendezvous : bool) (s : stream_state) : Prop :=
  stream_ok s /\ (rendezvous = false -> ss_server s <> SS_start).

Lemma le_value_stream t : 0 <= t < 2 ^ 64 -> le_value (le_bytes 8 t) = t.
Proof. intros Ht. rewrite le_value_bytes. by apply Z.mod_small. Qed.

Lemma stream_inv_server rz t s s' :
  stream_inv rz s -> stream_server_move rz t s = Some s' -> stream_inv rz s'.
Proof.
  destruct s as [u1 u2 st sv ts sent cl ss rcv]. intros [Hok Hr] Hm.
  split; [|by destruct sv, cl; simpl in *; repeat case_match; simplify_eq].
  destruct sv; simpl in Hm, Hok; try done.
  - simplify_eq. destruct cl; simpl in *; intuition discriminate.
  - case_match; simplify_eq. destruct cl; simpl in *; intuition discriminate.
  - destruct u1; [|done]. simplify_eq. destruct cl; simpl in *; intuition congruence.
  - case_decide; simplify_eq. destruct cl; simpl in *; intuition congruence.
  - simplify_eq. destruct cl; simpl in *; try intuition congruence.
  - simplify_eq. destruct cl; simpl in *; try intuition congruence.
    destruct Hok as ((-> & -> & -> & ->) & Ht). split_and!; done || lia.
  - destruct cl; simplify_eq; simpl in *; try intuition congruence.
Qed.

Lemma stream_inv_client rz b s s' :
  stream_inv rz s -> stream_client_move rz b s = Some s' -> stream_inv rz s'.
Proof.
  destruct s as [u1 u2 st sv ts sent cl ss rcv]. intros [Hok Hr] Hm.
  destruct cl; simpl in Hm, Hok; try done.
  - simplify_eq. by split.
  - case_match eqn:Hi; simplify_eq. split; [|done]. destruct Hok as [Hid Hsv].
    simpl in Hr. destruct sv, rz; simpl in *; try done. by destruct (Hr eq_refl).
  - simplify_eq. by destruct b.
  - destruct Hok as [(-> & -> & -> & ->) Hsv]. destruct sv; try done; simplify_eq; split; simpl; auto.
  - destruct u2; [|done]. simplify_eq. split; [|done]. simpl. destruct sv; try intuition congruence.
  - case_decide; [|done]. simplify_eq. destruct Hok as (-> & -> & -> & -> & Ht & ->). split; [|done].
    rewrite take_ge, drop_ge by (by rewrite length_le_bytes). rewrite le_value_stream by done.
    simpl. by split_and!.
  - simplify_eq. destruct Hok as (-> & -> & -> & -> & ->). split; [|done]. by split_and!.
Qed.

Lemma stream_inv_reachable rz sv s :
  (rz = true /\ sv = SS_start) \/ sv = SS_masked ->
  rtc (stream_step rz) (stream_init sv) s -> stream_inv rz s.
Proof.
  intros Hsv Hr. eapply inv_rtc; [|idtac|exact Hr].
  - intros a b Ha Hs. destruct Hs; [by eapply stream_inv_server|by eapply stream_inv_client].
  - destruct Hsv as [[-> ->]| ->]; by split.
Qed.

(** The number of steps to the client's next time test. *)
Definition stream_rank (s : stream_state) : nat :=
  match ss_server s with SS_start => 2 | SS_masked => 1 | _ => 0 end +
  match ss_client s with
  | SC_start => 41 | SC_masked => 40 | SC_notify => 20 | SC_read => 8 | SC_benchmark => 7
  | SC_wait =>
      match ss_server s with
      | SS_now => 13 | SS_write => 12 | SS_flush => 11 | SS_notify => 10
      | _ => if ss_usr1 s then 14 else 9
      end
  | _ => 0
  end.

Lemma stream_rank_step rz s s' :
  stream_inv rz s -> stream_step rz s s' ->
  (stream_rank s' < stream_rank s)%nat \/ ss_client s = SC_check.
Proof.
  intros [Hok Hr] Hst. destruct Hst as [t s s' Hm|b s s' Hm];
    destruct s as [u1 u2 st sv ts sent cl ss rcv].
  - destruct sv, cl; simpl in Hm, Hok; try (exfalso; intuition discriminate); auto; left;
      try (destruct u1; [|exfalso; intuition discriminate]); repeat case_match; simplify_eq;
      unfold stream_rank; simpl; try lia; try (exfalso; intuition discriminate).
    all: destruct u1; lia || (exfalso; intuition discriminate).
  - destruct cl; simpl in Hm, Hok; try done; auto; left;
      try (destruct u2; [|done]); repeat case_match; simplify_eq;
      unfold stream_rank; simpl; try lia; try (exfalso; intuition discriminate).
    destruct u1; lia.
Qed.

Lemma stream_enabled rz s :
  stream_inv rz s -> ss_client s <> SC_done -> exists s', stream_step rz s s'.
Proof.
  destruct s as [u1 u2 st sv ts sent cl ss rcv]. intros [Hok Hr] Hd.
  assert (Hs : forall s', stream_server_move rz 0 (mk_stream_state u1 u2 st sv ts sent cl ss rcv) = Some s' ->
    exists s', stream_step rz (mk_stream_state u1 u2 st sv ts sent cl ss rcv) s')
    by (intros s' H; exists s'; by eapply Stream_server).
  assert (Hc : forall s', stream_client_move rz true (mk_stream_state u1 u2 st sv ts sent cl ss rcv) = Some s' ->
    exists s', stream_step rz (mk_stream_state u1 u2 st sv ts sent cl ss rcv) s')
    by (intros s' H; exists s'; by eapply Stream_client).
  destruct cl; simpl in Hok; try done; try (by eapply Hc).
  - destruct (implb rz (server_opening sv)) eqn:E.
    + eapply Hc. simpl. by rewrite E.
    + destruct sv, rz; try done. by eapply Hs.
  - destruct sv; try (by eapply Hc).
  - destruct sv; try done; try (by eapply Hs).
    + eapply Hs. simpl. by rewrite implb_true_r.
    + destruct u1; [by eapply Hs|]. destruct Hok as [Hok|(-> & _)]; [by destruct Hok|by eapply Hc].
  - destruct Hok as (-> & -> & -> & -> & _). eapply Hc. cbn [stream_client_move].
    by rewrite decide_True by (rewrite length_le_bytes; lia).
Qed.

(** A run along a schedule. *)
Inductive stream_turn := StreamServer (now : Z) | StreamClient (stop : bool).

Definition stream_exec (rz : bool) (c : stream_turn) (s : stream_state) : option stream_state :=
  match c with
  | StreamServer t => stream_server_move rz t s
  | StreamClient b => stream_client_move rz b s
  end.

Definition stream_run (rz : bool) : list stream_turn -> stream_state -> option stream_state :=
  run_along (stream_exec rz).

Lemma stream_run_steps rz cs s s' : stream_run rz cs s = Some s' -> rtc (stream_step rz) s s'.
Proof.
  apply run_along_rtc. intros [t|b] s1 s2 H; [by eapply Stream_server|by eapply Stream_client].
Qed.

Lemma store_single_start_nil bench :
  0 <= single_start bench < 2 ^ 64 -> store_single_start bench [] = bench.
Proof.
  intros Hb. unfold store_single_start, fread_into.
  change ([] ++ drop (length []) (le_bytes 8 (single_start bench))) with (le_bytes 8 (single_start bench)).
  rewrite le_value_stream by done. by destruct bench.
Qed.

(** ** Properties *)

(** C25: the fifo benchmark delivers.  Because opening a FIFO waits for the
    other side, or when the server has set up its signals before the client
    starts, no reachable state has a process killed by a signal, the stream
    holds at most one timestamp, and the client has measured exactly the
    timestamps the server has written, in order, with at most the last one on
    its way. *)
Theorem stream_delivery rz sv s :
  (rz = true /\ sv = SS_start) \/ sv = SS_masked ->
  rtc (stream_step rz) (stream_init sv) s ->
  ss_server s <> SS_killed /\ ss_client s <> SC_killed /\ (length (ss_stream s) <= 8)%nat /\
  exists flying, ss_sent s = ss_received s ++ flying /\ (length flying <= 1)%nat.
Proof.
  intros Hsv Hr. destruct (stream_inv_reachable rz sv s Hsv Hr) as [Hok _].
  destruct s as [u1 u2 st sv' ts sent cl ss rcv]. simpl in *.
  assert (H0 : sent = rcv -> exists flying, sent = rcv ++ flying /\ (length flying <= 1)%nat).
  { intros ->. exists []. rewrite app_nil_r. simpl. auto. }
  assert (H1 : forall t, sent = rcv ++ [t] -> exists flying, sent = rcv ++ flying /\ (length flying <= 1)%nat).
  { intros t ->. by exists [t]. }
  assert (Hl : forall t, st = le_bytes 8 t -> (length st <= 8)%nat).
  { intros t ->. by rewrite length_le_bytes. }
  destruct cl, sv'; simpl in Hok; try done; try (exfalso; intuition discriminate);
    intuition (subst; try discriminate; simpl; eauto; try lia).
Qed.

(** No deadlock.  Under the same conditions, while the client has not
    stopped some process can move, and every move other than the client's
    time test strictly decreases the number of steps to the next time test,
    which is at most 43: every iteration ends. *)
Theorem stream_progress rz sv s :
  (rz = true /\ sv = SS_start) \/ sv = SS_masked ->
  rtc (stream_step rz) (stream_init sv) s -> ss_client s <> SC_done ->
  (stream_rank s <= 43)%nat /\ (exists s', stream_step rz s s') /\
  (forall s', stream_step rz s s' -> (stream_rank s' < stream_rank s)%nat \/ ss_client s = SC_check).
Proof.
  intros Hsv Hr Hd. pose proof (stream_inv_reachable rz sv s Hsv Hr) as Hi. split_and!.
  - unfold stream_rank. destruct (ss_client s), (ss_server s); try case_match; lia.
  - by eapply stream_enabled.
  - intros s'. by apply stream_rank_step.
Qed.

(** The pipe benchmark can kill its server.  Nothing makes the client wait
    for the server's set-up: if it notifies first, SIGUSR1 still has its
    default action, the server is killed, and the client waits for ever in a
    state from which no step is possible. *)
Theorem pipe_start_race :
  exists s, rtc (stream_step false) (stream_init SS_start) s /\
    ss_server s = SS_killed /\ ss_client s = SC_wait /\ ss_received s = [] /\
    forall s', ~ stream_step false s s'.
Proof.
  exists (mk_stream_state false false [] SS_killed 0 [] SC_wait 0 []). split_and!; try done.
  - by apply (stream_run_steps false
      [StreamClient false; StreamClient false; StreamClient false; StreamClient false]).
  - intros s' H. inversion H; simplify_eq.
Qed.

(** One iteration of either server, when the write is not rejected, waits
    for SIGUSR1, reads the clock, writes the eight bytes, flushes, and only
    then signals the client; the fifo server dies when nothing was written,
    the pipe server goes on. *)
Theorem stream_server_calls stream sa r0 sec nsec t rw rf rk :
  now sec nsec = Some t -> 0 <= rv rw <= 1 ->
  let answers := [r0; mk_result 0 0 [sec; nsec]; rw; rf; rk] in
  let calls := [Sigwait (sa_mask sa); Timespec_get; Fwrite stream (le_bytes 8 t)] in
  let rest := [Fflush stream; Kill 0 SIGUSR2] in
  (outcome_on (fifo_server_round stream sa) answers =
     if rv rw =? 0 then Died "Error writing buffer" else Done ()) /\
  (calls_on (fifo_server_round stream sa) answers = calls ++ if rv rw =? 0 then [] else rest) /\
  (outcome_on (pipe_server_round stream sa) answers = Done ()) /\
  (calls_on (pipe_server_round stream sa) answers = calls ++ rest).
Proof.
  intros Hn Hw answers calls rest.
  assert (E : (rv rw =? u64 (-1)) = false) by (apply Z.eqb_neq; vm_compute (u64 (-1)); lia).
  unfold answers, calls, rest, fifo_server_round, pipe_server_round, wait_for_signal, read_now, notify_client.
  split_and!; exec; cbn [data]; rewrite Hn; exec; rewrite ?E; exec; try done; by destruct (rv rw =? 0).
Qed.

(** A closed stream.  When the client's [fread] finds the end of the
    stream, the fifo client dies; the pipe client, which compares the unsigned
    result with -1, measures the time since the previous message's timestamp
    and goes on. *)
Theorem stream_client_at_eof stream sa bench r0 rs' rest sec nsec t :
  now sec nsec = Some t -> 0 <= single_start bench < 2 ^ 64 ->
  let answers := r0 :: rs' :: val 0 :: mk_result 0 0 [sec; nsec] :: rest in
  outcome_on (fifo_client_round stream sa bench) answers = Died "Error reading buffer" /\
  outcome_on (pipe_client_round stream sa bench) answers =
    match benchmark t bench with Some bench' => Done bench' | None => Undefined end.
Proof.
  intros Hn Hb answers.
  unfold answers, fifo_client_round, fifo_client_msg_wait, pipe_client_round, wait_for_signal,
    notify_server, benchmark_call, read_now. split; [done|].
  exec. cbn [data val rv]. change (0 =? u64 (-1)) with false. exec. cbn [data]. rewrite Hn. exec.
  cbn [data val]. rewrite store_single_start_nil by done. by destruct (benchmark _ _).
Qed.

(** ** Witnesses *)

Definition stream_round (t : Z) : list stream_turn :=
  [StreamClient false; StreamClient false; StreamServer 0; StreamServer t; StreamServer 0; StreamServer 0; StreamServer 0;
   StreamClient false; StreamClient false; StreamClient false].

Definition stream_schedule : list stream_turn :=
  [StreamServer 0; StreamClient false; StreamClient false; StreamServer 0] ++ stream_round 77 ++ stream_round (2 ^ 50).

Definition stream_state_w : stream_state :=
  default (stream_init SS_killed) (stream_run true stream_schedule (stream_init SS_start)).

Lemma stream_reachable_w : rtc (stream_step true) (stream_init SS_start) stream_state_w.
Proof. apply (stream_run_steps true stream_schedule). by vm_compute. Qed.

Lemma stream_delivery_witness :
  ss_received stream_state_w = [77; 2 ^ 50] /\ (length (ss_stream stream_state_w) <= 8)%nat.
Proof.
  split; [by vm_compute|].
  apply (stream_delivery true SS_start stream_state_w); [by left|exact stream_reachable_w].
Defined.

Lemma stream_progress_witness : exists s', stream_step true stream_state_w s'.
Proof.
  apply (stream_progress true SS_start stream_state_w); [by left|exact stream_reachable_w|by vm_compute].
Defined.

Lemma stream_server_calls_witness :
  outcome_on (pipe_server_round 5 (mk_sigaction 0 [10] 0))
    [val 0; mk_result 0 0 [1700000000; 0]; val 0; val 0; val 0] = Done ().
Proof.
  apply (stream_server_calls 5 (mk_sigaction 0 [10] 0) (val 0) 1700000000 0 1700000000000000000
    (val 0) (val 0) (val 0)).
  - vm_compute. reflexivity.
  - simpl. lia.
Defined.

Lemma stream_client_at_eof_witness :
  outcome_on (fifo_client_round 5 (mk_sigaction 0 [12] 0) (mk_Benchmarks 0 7 0 0 0 0 0))
    [val 0; val 0; val 0; mk_result 0 0 [1700000000; 0]] = Died "Error reading buffer".
Proof.
  apply (stream_client_at_eof 5 (mk_sigaction 0 [12] 0) (mk_Benchmarks 0 7 0 0 0 0 0) (val 0) (val 0) []
    1700000000 0 1700000000000000000).
  - vm_compute. reflexivity.
  - simpl. lia.
Defined.
