(* ===== verification/StreamLink.v ===== *)
(** * fifo and pipe: the programs make the protocol's moves

    [fifo_server_main], the loop of the pipe's server and those of both clients
    run in the place of their processes in the protocol of [FifoPipe]. *)
From S2P Require Import Prelude Kernel Memory Benchmarks Linking Signals FifoPipe.

#[local] Arguments le_bytes : simpl never.

(** ** The server *)

(** The choices for a call of the server: the client's moves. *)
Definition stream_server_turn (rendezvous : bool) : Type := turn bool.

Definition stream_server_answer (rz : bool) (t : stream_server_turn rz) (c : syscall) (s : stream_state)
    : reply stream_state :=
  let move := stream_server_move rz 0 s in
  match ss_server s, c with
  | SS_start, Sigaction _ _ _ _ => by_system t s
  | SS_start, Sigprocmask_block mask => if bool_decide (mask = [SIGUSR1]) then by_move move (val 0) else Strange
  | SS_masked, (Usleep _ | Mkfifo _ _) => by_system t s
  | SS_masked, Fopen _ _ => if rv (tn_result t) =? 0 then by_system t s else by_move move (tn_result t)
  | SS_wait, Sigwait mask => if bool_decide (mask = [SIGUSR1]) then by_move move (val 0) else Strange
  | SS_now, Timespec_get => by_clock t (fun v => stream_server_move rz v s)
  | SS_write, Fwrite _ bytes =>
      if bool_decide (bytes = le_bytes 8 (ss_timestamp s)) then by_move move (val 1) else Strange
  | SS_flush, Fflush _ => by_move move (val 0)
  | SS_notify, Kill pid signal => if (pid =? 0) && (signal =? SIGUSR2) then by_move move (val 0) else Strange
  | _, _ => Strange
  end.

Lemma stream_server_answer_steps rz t c s r s' :
  stream_server_answer rz t c s = Answer r s' -> rtc (stream_step rz) s s'.
Proof.
  assert (Hm : forall v s1, stream_server_move rz v s = Some s1 -> rtc (stream_step rz) s s1)
    by (intros v s1 H; eapply rtc_once, Stream_server, H).
  unfold stream_server_answer. intros H. destruct (ss_server s), c; try done; repeat case_match; simplify_eq;
    try (apply by_move_inv in H; by eapply Hm); try (injection H as _ <-; apply rtc_refl).
  apply by_clock_inv in H as [v H]. by eapply Hm.
Qed.

#[export] Instance stream_server_link rz : Link stream_state (stream_server_turn rz) := {
  link_step := stream_step rz;
  link_others t s := moves_along (stream_client_move rz) (tn_others t) s;
  link_answer := stream_server_answer rz;
  link_others_steps t s := moves_along_rtc _ (stream_step rz) _ s (fun b s1 s2 => Stream_client rz b s1 s2);
  link_answer_steps := stream_server_answer_steps rz;
  link_errno _ _ := True;
  link_others_errno _ _ _ H := H;
  link_answer_errno _ _ _ _ _ _ H _ := H;
}.

(** The server at a place of its protocol, with its timestamp. *)
Definition stream_server_at (rz : bool) (pc : stream_server_pc) (ts : option Z) (s : stream_state) : Prop :=
  stream_inv rz s /\ ss_server s = pc /\ match ts with Some v => ss_timestamp s = v | None => True end.

Lemma stream_client_move_keeps rz b s s' :
  stream_inv rz s -> stream_client_move rz b s = Some s' ->
  ss_server s' = ss_server s /\ ss_timestamp s' = ss_timestamp s.
Proof.
  destruct s as [u1 u2 st sv ts sent cl ss rcv]. intros [Hok _]. destruct cl; cbn [stream_client_move]; intros H;
    try (by simplify_eq); try (repeat case_match; by simplify_eq).
  - destruct sv; simplify_eq; try done. simpl in Hok. tauto.
Qed.

Lemma stream_server_at_stable rz pc ts : stable (T:=stream_server_turn rz) (stream_server_at rz pc ts).
Proof.
  intros t s H. cbn. apply moves_along_inv; [|done].
  intros b s1 s2 (H1 & H2 & H3) Hm. destruct (stream_client_move_keeps _ _ _ _ H1 Hm) as [E1 E2].
  split; [by eapply stream_inv_client|]. by rewrite E1, E2.
Qed.

(** Where a move of the server leads; [v] is the clock. *)
Definition after_server (rz : bool) (v : Z) (pc : stream_server_pc) : stream_state -> Prop :=
  match pc with
  | SS_start => stream_server_at rz SS_masked None
  | SS_masked => stream_server_at rz SS_wait None
  | SS_wait => stream_server_at rz SS_now None
  | SS_now => stream_server_at rz SS_write (Some v)
  | SS_write => stream_server_at rz SS_flush None
  | SS_flush => stream_server_at rz SS_notify None
  | SS_notify => stream_server_at rz SS_wait None
  | SS_killed => fun _ => False
  end.

Lemma stream_server_moves rz v s s' :
  stream_inv rz s -> stream_server_move rz v s = Some s' -> after_server rz v (ss_server s) s'.
Proof.
  intros Hi Hm. pose proof (stream_inv_server _ _ _ _ Hi Hm) as Hi'.
  destruct s as [u1 u2 st sv ts sent cl ss rcv]. destruct sv; cbn [stream_server_move] in Hm; cbn [ss_server];
    repeat case_match; simplify_eq; by split_and!.
Qed.

Section server.
Context (rz : bool).
Abbreviation W := (world stream_state (stream_server_turn rz)).

Lemma stream_server_call pc ts c r D R :
  (forall t s, ss_server s = pc -> match ts with Some v => ss_timestamp s = v | None => True end ->
     stream_server_answer rz t c s = by_move (stream_server_move rz 0 s) r) ->
  triple (stream_server_at rz pc ts) (sys (W:=W) c) (fun r' s => r' = r /\ after_server rz 0 pc s) D R.
Proof.
  intros Ha. eapply triple_move; [apply stream_server_at_stable| |].
  - intros t s (_ & Hpc & Hts). by apply Ha.
  - intros s s' (Hi & Hpc & _) Hm. split; [done|]. rewrite <- Hpc. by eapply stream_server_moves.
Qed.

Lemma stream_server_call_ pc ts c r D R :
  (forall t s, ss_server s = pc -> match ts with Some v => ss_timestamp s = v | None => True end ->
     stream_server_answer rz t c s = by_move (stream_server_move rz 0 s) r) ->
  triple (stream_server_at rz pc ts) (sys_ (W:=W) c) (fun _ => after_server rz 0 pc) D R.
Proof.
  intros Ha. apply triple_ignoring. eapply triple_conseq; [by apply stream_server_call|done| |done|done].
  by intros r' s [_ H].
Qed.

Lemma stream_server_call_rv pc ts c r D R :
  (forall t s, ss_server s = pc -> match ts with Some v => ss_timestamp s = v | None => True end ->
     stream_server_answer rz t c s = by_move (stream_server_move rz 0 s) r) ->
  triple (stream_server_at rz pc ts) (sys_rv (W:=W) c) (fun v s => v = rv r /\ after_server rz 0 pc s) D R.
Proof.
  intros Ha. apply triple_returning. eapply triple_conseq; [by apply stream_server_call|done| |done|done].
  by intros r' s [-> H].
Qed.

(** Proves the condition of [stream_server_call]. *)
Ltac answered :=
  let t := fresh "t" in let s := fresh "s" in let H := fresh "H" in
  intros t s H ?; unfold stream_server_answer; rewrite H, ?bool_decide_eq_true_2 by congruence; reflexivity.

(** The round of both servers; [fails] is the test of the result of [fwrite]. *)
Lemma stream_server_rounds stream sa fails message D R :
  sa_mask sa = [SIGUSR1] -> fails 1 = false ->
  triple (stream_server_at rz SS_wait None)
    (wait_for_signal sa;;
     timestamp ← read_now;
     written ← sys_rv (Fwrite stream (le_bytes 8 timestamp));
     throw_if (fails written) message;;
     sys_ (Fflush stream);;
     notify_client (W:=W)) (fun _ => stream_server_at rz SS_wait None) D R.
Proof.
  intros Hsa Hf. unfold wait_for_signal, notify_client.
  eapply triple_bind; [halting|apply (stream_server_call_ SS_wait None _ (val 0)); answered|intros u].
  eapply triple_bind; [halting| |intros v].
  { apply (triple_read_now _ (fun v => stream_server_at rz SS_write (Some v))); [apply stream_server_at_stable|].
    intros t s (Hi & Hpc & _). cbn [link_answer stream_server_link]. unfold stream_server_answer, by_clock.
    rewrite Hpc. destruct (now _ _) as [v|] eqn:Hn; [|done].
    destruct (stream_server_move rz v s) as [s'|] eqn:Hm; [|done]. cbn. do 3 eexists.
    split_and!; [done|exact Hn|]. pose proof (stream_server_moves rz v s s' Hi Hm) as H. by rewrite Hpc in H. }
  eapply triple_bind; [halting|apply (stream_server_call_rv SS_write (Some v) _ (val 1)); answered|intros w].
  apply triple_pure. intros ->. apply triple_bind_passes; [done|].
  eapply triple_bind; [halting|apply (stream_server_call_ SS_flush None _ (val 0)); answered|intros u'].
  apply (stream_server_call_ SS_notify None _ (val 0)). answered.
Qed.

(** ** The set-up of fifo *)

(** A server that has not started its loop. *)
Definition stream_setting_up (s : stream_state) : Prop :=
  stream_server_at rz SS_start None s \/ stream_server_at rz SS_masked None s.

Lemma stream_server_system pc c :
  (forall t s, ss_server s = pc -> stream_server_answer rz t c s = by_system t s) ->
  steady (stream_server_at rz pc None) (sys (W:=W) c).
Proof.
  intros Ha. apply steady_sys; [apply stream_server_at_stable|]. intros t s H.
  cbn [link_answer stream_server_link]. rewrite Ha by apply H. exact H.
Qed.

Ltac by_the_system := apply stream_server_system; intros t s H; unfold stream_server_answer; by rewrite H.

Lemma stream_server_signals sa0 R :
  triple (stream_server_at rz SS_start None) (setup_server_signals (W:=W) sa0)
    (fun sa s => sa_mask sa = [SIGUSR1] /\ stream_server_at rz SS_masked None s) stream_setting_up R.
Proof.
  assert (Hi : forall sa, steady (stream_server_at rz SS_start None)
    (setup_ignored_signals (W:=W) sa (Z.lor BLOCK_USR1 IGNORE_USR2))).
  { intros sa. unfold setup_ignored_signals.
    change (flag_set (Z.lor BLOCK_USR1 IGNORE_USR2) BLOCK_USR1) with true.
    change (flag_set (Z.lor BLOCK_USR1 IGNORE_USR2) BLOCK_USR2) with false. cbn [negb].
    steadying. by_the_system. }
  unfold setup_server_signals, setup_signals.
  eapply triple_bind; [halting| |intros sa].
  - eapply triple_bind; [unfold setup_blocked_signals; halting|apply steady_triple_in; [by left|apply Hi]|].
    intros sa. unfold setup_blocked_signals.
    change (flag_set (Z.lor BLOCK_USR1 IGNORE_USR2) BLOCK_USR1) with true.
    change (flag_set (Z.lor BLOCK_USR1 IGNORE_USR2) BLOCK_USR2) with false. cbn [sa_mask app].
    eapply triple_bind; [halting|apply (stream_server_call_ SS_start None _ (val 0)); answered|intros u].
    apply (triple_ret _ _ (fun sa s => sa_mask sa = [SIGUSR1] /\ stream_server_at rz SS_masked None s)).
    intros s H. exact (conj eq_refl H).
  - apply triple_pure. intros Hsa.
    eapply triple_bind; [halting| |intros u; apply triple_ret; intros s H; exact (conj Hsa H)].
    apply steady_triple_in; [by right|]. steadying. by_the_system.
Qed.

Lemma stream_server_opens R :
  triple (stream_server_at rz SS_masked None) (fifo_server_open_fifo (W:=W))
    (fun _ => stream_server_at rz SS_wait None) stream_setting_up R.
Proof.
  unfold fifo_server_open_fifo.
  eapply triple_bind; [halting| |intros made].
  { apply steady_triple_in; [by right|]. steadying. by_the_system. }
  apply triple_bind_check; [by right|]. intros _.
  eapply (triple_bind _ _ _ (fun v s => v = 0 /\ stream_server_at rz SS_masked None s \/
    v <> 0 /\ stream_server_at rz SS_wait None s)); [halting| |intros v].
  - apply triple_sys_rv; [apply stream_server_at_stable|]. intros t s H. pose proof H as (Hi & Hpc & _).
    cbn [link_answer stream_server_link]. unfold stream_server_answer. rewrite Hpc.
    destruct (Z.eqb_spec (rv (tn_result t)) 0) as [Hz|Hz]; [by left|].
    destruct (stream_server_move rz 0 s) as [s'|] eqn:Hm; [|done]. right. split; [done|].
    pose proof (stream_server_moves rz 0 s s' Hi Hm) as H'. by rewrite Hpc in H'.
  - apply triple_bind_check.
    + intros Hz%Z.eqb_eq s [[_ H]|[H _]]; [by right|done].
    + intros Hz%Z.eqb_neq. apply triple_ret. by intros s [[H _]|[_ H]].
Qed.

Lemma stream_server_refines fuel sa0 args :
  triple (stream_server_at rz SS_start None) (fifo_server_main (W:=W) fuel sa0 args) (fun _ _ => False)
    stream_setting_up (stream_server_at rz SS_wait None).
Proof.
  assert (Hloop : forall stream sa, halts (fifo_server_round (W:=W) stream sa))
    by (intros; unfold fifo_server_round, wait_for_signal, notify_client; halting).
  assert (Hcomm : forall stream sa, halts (fifo_server_communicate (W:=W) fuel stream sa)).
  { intros stream sa. unfold fifo_server_communicate, fifo_server_cleanup.
    apply halts_bind; [by apply halts_forever|halting]. }
  unfold fifo_server_main.
  eapply triple_bind; [intros sa; unfold fifo_server_open_fifo; halting; apply Hcomm|apply stream_server_signals|].
  intros sa. apply triple_pure. intros Hsa.
  eapply triple_bind; [intros; apply Hcomm|apply stream_server_opens|intros stream].
  unfold fifo_server_communicate.
  eapply (triple_bind _ _ _ (fun _ _ => False)); [unfold fifo_server_cleanup; halting| |intros u p Hp He []].
  apply triple_forever; [apply Hloop|]. by apply (stream_server_rounds stream sa (fun written => written =? 0)).
Qed.

Lemma fifo_server_loops fuel stream sa :
  sa_mask sa = [SIGUSR1] ->
  triple (stream_server_at rz SS_wait None) (forever fuel (fifo_server_round (W:=W) stream sa)) (fun _ _ => False)
    stream_setting_up (stream_server_at rz SS_wait None).
Proof.
  intros Hsa. apply triple_forever; [unfold fifo_server_round, wait_for_signal, notify_client; halting|].
  by apply (stream_server_rounds stream sa (fun written => written =? 0)).
Qed.

Lemma pipe_server_refines fuel stream sa :
  sa_mask sa = [SIGUSR1] ->
  triple (stream_server_at rz SS_wait None) (forever fuel (pipe_server_round (W:=W) stream sa)) (fun _ _ => False)
    stream_setting_up (stream_server_at rz SS_wait None).
Proof.
  intros Hsa. apply triple_forever; [unfold pipe_server_round, wait_for_signal, notify_client; halting|].
  by apply (stream_server_rounds stream sa (fun written => written =? u64 (-1))).
Qed.

End server.

(** ** The clients *)

(** The choices for a call of a client: the server's moves.  [start] is the
    microseconds the time test compares with. *)
Definition stream_client_turn (rendezvous : bool) (start : Z) : Type := turn Z.

Definition stream_client_answer (rz : bool) (start : Z) (t : stream_client_turn rz start) (c : syscall)
    (s : stream_state) : reply stream_state :=
  let move := stream_client_move rz false s in
  match ss_client s, c with
  | SC_check, Gettimeofday =>
      by_move (stream_client_move rz ((tn_clock t).2 - start >? 100000) s)
        (mk_result 0 0 [(tn_clock t).1; (tn_clock t).2])
  | SC_notify, Kill pid signal => if (pid =? 0) && (signal =? SIGUSR1) then by_move move (val 0) else Strange
  | SC_wait, Sigwait mask => if bool_decide (mask = [SIGUSR2]) then by_move move (val 0) else Strange
  | SC_read, Fread _ size =>
      if size =? 8 then by_move move (mk_result 1 0 (take 8 (ss_stream s))) else Strange
  | SC_benchmark, Timespec_get => by_clock t (fun _ => move)
  | _, _ => Strange
  end.

Lemma stream_client_answer_steps rz start t c s r s' :
  stream_client_answer rz start t c s = Answer r s' -> rtc (stream_step rz) s s'.
Proof.
  assert (Hm : forall b s1, stream_client_move rz b s = Some s1 -> rtc (stream_step rz) s s1)
    by (intros b s1 H; eapply rtc_once, Stream_client, H).
  unfold stream_client_answer. intros H. destruct (ss_client s), c; try done; repeat case_match; simplify_eq;
    try (apply by_move_inv in H; by eapply Hm).
  apply by_clock_inv in H as [v H]. by eapply Hm.
Qed.

#[export] Instance stream_client_link rz start : Link stream_state (stream_client_turn rz start) := {
  link_step := stream_step rz;
  link_others t s := moves_along (stream_server_move rz) (tn_others t) s;
  link_answer := stream_client_answer rz start;
  link_others_steps t s := moves_along_rtc _ (stream_step rz) _ s (fun v s1 s2 => Stream_server rz v s1 s2);
  link_answer_steps := stream_client_answer_steps rz start;
  link_errno _ _ := True;
  link_others_errno _ _ _ H := H;
  link_answer_errno _ _ _ _ _ _ H _ := H;
}.

(** The client at a place, with what it has received and read. *)
Definition stream_client_at (rz : bool) (pc : stream_client_pc) (rcv : list Z) (ss : option Z) (s : stream_state) : Prop :=
  stream_inv rz s /\ ss_client s = pc /\ ss_received s = rcv /\
  match ss with Some v => ss_single_start s = v | None => True end.

Lemma stream_server_move_keeps rz t s s' :
  stream_inv rz s -> ss_client s <> SC_start -> stream_server_move rz t s = Some s' ->
  ss_client s' = ss_client s /\ ss_received s' = ss_received s /\ ss_single_start s' = ss_single_start s.
Proof.
  destruct s as [u1 u2 st sv ts sent cl ss rcv]. intros Hi Hc.
  destruct sv; cbn [stream_server_move]; intros H; try (repeat case_match; by simplify_eq).
Qed.

Lemma stream_client_at_stable rz start pc rcv ss :
  pc <> SC_start -> stable (T:=stream_client_turn rz start) (stream_client_at rz pc rcv ss).
Proof.
  intros Hpc t s H. cbn. apply moves_along_inv; [|done].
  intros v s1 s2 (H1 & H2 & H3 & H4) Hm.
  destruct (stream_server_move_keeps rz v s1 s2 H1) as (E1 & E2 & E3); [congruence|done|].
  split; [by eapply stream_inv_server|]. by rewrite E1, E2, E3.
Qed.

Section client.
Context (rz : bool) (start : Z).
Abbreviation W := (world stream_state (stream_client_turn rz start)).

Lemma stream_client_tests rcv D R :
  triple (stream_client_at rz SC_check rcv None) (gettimeofday_usec (W:=W))
    (fun usec s => if usec - start >? 100000 then stream_client_at rz SC_done rcv None s
                   else stream_client_at rz SC_notify rcv None s) D R.
Proof.
  apply triple_gettimeofday; [by apply stream_client_at_stable|]. intros t s (Hi & Hpc & Hr & _).
  cbn [link_answer stream_client_link]. unfold stream_client_answer. rewrite Hpc.
  destruct (stream_client_move rz _ s) as [s'|] eqn:Hm; [|done]. cbn. do 2 eexists. split; [done|].
  pose proof (stream_inv_client _ _ _ _ Hi Hm) as Hi'.
  destruct s as [u1 u2 st sv ts sent cl ss rcv']. simpl in Hpc, Hr. subst. cbn [stream_client_move] in Hm.
  destruct (_ >? _); injection Hm as <-; by split_and!.
Qed.

(** [notify_server(); wait_for_signal(); fread(...)]. *)
Lemma stream_client_notifies rcv D R :
  triple (stream_client_at rz SC_notify rcv None) (notify_server (W:=W)) (fun _ => stream_client_at rz SC_wait rcv None) D R.
Proof.
  apply triple_ignoring. apply (triple_move _ _ (val 0) (stream_client_move rz false)).
  - by apply stream_client_at_stable.
  - intros t s (_ & Hpc & _). cbn. unfold stream_client_answer. by rewrite Hpc.
  - intros s s' (Hi & Hpc & Hr & _) Hm. pose proof (stream_inv_client _ _ _ _ Hi Hm) as Hi'.
    destruct s as [u1 u2 st sv ts sent cl ss rcv']. simpl in Hpc, Hr. subst. cbn [stream_client_move] in Hm.
    destruct sv; injection Hm as <-; by split_and!.
Qed.

Lemma stream_client_waits sa rcv D R :
  sa_mask sa = [SIGUSR2] ->
  triple (stream_client_at rz SC_wait rcv None) (wait_for_signal (W:=W) sa) (fun _ => stream_client_at rz SC_read rcv None) D R.
Proof.
  intros Hsa. apply triple_ignoring. apply (triple_move _ _ (val 0) (stream_client_move rz false)).
  - by apply stream_client_at_stable.
  - intros t s (_ & Hpc & _). cbn. unfold stream_client_answer. by rewrite Hpc, Hsa, bool_decide_eq_true_2.
  - intros s s' (Hi & Hpc & Hr & _) Hm. pose proof (stream_inv_client _ _ _ _ Hi Hm) as Hi'.
    destruct s as [u1 u2 st sv ts sent cl ss rcv']. simpl in Hpc, Hr. subst. cbn [stream_client_move] in Hm.
    destruct u2; [|done]. injection Hm as <-. by split_and!.
Qed.

Lemma stream_client_reads stream rcv D R :
  triple (stream_client_at rz SC_read rcv None) (sys (W:=W) (Fread stream 8))
    (fun r s => (rv r = 1 /\ length (data r) = 8%nat) /\ stream_client_at rz SC_benchmark rcv (Some (le_value (data r))) s) D R.
Proof.
  apply triple_sys; [by apply stream_client_at_stable|]. intros t s (Hi & Hpc & Hr & _).
  cbn [link_answer stream_client_link]. unfold stream_client_answer. rewrite Hpc. change (8 =? 8) with true. cbn iota.
  destruct (stream_client_move rz false s) as [s'|] eqn:Hm; [|done]. cbn.
  pose proof (stream_inv_client _ _ _ _ Hi Hm) as Hi'.
  destruct s as [u1 u2 st sv ts sent cl ss rcv']. simpl in Hpc, Hr. subst. cbn [stream_client_move] in Hm.
  case_decide as Hd; [|done]. injection Hm as <-. cbn [ss_stream]. rewrite length_take. split; [split; [done|lia]|].
  by split_and!.
Qed.

Lemma stream_client_benchmarks bench v rcv D R :
  0 <= count bench < INT32_MAX ->
  triple (stream_client_at rz SC_benchmark rcv (Some v)) (benchmark_call (W:=W) (set_single_start bench v))
    (fun b s => exists v', (exists t, benchmark t (set_single_start bench v') = Some b) /\
       stream_client_at rz SC_check (rcv ++ [v']) None s) D R.
Proof.
  intros Hc. apply (triple_benchmark_from _ (fun v => stream_client_at rz SC_check (rcv ++ [v]) None)); [done|].
  apply triple_read_now; [by apply stream_client_at_stable|].
  intros t s (Hi & Hpc & Hr & Hss). cbn [link_answer stream_client_link]. unfold stream_client_answer, by_clock.
  rewrite Hpc. destruct (now _ _) as [w|] eqn:Hn; [|done].
  destruct (stream_client_move rz false s) as [s'|] eqn:Hm; [|done]. cbn. do 3 eexists.
  split_and!; [done|exact Hn|]. pose proof (stream_inv_client _ _ _ _ Hi Hm) as Hi'.
  destruct s as [u1 u2 st sv ts sent cl ss rcv']. simpl in Hpc, Hr, Hss. subst. cbn [stream_client_move] in Hm.
  injection Hm as <-. by split_and!.
Qed.

Lemma store_single_start_eight bench bytes :
  length bytes = 8%nat -> store_single_start bench bytes = set_single_start bench (le_value bytes).
Proof.
  intros Hl. unfold store_single_start, fread_into. rewrite drop_ge, app_nil_r; [done|].
  rewrite length_le_bytes. lia.
Qed.

(** The round of both clients; [fails] is the test of the result of [fread]. *)
Lemma stream_client_rounds stream sa fails message bench rcv D R :
  sa_mask sa = [SIGUSR2] -> fails 1 = false -> 0 <= count bench < INT32_MAX ->
  triple (stream_client_at rz SC_notify rcv None)
    (notify_server (W:=W);;
     wait_for_signal sa;;
     r ← sys (Fread stream 8);
     throw_if (fails (rv r)) message;;
     benchmark_call (store_single_start bench (data r)))
    (fun b s => exists v, (exists t, benchmark t (set_single_start bench v) = Some b) /\
       stream_client_at rz SC_check (rcv ++ [v]) None s) D R.
Proof.
  intros Hsa Hf Hc.
  eapply triple_bind; [unfold wait_for_signal, benchmark_call; halting|apply stream_client_notifies|intros u].
  eapply triple_bind; [unfold benchmark_call; halting|by apply stream_client_waits|intros u'].
  eapply triple_bind; [unfold benchmark_call; halting|apply stream_client_reads|intros r].
  apply triple_pure. intros [Hv Hl]. apply triple_bind_passes; [by rewrite Hv|].
  rewrite store_single_start_eight by done. by apply stream_client_benchmarks.
Qed.

(** The whole loop, for both clients. *)
Definition stream_client_done (bench0 : Benchmarks) (r : Benchmarks * Z) (s : stream_state) : Prop :=
  exists rcv, measured bench0 rcv r.1 /\ r.2 = Z.of_nat (length rcv) /\ stream_client_at rz SC_done rcv None s.
Definition stream_client_running (s : stream_state) : Prop := exists rcv, stream_client_at rz SC_check rcv None s.

(** What was received is what was sent, when the client is done. *)
Lemma stream_client_done_sent bench0 r s :
  stream_client_done bench0 r s ->
  ss_client s = SC_done /\ r.2 = Z.of_nat (length (ss_sent s)) /\ measured bench0 (ss_sent s) r.1.
Proof.
  intros (rcv & Hm & Hl & [Hok _] & Hd & Hrc & _). destruct s as [u1 u2 st sv ts sent cl ss rcv'].
  simpl in Hd, Hrc. subst. by destruct Hok as [(_ & _ & _ & <-) _].
Qed.

Lemma stream_client_measures stream sa round fuel bench0 :
  round = fifo_client_round (W:=W) stream sa \/ round = pipe_client_round stream sa ->
  sa_mask sa = [SIGUSR2] -> 0 <= count bench0 -> count bench0 + Z.of_nat fuel <= INT32_MAX ->
  triple (stream_client_at rz SC_check [] None) (timed_loop fuel gettimeofday_usec start round bench0 0)
    (stream_client_done bench0) (fun _ => False) stream_client_running.
Proof.
  intros Hround Hsa Hc Hf.
  apply (client_loops (fun rcv => stream_client_at rz SC_check rcv None) (fun rcv => stream_client_at rz SC_notify rcv None)
    (fun rcv => stream_client_at rz SC_done rcv None) (fun _ => True) (fun b => b)); try done.
  - intros b. destruct Hround as [-> | ->];
      unfold fifo_client_round, fifo_client_msg_wait, pipe_client_round, notify_server, wait_for_signal, benchmark_call;
      halting.
  - intros rcv s H. by exists rcv.
  - intros rcv. apply stream_client_tests.
  - intros rcv b _ Hcnt. eapply triple_conseq; [|exact (fun _ H => H)| |exact (fun _ H => H)|exact (fun _ H => H)].
    + destruct Hround as [-> | ->].
      * by apply (stream_client_rounds stream sa (fun r => r =? 0)).
      * by apply (stream_client_rounds stream sa (fun r => r =? u64 (-1))).
    + intros b' s H. exact (conj I H).
Qed.

End client.

(** ** Properties *)

(** The server of fifo makes the moves of its protocol.  From the start of
    both programs, beside any client, [fifo_server_main] calls nothing but its
    set-up and the moves of [stream_server_move], in their order and with the
    right arguments; it has no undefined behaviour, dies only when its set-up
    fails, and otherwise is waiting for the next request when the fuel of its
    loop is used up. *)
Theorem fifo_server_refines fuel sa0 args (p : process (world stream_state (stream_server_turn true))) o q :
  w_progress (env p) = Live -> w_state (env p) = stream_init SS_start ->
  fifo_server_main fuel sa0 args p = (o, q) ->
  rtc (stream_step true) (stream_init SS_start) (w_state (env q)) /\
  match w_progress (env q) with
  | Live => o = Running /\ ss_server (w_state (env q)) = SS_wait \/
            (exists message, o = Died message) /\
              (ss_server (w_state (env q)) = SS_start \/ ss_server (w_state (env q)) = SS_masked)
  | Halted => True
  | Astray => False
  end.
Proof.
  intros Hp Hw Hrun. destruct (stream_server_refines true fuel sa0 args p Hp I) as [Hr He].
  { rewrite Hw. split; [|done]. apply (stream_inv_reachable true SS_start); [by left|apply rtc_refl]. }
  rewrite Hrun in Hr, He. rewrite Hw in Hr. cbn [fst snd] in *. split; [done|].
  destruct (w_progress (env q)); [destruct He as [_ He]|done|done].
  destruct o as [a|message| |]; [done|right|done|left].
  - split; [by eexists|]. destruct He as [(_ & H & _)|(_ & H & _)]; auto.
  - by destruct He as (_ & H & _).
Qed.

(** The clients of fifo and pipe measure what the server sends.  Their loop,
    run beside any server from a state in which nothing has been received,
    makes only the moves of the protocol and never dies; when it ends, the
    count it prints is that of the timestamps the server has sent, and its
    record that of one measurement from each of them, in order. *)
Theorem stream_clients_measure rz sv start fuel stream sa round bench0
    (p : process (world stream_state (stream_client_turn rz start))) o q :
  (rz = true /\ sv = SS_start) \/ sv = SS_masked ->
  round = fifo_client_round stream sa \/ round = pipe_client_round stream sa ->
  sa_mask sa = [SIGUSR2] -> 0 <= count bench0 -> count bench0 + Z.of_nat fuel <= INT32_MAX ->
  w_progress (env p) = Live -> rtc (stream_step rz) (stream_init sv) (w_state (env p)) ->
  ss_client (w_state (env p)) = SC_check -> ss_received (w_state (env p)) = [] ->
  timed_loop fuel gettimeofday_usec start round bench0 0 p = (o, q) ->
  rtc (stream_step rz) (w_state (env p)) (w_state (env q)) /\
  match w_progress (env q) with
  | Live => o = Running /\ ss_client (w_state (env q)) = SC_check \/
            exists bench cnt, o = Done (bench, cnt) /\ ss_client (w_state (env q)) = SC_done /\
              cnt = Z.of_nat (length (ss_sent (w_state (env q)))) /\
              measured bench0 (ss_sent (w_state (env q))) bench
  | Halted => True
  | Astray => False
  end.
Proof.
  intros Hsv Hround Hsa Hc Hf Hp Hreach Hpc Hrcv Hrun.
  destruct (stream_client_measures rz start stream sa round fuel bench0) with (p := p) as [Hsteps He]; try done.
  { split; [by eapply stream_inv_reachable|done]. }
  rewrite Hrun in Hsteps, He. cbn [fst snd] in *. split; [done|].
  destruct (w_progress (env q)); [destruct He as [_ He]|done|done].
  destruct o as [[b cnt]|msg| |]; [|done|done|]; cbn in He.
  - right. apply stream_client_done_sent in He as (H1 & H2 & H3). by exists b, cnt.
  - left. destruct He as (rcv & _ & Hd & _). done.
Qed.

(** ** Witnesses *)

Definition fifo_choices : list (stream_server_turn true) :=
  let c moves v := mk_turn moves (1700000000, 0) (val v) in
  [c [] 0; c [] 0; c [] 0; c [] 0; c [false] 5;
   c [false; false; false] 0; c [] 0; c [] 0; c [] 0; c [] 0;
   c [false; false; false; false; false] 0; c [] 0; c [] 0; c [] 0; c [] 0].

Lemma fifo_server_refines_witness :
  let p := mk_process 0 [] (mk_world (stream_init SS_start) fifo_choices Live) in
  let run := fifo_server_main 2 (mk_sigaction 0 [] 0) (mk_Arguments 16 1000) p in
  w_progress (env run.2) = Live /\ ss_sent (w_state (env run.2)) = [1700000000000000000; 1700000000000000000] /\
  rtc (stream_step true) (stream_init SS_start) (w_state (env run.2)).
Proof.
  intros p run. split; [by vm_compute|]. split; [by vm_compute|].
  exact (proj1 (fifo_server_refines 2 (mk_sigaction 0 [] 0) (mk_Arguments 16 1000) p run.1 run.2
    eq_refl eq_refl (surjective_pairing run))).
Defined.

Definition pipe_choices : list (stream_client_turn false 500000) :=
  let c moves usec := mk_turn moves (1700000000, usec) (val 0) in
  [c [] 500100; c [] 0; c [0; 1699999999999999744; 0; 0; 0] 0; c [] 0; c [] 256; c [] 600001].

Lemma stream_clients_measure_witness :
  let s := state_along (stream_exec false) [StreamServer 0; StreamClient false; StreamClient false] (stream_init SS_masked) in
  let sa := mk_sigaction 0 [SIGUSR2] 0 in
  let p := mk_process 0 [] (mk_world s pipe_choices Live) in
  let run := timed_loop 3 gettimeofday_usec 500000 (pipe_client_round 5 sa) (mk_Benchmarks 0 0 INT32_MAX 0 0 0 0) 0 p in
  w_progress (env run.2) = Live /\ ss_client (w_state (env run.2)) = SC_done /\
  ss_sent (w_state (env run.2)) = [1699999999999999744] /\
  rtc (stream_step false) s (w_state (env run.2)).
Proof.
  intros s sa p run. split; [by vm_compute|]. split; [by vm_compute|]. split; [by vm_compute|].
  assert (Hs : rtc (stream_step false) (stream_init SS_masked) s).
  { apply state_along_rtc; [|by vm_compute; eexists].
    intros [t|b] s1 s2 H; [by eapply Stream_server|by eapply Stream_client]. }
  exact (proj1 (stream_clients_measure false SS_masked 500000 3 5 sa _ (mk_Benchmarks 0 0 INT32_MAX 0 0 0 0) p
    run.1 run.2 (or_intror eq_refl) (or_intror eq_refl) eq_refl ltac:(done) ltac:(by vm_compute) eq_refl Hs eq_refl eq_refl
    (surjective_pairing run))).
Defined.
