(* ===== verification/StreamPair.v ===== *)
(** * fifo and pipe: the two programs together

    The loops of the servers and the clients of fifo/ and pipe/, call by call in
    any order, over two signals and one stream. *)
From S2P Require Import Prelude Kernel Memory Benchmarks Linking Together Signals FifoPipe StreamLink.

#[local] Arguments le_bytes : simpl never.

(** ** The programs call nothing but the kernel *)
(** The server of fifo, or of pipe. *)
Definition stream_server_round (pipe : bool) (stream : Z) (sa : sigaction) W `{!Kernel W} : M (process W) () :=
  if pipe then pipe_server_round stream sa else fifo_server_round stream sa.
Definition stream_client_round (pipe : bool) (stream : Z) (sa : sigaction) (bench : Benchmarks) W `{!Kernel W}
    : M (process W) Benchmarks :=
  if pipe then pipe_client_round stream sa bench else fifo_client_round stream sa bench.

Lemma interactive_stream_server pipe stream sa : interactive (stream_server_round pipe stream sa).
Proof.
  unfold stream_server_round, pipe_server_round, fifo_server_round, wait_for_signal, notify_client, read_now.
  destruct pipe; interacting.
Qed.

Lemma interactive_stream_client pipe stream sa bench : interactive (stream_client_round pipe stream sa bench).
Proof.
  unfold stream_client_round, pipe_client_round, fifo_client_round, fifo_client_msg_wait, wait_for_signal, notify_server,
    benchmark_call, read_now.
  destruct pipe; interacting.
Qed.

(** ** The two sides of the protocol *)
#[export] Instance stream_server_choices_ok rz : Choices stream_state (stream_server_turn rz).
Proof.
  refine {| link_alone := turn_alone : stream_server_turn rz -> stream_server_turn rz; link_then := turn_then |}; try done.
  intros. cbn. apply moves_along_app.
Defined.

#[export] Instance stream_client_choices_ok rz start : Choices stream_state (stream_client_turn rz start).
Proof.
  refine {| link_alone := turn_alone : stream_client_turn rz start -> stream_client_turn rz start;
            link_then := turn_then |}; try done.
  intros. cbn. apply moves_along_app.
Defined.

#[export] Instance stream_server_beside rz start : Beside stream_state (stream_server_turn rz) (stream_client_turn rz start).
Proof.
  constructor. intros t c s r s' H. cbn in H.
  assert (exists b, stream_client_move rz b s = Some s') as [b Hm].
  { unfold stream_client_answer in H. destruct (ss_client s), c; try done; repeat case_match; simplify_eq;
      try (apply by_move_inv in H; by eexists). apply by_clock_inv in H as [v H]. by eexists. }
  exists (mk_turn [b] (0, 0) (val 0)). cbn. unfold moves_along. cbn. by rewrite Hm.
Qed.

#[export] Instance stream_client_beside rz start : Beside stream_state (stream_client_turn rz start) (stream_server_turn rz).
Proof.
  constructor. intros t c s r s' H. cbn in H.
  assert (s' = s \/ exists v, stream_server_move rz v s = Some s') as [->|[v Hm]].
  { unfold stream_server_answer in H. destruct (ss_server s), c; try done; repeat case_match; simplify_eq;
      try (apply by_move_inv in H; right; by eexists); try (injection H as _ <-; by left).
    apply by_clock_inv in H as [v H]. right. by eexists. }
  - by exists (mk_turn [] (0, 0) (val 0)).
  - exists (mk_turn [v] (0, 0) (val 0)). cbn. unfold moves_along. cbn. by rewrite Hm.
Qed.

(** ** A call that is expected and possible is answered *)
Lemma stream_client_answers rz start c s :
  (forall t, stream_client_answer rz start (turn_alone t) c s <> Strange) -> is_Some (stream_client_move rz false s) ->
  exists t r s', stream_client_answer rz start (turn_alone t) c s = Answer r s'.
Proof.
  intros Hc [s' Hm]. specialize (Hc (mk_turn [] (0, 0) (val 0))). exists (mk_turn [] (0, 0) (val 0)).
  unfold stream_client_answer, by_clock, turn_alone in *. cbn [tn_clock tn_result fst snd] in *. rewrite Hm in *.
  destruct (ss_client s) eqn:Hpc, c; try done; try (case_match; [|done]); try by do 2 eexists.
  destruct s as [u1 u2 st sv ts sent cl ss rcv]. simpl in Hpc. subst. by do 2 eexists.
Qed.

Lemma stream_server_answers rz c s :
  (forall t, stream_server_answer rz (turn_alone t) c s <> Strange) -> is_Some (stream_server_move rz 0 s) ->
  exists t r s', stream_server_answer rz (turn_alone t) c s = Answer r s'.
Proof.
  intros Hc [s' Hm]. specialize (Hc (mk_turn [] (0, 0) (val 1))). exists (mk_turn [] (0, 0) (val 1)).
  assert (E : now 0 0 = Some 0) by by vm_compute.
  unfold stream_server_answer, by_clock, turn_alone in *. cbn [tn_clock tn_result fst snd] in *. rewrite E, Hm in *.
  destruct (ss_server s) eqn:Hpc, c; try done; try (case_match; [|done]); by do 2 eexists.
Qed.

(** Until the client is done, somebody can go on. *)
Lemma stream_ready rz s :
  stream_inv rz s ->
  ss_client s = SC_done \/ is_Some (stream_client_move rz false s) \/ is_Some (stream_server_move rz 0 s).
Proof.
  intros Hi. assert (ss_client s = SC_done \/ ss_client s <> SC_done) as [Hd|Hd] by (destruct (ss_client s); auto); [by left|right].
  destruct (stream_enabled rz s Hi Hd) as [s' Hs].
  destruct Hs as [t [u1 u2 st sv ts sent cl ss rcv] s' Hm|b [u1 u2 st sv ts sent cl ss rcv] s' Hm]; [right|left].
  - destruct sv; cbn [stream_server_move] in *; try by eexists.
  - destruct cl; cbn [stream_client_move] in *; try by eexists.
Qed.

(** ** The pair *)
Section pair.
Context (rz pipe : bool) (start : Z) (fuel_s fuel_c : nat) (stream_s stream_c : Z) (sa_s sa_c : sigaction).
Context (bench0 : Benchmarks).

Definition stream_server_program W `{!Kernel W} : M (process W) () :=
  forever fuel_s (stream_server_round pipe stream_s sa_s W).
Definition stream_client_program W `{!Kernel W} : M (process W) (Benchmarks * Z) :=
  timed_loop fuel_c gettimeofday_usec start (fun bench => stream_client_round pipe stream_c sa_c bench W) bench0 0.

Definition stream_joint_step : relation (joint stream_state) :=
  joint_step (TA:=stream_server_turn rz) (TB:=stream_client_turn rz start)
    (stream_server_program script) (stream_client_program script).

Lemma stream_pair_sound s0 j :
  sa_mask sa_s = [SIGUSR1] -> sa_mask sa_c = [SIGUSR2] ->
  0 <= count bench0 -> count bench0 + Z.of_nat fuel_c <= INT32_MAX ->
  stream_server_at rz SS_wait None s0 -> stream_client_at rz SC_check [] None s0 ->
  rtc stream_joint_step (mk_joint s0 [] []) j ->
  rtc (stream_step rz) s0 (j_state j) /\
  abides (T:=stream_server_turn rz) (stream_server_program script) (fun _ _ => False) (fun _ => False)
    (stream_server_at rz SS_wait None) (j_first j) (j_state j) /\
  abides (T:=stream_client_turn rz start) (stream_client_program script) (stream_client_done rz bench0)
    (fun _ => False) (stream_client_running rz) (j_second j) (j_state j).
Proof.
  intros Hsas Hsac Hc Hf Hs0 Hc0 Hr. split.
  - by apply (joint_steps (TA:=stream_server_turn rz) (TB:=stream_client_turn rz start)
      stream_server_program stream_client_program) in Hr.
  - apply (joint_sound (TA:=stream_server_turn rz) (TB:=stream_client_turn rz start) stream_server_program stream_client_program
      (interactive_forever fuel_s _ (interactive_stream_server pipe stream_s sa_s))
      (interactive_timed_loop fuel_c start (fun W _ bench => stream_client_round pipe stream_c sa_c bench W)
         (interactive_stream_client pipe stream_c sa_c) bench0 0)
      (stream_server_at rz SS_wait None) (stream_client_at rz SC_check [] None)) with (s0 := s0); try done.
    + unfold stream_server_program, stream_server_round.
      apply triple_forever; destruct pipe;
        try (unfold pipe_server_round, fifo_server_round, wait_for_signal, notify_client; halting).
      * by apply (stream_server_rounds rz stream_s sa_s (fun written => written =? u64 (-1))).
      * by apply (stream_server_rounds rz stream_s sa_s (fun written => written =? 0)).
    + apply (stream_client_measures rz start stream_c sa_c (fun bench => stream_client_round pipe stream_c sa_c bench _));
        try done. destruct pipe; auto.
    + intros a. apply stable_False.
    + apply stable_False.
    + apply stream_server_at_stable.
    + intros r. apply stable_exists. intros rcv. do 2 apply stable_pure. by apply stream_client_at_stable.
    + apply stable_False.
    + apply stable_exists. intros rcv. by apply stream_client_at_stable.
Qed.

End pair.

(** ** Properties *)

(** C5: the two programs of fifo, and of pipe, work together.  From the end of
    both set-ups, in whatever order they signal, read and write, the loops only
    make moves of the protocol: neither dies or has undefined behaviour, the
    client returns the count and the measurements of the timestamps the server
    sent, and until the client has returned (or a loop has used up its fuel)
    one of the two can make its next call: no signal is lost. *)
Theorem stream_together rz pipe sv start fuel_s fuel_c stream_s stream_c sa_s sa_c bench0 s0 j :
  sa_mask sa_s = [SIGUSR1] -> sa_mask sa_c = [SIGUSR2] ->
  0 <= count bench0 -> count bench0 + Z.of_nat fuel_c <= INT32_MAX ->
  (rz = true /\ sv = SS_start) \/ sv = SS_masked -> rtc (stream_step rz) (stream_init sv) s0 ->
  ss_server s0 = SS_wait -> ss_client s0 = SC_check -> ss_received s0 = [] ->
  rtc (stream_joint_step rz pipe start fuel_s fuel_c stream_s stream_c sa_s sa_c bench0) (mk_joint s0 [] []) j ->
  let server := stream_server_program pipe fuel_s stream_s sa_s script in
  let client := stream_client_program pipe start fuel_c stream_c sa_c bench0 script in
  rtc (stream_step rz) s0 (j_state j) /\
  (next_call server (j_first j) = None -> outcome_on server (j_first j) = Running) /\
  (next_call client (j_second j) = None ->
     (exists bench, outcome_on client (j_second j) = Done (bench, Z.of_nat (length (ss_sent (j_state j)))) /\
        measured bench0 (ss_sent (j_state j)) bench) \/
     outcome_on client (j_second j) = Running) /\
  ((exists j', stream_joint_step rz pipe start fuel_s fuel_c stream_s stream_c sa_s sa_c bench0 j j') \/
   next_call server (j_first j) = None \/ next_call client (j_second j) = None).
Proof.
  intros Hsas Hsac Hc Hf Hsv Hreach Hs0 Hc0 Hrcv Hr server client.
  pose proof (stream_inv_reachable rz sv s0 Hsv Hreach) as Hi0.
  destruct (stream_pair_sound rz pipe start fuel_s fuel_c stream_s stream_c sa_s sa_c bench0 s0 j)
    as (Hs & Ha & Hb); try done.
  assert (Hi : stream_inv rz (j_state j)) by (eapply (stream_inv_reachable rz sv); [done|]; by etrans).
  fold server in Ha. fold client in Hb. split_and!; [done|..].
  - intros Hn. unfold abides in Ha. rewrite Hn in Ha. by destruct (outcome_on server (j_first j)).
  - intros Hn. unfold abides in Hb. rewrite Hn in Hb. destruct (outcome_on client (j_second j)) as [[b cnt]| | |];
      try done; [left|by right].
    apply stream_client_done_sent in Hb as (_ & Hl & Hm). cbn in Hl, Hm. subst. by exists b.
  - destruct (stream_ready rz _ Hi) as [Hd|Hm].
    + right; right. unfold abides in Hb. destruct (next_call client (j_second j)) as [d|]; [|done].
      destruct (Hb (mk_turn [] (0, 0) (val 0))). cbn. unfold stream_client_answer. rewrite Hd. by destruct d.
    + eapply joint_goes_on; [apply stream_server_answers|apply stream_client_answers|exact Ha|exact Hb|by apply or_comm].
Qed.

(** ** Witness *)

Definition pipe_schedule : list (stream_server_turn false + stream_client_turn false 500000) :=
  let s := inl (mk_turn [] (1699999999, 999999744) (val 0)) in
  let c usec := inr (mk_turn [] (1700000000, usec) (val 0)) in
  [c 500100; c 0; s; s; s; s; s; c 0; c 0; c 256; c 600001].

Definition pipe_pair_start : stream_state :=
  state_along (stream_exec false) [StreamServer 0; StreamClient false; StreamClient false] (stream_init SS_masked).

Definition pipe_pair_bench : Benchmarks := mk_Benchmarks 0 0 INT32_MAX 0 0 0 0.

Definition pipe_pair_run : joint stream_state :=
  state_along (joint_move (stream_server_program true 3 6 (mk_sigaction 0 [SIGUSR1] 0) script)
      (stream_client_program true 500000 3 5 (mk_sigaction 0 [SIGUSR2] 0) pipe_pair_bench script))
    pipe_schedule (mk_joint pipe_pair_start [] []).

Lemma stream_together_witness :
  next_call (stream_client_program true 500000 3 5 (mk_sigaction 0 [SIGUSR2] 0) pipe_pair_bench script)
    (j_second pipe_pair_run) = None /\
  ss_sent (j_state pipe_pair_run) = [1699999999999999744] /\
  rtc (stream_step false) pipe_pair_start (j_state pipe_pair_run).
Proof.
  split; [by vm_compute|]. split; [by vm_compute|].
  assert (Hs : rtc (stream_step false) (stream_init SS_masked) pipe_pair_start)
    by (apply (stream_run_steps false [StreamServer 0; StreamClient false; StreamClient false]); by vm_compute).
  refine (proj1 (stream_together false true SS_masked 500000 3 3 6 5 (mk_sigaction 0 [SIGUSR1] 0)
    (mk_sigaction 0 [SIGUSR2] 0) pipe_pair_bench pipe_pair_start pipe_pair_run eq_refl eq_refl _ _ (or_intror eq_refl) Hs
    eq_refl eq_refl eq_refl _)); [by vm_compute..|].
  apply state_along_rtc; [intros t a b; apply joint_move_step|by vm_compute; eexists].
Defined.
