(* ===== verification/Network.v ===== *)
(** * tcp and domain: the benchmarks over stream sockets

    [tcp/server.c], [tcp/client.c], [domain/server.c] and [domain/client.c]
    call by call, for every kernel: finding an address, creating and
    configuring the sockets, and the rounds of [communicate] and of the
    clients' loops. *)
From S2P Require Import Prelude Kernel Memory Benchmarks Signals Sockets.

(** A node of the list [getaddrinfo] returns. *)
Record addrinfo := mk_addrinfo {
  ai_family : Z;
  ai_socktype : Z;
  ai_protocol : Z;
  ai_addr : Z;
}.

(** The list, flattened into the data of the call's result. *)
Fixpoint addrinfo_list (l : list Z) : list addrinfo :=
  match l with
  | f :: t :: p :: a :: l => mk_addrinfo f t p a :: addrinfo_list l
  | _ => []
  end.

Definition HOST : string := "localhost".
Definition PORT : string := "6969".
Definition SOCKET_PATH : string := "/tmp/ipc_bench_socket".

Section programs.
Context {W : Type} `{!Kernel W}.

(** ** tcp/server.c *)

Definition handle_blocking (socket_descriptor : Z) : M (process W) () :=
  return_code ← sys_rv (Setsockopt socket_descriptor SO_REUSEADDR [1]);
  throw_if (return_code =? -1) "Error reclaiming socket".

(** Returns the chosen node, if any, and [*socket_descriptor]. *)
Fixpoint tcp_server_get_address (server_info : list addrinfo) (socket_descriptor : Z)
    : M (process W) (option addrinfo * Z) :=
  match server_info with
  | [] => mret (None, socket_descriptor)
  | a :: ai_next =>
      socket_descriptor ← sys_rv (Socket (ai_family a) (ai_socktype a) (ai_protocol a));
      if socket_descriptor =? -1 then tcp_server_get_address ai_next socket_descriptor
      else
        handle_blocking socket_descriptor;;
        return_code ← sys_rv (Bind socket_descriptor (Addr (ai_addr a)));
        (if return_code =? 1 then sys_ (Close socket_descriptor) else mret ());;
        mret (Some a, socket_descriptor)
  end.

Definition get_server_information : M (process W) (list addrinfo) :=
  r ← sys (Getaddrinfo HOST PORT);
  throw_if (negb (rv r =? 0)) "getaddrinfo failed";;
  mret (addrinfo_list (data r)).

Definition setup_socket (side : string) (socket_descriptor : Z) (busy_waiting : bool) : M (process W) () :=
  set_socket_both_buffer_sizes socket_descriptor;;
  if busy_waiting then
    r ← set_io_flag socket_descriptor O_NONBLOCK;
    throw_if (r =? -1) side
  else mret ().

Definition tcp_server_setup_socket := setup_socket "Error setting socket to non-blocking on server-side".

(** [garbage] is the uninitialised local descriptor. *)
Definition tcp_server_create_socket (garbage : Z) : M (process W) Z :=
  server_info ← get_server_information;
  '(valid_address, socket_descriptor) ← tcp_server_get_address server_info garbage;
  sys_ Freeaddrinfo;;
  match valid_address with
  | None => die "Error finding valid address"
  | Some _ =>
      listening ← sys_rv (Listen socket_descriptor 10);
      throw_if (listening =? 1) "Error listening on given socket!";;
      mret socket_descriptor
  end.

Definition accept_communication (socket_descriptor : Z) (busy_waiting : bool) : M (process W) Z :=
  connection ← sys_rv (Accept socket_descriptor);
  throw_if (connection =? -1) "Error accepting";;
  tcp_server_setup_socket connection busy_waiting;;
  sys_ (Close socket_descriptor);;
  mret connection.

(** One iteration of [communicate]; only a result of -1 is a failed send. *)
Definition tcp_server_round (fuel : nat) (descriptor : Z) (args : Arguments) (busy_waiting : bool)
    : M (process W) () :=
  r ← receive fuel descriptor (arg_size args) busy_waiting;
  throw_if (r.1 =? -1) "Error receving from server";;
  timestamp ← read_now;
  sent ← sys_rv (Send descriptor (le_bytes 8 timestamp));
  throw_if (sent =? -1) "Error sending from server".

Definition tcp_cleanup (descriptor buffer : Z) : M (process W) () :=
  sys_ (Close descriptor);; sys_ (Free buffer).

(** [malloc] gets the [int] size converted to [size_t]. *)
Definition tcp_server_communicate (fuel : nat) (descriptor : Z) (args : Arguments) (busy_waiting : bool)
    : M (process W) () :=
  buffer ← sys_rv (Malloc (u64 (arg_size args)));
  forever fuel (tcp_server_round fuel descriptor args busy_waiting);;
  tcp_cleanup descriptor buffer.

(** [main] after the command line. *)
Definition tcp_server_main (fuel : nat) (garbage : Z) (args : Arguments) (busy_waiting : bool)
    : M (process W) () :=
  socket_descriptor ← tcp_server_create_socket garbage;
  connection ← accept_communication socket_descriptor busy_waiting;
  tcp_server_communicate fuel connection args busy_waiting.

(** ** tcp/client.c *)

Fixpoint tcp_client_get_address (server_info : list addrinfo) : M (process W) Z :=
  match server_info with
  | [] => die "Error finding valid address!"
  | a :: ai_next =>
      socket_descriptor ← sys_rv (Socket (ai_family a) (ai_socktype a) (ai_protocol a));
      if socket_descriptor =? -1 then tcp_client_get_address ai_next
      else
        return_code ← sys_rv (Connect socket_descriptor (Addr (ai_addr a)));
        (if return_code =? 1 then sys_ (Close socket_descriptor) else mret ());;
        mret socket_descriptor
  end.

Definition tcp_client_cleanup (descriptor buffer : Z) : M (process W) () :=
  sys_ (Close descriptor);; sys_ (Free buffer).

(** Both programs have their own, with one text. *)
Definition tcp_client_get_server_information : M (process W) (list addrinfo) :=
  r ← sys (Getaddrinfo HOST PORT);
  throw_if (negb (rv r =? 0)) "getaddrinfo failed";;
  mret (addrinfo_list (data r)).

Definition tcp_client_setup_socket := setup_socket "Error setting socket to non-blocking on client-side".

Definition tcp_client_create_socket (busy_waiting : bool) : M (process W) Z :=
  server_info ← tcp_client_get_server_information;
  socket_descriptor ← tcp_client_get_address server_info;
  tcp_client_setup_socket socket_descriptor busy_waiting;;
  sys_ Freeaddrinfo;;
  mret socket_descriptor.

(** One iteration of the clients' loops: [buffer] is the uninitialised message,
    and [receive] fills [bench.single_start]. *)
Definition socket_client_round (sending receiving : string) (fuel : nat) (socket_descriptor : Z)
    (buffer : list Z) (busy_waiting : bool) (bench : Benchmarks) : M (process W) Benchmarks :=
  sent ← sys_rv (Send socket_descriptor buffer);
  throw_if (sent =? -1) sending;;
  r ← receive fuel socket_descriptor 8 busy_waiting;
  throw_if (r.1 =? -1) receiving;;
  benchmark_call (set_single_start bench (le_value r.2)).

Definition tcp_client_round :=
  socket_client_round "Error sending data on client-side" "Error receiving data on client-side".

Definition tcp_client_main (fuel : nat) (args : Arguments) (busy_waiting : bool) (buffer : list Z)
    (bench0 : Benchmarks) : M (process W) (Z * report) :=
  socket_descriptor ← tcp_client_create_socket busy_waiting;
  bench ← setup_benchmarks_call bench0;
  buffer_addr ← sys_rv (Malloc (u64 (arg_size args)));
  printed ← measure_loop fuel (tcp_client_round fuel socket_descriptor buffer busy_waiting) bench args;
  tcp_client_cleanup socket_descriptor buffer_addr;;
  mret printed.

(** ** domain/server.c *)

Definition domain_server_cleanup (connection buffer : Z) : M (process W) () :=
  sys_ (Close connection);; sys_ (Free buffer);;
  removed ← sys_rv (Remove SOCKET_PATH);
  throw_if (removed =? -1) "Error removing domain socket".

(** Eight bytes are sent, and the result is compared with the message size. *)
Definition domain_server_round (fuel : nat) (connection : Z) (args : Arguments) (busy_waiting : bool)
    : M (process W) () :=
  r ← receive fuel connection (arg_size args) busy_waiting;
  throw_if (r.1 =? -1) "Error receiving on server-side";;
  timestamp ← read_now;
  sent ← sys_rv (Send connection (le_bytes 8 timestamp));
  throw_if (sent <? arg_size args) "Error sending on server-side".

Definition domain_server_communicate (fuel : nat) (connection : Z) (args : Arguments) (busy_waiting : bool)
    : M (process W) () :=
  buffer ← sys_rv (Malloc (u64 (arg_size args)));
  forever fuel (domain_server_round fuel connection args busy_waiting);;
  domain_server_cleanup connection buffer.

Definition domain_server_setup_socket (socket_descriptor : Z) : M (process W) () :=
  sys_ (Remove SOCKET_PATH);;
  return_code ← sys_rv (Bind socket_descriptor (Path SOCKET_PATH));
  throw_if (return_code =? -1) "Error binding socket to address";;
  return_code ← sys_rv (Listen socket_descriptor 10);
  throw_if (return_code =? -1) "Could not start listening on socket".

Definition domain_server_create_socket (sa0 : sigaction) : M (process W) Z :=
  socket_descriptor ← sys_rv (Socket AF_UNIX SOCK_STREAM 0);
  throw_if (socket_descriptor =? -1) "Error opening socket on server-side";;
  domain_server_setup_socket socket_descriptor;;
  server_once sa0 NOTIFY;;
  mret socket_descriptor.

Definition accept_connection (socket_descriptor : Z) (busy_waiting : bool) : M (process W) Z :=
  connection ← sys_rv (Accept socket_descriptor);
  throw_if (connection =? -1) "Error accepting connection";;
  setup_socket "Error setting socket to non-blocking on server-side" connection busy_waiting;;
  sys_ (Close socket_descriptor);;
  mret connection.

Definition domain_server_main (fuel : nat) (sa0 : sigaction) (args : Arguments) (busy_waiting : bool)
    : M (process W) () :=
  socket_descriptor ← domain_server_create_socket sa0;
  connection ← accept_connection socket_descriptor busy_waiting;
  domain_server_communicate fuel connection args busy_waiting.

(** ** domain/client.c *)

Definition domain_client_cleanup (connection buffer : Z) : M (process W) () :=
  sys_ (Close connection);; sys_ (Free buffer).

Definition domain_client_setup_socket (connection : Z) (busy_waiting : bool) : M (process W) () :=
  setup_socket "Error setting socket to non-blocking on client-side" connection busy_waiting;;
  return_code ← sys_rv (Connect connection (Path SOCKET_PATH));
  throw_if (return_code =? -1) "Error connecting to server".

Definition create_connection (sa0 : sigaction) (busy_waiting : bool) : M (process W) Z :=
  client_once sa0 WAIT;;
  connection ← sys_rv (Socket AF_UNIX SOCK_STREAM 0);
  throw_if (connection =? -1) "Error opening socket on client-side";;
  domain_client_setup_socket connection busy_waiting;;
  mret connection.

Definition domain_client_round :=
  socket_client_round "Error sending on client-side" "Error receiving on client-side".

Definition domain_client_main (fuel : nat) (sa0 : sigaction) (args : Arguments) (busy_waiting : bool)
    (buffer : list Z) (bench0 : Benchmarks) : M (process W) (Z * report) :=
  connection ← create_connection sa0 busy_waiting;
  bench ← setup_benchmarks_call bench0;
  buffer_addr ← sys_rv (Malloc (u64 (arg_size args)));
  printed ← measure_loop fuel (domain_client_round fuel connection buffer busy_waiting) bench args;
  domain_client_cleanup connection buffer_addr;;
  mret printed.

End programs.

(** ** Lemmas *)

Definition socket_call (a : addrinfo) : syscall := Socket (ai_family a) (ai_socktype a) (ai_protocol a).

(** Addresses without a socket are skipped. *)
Lemma server_get_address_skip pre : forall infos sd rs tr e rest,
  length rs = length pre -> Forall (fun r => rv r = -1) rs ->
  exists e', tcp_server_get_address (pre ++ infos) sd (mk_process e tr (rs ++ rest)) =
    tcp_server_get_address infos (if decide (pre = []) then sd else -1)
      (mk_process e' (tr ++ zip (socket_call <$> pre) rs) rest).
Proof.
  induction pre as [|a pre IH]; intros infos sd rs tr e rest Hlen Hf.
  { destruct rs; [|done]. exists e. cbn. by rewrite app_nil_r. }
  destruct rs as [|r rs]; [done|]. inversion Hf as [|? ? Hr Hf']; subst.
  cbn [app tcp_server_get_address]. erewrite bind_done by apply sys_rv_script. rewrite Hr.
  cbn [Z.eqb Pos.eqb]. destruct (IH infos (-1) rs (tr ++ [(socket_call a, r)]) (err r) rest) as [e' He'];
    [by injection Hlen|done|].
  exists e'. etrans; [exact He'|]. rewrite <- app_assoc. by destruct (decide (pre = [])).
Qed.

Lemma client_get_address_skip pre : forall infos rs tr e rest,
  length rs = length pre -> Forall (fun r => rv r = -1) rs ->
  exists e', tcp_client_get_address (pre ++ infos) (mk_process e tr (rs ++ rest)) =
    tcp_client_get_address infos (mk_process e' (tr ++ zip (socket_call <$> pre) rs) rest).
Proof.
  induction pre as [|a pre IH]; intros infos rs tr e rest Hlen Hf.
  { destruct rs; [|done]. exists e. cbn. by rewrite app_nil_r. }
  destruct rs as [|r rs]; [done|]. inversion Hf as [|? ? Hr Hf']; subst.
  cbn [app tcp_client_get_address]. erewrite bind_done by apply sys_rv_script. rewrite Hr.
  cbn [Z.eqb Pos.eqb]. destruct (IH infos rs (tr ++ [(socket_call a, r)]) (err r) rest) as [e' He'];
    [by injection Hlen|done|].
  exists e'. etrans; [exact He'|]. by rewrite <- app_assoc.
Qed.

Lemma zip_calls (cs : list syscall) (rs : list result) :
  length rs = length cs -> (zip cs rs).*1 = cs.
Proof. intros H. apply fst_zip. lia. Qed.

(** ** Properties *)

(** The address the server of tcp uses.  It takes the first address of the
    list that a socket can be made for.  The results of [bind] and [listen]
    are compared with 1, which they never return: a failed bind or a failed
    listen is not noticed, no other address is tried, and the set-up
    succeeds.  Without any socket it dies. *)
Theorem tcp_server_address pre a post gai rs rsock rso rbind rfree rlisten garbage :
  addrinfo_list (data gai) = pre ++ a :: post -> rv gai = 0 ->
  length rs = length pre -> Forall (fun r => rv r = -1) rs ->
  rv rsock <> -1 -> rv rso <> -1 -> -1 <= rv rbind <= 0 -> -1 <= rv rlisten <= 0 ->
  let answers := gai :: rs ++ [rsock; rso; rbind; rfree; rlisten] in
  outcome_on (tcp_server_create_socket garbage) answers = Done (rv rsock) /\
  calls_on (tcp_server_create_socket garbage) answers =
    Getaddrinfo HOST PORT :: (socket_call <$> pre) ++
      [socket_call a; Setsockopt (rv rsock) SO_REUSEADDR [1]; Bind (rv rsock) (Addr (ai_addr a));
       Freeaddrinfo; Listen (rv rsock) 10].
Proof.
  intros Hl Hg Hlen Hf Hs Hso Hb Hli answers.
  assert (Es : (rv rsock =? -1) = false) by (by apply Z.eqb_neq).
  assert (Eso : (rv rso =? -1) = false) by (by apply Z.eqb_neq).
  assert (Eb : (rv rbind =? 1) = false) by (apply Z.eqb_neq; lia).
  assert (El : (rv rlisten =? 1) = false) by (apply Z.eqb_neq; lia).
  destruct (server_get_address_skip pre (a :: post) garbage rs [(Getaddrinfo HOST PORT, gai)] 0
    [rsock; rso; rbind; rfree; rlisten] Hlen Hf) as [e He].
  unfold outcome_on, calls_on, start, tcp_server_create_socket, answers.
  rewrite (bind_done get_server_information _ _ (pre ++ a :: post)
    (mk_process 0 [(Getaddrinfo HOST PORT, gai)] (rs ++ [rsock; rso; rbind; rfree; rlisten]))).
  2:{ unfold get_server_information. exec. rewrite Hg. cbn [Z.eqb negb]. by rewrite Hl. }
  assert (Hget : exists e1, tcp_server_get_address (pre ++ a :: post) garbage
      (mk_process 0 [(Getaddrinfo HOST PORT, gai)] (rs ++ [rsock; rso; rbind; rfree; rlisten]))
    = (Done (Some a, rv rsock), mk_process e1
        (((Getaddrinfo HOST PORT, gai) :: zip (socket_call <$> pre) rs) ++
          [(socket_call a, rsock); (Setsockopt (rv rsock) SO_REUSEADDR [1], rso);
           (Bind (rv rsock) (Addr (ai_addr a)), rbind)]) [rfree; rlisten])).
  { eexists. rewrite He. cbn [tcp_server_get_address]. unfold handle_blocking.
    exec. rewrite Es. exec. rewrite Eso. exec. rewrite Eb. exec. by rewrite <- !app_assoc. }
  destruct Hget as [e1 Hget]. rewrite (bind_done _ _ _ _ _ Hget).
  exec. rewrite El. exec. split; [done|].
  rewrite <- !app_assoc. cbn [app]. rewrite fmap_cons, fmap_app.
  by rewrite zip_calls by (by rewrite length_fmap).
Qed.

(** The address the client of tcp uses.  It takes the first address of the
    list that a socket can be made for; a failed [connect] is compared with 1
    and not noticed, so that the set-up succeeds with an unconnected socket
    and no other address is tried. *)
Theorem tcp_client_address pre a post gai rs rsock rconn rsnd rrcv rfree :
  addrinfo_list (data gai) = pre ++ a :: post -> rv gai = 0 ->
  length rs = length pre -> Forall (fun r => rv r = -1) rs ->
  rv rsock <> -1 -> -1 <= rv rconn <= 0 -> rv rsnd <> -1 -> rv rrcv <> -1 ->
  let answers := gai :: rs ++ [rsock; rconn; rsnd; rrcv; rfree] in
  outcome_on (tcp_client_create_socket false) answers = Done (rv rsock) /\
  calls_on (tcp_client_create_socket false) answers =
    Getaddrinfo HOST PORT :: (socket_call <$> pre) ++
      [socket_call a; Connect (rv rsock) (Addr (ai_addr a));
       Setsockopt (rv rsock) SO_SNDBUF [BUFFER_SIZE]; Setsockopt (rv rsock) SO_RCVBUF [BUFFER_SIZE];
       Freeaddrinfo].
Proof.
  intros Hl Hg Hlen Hf Hs Hc Hsnd Hrcv answers.
  assert (Es : (rv rsock =? -1) = false) by (by apply Z.eqb_neq).
  assert (Ec : (rv rconn =? 1) = false) by (apply Z.eqb_neq; lia).
  assert (E1 : (rv rsnd =? -1) = false) by (by apply Z.eqb_neq).
  assert (E2 : (rv rrcv =? -1) = false) by (by apply Z.eqb_neq).
  destruct (client_get_address_skip pre (a :: post) rs [(Getaddrinfo HOST PORT, gai)] 0
    [rsock; rconn; rsnd; rrcv; rfree] Hlen Hf) as [e He].
  unfold outcome_on, calls_on, start, tcp_client_create_socket, answers.
  rewrite (bind_done tcp_client_get_server_information _ _ (pre ++ a :: post)
    (mk_process 0 [(Getaddrinfo HOST PORT, gai)] (rs ++ [rsock; rconn; rsnd; rrcv; rfree]))).
  2:{ unfold tcp_client_get_server_information. exec. rewrite Hg. cbn [Z.eqb negb]. by rewrite Hl. }
  assert (Hget : exists e1, tcp_client_get_address (pre ++ a :: post)
      (mk_process 0 [(Getaddrinfo HOST PORT, gai)] (rs ++ [rsock; rconn; rsnd; rrcv; rfree]))
    = (Done (rv rsock), mk_process e1
        (((Getaddrinfo HOST PORT, gai) :: zip (socket_call <$> pre) rs) ++
          [(socket_call a, rsock); (Connect (rv rsock) (Addr (ai_addr a)), rconn)]) [rsnd; rrcv; rfree])).
  { eexists. rewrite He. cbn [tcp_client_get_address].
    exec. rewrite Es. exec. rewrite Ec. exec. by rewrite <- !app_assoc. }
  destruct Hget as [e1 Hget]. rewrite (bind_done _ _ _ _ _ Hget).
  unfold tcp_client_setup_socket, setup_socket, set_socket_both_buffer_sizes, set_socket_buffer_size.
  exec. rewrite E1. exec. rewrite E2. exec. split; [done|].
  rewrite <- !app_assoc. cbn [app]. rewrite fmap_cons, fmap_app.
  by rewrite zip_calls by (by rewrite length_fmap).
Qed.

(** The reply of the servers, when the client's message arrives complete.
    Both send eight bytes, the timestamp read after the message.  The server
    of tcp goes on unless [send] fails; the server of domain compares the
    result with the message size and so dies, after a successful reply,
    whenever the size is above 8. *)
Theorem socket_server_reply fuel fd args r sec nsec t rsend rest :
  arg_size args <= rv r -> now sec nsec = Some t -> rv rsend <= 8 ->
  let answers := r :: mk_result 0 0 [sec; nsec] :: rsend :: rest in
  let calls := [Recv fd (arg_size args); Timespec_get; Send fd (le_bytes 8 t)] in
  (outcome_on (tcp_server_round fuel fd args false) answers =
     if rv rsend =? -1 then Died "Error sending from server" else Done ()) /\
  (calls_on (tcp_server_round fuel fd args false) answers = calls) /\
  (outcome_on (domain_server_round fuel fd args false) answers =
     if rv rsend <? arg_size args then Died "Error sending on server-side" else Done ()) /\
  (calls_on (domain_server_round fuel fd args false) answers = calls) /\
  (8 < arg_size args ->
     outcome_on (domain_server_round fuel fd args false) answers = Died "Error sending on server-side").
Proof.
  intros Hr Hn Hs answers calls. apply Z.ltb_ge in Hr.
  unfold answers, calls, tcp_server_round, domain_server_round, receive, read_now.
  split_and!.
  5: intros H8; assert (E8 : (rv rsend <? arg_size args) = true) by (apply Z.ltb_lt; lia).
  all: exec; rewrite Hr; exec; cbn [fst data]; change (0 =? -1) with false; exec; cbn [data];
    rewrite Hn; exec; rewrite ?E8; exec; try done.
  1, 2: by destruct (rv rsend =? -1).
  all: by destruct (rv rsend <? arg_size args).
Qed.

(** One iteration of the clients: the whole buffer is sent, eight bytes
    are received straight into [single_start], and the clock is read after
    them; a failed send and an incomplete answer end the program with the
    program's own messages. *)
Theorem socket_client_iteration sending receiving fuel fd buffer bench rsend r sec nsec t rest :
  now sec nsec = Some t ->
  let answers := rsend :: r :: mk_result 0 0 [sec; nsec] :: rest in
  let round := socket_client_round sending receiving fuel fd buffer false bench in
  outcome_on round answers =
    (if rv rsend =? -1 then Died sending
     else if rv r <? 8 then Died receiving
     else match benchmark t (set_single_start bench (le_value (data r))) with
          | Some bench' => Done bench' | None => Undefined end) /\
  (rv rsend <> -1 -> 8 <= rv r -> calls_on round answers = [Send fd buffer; Recv fd 8; Timespec_get]).
Proof.
  intros Hn answers round. unfold round, answers, socket_client_round, receive, benchmark_call, read_now.
  split.
  - exec. destruct (rv rsend =? -1); [done|]. exec. destruct (rv r <? 8); exec; [done|].
    cbn [fst snd]. change (0 =? -1) with false. exec. cbn [data]. rewrite Hn. exec.
    by destruct (benchmark _ _).
  - intros Hs%Z.eqb_neq Hr%Z.ltb_ge. exec. rewrite Hs. exec. rewrite Hr. exec.
    cbn [fst snd]. change (0 =? -1) with false. exec. cbn [data]. rewrite Hn. exec.
    by destruct (benchmark _ _).
Qed.

(** ** Witnesses *)

(** An IPv6 address without a socket, then an IPv4 one whose port is taken. *)
Definition gai_w : result := mk_result 0 0 [10; 1; 6; 100; 2; 1; 6; 200].

Lemma tcp_server_address_witness :
  outcome_on (tcp_server_create_socket 0) (gai_w :: [fails 97] ++ [val 3; val 0; fails 98; val 0; val 0]) = Done 3.
Proof.
  apply (tcp_server_address [mk_addrinfo 10 1 6 100] (mk_addrinfo 2 1 6 200) [] gai_w [fails 97]
    (val 3) (val 0) (fails 98) (val 0) (val 0) 0); try done; simpl; try lia. repeat constructor.
Defined.

Lemma tcp_client_address_witness :
  outcome_on (tcp_client_create_socket false)
    (gai_w :: [fails 97] ++ [val 3; fails 111; val 0; val 0; val 0]) = Done 3.
Proof.
  apply (tcp_client_address [mk_addrinfo 10 1 6 100] (mk_addrinfo 2 1 6 200) [] gai_w [fails 97]
    (val 3) (fails 111) (val 0) (val 0) (val 0)); try done; simpl; try lia. repeat constructor.
Defined.

Lemma socket_server_reply_witness :
  outcome_on (domain_server_round 1 4 (mk_Arguments 4096 1000) false)
    [val 4096; mk_result 0 0 [1700000000; 0]; val 8] = Died "Error sending on server-side".
Proof.
  apply (socket_server_reply 1 4 (mk_Arguments 4096 1000) (val 4096) 1700000000 0 1700000000000000000 (val 8) []).
  - simpl; lia.
  - vm_compute. reflexivity.
  - simpl; lia.
  - simpl; lia.
Defined.

Lemma socket_client_iteration_witness :
  calls_on (socket_client_round "a" "b" 1 4 [7; 7] false (mk_Benchmarks 0 0 0 0 0 0 0))
    [val 2; mk_result 8 0 [1; 0; 0; 0; 0; 0; 0; 0]; mk_result 0 0 [1700000000; 0]]
  = [Send 4 [7; 7]; Recv 4 8; Timespec_get].
Proof.
  apply (socket_client_iteration "a" "b" 1 4 [7; 7] (mk_Benchmarks 0 0 0 0 0 0 0) (val 2)
    (mk_result 8 0 [1; 0; 0; 0; 0; 0; 0; 0]) 1700000000 0 1700000000000000000 []).
  - vm_compute. reflexivity.
  - done.
  - simpl; lia.
Defined.
