(* ===== verification/Session.v ===== *)
(** * tcp and domain: a session of the two processes

    The loops of [communicate] in [tcp/server.c] and [domain/server.c] and of
    [main] in the two clients, over the two byte streams of a connection.
    [recv] may return any part of what has arrived; [receive] keeps or drops it
    as [common/sockets.c] does, and both modes are covered. *)
From S2P Require Import Prelude Memory.

(** The message size; the flag [busy]; whether the network splits messages;
    and the domain server's comparison of the bytes sent with the size. *)
Record session_setting := mk_setting {
  se_size : nat;
  se_busy : bool;
  se_splits : bool;
  se_domain : bool;
}.

Inductive session_server_pc :=
  | RS_receive               (* receive(connection, buffer, args->size) *)
  | RS_now
  | RS_send                  (* send of the timestamp, and its check *)
  | RS_died.

Inductive session_client_pc :=
  | RC_check                 (* the time test *)
  | RC_send                  (* send of the buffer *)
  | RC_receive               (* receive(connection, &single_start, 8) *)
  | RC_benchmark
  | RC_done | RC_died.

(** A process that has ended has closed its end of the connection. *)
Record session_state := mk_session {
  se_up : nat;               (* bytes on their way to the server *)
  se_down : list Z;          (* bytes on their way to the client *)
  se_server : session_server_pc;
  se_server_again : bool;    (* errno is EAGAIN in the server *)
  se_timestamp : Z;
  se_sent : list Z;
  se_client : session_client_pc;
  se_client_again : bool;
  se_single_start : Z;
  se_received : list Z;
}.

(** The bytes a call of [recv] takes when [available] have arrived: all that fit,
    or any part [k] of them. *)
Definition fragment (splits : bool) (k size available : nat) : option nat :=
  if splits then if decide (0 < k <= size `min` available)%nat then Some k else None
  else Some (size `min` available)%nat.

(** [receive] on a call that returned [k] bytes: a short call is retried only in
    the busy mode and while [errno] is [EAGAIN]. *)
Inductive receipt := Complete | Retry | Failed.

Definition receive_result (busy again : bool) (k size : nat) : receipt :=
  if decide (size <= k)%nat then Complete else if busy && again then Retry else Failed.

Definition client_gone (c : session_client_pc) : bool := match c with RC_done | RC_died => true | _ => false end.
Definition server_gone (s : session_server_pc) : bool := match s with RS_died => true | _ => false end.

(** One move of the server; [k] is the choice of the network, [t] the clock.
    Without data a call reports the end of the stream, waits, or, in the busy
    mode, fails with [EAGAIN]. *)
Definition session_server_move (p : session_setting) (k : nat) (t : Z) (s : session_state) : option session_state :=
  let 'mk_session up down sv sa ts sent cl ca ss rcv := s in
  match sv with
  | RS_receive =>
      if decide (up = 0%nat) then
        if client_gone cl then
          Some (mk_session up down
            (match receive_result (se_busy p) sa 0 (se_size p) with
             | Complete => RS_now | Retry => RS_receive | Failed => RS_died end) sa ts sent cl ca ss rcv)
        else if se_busy p then Some (mk_session up down RS_receive true ts sent cl ca ss rcv)
        else None
      else
        n ← fragment (se_splits p) k (se_size p) up;
        Some (mk_session (up - n) down
          (match receive_result (se_busy p) sa n (se_size p) with
           | Complete => RS_now | Retry => RS_receive | Failed => RS_died end) sa ts sent cl ca ss rcv)
  | RS_now =>
      if decide (0 <= t < 2 ^ 64) then Some (mk_session up down RS_send sa t sent cl ca ss rcv) else None
  | RS_send =>
      if client_gone cl then Some (mk_session up down RS_died false ts sent cl ca ss rcv)
      else Some (mk_session up (down ++ le_bytes 8 ts)
        (if se_domain p && bool_decide (8 < se_size p)%nat then RS_died else RS_receive)
        sa ts (sent ++ [ts]) cl ca ss rcv)
  | RS_died => None
  end.

(** One move of the client; [stop] is the result of the time test.  What it sends
    to a server that has ended is refused, with [EPIPE], when [k = 0], or lost. *)
Definition session_client_move (p : session_setting) (k : nat) (stop : bool) (s : session_state) : option session_state :=
  let 'mk_session up down sv sa ts sent cl ca ss rcv := s in
  match cl with
  | RC_check => Some (mk_session up down sv sa ts sent (if stop then RC_done else RC_send) ca ss rcv)
  | RC_send =>
      if server_gone sv
      then Some (if decide (k = 0%nat) then mk_session up down sv sa ts sent RC_died false ss rcv
                 else mk_session up down sv sa ts sent RC_receive ca ss rcv)
      else Some (mk_session (up + se_size p) down sv sa ts sent RC_receive ca ss rcv)
  | RC_receive =>
      if decide (down = []) then
        if server_gone sv then
          Some (mk_session up down sv sa ts sent
            (match receive_result (se_busy p) ca 0 8 with
             | Complete => RC_benchmark | Retry => RC_receive | Failed => RC_died end) ca ss rcv)
        else if se_busy p then Some (mk_session up down sv sa ts sent RC_receive true ss rcv)
        else None
      else
        n ← fragment (se_splits p) k 8 (length down);
        match receive_result (se_busy p) ca n 8 with
        | Complete => Some (mk_session up (drop n down) sv sa ts sent RC_benchmark ca (le_value (take n down)) rcv)
        | Retry => Some (mk_session up (drop n down) sv sa ts sent RC_receive ca ss rcv)
        | Failed => Some (mk_session up (drop n down) sv sa ts sent RC_died ca ss rcv)
        end
  | RC_benchmark => Some (mk_session up down sv sa ts sent RC_check ca ss (rcv ++ [ss]))
  | RC_done | RC_died => None
  end.

Inductive session_step (p : session_setting) : session_state -> session_state -> Prop :=
  | Session_server k t s s' : session_server_move p k t s = Some s' -> session_step p s s'
  | Session_client k stop s s' : session_client_move p k stop s = Some s' -> session_step p s s'.

(** The start: connected, nothing sent, [errno] as the set-up left it. *)
Definition session_init (again : bool) : session_state :=
  mk_session 0 [] RS_receive again 0 [] RC_check again 0 [].

(** ** The invariant *)

(** The reply in the stream, less what the client has taken of it. *)
Definition reply_left (down : list Z) (ts : Z) : Prop :=
  0 <= ts < 2 ^ 64 /\ exists j, (j <= 8)%nat /\ down = drop j (le_bytes 8 ts).

Definition session_inv (p : session_setting) (s : session_state) : Prop :=
  let 'mk_session up down sv sa ts sent cl ca ss rcv := s in
  match cl with
  | RC_check | RC_send | RC_done =>
      up = 0%nat /\ down = [] /\ sent = rcv /\ match sv with RS_receive | RS_died => True | _ => False end
  | RC_benchmark =>
      up = 0%nat /\ down = [] /\ sent = rcv ++ [ss] /\ match sv with RS_receive | RS_died => True | _ => False end
  | RC_receive =>
      (up <= se_size p)%nat /\
      match sv with
      | RS_receive | RS_died =>
          down = [] /\ sent = rcv \/ up = 0%nat /\ sent = rcv ++ [ts] /\ reply_left down ts
      | RS_now => up = 0%nat /\ down = [] /\ sent = rcv
      | RS_send => up = 0%nat /\ down = [] /\ sent = rcv /\ 0 <= ts < 2 ^ 64
      end
  | RC_died =>
      (length down <= 8)%nat /\ (sent = rcv \/ exists t, sent = rcv ++ [t]) /\
      match sv with RS_receive => up = 0%nat | RS_died => True | _ => False end
  end.

#[local] Arguments le_bytes : simpl never.

Lemma receive_result_complete busy again k size : receive_result busy again k size = Complete -> (size <= k)%nat.
Proof. unfold receive_result. case_decide; [done|]. by destruct (busy && again). Qed.

Lemma fragment_bound splits k size available n :
  fragment splits k size available = Some n -> (n <= size `min` available)%nat.
Proof. unfold fragment. destruct splits; [case_decide; [|done]|]; intros [= <-]; lia. Qed.

Lemma session_inv_server p k t s s' :
  (0 < se_size p)%nat -> session_inv p s -> session_server_move p k t s = Some s' -> session_inv p s'.
Proof.
  destruct s as [up down sv sa ts sent cl ca ss rcv]. intros Hp Hi Hm.
  destruct sv; cbn [session_server_move] in Hm; [| | |done].
  - destruct (decide (up = 0%nat)) as [Hu|Hu].
    + assert (Hrr : receive_result (se_busy p) sa 0 (se_size p) <> Complete)
        by (intros H; apply receive_result_complete in H; lia).
      destruct cl; cbn [client_gone] in Hm; try (destruct (se_busy p) eqn:Eb; simplify_eq; done).
      * destruct (receive_result _ _ _ _); simplify_eq; done.
      * destruct (receive_result _ _ _ _); simplify_eq; try done; simpl in *; tauto.
    + destruct (fragment _ _ _ _) as [n|] eqn:Ef; [|done]. apply fragment_bound in Ef.
      cbn [mbind option_bind] in Hm. simplify_eq.
      destruct cl; simpl in Hi; try (exfalso; intuition lia).
      destruct Hi as [Hup [[-> ->]|[? _]]]; [|lia]. simpl. split; [lia|].
      destruct (receive_result _ _ _ _) eqn:E; [|by left|by left].
      apply receive_result_complete in E. split_and!; [lia|done|done].
  - case_decide; simplify_eq. destruct cl; simpl in *; intuition.
  - destruct cl; simpl in Hi; try (exfalso; intuition congruence).
    cbn [client_gone] in Hm. simplify_eq. destruct Hi as (_ & -> & -> & -> & Ht). simpl. split; [lia|].
    assert (Hr : reply_left (le_bytes 8 ts) ts) by (split; [done|exists 0%nat; split; [lia|done]]).
    destruct (se_domain p && _); by right.
Qed.

Lemma session_inv_client p k b s s' :
  (0 < se_size p)%nat -> session_inv p s -> session_client_move p k b s = Some s' -> session_inv p s'.
Proof.
  destruct s as [up down sv sa ts sent cl ca ss rcv]. intros Hp Hi Hm.
  destruct cl; cbn [session_client_move] in Hm; [| | | |done|done].
  - simplify_eq. by destruct b.
  - destruct Hi as (-> & -> & -> & Hsv). destruct sv; try done; cbn [server_gone] in Hm; simplify_eq; simpl.
    + split; [lia|]. by left.
    + destruct (decide (k = 0%nat)); simpl; split; try lia; [split; [by left|done]|by left].
  - destruct Hi as [Hup Hi]. destruct (decide (down = [])) as [->|Hd].
    + destruct (server_gone sv) eqn:Eg.
      * destruct sv; try done. unfold receive_result in Hm. rewrite decide_False in Hm by lia.
        destruct (se_busy p && ca); simplify_eq; simpl; [by split|]. split; [lia|]. split; [|done].
        destruct Hi as [[_ ->]|(_ & -> & _)]; [by left|right; by eexists].
      * destruct (se_busy p); simplify_eq. by split.
    + destruct (fragment _ _ _ _) as [n|] eqn:Ef; [|done]. apply fragment_bound in Ef.
      cbn [mbind option_bind] in Hm.
      assert (Hr : up = 0%nat /\ sent = rcv ++ [ts] /\ reply_left down ts /\
        match sv with RS_receive | RS_died => True | _ => False end).
      { destruct sv; try (destruct Hi as [[? _]|(? & ? & ?)]; [done|by split_and!]);
          destruct Hi as (_ & ? & _); done. }
      destruct Hr as (-> & -> & (Ht & j & Hj & ->) & Hsv). rewrite length_drop, length_le_bytes in Ef.
      destruct (receive_result _ _ _ _) eqn:E; simplify_eq.
      * apply receive_result_complete in E. assert (j = 0%nat) as -> by lia. assert (n = 8%nat) as -> by lia.
        rewrite drop_0, take_ge, drop_ge by (by rewrite length_le_bytes).
        rewrite le_value_bytes, Z.mod_small by done. by simpl.
      * simpl. split; [lia|]. 
        assert (Hl : reply_left (drop n (drop j (le_bytes 8 ts))) ts)
          by (split; [exact Ht|]; exists (j + n)%nat; split; [lia|by rewrite drop_drop]).
        destruct sv; try done; right; (split; [done|]); by split.
      * simpl. split; [rewrite !length_drop, length_le_bytes; lia|]. split; [right; by eexists|]. by destruct sv.
  - simplify_eq. destruct Hi as (-> & -> & -> & Hsv). by simpl.
Qed.

Lemma session_inv_reachable p again s :
  (0 < se_size p)%nat -> rtc (session_step p) (session_init again) s -> session_inv p s.
Proof.
  intros Hp Hr. eapply inv_rtc; [|idtac|exact Hr]; [|by simpl].
  intros a b Ha Hs. destruct Hs; [by eapply session_inv_server|by eapply session_inv_client].
Qed.

(** Messages that arrive whole, to a server that accepts its own replies. *)
Definition whole (p : session_setting) : Prop :=
  (0 < se_size p)%nat /\ se_splits p = false /\ (se_domain p = true -> (se_size p <= 8)%nat).

Definition whole_inv (p : session_setting) (s : session_state) : Prop :=
  session_inv p s /\ se_client s <> RC_died /\ (se_server s = RS_died -> se_client s = RC_done) /\
  (se_client s = RC_receive -> se_server s = RS_receive ->
     se_up s = se_size p /\ se_down s = [] \/ se_up s = 0%nat /\ se_down s = le_bytes 8 (se_timestamp s)).

Lemma whole_inv_server p k t s s' :
  whole p -> whole_inv p s -> session_server_move p k t s = Some s' -> whole_inv p s'.
Proof.
  intros (Hp & Hw & Hd) (Hi & Hc & Hs & Hr) Hm. split; [by eapply session_inv_server|].
  destruct s as [up down sv sa ts sent cl ca ss rcv]. simpl in Hc, Hs, Hr.
  destruct sv; cbn [session_server_move] in Hm; [| | |done].
  - destruct (decide (up = 0%nat)) as [Hu|Hu].
    + destruct (client_gone cl) eqn:Eg.
      * destruct cl; try done. simplify_eq. simpl. by split_and!.
      * destruct (se_busy p); simplify_eq. simpl. by split_and!.
    + rewrite Hw in Hm. unfold fragment in Hm. cbn [mbind option_bind] in Hm. simplify_eq.
      destruct cl; simpl in Hi; try (exfalso; intuition lia).
      destruct (Hr eq_refl eq_refl) as [[-> ->]|[? _]]; [|lia].
      rewrite Nat.min_id. unfold receive_result. rewrite decide_True by lia. simpl. by split_and!.
  - case_decide; simplify_eq. simpl. split_and!; [done|done|]. by destruct cl.
  - destruct cl; simpl in Hi; try (exfalso; intuition congruence).
    cbn [client_gone] in Hm. simplify_eq. destruct Hi as (_ & -> & -> & -> & Ht).
    assert (E : se_domain p && bool_decide (8 < se_size p)%nat = false).
    { destruct (se_domain p); [|done]. specialize (Hd eq_refl). apply bool_decide_eq_false. lia. }
    rewrite E. simpl. split_and!; [done|done|]. intros _ _. by right.
Qed.

Lemma whole_inv_client p k b s s' :
  whole p -> whole_inv p s -> session_client_move p k b s = Some s' -> whole_inv p s'.
Proof.
  intros (Hp & Hw & Hd) (Hi & Hc & Hs & Hr) Hm. split; [by eapply session_inv_client|].
  destruct s as [up down sv sa ts sent cl ca ss rcv]. simpl in Hc, Hs, Hr.
  assert (Hsv : cl <> RC_done -> sv <> RS_died) by (intros H1 H2; by apply H1, Hs).
  destruct cl; cbn [session_client_move] in Hm; [| | | |done|done].
  - simplify_eq. simpl. destruct b; split_and!; try done. intros H. by destruct Hsv.
  - destruct Hi as (-> & -> & _ & Hi). destruct sv; try done; [|by destruct Hsv]. simpl in Hm. simplify_eq. simpl.
    split_and!; try done. intros _ _. by left.
  - destruct (decide (down = [])) as [->|Hne].
    + destruct sv; try (by destruct Hsv); cbn [server_gone] in Hm; destruct (se_busy p); simplify_eq; by simpl.
    + destruct sv; try (by destruct Hsv); try (destruct Hi as (_ & _ & ? & _); done).
      destruct (Hr eq_refl eq_refl) as [[_ ?]|[-> ->]]; [done|].
      rewrite Hw in Hm. unfold fragment in Hm. rewrite length_le_bytes in Hm. cbn [mbind option_bind] in Hm.
      unfold receive_result in Hm. rewrite decide_True in Hm by lia. simplify_eq. simpl. by split_and!.
  - simplify_eq. simpl. split_and!; try done. intros H. by destruct Hsv.
Qed.

Lemma whole_inv_reachable p again s :
  whole p -> rtc (session_step p) (session_init again) s -> whole_inv p s.
Proof.
  intros Hp Hr. eapply inv_rtc; [|idtac|exact Hr]; [|by split_and!].
  intros a b Ha Hs. destruct Hs; [by eapply whole_inv_server|by eapply whole_inv_client].
Qed.

(** Until the client has stopped, some move changes the state. *)
Lemma whole_enabled p s :
  whole p -> whole_inv p s -> se_client s <> RC_done -> exists s', session_step p s s' /\ s' <> s.
Proof.
  intros (Hsz & Hw & Hd) (Hi & Hc & Hs & Hrc) Hnd.
  destruct s as [up down sv sa ts sent cl ca ss rcv]. simpl in Hc, Hs, Hrc, Hnd.
  assert (Hsv : sv <> RS_died) by (intros H; by apply Hnd, Hs).
  assert (Hserver : forall t s', session_server_move p 0 t (mk_session up down sv sa ts sent cl ca ss rcv) = Some s' ->
    se_server s' <> sv \/ se_up s' <> up -> exists s', session_step p (mk_session up down sv sa ts sent cl ca ss rcv) s' /\
      s' <> mk_session up down sv sa ts sent cl ca ss rcv).
  { intros t s' Hm Hne. exists s'. split; [by eapply Session_server|]. intros ->. simpl in Hne. tauto. }
  assert (Hclient : forall s', session_client_move p 0 true (mk_session up down sv sa ts sent cl ca ss rcv) = Some s' ->
    se_client s' <> cl -> exists s', session_step p (mk_session up down sv sa ts sent cl ca ss rcv) s' /\
      s' <> mk_session up down sv sa ts sent cl ca ss rcv).
  { intros s' Hm Hne. exists s'. split; [by eapply Session_client|]. intros ->. done. }
  destruct cl; try done.
  - by eapply Hclient.
  - destruct sv; try done; by eapply Hclient.
  - destruct sv; try done.
    + destruct (Hrc eq_refl eq_refl) as [[-> ->]|[-> ->]].
      * eapply (Hserver 0).
        { cbn [session_server_move]. rewrite decide_False, Hw by lia. reflexivity. }
        right. simpl. lia.
      * eapply Hclient.
        { cbn [session_client_move]. rewrite Hw. unfold fragment, receive_result. rewrite length_le_bytes. reflexivity. }
        done.
    + eapply (Hserver 0); [reflexivity|by left].
    + eapply (Hserver 0); [reflexivity|]. left. simpl. by destruct (se_domain p && _).
  - by eapply Hclient.
Qed.

(** The reply of domain's server above a size of 8, after which it dies. *)
Lemma session_domain_inv p again s :
  se_domain p = true -> (8 < se_size p)%nat -> rtc (session_step p) (session_init again) s ->
  se_sent s = [] \/ se_server s = RS_died /\ length (se_sent s) = 1%nat.
Proof.
  intros Hd Hs Hr.
  eapply (inv_rtc (session_step p) (fun s => se_sent s = [] \/ se_server s = RS_died /\ length (se_sent s) = 1%nat));
    [|idtac|exact Hr]; [|by left].
  intros a b Ha Hst. destruct Hst as [k t a b Hm|k st a b Hm]; destruct a as [up down sv sa ts sent cl ca ss rcv];
    simpl in Ha.
  - destruct Ha as [->|[-> _]]; [|done]. destruct sv; cbn [session_server_move] in Hm; [| | |done].
    + destruct (decide _); [destruct (client_gone cl); [|destruct (se_busy p); [|done]]|
        destruct (fragment _ _ _ _); [|done]; cbn [mbind option_bind] in Hm]; simplify_eq; by left.
    + case_decide; simplify_eq. by left.
    + destruct (client_gone cl); simplify_eq; [by left|]. right.
      rewrite Hd, bool_decide_eq_true_2 by done. by simpl.
  - enough (se_sent b = sent /\ se_server b = sv) as [-> ->]; [done|].
    destruct cl; cbn [session_client_move] in Hm; [| | | |done|done]; try (by simplify_eq).
    + destruct (server_gone sv); [destruct (decide _)|]; by simplify_eq.
    + destruct (decide _); [destruct (server_gone sv); [|destruct (se_busy p); [|done]]|
        destruct (fragment _ _ _ _); [|done]; cbn [mbind option_bind] in Hm; destruct (receive_result _ _ _ _)];
        by simplify_eq.
Qed.

(** ** Properties *)

(** C26: a session never measures a wrong value.  In the tcp and the domain
    benchmark, in both modes of [receive], however the network splits the
    messages and wherever the processes die, the client has measured exactly
    the timestamps the server sent, in order, with at most the last one
    missing: no measurement mixes the bytes of two replies. *)
Theorem session_delivery p again s :
  (0 < se_size p)%nat -> rtc (session_step p) (session_init again) s ->
  (length (se_down s) <= 8)%nat /\
  exists flying, se_sent s = se_received s ++ flying /\ (length flying <= 1)%nat.
Proof.
  intros Hp Hr. pose proof (session_inv_reachable p again s Hp Hr) as Hi.
  destruct s as [up down sv sa ts sent cl ca ss rcv]. simpl in *.
  assert (H0 : sent = rcv -> exists flying, sent = rcv ++ flying /\ (length flying <= 1)%nat)
    by (intros ->; exists []; rewrite app_nil_r; split; [done|simpl; lia]).
  assert (H1 : forall t, sent = rcv ++ [t] -> exists flying, sent = rcv ++ flying /\ (length flying <= 1)%nat)
    by (intros t ->; by exists [t]).
  assert (Hl : forall t, reply_left down t -> (length down <= 8)%nat)
    by (intros t (_ & j & _ & ->); rewrite length_drop, length_le_bytes; lia).
  destruct cl; simpl in Hi.
  3:{ destruct Hi as [_ Hi].
      assert (Hrep : down = [] /\ sent = rcv \/ up = 0%nat /\ sent = rcv ++ [ts] /\ reply_left down ts)
        by (destruct sv; auto; destruct Hi as (_ & -> & -> & _) || destruct Hi as (_ & -> & ->); by left).
      destruct Hrep as [[-> Hs]|(_ & Hs & Hd)]; split; eauto; simpl; lia. }
  5:{ destruct Hi as (Hd & [Hs|[t Hs]] & _); split; eauto. }
  all: destruct Hi as (_ & -> & Hs & _); split; [simpl; lia|eauto].
Qed.

(** The domain server replies once.  With a message size above 8, the
    default included, it sends at most one timestamp in the whole session and
    dies, so that the client measures at most one message. *)
Theorem session_domain_once p again s :
  se_domain p = true -> (8 < se_size p)%nat -> rtc (session_step p) (session_init again) s ->
  (length (se_sent s) <= 1)%nat /\ (length (se_received s) <= 1)%nat /\
  (se_sent s <> [] -> se_server s = RS_died).
Proof.
  intros Hd Hs Hr.
  pose proof (session_domain_inv p again s Hd Hs Hr) as H1.
  assert (Hlen : (length (se_sent s) <= 1)%nat) by (destruct H1 as [->|[_ ->]]; simpl; lia).
  split; [done|]. pose proof (session_inv_reachable p again s ltac:(lia) Hr) as Hi. split.
  - destruct s as [up down sv sa ts sent cl ca ss rcv]. simpl in *.
    enough (exists l, sent = rcv ++ l) as [l ->] by (rewrite length_app in Hlen; lia).
    destruct cl; simpl in Hi; try (destruct Hi as (_ & _ & -> & _); eexists; (by rewrite app_nil_r) || done).
    + destruct Hi as [_ Hi]. assert (Hx : sent = rcv \/ sent = rcv ++ [ts]) by (destruct sv; tauto).
      destruct Hx as [->| ->]; eexists; (by rewrite app_nil_r) || done.
    + destruct Hi as (_ & [->|[t ->]] & _); eexists; (by rewrite app_nil_r) || done.
  - intros Hne. by destruct H1 as [?|[? _]].
Qed.

(** Whole messages are enough.  When the network does not split messages
    and the server is that of tcp, or that of domain with a size of at most 8,
    nobody dies before the client has stopped, in either mode, and until then
    some move changes the state. *)
Theorem session_whole_messages p again s :
  whole p -> rtc (session_step p) (session_init again) s -> se_client s <> RC_done ->
  se_client s <> RC_died /\ se_server s <> RS_died /\ exists s', session_step p s s' /\ s' <> s.
Proof.
  intros Hp Hr Hnd. pose proof (whole_inv_reachable p again s Hp Hr) as Hw. pose proof Hw as (_ & Hc & Hs & _).
  split; [done|]. split; [intros H; by apply Hnd, Hs|by apply whole_enabled].
Qed.

(** C34: splitting can hang the busy mode.  When both processes have polled an
    empty stream once, [errno] stays [EAGAIN]; if a message of more than one
    byte then arrives in two parts, the server drops the first and keeps
    polling for a whole message: a reachable state in which every move of
    either process leaves it as it is. *)
Theorem session_busy_hangs size domain again :
  (1 < size)%nat ->
  let p := mk_setting size true true domain in
  exists s, rtc (session_step p) (session_init again) s /\
    se_client s = RC_receive /\ se_server s = RS_receive /\ se_received s = [] /\
    forall s', session_step p s s' -> s' = s.
Proof.
  intros Hs p. exists (mk_session 0 [] RS_receive true 0 [] RC_receive true 0 []). split; [|split_and!; try done].
  - eapply rtc_l; [by eapply (Session_client p 0 false)|].
    eapply rtc_l; [by eapply (Session_server p 0 0)|].
    eapply rtc_l; [by eapply (Session_client p 0 false)|].
    eapply rtc_l; [by eapply (Session_client p 0 false)|]. cbn [session_client_move].
    assert (Hf1 : fragment true 1 size (0 + size) = Some 1%nat) by (unfold fragment; by rewrite decide_True by lia).
    assert (Hf2 : fragment true (size - 1) size (0 + size - 1) = Some (size - 1)%nat)
      by (unfold fragment; by rewrite decide_True by lia).
    assert (Hr : forall k, (k < size)%nat -> receive_result true true k size = Retry)
      by (intros k Hk; unfold receive_result; by rewrite decide_False by lia).
    eapply rtc_l; [eapply (Session_server p 1 0)|]; cbn [session_server_move se_busy se_size se_splits p].
    { rewrite decide_False, Hf1 by lia. cbn [mbind option_bind]. rewrite Hr by lia. reflexivity. }
    eapply rtc_l; [eapply (Session_server p (size - 1) 0)|]; cbn [session_server_move se_busy se_size se_splits p].
    { rewrite decide_False, Hf2 by lia. cbn [mbind option_bind]. rewrite Hr by lia. reflexivity. }
    replace (0 + size - 1 - (size - 1))%nat with 0%nat by lia. apply rtc_refl.
  - intros s' H. inversion H; simpl in *; by simplify_eq.
Qed.

(** ** Witnesses *)

Definition session_exec (p : session_setting) (c : bool * nat * Z) (s : session_state) : option session_state :=
  let '(server, k, t) := c in
  if (server : bool) then session_server_move p k t s else session_client_move p k false s.

Lemma session_exec_step p c s s' : session_exec p c s = Some s' -> session_step p s s'.
Proof. destruct c as [[[] k] t]; [apply Session_server|apply Session_client]. Qed.

(** One round of a session whose messages arrive whole. *)
Definition session_round (size : nat) (t : Z) : list (bool * nat * Z) :=
  [(false, 0%nat, 0); (false, 0%nat, 0); (true, size, 0); (true, 0%nat, t); (true, 0%nat, 0);
   (false, 8%nat, 0); (false, 0%nat, 0)].

Definition session_w (p : session_setting) : session_state :=
  state_along (session_exec p) (session_round (se_size p) 77 ++ [(false, 0%nat, 0)]) (session_init false).

Lemma session_reachable_w p :
  is_Some (run_along (session_exec p) (session_round (se_size p) 77 ++ [(false, 0%nat, 0)]) (session_init false)) ->
  rtc (session_step p) (session_init false) (session_w p).
Proof. apply state_along_rtc, session_exec_step. Qed.

Lemma session_delivery_witness :
  se_received (session_w (mk_setting 16 true true false)) = [77] /\
  (length (se_down (session_w (mk_setting 16 true true false))) <= 8)%nat.
Proof.
  split; [by vm_compute|].
  apply (session_delivery (mk_setting 16 true true false) false (session_w (mk_setting 16 true true false)));
    [simpl; lia|apply session_reachable_w; vm_compute; by eexists].
Defined.

Lemma session_domain_once_witness :
  se_received (session_w (mk_setting 16 false false true)) = [77] /\
  (length (se_sent (session_w (mk_setting 16 false false true))) <= 1)%nat.
Proof.
  split; [by vm_compute|].
  apply (session_domain_once (mk_setting 16 false false true) false (session_w (mk_setting 16 false false true)));
    [done|simpl; lia|apply session_reachable_w; vm_compute; by eexists].
Defined.

Lemma session_whole_messages_witness :
  exists s', session_step (mk_setting 16 false false false) (session_w (mk_setting 16 false false false)) s'.
Proof.
  destruct (session_whole_messages (mk_setting 16 false false false) false (session_w (mk_setting 16 false false false)))
    as (_ & _ & s' & H & _).
  - split; [simpl; lia|by split].
  - apply session_reachable_w. vm_compute. by eexists.
  - by vm_compute.
  - by exists s'.
Defined.

Lemma session_busy_hangs_witness :
  exists s, rtc (session_step (mk_setting 4096 true true false)) (session_init false) s /\ se_received s = [].
Proof.
  destruct (session_busy_hangs 4096 false false) as (s & H & _ & _ & Hr & _); [lia|by exists s].
Defined.
