(* ===== verification/SessionLink.v ===== *)
(** * tcp and domain: the programs make the session's moves

    The loops of both servers and both clients, with [receive] in both modes,
    run in the place of their processes in the protocol of [Session]. *)
From S2P Require Import Prelude Kernel Memory Benchmarks Linking Sockets Network Session.

#[local] Arguments le_bytes : simpl never.

(** [EPIPE]: the other end has been closed. *)
Definition EPIPE : Z := 32.

(** What the states say of [errno]. *)
Definition server_errno (e : Z) (s : session_state) : Prop := se_server_again s = bool_decide (e = EAGAIN).
Definition client_errno (e : Z) (s : session_state) : Prop := se_client_again s = bool_decide (e = EAGAIN).

(** ** The servers *)

(** The choices for a call of a server: the client's moves, each with the bytes
    that have arrived, and the bytes that have arrived for the call. *)
Definition session_server_turn (p : session_setting) : Type := turn (nat * bool) * nat.

Definition session_server_answer (p : session_setting) (t : session_server_turn p) (c : syscall) (s : session_state)
    : reply session_state :=
  let move := session_server_move p t.2 0 s in
  match se_server s, c with
  | RS_receive, Recv _ size =>
      if negb (size =? Z.of_nat (se_size p)) then Strange
      else if decide (se_up s = 0%nat)
      then by_move move (if client_gone (se_client s) then val 0 else fails EAGAIN)
      else match fragment (se_splits p) t.2 (se_size p) (se_up s) with
           | Some n => by_move move (mk_result (Z.of_nat n) 0 (replicate n 0))
           | None => Waits
           end
  | RS_now, Timespec_get => by_clock t.1 (fun v => session_server_move p t.2 v s)
  | RS_send, Send _ bytes =>
      if bool_decide (bytes = le_bytes 8 (se_timestamp s))
      then by_move move (if client_gone (se_client s) then fails EPIPE else val 8) else Strange
  | _, _ => Strange
  end.

Lemma session_server_answer_move p t c s r s' :
  session_server_answer p t c s = Answer r s' -> exists v, session_server_move p t.2 v s = Some s'.
Proof.
  unfold session_server_answer. intros H. destruct (se_server s), c; try done; repeat case_match; simplify_eq;
    try (apply by_move_inv in H; by eexists). by apply by_clock_inv in H.
Qed.

Lemma session_server_answer_steps p t c s r s' :
  session_server_answer p t c s = Answer r s' -> rtc (session_step p) s s'.
Proof. intros [v H]%session_server_answer_move. eapply rtc_once, Session_server, H. Qed.

Lemma session_client_move_keeps p k b s s' :
  session_client_move p k b s = Some s' ->
  se_server s' = se_server s /\ se_server_again s' = se_server_again s /\ se_timestamp s' = se_timestamp s.
Proof.
  destruct s as [up down sv sa ts sent cl ca ss rcv]. destruct cl; cbn [session_client_move]; intros H; try done.
  - by simplify_eq.
  - destruct (server_gone sv); [destruct (decide _)|]; by simplify_eq.
  - destruct (decide (down = [])).
    + destruct (server_gone sv); [|destruct (se_busy p)]; by simplify_eq.
    + destruct (fragment _ _ _ _); [|done]. cbn in H. destruct (receive_result _ _ _ _); by simplify_eq.
  - by simplify_eq.
Qed.

(** The server at a place of its protocol, with its timestamp. *)
Definition session_server_at (pc : session_server_pc) (ts : option Z) (s : session_state) : Prop :=
  se_server s = pc /\ match ts with Some v => se_timestamp s = v | None => True end.

Lemma session_clients_keep p (t : session_server_turn p) (P : session_server_pc -> bool -> Z -> Prop) s :
  P (se_server s) (se_server_again s) (se_timestamp s) ->
  let s' := moves_along (fun c => session_client_move p c.1 c.2) (tn_others t.1) s in
  P (se_server s') (se_server_again s') (se_timestamp s').
Proof.
  intros H. apply (moves_along_inv _ (fun s => P (se_server s) (se_server_again s) (se_timestamp s))); [|done].
  intros [k b] s1 s2 H1 Hm. destruct (session_client_move_keeps _ _ _ _ _ Hm) as (-> & -> & ->). done.
Qed.

Lemma session_server_answer_errno p t c e s r s' :
  server_errno e s -> session_server_answer p t c s = Answer r s' ->
  server_errno (if rv r =? -1 then err r else e) s'.
Proof.
  destruct s as [up down sv sa ts sent cl ca ss rcv]. unfold session_server_answer, server_errno. cbn [se_server se_server_again].
  intros He H. destruct sv, c; try done.
  - destruct (negb _); [done|]. cbn [se_up se_client] in H. destruct (decide (up = 0%nat)) as [Hu|Hu].
    + destruct (client_gone cl) eqn:Eg.
      * pose proof (by_move_inv _ _ _ _ H) as Hm. cbn [session_server_move] in Hm. rewrite decide_True, Eg in Hm by done.
        injection Hm as <-. destruct (session_server_move _ _ _ _); [|done]. by injection H as <- _.
      * pose proof (by_move_inv _ _ _ _ H) as Hm. cbn [session_server_move] in Hm. rewrite decide_True, Eg in Hm by done.
        destruct (se_busy p); [|done].
        injection Hm as <-. destruct (session_server_move _ _ _ _); [|done]. by injection H as <- _.
    + destruct (fragment _ _ _ _) as [n|] eqn:Ef; [|done].
      pose proof (by_move_inv _ _ _ _ H) as Hm. cbn [session_server_move] in Hm. rewrite decide_False, Ef in Hm by done.
      cbn [mbind option_bind] in Hm. injection Hm as <-.
      destruct (session_server_move _ _ _ _); [|done]. injection H as <- _. cbn [rv].
      by rewrite (proj2 (Z.eqb_neq _ _)) by lia.
  - unfold by_clock in H. destruct (now _ _) as [v|]; [|done]. pose proof (by_move_inv _ _ _ _ H) as Hm.
    cbn [session_server_move] in Hm. case_decide; [|done]. injection Hm as <-.
    destruct (session_server_move _ _ _ _); [|done]. by injection H as <- _.
  - case_bool_decide; [|done]. cbn [se_client] in H. pose proof (by_move_inv _ _ _ _ H) as Hm.
    cbn [session_server_move] in Hm. destruct (client_gone cl); injection Hm as <-;
      (destruct (session_server_move _ _ _ _); [|done]); by injection H as <- _.
Qed.

#[export] Instance session_server_link p : Link session_state (session_server_turn p) := {
  link_step := session_step p;
  link_others t s := moves_along (fun c => session_client_move p c.1 c.2) (tn_others t.1) s;
  link_answer := session_server_answer p;
  link_others_steps t s := moves_along_rtc _ (session_step p) _ s (fun c s1 s2 => Session_client p c.1 c.2 s1 s2);
  link_answer_steps := session_server_answer_steps p;
  link_errno := server_errno;
  link_others_errno t e s H :=
    session_clients_keep p t (fun _ again _ => again = bool_decide (e = EAGAIN)) s H;
  link_answer_errno := session_server_answer_errno p;
}.

Lemma session_server_at_stable p pc ts : stable (T:=session_server_turn p) (session_server_at pc ts).
Proof.
  intros t s H.
  apply (session_clients_keep p t (fun pc' _ v => pc' = pc /\ match ts with Some w => v = w | None => True end) s H).
Qed.

Lemma halts_receive {S T} `{!Link S T} fuel fd size busy : halts (receive (W:=world S T) fuel fd size busy).
Proof.
  unfold receive. case_match; [|halting]. induction fuel as [|fuel IH]; cbn [receive_busy]; halting.
Qed.

Section server.
Context (p : session_setting).
Abbreviation W := (world session_state (session_server_turn p)).
Abbreviation size := (Z.of_nat (se_size p)).

(** A call of [recv] ends the wait, is retried, or fails. *)
Lemma session_server_recv fd D R :
  triple (session_server_at RS_receive None) (sys (W:=W) (Recv fd size))
    (fun r s => size <= rv r /\ se_server s = RS_now \/
       rv r < size /\ se_server s = (if se_busy p && se_server_again s then RS_receive else RS_died)) D R.
Proof.
  apply triple_sys; [apply session_server_at_stable|].
  intros t [up down sv sa ts sent cl ca ss rcv] [Hpc _]. simpl in Hpc. subst sv.
  cbn [link_answer session_server_link session_server_answer session_server_move se_server se_up se_client].
  rewrite Z.eqb_refl. cbn [negb]. destruct (decide (up = 0%nat)) as [Hu|Hu].
  - destruct (client_gone cl).
    + cbn [by_move rv val]. unfold receive_result. case_decide; [left|right]; cbn [se_server se_server_again].
      * split; [lia|done].
      * split; [lia|]. by destruct (se_busy p && sa).
    + destruct (se_busy p); [|done]. cbn [by_move rv fails]. right. cbn. split; [lia|done].
  - destruct (fragment _ _ _ _) as [n|]; [|done]. cbn [mbind option_bind by_move rv].
    unfold receive_result. case_decide; [left|right]; cbn [se_server se_server_again].
    + split; [lia|done].
    + split; [lia|]. by destruct (se_busy p && sa).
Qed.

Lemma session_server_receives fuel fd D :
  triple (session_server_at RS_receive None) (receive (W:=W) fuel fd size (se_busy p))
    (fun r s => r.1 = 0 /\ session_server_at RS_now None s \/ r.1 = -1 /\ se_server s = RS_died) D
    (session_server_at RS_receive None).
Proof.
  unfold receive. destruct (se_busy p) eqn:Eb.
  - induction fuel as [|fuel IH]; cbn [receive_busy]; [by apply triple_running|].
    eapply triple_bind; [|apply session_server_recv|]; intros r; rewrite ?Eb.
    { pose proof (halts_receive (S:=session_state) (T:=session_server_turn p) fuel fd size true) as H. halting. }
    cbn [andb]. destruct (Z.ltb_spec (rv r) size) as [Hlt|Hge].
    + eapply (triple_bind _ _ _ (fun e s => se_server s = if bool_decide (e = EAGAIN) then RS_receive else RS_died)).
      { intros e. pose proof (halts_receive (S:=session_state) (T:=session_server_turn p) fuel fd size true) as H.
        halting. }
      { apply triple_get_errno. intros e s He [[? _]|[_ H]]; [lia|]. by rewrite <- He. }
      intros e. destruct (Z.eqb_spec e EAGAIN) as [->|Hne]; cbn [negb].
      * eapply triple_conseq; [exact IH| |done|done|done]. intros s H. by split.
      * apply triple_ret. intros s H. right. by rewrite bool_decide_eq_false_2 in H.
    + apply triple_ret. intros s [[_ H]|[? _]]; [|lia]. left. by split_and!.
  - eapply triple_bind; [intros; halting|apply session_server_recv|]. intros r. rewrite Eb. cbn [andb].
    destruct (Z.ltb_spec (rv r) size) as [Hlt|Hge]; apply triple_ret.
    + intros s [[? _]|[_ H]]; [lia|]. by right.
    + intros s [[_ H]|[? _]]; [|lia]. left. by split_and!.
Qed.

Lemma session_server_clock D R :
  triple (session_server_at RS_now None) (read_now (W:=W)) (fun v => session_server_at RS_send (Some v)) D R.
Proof.
  apply (triple_read_now _ (fun v => session_server_at RS_send (Some v))); [apply session_server_at_stable|].
  intros t s [Hpc _]. cbn [link_answer session_server_link]. unfold session_server_answer, by_clock. rewrite Hpc.
  destruct (now _ _) as [v|] eqn:Hn; [|done]. destruct (session_server_move p t.2 v s) as [s'|] eqn:Hm; [|done].
  cbn. do 3 eexists. split_and!; [done|exact Hn|].
  destruct s as [up down sv sa ts sent cl ca ss rcv]. simpl in Hpc. subst sv. cbn [session_server_move] in Hm.
  case_decide; [|done]. by injection Hm as <-.
Qed.

(** The reply; [fails] is the test of the result of [send]. *)
Lemma session_server_sends fd v fails message :
  fails (-1) = true -> fails 8 = se_domain p && bool_decide (8 < se_size p)%nat ->
  triple (session_server_at RS_send (Some v))
    (sent ← sys_rv (W:=W) (Send fd (le_bytes 8 v)); throw_if (fails sent) message)
    (fun _ => session_server_at RS_receive None) (fun s => se_server s = RS_died)
    (session_server_at RS_receive None).
Proof.
  intros H1 H8.
  eapply (triple_bind _ _ _ (fun r s => se_server s = if fails r then RS_died else RS_receive)); [intros; halting| |].
  - apply triple_sys_rv; [apply session_server_at_stable|]. intros t s [Hpc Hts].
    cbn [link_answer session_server_link]. unfold session_server_answer. rewrite Hpc, bool_decide_eq_true_2 by congruence.
    destruct s as [up down sv sa ts sent cl ca ss rcv]. simpl in Hpc. subst sv. cbn [session_server_move se_client].
    destruct (client_gone cl); cbn; [by rewrite H1|by rewrite H8].
  - intros r. apply triple_throw_if; intros -> s H; [done|by split].
Qed.

(** One iteration of the server: of tcp, or of domain. *)
Lemma session_server_rounds fuel fd args D :
  arg_size args = size -> (forall s, se_server s = RS_died -> D s) ->
  triple (session_server_at RS_receive None)
    (if se_domain p then domain_server_round (W:=W) fuel fd args (se_busy p) else tcp_server_round fuel fd args (se_busy p))
    (fun _ => session_server_at RS_receive None) D (session_server_at RS_receive None).
Proof.
  intros Hs HD.
  assert (Hgen : forall receiving fails sending, fails (-1) = true ->
    fails 8 = se_domain p && bool_decide (8 < se_size p)%nat ->
    triple (session_server_at RS_receive None)
      (r ← receive (W:=W) fuel fd (arg_size args) (se_busy p);
       throw_if (r.1 =? -1) receiving;;
       timestamp ← read_now;
       sent ← sys_rv (Send fd (le_bytes 8 timestamp));
       throw_if (fails sent) sending)
      (fun _ => session_server_at RS_receive None) D (session_server_at RS_receive None)).
  { intros receiving fails sending H1 H8. rewrite Hs.
    eapply triple_bind; [intros; halting|apply session_server_receives|intros r].
    apply triple_bind_check; [intros Hr%Z.eqb_eq s [[H _]|[_ H]]; [lia|by apply HD]|intros Hr%Z.eqb_neq].
    eapply (triple_conseq _ (session_server_at RS_now None)); [|by intros s [[_ H]|[H _]]|exact (fun _ _ H => H)|exact HD|exact (fun _ H => H)].
    eapply triple_bind; [intros; halting|apply session_server_clock|intros v]. by apply session_server_sends. }
  destruct (se_domain p) eqn:Ed.
  - apply (Hgen "Error receiving on server-side" (fun sent => sent <? arg_size args)); [apply Z.ltb_lt; lia|].
    cbn [andb]. rewrite Hs. destruct (decide (8 < se_size p)%nat).
    + rewrite bool_decide_eq_true_2 by done. apply Z.ltb_lt. lia.
    + rewrite bool_decide_eq_false_2 by done. apply Z.ltb_ge. lia.
  - by apply (Hgen "Error receving from server" (fun sent => sent =? -1)).
Qed.

Lemma session_server_loops fuel spins fd args :
  arg_size args = size ->
  triple (session_server_at RS_receive None)
    (forever fuel (if se_domain p then domain_server_round (W:=W) spins fd args (se_busy p)
                   else tcp_server_round spins fd args (se_busy p)))
    (fun _ _ => False) (fun s => se_server s = RS_died) (session_server_at RS_receive None).
Proof.
  intros Hs. apply triple_forever; [|by apply session_server_rounds].
  pose proof (halts_receive (S:=session_state) (T:=session_server_turn p)) as Hh.
  destruct (se_domain p); unfold domain_server_round, tcp_server_round; (apply halts_bind; [apply Hh|]); halting.
Qed.

End server.

(** ** The clients *)

(** The choices for a call of a client: the server's moves, each with the bytes
    that have arrived and the clock, and the bytes that have arrived for the
    call.  [start] is the microseconds the time test compares with. *)
Definition session_client_turn (p : session_setting) (start : Z) : Type := turn (nat * Z) * nat.

Definition session_client_answer (p : session_setting) (start : Z) (t : session_client_turn p start) (c : syscall)
    (s : session_state) : reply session_state :=
  let move := session_client_move p t.2 false s in
  match se_client s, c with
  | RC_check, Gettimeofday =>
      by_move (session_client_move p t.2 ((tn_clock t.1).2 - start >? 100000) s)
        (mk_result 0 0 [(tn_clock t.1).1; (tn_clock t.1).2])
  | RC_send, Send _ bytes =>
      if negb (bool_decide (length bytes = se_size p)) then Strange
      else by_move move
        (if server_gone (se_server s) && bool_decide (t.2 = 0%nat) then fails EPIPE else val (Z.of_nat (se_size p)))
  | RC_receive, Recv _ size =>
      if negb (size =? 8) then Strange
      else if decide (se_down s = [])
      then by_move move (if server_gone (se_server s) then val 0 else fails EAGAIN)
      else match fragment (se_splits p) t.2 8 (length (se_down s)) with
           | Some n => by_move move (mk_result (Z.of_nat n) 0 (take n (se_down s)))
           | None => Waits
           end
  | RC_benchmark, Timespec_get => by_clock t.1 (fun _ => move)
  | _, _ => Strange
  end.

Lemma session_client_answer_move p start t c s r s' :
  session_client_answer p start t c s = Answer r s' -> exists b, session_client_move p t.2 b s = Some s'.
Proof.
  unfold session_client_answer. intros H. destruct (se_client s), c; try done; repeat case_match; simplify_eq;
    try (apply by_move_inv in H; by eexists). apply by_clock_inv in H as [v H]. by eexists.
Qed.

Lemma session_client_answer_steps p start t c s r s' :
  session_client_answer p start t c s = Answer r s' -> rtc (session_step p) s s'.
Proof. intros [b H]%session_client_answer_move. eapply rtc_once, Session_client, H. Qed.

Lemma session_server_move_keeps p k t s s' :
  session_server_move p k t s = Some s' ->
  se_client s' = se_client s /\ se_client_again s' = se_client_again s /\ se_received s' = se_received s /\
  se_single_start s' = se_single_start s.
Proof.
  destruct s as [up down sv sa ts sent cl ca ss rcv]. destruct sv; cbn [session_server_move]; intros H; try done.
  - destruct (decide (up = 0%nat)).
    + destruct (client_gone cl); [|destruct (se_busy p)]; by simplify_eq.
    + destruct (fragment _ _ _ _); [|done]. cbn in H. by simplify_eq.
  - case_decide; by simplify_eq.
  - destruct (client_gone cl); by simplify_eq.
Qed.

Lemma session_servers_keep p start (t : session_client_turn p start)
    (P : session_client_pc -> bool -> list Z -> Z -> Prop) s :
  P (se_client s) (se_client_again s) (se_received s) (se_single_start s) ->
  let s' := moves_along (fun c => session_server_move p c.1 c.2) (tn_others t.1) s in
  P (se_client s') (se_client_again s') (se_received s') (se_single_start s').
Proof.
  intros H. apply (moves_along_inv _ (fun s => P (se_client s) (se_client_again s) (se_received s) (se_single_start s)));
    [|done].
  intros [k v] s1 s2 H1 Hm. destruct (session_server_move_keeps _ _ _ _ _ Hm) as (-> & -> & -> & ->). done.
Qed.

Lemma by_move_result {S} (o : option S) r r' s : by_move o r = Answer r' s -> r' = r.
Proof. destruct o; [by intros [= <- _]|done]. Qed.

Lemma session_client_answer_errno p start t c e s r s' :
  client_errno e s -> session_client_answer p start t c s = Answer r s' ->
  client_errno (if rv r =? -1 then err r else e) s'.
Proof.
  destruct s as [up down sv sa ts sent cl ca ss rcv]. unfold session_client_answer, client_errno.
  cbn [se_client se_client_again se_server se_down]. intros He H. destruct cl, c; try done.
  - pose proof (by_move_inv _ _ _ _ H) as Hm. apply by_move_result in H as ->. cbn [session_client_move] in Hm.
    by injection Hm as <-.
  - destruct (negb _); [done|]. pose proof (by_move_inv _ _ _ _ H) as Hm. apply by_move_result in H as ->.
    cbn [session_client_move] in Hm. destruct (server_gone sv); cbn [andb].
    + destruct (decide (t.2 = 0%nat)) as [Hk|Hk]; injection Hm as <-;
        [rewrite (bool_decide_eq_true_2 (t.2 = 0%nat)) by done; done|].
      rewrite (bool_decide_eq_false_2 (t.2 = 0%nat)) by done. cbn [rv val se_client_again].
      by rewrite (proj2 (Z.eqb_neq _ _)) by lia.
    + injection Hm as <-. cbn [rv val se_client_again]. by rewrite (proj2 (Z.eqb_neq _ _)) by lia.
  - destruct (negb _); [done|]. destruct (decide (down = [])) as [Hd|Hd].
    + pose proof (by_move_inv _ _ _ _ H) as Hm. apply by_move_result in H as ->.
      cbn [session_client_move] in Hm. rewrite decide_True in Hm by done.
      destruct (server_gone sv); [|destruct (se_busy p); [|done]]; by injection Hm as <-.
    + destruct (fragment _ _ _ _) as [n|] eqn:Ef; [|done].
      pose proof (by_move_inv _ _ _ _ H) as Hm. apply by_move_result in H as ->.
      cbn [session_client_move] in Hm. rewrite decide_False, Ef in Hm by done. cbn [mbind option_bind] in Hm.
      cbn [rv]. rewrite (proj2 (Z.eqb_neq _ _)) by lia. by destruct (receive_result _ _ _ _); injection Hm as <-.
  - unfold by_clock in H. destruct (now _ _); [|done]. pose proof (by_move_inv _ _ _ _ H) as Hm.
    apply by_move_result in H as ->. cbn [session_client_move] in Hm. by injection Hm as <-.
Qed.

#[export] Instance session_client_link p start : Link session_state (session_client_turn p start) := {
  link_step := session_step p;
  link_others t s := moves_along (fun c => session_server_move p c.1 c.2) (tn_others t.1) s;
  link_answer := session_client_answer p start;
  link_others_steps t s := moves_along_rtc _ (session_step p) _ s (fun c s1 s2 => Session_server p c.1 c.2 s1 s2);
  link_answer_steps := session_client_answer_steps p start;
  link_errno := client_errno;
  link_others_errno t e s H :=
    session_servers_keep p start t (fun _ again _ _ => again = bool_decide (e = EAGAIN)) s H;
  link_answer_errno := session_client_answer_errno p start;
}.

(** The client at a place, with what it has received and read. *)
Definition session_client_at (pc : session_client_pc) (rcv : list Z) (ss : option Z) (s : session_state) : Prop :=
  se_client s = pc /\ se_received s = rcv /\ match ss with Some v => se_single_start s = v | None => True end.

Lemma session_client_at_stable p start pc rcv ss :
  stable (T:=session_client_turn p start) (session_client_at pc rcv ss).
Proof.
  intros t s H.
  apply (session_servers_keep p start t (fun pc' _ l v => pc' = pc /\ l = rcv /\ match ss with Some w => v = w | None => True end) s H).
Qed.

Section client.
Context (p : session_setting) (start : Z).
Abbreviation W := (world session_state (session_client_turn p start)).

Lemma session_client_tests rcv D R :
  triple (session_client_at RC_check rcv None) (gettimeofday_usec (W:=W))
    (fun usec s => if usec - start >? 100000 then session_client_at RC_done rcv None s
                   else session_client_at RC_send rcv None s) D R.
Proof.
  apply triple_gettimeofday; [apply session_client_at_stable|].
  intros t [up down sv sa ts sent cl ca ss rcv'] (Hpc & Hr & _). simpl in Hpc, Hr. subst.
  cbn [link_answer session_client_link session_client_answer session_client_move se_client by_move].
  do 2 eexists. split; [done|]. by destruct (_ >? _).
Qed.

Lemma session_client_sends fd buffer rcv D R :
  length buffer = se_size p ->
  triple (session_client_at RC_send rcv None) (sys_rv (W:=W) (Send fd buffer))
    (fun v s => v = -1 /\ se_client s = RC_died \/ v <> -1 /\ session_client_at RC_receive rcv None s) D R.
Proof.
  intros Hb. apply triple_sys_rv; [apply session_client_at_stable|].
  intros t [up down sv sa ts sent cl ca ss rcv'] (Hpc & Hr & _). simpl in Hpc, Hr. subst.
  cbn [link_answer session_client_link session_client_answer session_client_move se_client se_server].
  rewrite bool_decide_eq_true_2 by done. cbn [negb]. destruct (server_gone sv); cbn [andb by_move].
  - case_bool_decide as Hk; [rewrite decide_True by done|rewrite decide_False by done]; [by left|].
    right. cbn [rv val]. split; [lia|done].
  - right. cbn [rv val]. split; [lia|done].
Qed.

Lemma session_client_recv fd rcv D R :
  triple (session_client_at RC_receive rcv None) (sys (W:=W) (Recv fd 8))
    (fun r s => 8 <= rv r /\ session_client_at RC_benchmark rcv (Some (le_value (data r))) s \/
       rv r < 8 /\ se_client s = (if se_busy p && se_client_again s then RC_receive else RC_died) /\ se_received s = rcv) D R.
Proof.
  apply triple_sys; [apply session_client_at_stable|].
  intros t [up down sv sa ts sent cl ca ss rcv'] (Hpc & Hr & _). simpl in Hpc, Hr. subst.
  cbn [link_answer session_client_link session_client_answer session_client_move se_client se_server se_down].
  change (negb (8 =? 8)) with false. cbn iota. destruct (decide (down = [])) as [Hd|Hd].
  - destruct (server_gone sv).
    + cbn [by_move rv val]. unfold receive_result. rewrite decide_False by lia. right. cbn. split; [lia|].
      by destruct (se_busy p && ca).
    + destruct (se_busy p); [|done]. cbn. right. split; [lia|done].
  - destruct (fragment _ _ _ _) as [n|]; [|done]. cbn [mbind option_bind]. unfold receive_result. case_decide.
    + cbn. left. split; [lia|done].
    + destruct (se_busy p && ca) eqn:E; cbn; right; rewrite E; (split; [lia|done]).
Qed.

Lemma session_client_receives fuel fd rcv D :
  triple (session_client_at RC_receive rcv None) (receive (W:=W) fuel fd 8 (se_busy p))
    (fun r s => r.1 = 0 /\ session_client_at RC_benchmark rcv (Some (le_value r.2)) s \/
       r.1 = -1 /\ se_client s = RC_died) D (fun s => se_client s = RC_receive).
Proof.
  unfold receive. destruct (se_busy p) eqn:Eb.
  - pose proof (halts_receive (S:=session_state) (T:=session_client_turn p start) fuel fd 8 true) as Hall.
    induction fuel as [|fuel IH]; cbn [receive_busy]; [by apply triple_running; intros s (H & _)|].
    assert (Hh : halts (receive_busy (W:=W) fuel fd 8))
      by apply (halts_receive (S:=session_state) (T:=session_client_turn p start) fuel fd 8 true).
    eapply triple_bind; [|apply session_client_recv|]; intros r; rewrite ?Eb; [halting|].
    cbn [andb]. destruct (Z.ltb_spec (rv r) 8) as [Hlt|Hge].
    + eapply (triple_bind _ _ _ (fun e s => se_client s = (if bool_decide (e = EAGAIN) then RC_receive else RC_died) /\
        se_received s = rcv)); [halting| |].
      { apply triple_get_errno. intros e s He [[? _]|(_ & H & Hr)]; [lia|]. by rewrite <- He. }
      intros e. destruct (Z.eqb_spec e EAGAIN) as [->|Hne]; cbn [negb].
      * eapply triple_conseq; [apply IH; exact Hh| |done|done|done]. intros s [H Hr]. by split_and!.
      * apply triple_ret. intros s [H _]. right. by rewrite bool_decide_eq_false_2 in H.
    + apply triple_ret. intros s [[_ H]|[? _]]; [|lia]. by left.
  - eapply triple_bind; [intros; halting|apply session_client_recv|]. intros r. rewrite Eb. cbn [andb].
    destruct (Z.ltb_spec (rv r) 8) as [Hlt|Hge]; apply triple_ret.
    + intros s [[? _]|(_ & H & _)]; [lia|]. by right.
    + intros s [[_ H]|[? _]]; [|lia]. by left.
Qed.

(** One iteration of both clients. *)
Lemma session_client_rounds sending receiving fuel fd buffer bench rcv :
  length buffer = se_size p -> 0 <= count bench < INT32_MAX ->
  triple (session_client_at RC_send rcv None)
    (socket_client_round (W:=W) sending receiving fuel fd buffer (se_busy p) bench)
    (fun b s => exists v, (exists t, benchmark t (set_single_start bench v) = Some b) /\
       session_client_at RC_check (rcv ++ [v]) None s)
    (fun s => se_client s = RC_died) (fun s => se_client s = RC_check \/ se_client s = RC_receive).
Proof.
  intros Hb Hc. unfold socket_client_round.
  pose proof (halts_receive (S:=session_state) (T:=session_client_turn p start) fuel fd 8 (se_busy p)) as Hh.
  eapply triple_bind; [unfold benchmark_call; halting|by apply session_client_sends|intros v].
  apply triple_bind_check; [intros Hv%Z.eqb_eq s [[_ H]|[H _]]; [exact H|done]|intros Hv%Z.eqb_neq].
  eapply (triple_conseq _ (session_client_at RC_receive rcv None));
    [|by intros s [[H _]|[_ H]]|exact (fun _ _ H => H)|exact (fun _ H => H)|exact (fun _ H => H)].
  eapply triple_bind; [unfold benchmark_call; halting| |intros r].
  { eapply triple_conseq; [apply session_client_receives|exact (fun _ H => H)|exact (fun _ _ H => H)|exact (fun _ H => H)|by right]. }
  apply triple_bind_check; [intros Hr%Z.eqb_eq s [[H _]|[_ H]]; [lia|exact H]|intros Hr%Z.eqb_neq].
  eapply (triple_conseq _ (session_client_at RC_benchmark rcv (Some (le_value r.2))));
    [|by intros s [[_ H]|[H _]]|exact (fun _ _ H => H)|exact (fun _ H => H)|exact (fun _ H => H)].
  apply (triple_benchmark_from _ (fun v => session_client_at RC_check (rcv ++ [v]) None)); [done|].
  apply triple_read_now; [apply session_client_at_stable|].
  intros t s (Hpc & Hrc & Hss). cbn [link_answer session_client_link]. unfold session_client_answer, by_clock.
  rewrite Hpc. destruct (now _ _) as [w|] eqn:Hn; [|done].
  destruct s as [up down sv sa ts sent cl ca ss rcv']. simpl in Hpc, Hrc, Hss. subst. cbn. do 3 eexists. by split_and!.
Qed.

(** The whole loop. *)
Definition session_client_done (bench0 : Benchmarks) (r : Benchmarks * Z) (s : session_state) : Prop :=
  exists rcv, measured bench0 rcv r.1 /\ r.2 = Z.of_nat (length rcv) /\ session_client_at RC_done rcv None s.
Definition session_client_running (s : session_state) : Prop := se_client s = RC_check \/ se_client s = RC_receive.

(** What was received is what was sent, when the client is done. *)
Lemma session_client_done_sent bench0 r s :
  session_client_done bench0 r s -> session_inv p s ->
  se_client s = RC_done /\ r.2 = Z.of_nat (length (se_sent s)) /\ measured bench0 (se_sent s) r.1.
Proof.
  intros (rcv & Hm & Hl & Hd & Hrc & _) Hi. destruct s as [up down sv sa ts sent cl ca ss rcv'].
  simpl in Hd, Hrc. subst. by destruct Hi as (_ & _ & -> & _).
Qed.

Lemma session_client_measures fuel spins fd buffer sending receiving bench0 :
  length buffer = se_size p -> 0 <= count bench0 -> count bench0 + Z.of_nat fuel <= INT32_MAX ->
  triple (session_client_at RC_check [] None)
    (timed_loop fuel gettimeofday_usec start
       (socket_client_round (W:=W) sending receiving spins fd buffer (se_busy p)) bench0 0)
    (session_client_done bench0) (fun s => se_client s = RC_died) session_client_running.
Proof.
  intros Hb Hc Hf.
  apply (client_loops (fun rcv => session_client_at RC_check rcv None) (fun rcv => session_client_at RC_send rcv None)
    (fun rcv => session_client_at RC_done rcv None) (fun _ => True) (fun b => b)); try done.
  - intros b. unfold socket_client_round, benchmark_call.
    pose proof (halts_receive (S:=session_state) (T:=session_client_turn p start) spins fd 8 (se_busy p)) as Hh. halting.
  - intros rcv s (H & _). by left.
  - intros rcv. apply session_client_tests.
  - intros rcv b _ Hcnt. eapply triple_conseq; [by apply session_client_rounds|exact (fun _ H => H)| |exact (fun _ H => H)|exact (fun _ H => H)].
    intros b' s H. exact (conj I H).
Qed.

End client.

(** ** Properties *)

(** The servers of tcp and domain make the moves of a session.  Their loop,
    run beside any client over any network, in both modes of [receive], only
    receives, reads the clock and sends that timestamp, and retries or gives up
    exactly when [session_server_move] does; it dies only in the state the
    session calls dead. *)
Theorem session_servers_refine p fuel spins fd args again :
  arg_size args = Z.of_nat (se_size p) ->
  triple (T:=session_server_turn p) (fun s => s = session_init again)
    (forever fuel (if se_domain p then domain_server_round spins fd args (se_busy p)
                   else tcp_server_round spins fd args (se_busy p)))
    (fun _ _ => False) (fun s => se_server s = RS_died) (fun s => se_server s = RS_receive).
Proof.
  intros Hs. eapply triple_conseq; [by apply session_server_loops|by intros s ->|done|done|by intros s [H _]].
Qed.

(** C19: the clients of tcp and domain measure what the server sends.  Their loop,
    run beside any server over any network, in both modes of [receive], makes
    only the moves of a session; when it ends, the count it prints is that of
    the timestamps the server has sent, and its record that of one measurement
    from each of them, in order; it dies only in the state the session calls
    dead. *)
Theorem session_clients_measure p start fuel spins fd buffer sending receiving again bench0
    (pr : process (world session_state (session_client_turn p start))) o q :
  (0 < se_size p)%nat -> length buffer = se_size p ->
  0 <= count bench0 -> count bench0 + Z.of_nat fuel <= INT32_MAX ->
  w_progress (env pr) = Live -> w_state (env pr) = session_init again -> bool_decide (errno pr = EAGAIN) = again ->
  timed_loop fuel gettimeofday_usec start
    (socket_client_round sending receiving spins fd buffer (se_busy p)) bench0 0 pr = (o, q) ->
  rtc (session_step p) (session_init again) (w_state (env q)) /\
  match w_progress (env q) with
  | Live =>
      match o with
      | Done (bench, cnt) =>
          se_client (w_state (env q)) = RC_done /\ cnt = Z.of_nat (length (se_sent (w_state (env q)))) /\
          measured bench0 (se_sent (w_state (env q))) bench
      | Died _ => se_client (w_state (env q)) = RC_died
      | Running => se_client (w_state (env q)) = RC_check \/ se_client (w_state (env q)) = RC_receive
      | Undefined => False
      end
  | Halted => True
  | Astray => False
  end.
Proof.
  intros Hsz Hb Hc Hf Hp Hw He Hrun.
  destruct (session_client_measures p start fuel spins fd buffer sending receiving bench0) with (p := pr) as [Hsteps Hends];
    try done.
  - rewrite Hw. unfold link_errno, session_client_link, client_errno. done.
  - by rewrite Hw.
  - rewrite Hrun in Hsteps, Hends. rewrite Hw in Hsteps. cbn [fst snd] in *. split; [done|].
    destruct (w_progress (env q)); [destruct Hends as [_ Hends]|done|done].
    destruct o as [[b cnt]|msg| |]; [|done|done|done]. cbn in Hends.
    apply (session_client_done_sent p bench0) in Hends as (H1 & H2 & H3); [done|].
    by apply (session_inv_reachable p again).
Qed.

(** ** Witnesses *)

Definition split_setting : session_setting := mk_setting 16 true true false.

Definition tcp_server_choices : list (session_server_turn split_setting) :=
  let c moves k := (mk_turn moves (1700000000, 0) (val 0), k) in
  [c [(0%nat, false); (0%nat, false)] 16%nat; c [] 0%nat; c [] 0%nat].

Lemma session_servers_refine_witness :
  let p := mk_process 0 [] (mk_world (session_init false) tcp_server_choices Live) in
  let run := forever 1 (tcp_server_round 4 5 (mk_Arguments 16 1000) true) p in
  w_progress (env run.2) = Live /\ se_sent (w_state (env run.2)) = [1700000000000000000] /\
  rtc (session_step split_setting) (session_init false) (w_state (env run.2)).
Proof.
  intros p run. split; [by vm_compute|]. split; [by vm_compute|].
  exact (proj1 (session_servers_refine split_setting 1 4 5 (mk_Arguments 16 1000) false eq_refl
    (mk_process 0 [] (mk_world (session_init false) tcp_server_choices Live)) eq_refl eq_refl eq_refl)).
Defined.

(** The client polls an empty stream; the server then replies, and the reply
    arrives whole. *)
Definition tcp_client_choices : list (session_client_turn split_setting 500000) :=
  let c moves k usec := (mk_turn moves (1700000000, usec) (val 0), k) in
  [c [] 0%nat 500100; c [] 0%nat 0; c [] 0%nat 0;
   c [(16%nat, 0); (0%nat, 1699999999999999744); (0%nat, 0)] 8%nat 0; c [] 0%nat 256; c [] 0%nat 600001].

Lemma session_clients_measure_witness :
  let pr := mk_process 0 [] (mk_world (session_init false) tcp_client_choices Live) in
  let round := socket_client_round "a" "b" 4 5 (replicate 16 0) true in
  let run := timed_loop 3 gettimeofday_usec 500000 round (mk_Benchmarks 0 0 INT32_MAX 0 0 0 0) 0 pr in
  w_progress (env run.2) = Live /\ se_client (w_state (env run.2)) = RC_done /\
  se_sent (w_state (env run.2)) = [1699999999999999744] /\
  rtc (session_step split_setting) (session_init false) (w_state (env run.2)).
Proof.
  intros pr round run. split; [by vm_compute|]. split; [by vm_compute|]. split; [by vm_compute|].
  exact (proj1 (session_clients_measure split_setting 500000 3 4 5 (replicate 16 0) "a" "b" false
    (mk_Benchmarks 0 0 INT32_MAX 0 0 0 0) pr run.1 run.2
    ltac:(simpl; lia) eq_refl ltac:(done) ltac:(by vm_compute) eq_refl eq_refl eq_refl (surjective_pairing run))).
Defined.
