(* ===== verification/SessionPair.v ===== *)
(** * tcp and domain: the two programs together

    The loops of the servers and the clients of tcp/ and domain/, call by call
    in any order, over the two byte streams of a connection. *)
From S2P Require Import Prelude Kernel Memory Benchmarks Linking Together Sockets Network Session SessionLink.

#[local] Arguments le_bytes : simpl never.

(** ** The programs call nothing but the kernel *)
Lemma interactive_receive fuel fd size busy : interactive (fun W _ => receive (W:=W) fuel fd size busy).
Proof.
  unfold receive. destruct busy; [|interacting].
  induction fuel; cbn [receive_busy]; interacting.
Qed.
#[local] Hint Resolve interactive_receive : interactive.

(** The server of tcp, or of domain. *)
Definition session_server_round (p : session_setting) (spins : nat) (fd : Z) (args : Arguments) W `{!Kernel W}
    : M (process W) () :=
  if se_domain p then domain_server_round spins fd args (se_busy p) else tcp_server_round spins fd args (se_busy p).

Lemma interactive_session_server p spins fd args : interactive (session_server_round p spins fd args).
Proof.
  unfold session_server_round, domain_server_round, tcp_server_round, read_now. destruct (se_domain p); interacting.
Qed.

Lemma interactive_socket_client sending receiving spins fd buffer busy bench :
  interactive (fun W _ => socket_client_round (W:=W) sending receiving spins fd buffer busy bench).
Proof. unfold socket_client_round, benchmark_call, read_now. interacting. Qed.

(** ** The two sides of the protocol *)
#[export] Instance session_server_choices_ok p : Choices session_state (session_server_turn p).
Proof.
  refine {| link_alone (t : session_server_turn p) := (turn_alone t.1, t.2) : session_server_turn p;
            link_then t1 t2 := (turn_then t1.1 t2.1, t2.2) |}; try done.
  intros. cbn. apply moves_along_app.
Defined.

#[export] Instance session_client_choices_ok p start : Choices session_state (session_client_turn p start).
Proof.
  refine {| link_alone (t : session_client_turn p start) := (turn_alone t.1, t.2) : session_client_turn p start;
            link_then t1 t2 := (turn_then t1.1 t2.1, t2.2) |}; try done.
  intros. cbn. apply moves_along_app.
Defined.

#[export] Instance session_server_beside p start : Beside session_state (session_server_turn p) (session_client_turn p start).
Proof.
  constructor. intros t c s r s' H. apply session_client_answer_move in H as [b Hm].
  change (link_alone t).2 with t.2 in Hm.
  exists (mk_turn [(t.2, b)] (0, 0) (val 0), 0%nat). cbn. unfold moves_along. cbn. by rewrite Hm.
Qed.

#[export] Instance session_client_beside p start : Beside session_state (session_client_turn p start) (session_server_turn p).
Proof.
  constructor. intros t c s r s' H. apply session_server_answer_move in H as [v Hm].
  change (link_alone t).2 with t.2 in Hm.
  exists (mk_turn [(t.2, v)] (0, 0) (val 0), 0%nat). cbn. unfold moves_along. cbn. by rewrite Hm.
Qed.

(** ** A call that is expected and possible is answered *)
Definition session_client_can (p : session_setting) (s : session_state) : Prop :=
  exists k, is_Some (session_client_move p k false s).
Definition session_server_can (p : session_setting) (s : session_state) : Prop :=
  exists k, is_Some (session_server_move p k 0 s).

Lemma session_client_answers p start c s :
  (forall t, session_client_answer p start (turn_alone t.1, t.2) c s <> Strange) -> session_client_can p s ->
  exists t r s', session_client_answer p start (turn_alone t.1, t.2) c s = Answer r s'.
Proof.
  intros Hc (k & s' & Hm). specialize (Hc (mk_turn [] (0, 0) (val 0), k)). exists (mk_turn [] (0, 0) (val 0), k).
  unfold session_client_answer, by_clock, turn_alone in *. cbn [tn_clock tn_result fst snd] in *. rewrite now_zero, Hm in *.
  destruct (se_client s) eqn:Hpc, c; try done; try (destruct (negb _); [done|]); try by do 2 eexists.
  - destruct s as [up down sv sa ts sent cl ca ss rcv]. simpl in Hpc. subst. by do 2 eexists.
  - destruct (decide _) as [Hd|Hd]; [by do 2 eexists|]. destruct (fragment _ _ _ _) eqn:Ef; [by do 2 eexists|].
    destruct s as [up down sv sa ts sent cl ca ss rcv]. simpl in Hpc, Hd, Ef. subst. cbn [session_client_move] in Hm.
    by rewrite decide_False, Ef in Hm.
Qed.

Lemma session_server_answers p c s :
  (forall t, session_server_answer p (turn_alone t.1, t.2) c s <> Strange) -> session_server_can p s ->
  exists t r s', session_server_answer p (turn_alone t.1, t.2) c s = Answer r s'.
Proof.
  intros Hc (k & s' & Hm). specialize (Hc (mk_turn [] (0, 0) (val 0), k)). exists (mk_turn [] (0, 0) (val 0), k).
  unfold session_server_answer, by_clock, turn_alone in *. cbn [tn_clock tn_result fst snd] in *. rewrite now_zero, Hm in *.
  destruct (se_server s) eqn:Hpc, c; try done; try (destruct (negb _); [done|]); try (case_bool_decide; [|done]);
    try by do 2 eexists.
  destruct (decide _) as [Hd|Hd]; [by do 2 eexists|]. destruct (fragment _ _ _ _) eqn:Ef; [by do 2 eexists|].
  destruct s as [up down sv sa ts sent cl ca ss rcv]. simpl in Hpc, Hd, Ef. subst. cbn [session_server_move] in Hm.
  by rewrite decide_False, Ef in Hm.
Qed.

(** A move that is possible at all is possible with the choices above. *)
Lemma session_step_can p s s' : session_step p s s' -> session_server_can p s \/ session_client_can p s.
Proof.
  intros Hs. destruct Hs as [k t [up down sv sa ts sent cl ca ss rcv] s' Hm|k b [up down sv sa ts sent cl ca ss rcv] s' Hm];
    [left|right]; exists k.
  - destruct sv; cbn [session_server_move] in *; try by eexists. 
  - destruct cl; cbn [session_client_move] in *; try by eexists.
Qed.

(** ** The pair *)
Section pair.
Context (p : session_setting) (start : Z) (fuel_s fuel_c spins_s spins_c : nat) (fd_s fd_c : Z) (args : Arguments).
Context (buffer : list Z) (sending receiving : string) (bench0 : Benchmarks).

Definition session_server_program W `{!Kernel W} : M (process W) () :=
  forever fuel_s (session_server_round p spins_s fd_s args W).
Definition session_client_program W `{!Kernel W} : M (process W) (Benchmarks * Z) :=
  timed_loop fuel_c gettimeofday_usec start
    (socket_client_round sending receiving spins_c fd_c buffer (se_busy p)) bench0 0.

Definition session_joint_step : relation (joint session_state) :=
  joint_step (TA:=session_server_turn p) (TB:=session_client_turn p start)
    (session_server_program script) (session_client_program script).

Lemma session_died_stable : stable (T:=session_client_turn p start) (fun s => se_client s = RC_died).
Proof. intros t s H. apply (session_servers_keep p start t (fun pc _ _ _ => pc = RC_died) s H). Qed.

Lemma session_running_stable : stable (T:=session_client_turn p start) session_client_running.
Proof. intros t s H. apply (session_servers_keep p start t (fun pc _ _ _ => pc = RC_check \/ pc = RC_receive) s H). Qed.

Lemma session_server_died_stable : stable (T:=session_server_turn p) (fun s => se_server s = RS_died).
Proof. intros t s H. apply (session_clients_keep p t (fun pc _ _ => pc = RS_died) s H). Qed.

Lemma session_pair_sound j :
  arg_size args = Z.of_nat (se_size p) -> length buffer = se_size p ->
  0 <= count bench0 -> count bench0 + Z.of_nat fuel_c <= INT32_MAX ->
  rtc session_joint_step (mk_joint (session_init false) [] []) j ->
  rtc (session_step p) (session_init false) (j_state j) /\
  abides (T:=session_server_turn p) (session_server_program script) (fun _ _ => False) (fun s => se_server s = RS_died)
    (session_server_at RS_receive None) (j_first j) (j_state j) /\
  abides (T:=session_client_turn p start) (session_client_program script) (session_client_done bench0)
    (fun s => se_client s = RC_died) session_client_running (j_second j) (j_state j).
Proof.
  intros Hsz Hb Hc Hf Hr. split.
  - by apply (joint_steps (TA:=session_server_turn p) (TB:=session_client_turn p start)
      session_server_program session_client_program) in Hr.
  - apply (joint_sound (TA:=session_server_turn p) (TB:=session_client_turn p start)
      session_server_program session_client_program
      (interactive_forever fuel_s _ (interactive_session_server p spins_s fd_s args))
      (interactive_timed_loop fuel_c start (fun W _ => socket_client_round (W:=W) sending receiving spins_c fd_c buffer (se_busy p))
         (interactive_socket_client sending receiving spins_c fd_c buffer (se_busy p)) bench0 0)
      (session_server_at RS_receive None) (session_client_at RC_check [] None)) with (s0 := session_init false); try done.
    + by apply session_server_loops.
    + by apply session_client_measures.
    + intros a. apply stable_False.
    + apply session_server_died_stable.
    + apply session_server_at_stable.
    + intros r. apply stable_exists. intros rcv. do 2 apply stable_pure. apply session_client_at_stable.
    + apply session_died_stable.
    + apply session_running_stable.
Qed.

End pair.

(** ** Properties *)

(** C7: the two programs of tcp, and of domain, work together.  In whatever
    order they send and receive, over any network and in both modes of
    [receive], the loops only make moves of a session and have no undefined
    behaviour; a client that returns has the count and the measurements of the
    timestamps the server sent.  When the network does not split messages and,
    for domain, the size is at most 8, the client does not die, the server can
    only die after the client has stopped, and one of the two can make its next
    call until one has ended.  For domain with a larger size, such as the default
    of 4096, the server sends at most one timestamp and dies with it. *)
Theorem session_together p start fuel_s fuel_c spins_s spins_c fd_s fd_c args buffer sending receiving bench0 j :
  (0 < se_size p)%nat -> arg_size args = Z.of_nat (se_size p) -> length buffer = se_size p ->
  0 <= count bench0 -> count bench0 + Z.of_nat fuel_c <= INT32_MAX ->
  rtc (session_joint_step p start fuel_s fuel_c spins_s spins_c fd_s fd_c args buffer sending receiving bench0)
    (mk_joint (session_init false) [] []) j ->
  let server := session_server_program p fuel_s spins_s fd_s args script in
  let client := session_client_program p start fuel_c spins_c fd_c buffer sending receiving bench0 script in
  rtc (session_step p) (session_init false) (j_state j) /\
  (next_call client (j_second j) = None ->
     match outcome_on client (j_second j) with
     | Done (bench, cnt) => cnt = Z.of_nat (length (se_sent (j_state j))) /\ measured bench0 (se_sent (j_state j)) bench
     | Died _ => ~ whole p
     | Undefined => False
     | Running => True
     end) /\
  (next_call server (j_first j) = None ->
     match outcome_on server (j_first j) with
     | Died _ => whole p -> se_client (j_state j) = RC_done
     | Running => True
     | _ => False
     end) /\
  (se_domain p = true -> (8 < se_size p)%nat ->
   (length (se_sent (j_state j)) <= 1)%nat /\ (se_sent (j_state j) <> [] -> se_server (j_state j) = RS_died)) /\
  (whole p ->
   (exists j', session_joint_step p start fuel_s fuel_c spins_s spins_c fd_s fd_c args buffer sending receiving bench0 j j') \/
   next_call server (j_first j) = None \/ next_call client (j_second j) = None).
Proof.
  intros Hpos Hsz Hbuf Hc Hf Hr server client.
  destruct (session_pair_sound p start fuel_s fuel_c spins_s spins_c fd_s fd_c args buffer sending receiving bench0 j)
    as (Hs & Ha & Hb); try done.
  fold server in Ha. fold client in Hb. split_and!; [done|..].
  - intros Hn. unfold abides in Hb. rewrite Hn in Hb. destruct (outcome_on client (j_second j)) as [[b cnt]| | |]; try done.
    + apply (session_client_done_sent p) in Hb as (_ & H1 & H2); [done|]. by apply (session_inv_reachable p false).
    + intros Hw. by destruct (whole_inv_reachable p false _ Hw Hs) as (_ & Hd & _).
  - intros Hn. unfold abides in Ha. rewrite Hn in Ha. destruct (outcome_on server (j_first j)); try done.
    intros Hw. destruct (whole_inv_reachable p false _ Hw Hs) as (_ & _ & Hd & _). by apply Hd.
  - intros Hd Hsize. destruct (session_domain_inv p false _ Hd Hsize Hs) as [-> |[-> ->]]; [|by split].
    split; [simpl; lia|done].
  - intros Hw. assert (se_client (j_state j) = RC_done \/ se_client (j_state j) <> RC_done) as [Hd|Hd]
      by (destruct (se_client (j_state j)); auto).
    + right; right. unfold abides in Hb. destruct (next_call client (j_second j)) as [d|]; [|done].
      destruct (Hb (mk_turn [] (0, 0) (val 0), 0%nat)). cbn. unfold session_client_answer. rewrite Hd. by destruct d.
    + destruct (whole_enabled p _ Hw (whole_inv_reachable p false _ Hw Hs) Hd) as (s' & Hst & _).
      eapply joint_goes_on; [apply session_server_answers|apply session_client_answers|exact Ha|exact Hb|].
      by eapply session_step_can.
Qed.

(** ** Witness *)

(** The client polls an empty stream once before the reply arrives. *)
Definition session_schedule : list (session_server_turn split_setting + session_client_turn split_setting 500000) :=
  let s k := inl (mk_turn [] (1699999999, 999999744) (val 0), k) in
  let c k usec := inr (mk_turn [] (1700000000, usec) (val 0), k) in
  [c 0%nat 500100; c 0%nat 0; c 0%nat 0; s 16%nat; s 0%nat; s 0%nat; c 8%nat 0; c 0%nat 256; c 0%nat 600001].

Definition session_pair_args : Arguments := mk_Arguments 16 1000.
Definition session_pair_bench : Benchmarks := mk_Benchmarks 0 0 INT32_MAX 0 0 0 0.

Definition session_pair_run : joint session_state :=
  state_along (joint_move (session_server_program split_setting 3 4 6 session_pair_args script)
      (session_client_program split_setting 500000 3 4 5 (replicate 16 0) "a" "b" session_pair_bench script))
    session_schedule (mk_joint (session_init false) [] []).

Lemma session_together_witness :
  next_call (session_client_program split_setting 500000 3 4 5 (replicate 16 0) "a" "b" session_pair_bench script)
    (j_second session_pair_run) = None /\
  se_sent (j_state session_pair_run) = [1699999999999999744] /\
  rtc (session_step split_setting) (session_init false) (j_state session_pair_run).
Proof.
  split; [by vm_compute|]. split; [by vm_compute|].
  refine (proj1 (session_together split_setting 500000 3 3 4 4 6 5 session_pair_args (replicate 16 0) "a" "b"
    session_pair_bench session_pair_run _ eq_refl eq_refl _ _ _)); [simpl; lia|by vm_compute|by vm_compute|].
  apply state_along_rtc; [intros t a b; apply joint_move_step|by vm_compute; eexists].
Defined.
