(* ===== verification/EventFd.v ===== *)
(** * eventfd: notification through one 64-bit counter

    The programs of [eventfd/eventfd-bi.c] and [eventfd/eventfd-uni.c] call by
    call, and their two processes over the counter: a read waits until it is
    not zero, returns it and resets it, a write adds to it. *)
From S2P Require Import Prelude Kernel Memory Benchmarks.

Definition SERVER_TOKEN : Z := 1.
Definition CLIENT_TOKEN : Z := 2.

Section programs.
Context {W : Type} `{!Kernel W}.

(** ** eventfd-bi.c *)

Definition eventfd_notify (descriptor value : Z) : M (process W) () :=
  r ← sys_rv (Write descriptor (le_bytes 8 value));
  throw_if (r =? -1) "Error writing to eventfd".

Fixpoint eventfd_wait (fuel : nat) (descriptor wanted : Z) : M (process W) () :=
  match fuel with
  | O => running
  | S fuel =>
      r ← sys (Read descriptor 8);
      throw_if (rv r =? -1) "Error reading from eventfd";;
      let stored := le_value (data r) in
      if stored =? wanted then mret ()
      else
        w ← sys_rv (Write descriptor (le_bytes 8 stored));
        throw_if (w =? -1) "Error writing back to eventfd";;
        eventfd_wait fuel descriptor wanted
  end.

(** [for (; args->count > 0; --args->count)], as the number of rounds. *)
Fixpoint bi_client_communicate (fuel rounds : nat) (descriptor : Z) : M (process W) () :=
  match rounds with
  | O => mret ()
  | S rounds =>
      eventfd_notify descriptor SERVER_TOKEN;;
      eventfd_wait fuel descriptor CLIENT_TOKEN;;
      bi_client_communicate fuel rounds descriptor
  end.

Fixpoint bi_server_loop (fuel rounds : nat) (descriptor : Z) (bench : Benchmarks) : M (process W) Benchmarks :=
  match rounds with
  | O => mret bench
  | S rounds =>
      bench ← start_single bench;
      eventfd_wait fuel descriptor SERVER_TOKEN;;
      eventfd_notify descriptor CLIENT_TOKEN;;
      bench ← benchmark_call bench;
      bi_server_loop fuel rounds descriptor bench
  end.

Definition bi_server_communicate (fuel : nat) (descriptor : Z) (args : Arguments) (bench0 : Benchmarks)
    : M (process W) report :=
  bench ← setup_benchmarks_call bench0;
  bench ← bi_server_loop fuel (Z.to_nat (arg_count args)) descriptor bench;
  of_outcome (evaluate bench (mk_Arguments 1 (arg_count args))).

(** The child is the client; only the parent prints. *)
Definition bi_communicate (fuel : nat) (descriptor : Z) (args : Arguments) (bench0 : Benchmarks)
    : M (process W) (option report) :=
  pid ← sys_rv Fork;
  throw_if (pid =? -1) "Error forking process";;
  if pid =? 0 then
    bi_client_communicate fuel (Z.to_nat (arg_count args)) descriptor;;
    sys_ (Close descriptor);; mret None
  else r ← bi_server_communicate fuel descriptor args bench0; mret (Some r).

Definition bi_main (fuel : nat) (args : Arguments) (bench0 : Benchmarks) : M (process W) (option report) :=
  descriptor ← sys_rv (Eventfd 0 0); bi_communicate fuel descriptor args bench0.

(** ** eventfd-uni.c *)

(** One iteration of the client's loop; the read overwrites [single_start]. *)
Definition uni_client_round (descriptor : Z) (bench : Benchmarks) : M (process W) Benchmarks :=
  r ← sys (Read descriptor 8);
  throw_if (rv r =? -1) "Error reading from eventfd";;
  benchmark_call (set_single_start bench (le_value (data r))).

Definition uni_client_communicate (fuel : nat) (descriptor : Z) (args : Arguments) (bench0 : Benchmarks)
    : M (process W) (Z * report) :=
  bench ← setup_benchmarks_call bench0;
  measure_loop fuel (uni_client_round descriptor) bench args.

Definition uni_server_round (descriptor : Z) : M (process W) () :=
  timestamp ← read_now;
  r ← sys_rv (Write descriptor (le_bytes 8 timestamp));
  throw_if (r =? -1) "Error writing to eventfd".

Definition uni_server_communicate (fuel : nat) (descriptor : Z) : M (process W) () :=
  forever fuel (uni_server_round descriptor).

Definition uni_communicate (fuel : nat) (descriptor : Z) (args : Arguments) (bench0 : Benchmarks)
    : M (process W) (option (Z * report)) :=
  pid ← sys_rv Fork;
  throw_if (pid =? -1) "Error forking process";;
  if pid =? 0 then
    printed ← uni_client_communicate fuel descriptor args bench0;
    sys_ (Close descriptor);; mret (Some printed)
  else uni_server_communicate fuel descriptor;; mret None.

Definition uni_main (fuel : nat) (args : Arguments) (bench0 : Benchmarks)
    : M (process W) (option (Z * report)) :=
  descriptor ← sys_rv (Eventfd 0 0); uni_communicate fuel descriptor args bench0.

End programs.

(** ** The two processes of eventfd-bi *)

Inductive bi_client_pc :=
  | BC_test                 (* the loop's test, then eventfd_notify(SERVER_TOKEN) *)
  | BC_read                 (* eventfd_wait(CLIENT_TOKEN): read *)
  | BC_back (stored : Z).   (* not the wanted value: write it back *)

Inductive bi_server_pc :=
  | BS_test                 (* the loop's test *)
  | BS_read                 (* eventfd_wait(SERVER_TOKEN): read *)
  | BS_back (stored : Z)
  | BS_notify.              (* eventfd_notify(CLIENT_TOKEN), and the next message *)

Record bi_state := mk_bi_state {
  bi_counter : Z;
  bi_client : bi_client_pc;
  bi_client_left : nat;     (* args->count of the client *)
  bi_server : bi_server_pc;
  bi_server_left : nat;     (* args->count - message of the server *)
}.

(** The largest value of an eventfd; a write that would exceed it waits. *)
Definition EVENTFD_MAX : Z := 2 ^ 64 - 2.

Definition eventfd_add (counter v : Z) : option Z :=
  if decide (counter + v <= EVENTFD_MAX) then Some (counter + v) else None.

Definition bi_client_move (s : bi_state) : option bi_state :=
  let 'mk_bi_state n c cl sv sl := s in
  match c with
  | BC_test =>
      match cl with
      | O => None
      | S _ => n ← eventfd_add n SERVER_TOKEN; Some (mk_bi_state n BC_read cl sv sl)
      end
  | BC_read =>
      if n =? 0 then None
      else if n =? CLIENT_TOKEN then Some (mk_bi_state 0 BC_test (cl - 1) sv sl)
      else Some (mk_bi_state 0 (BC_back n) cl sv sl)
  | BC_back v => n ← eventfd_add n v; Some (mk_bi_state n BC_read cl sv sl)
  end.

Definition bi_server_move (s : bi_state) : option bi_state :=
  let 'mk_bi_state n c cl sv sl := s in
  match sv with
  | BS_test =>
      match sl with O => None | S _ => Some (mk_bi_state n c cl BS_read sl) end
  | BS_read =>
      if n =? 0 then None
      else if n =? SERVER_TOKEN then Some (mk_bi_state 0 c cl BS_notify sl)
      else Some (mk_bi_state 0 c cl (BS_back n) sl)
  | BS_back v => n ← eventfd_add n v; Some (mk_bi_state n c cl BS_read sl)
  | BS_notify => n ← eventfd_add n CLIENT_TOKEN; Some (mk_bi_state n c cl BS_test (sl - 1))
  end.

Inductive bi_step : bi_state -> bi_state -> Prop :=
  | Bi_client s s' : bi_client_move s = Some s' -> bi_step s s'
  | Bi_server s s' : bi_server_move s = Some s' -> bi_step s s'.

Definition bi_init (count : nat) : bi_state := mk_bi_state 0 BC_test count BS_test count.

(** One token at a time: with nobody, in the counter, or in the hand of a
    process that has read the wrong one. *)
Definition bi_inv (s : bi_state) : Prop :=
  let 'mk_bi_state n c cl sv sl := s in
  let waiting := sv = BS_test \/ sv = BS_read /\ (0 < sl)%nat in
  match c with
  | BC_test => n = 0 /\ cl = sl /\ waiting
  | BC_read =>
      (n = SERVER_TOKEN /\ cl = sl /\ (0 < cl)%nat /\ waiting) \/
      (n = 0 /\ sv = BS_notify /\ cl = sl /\ (0 < cl)%nat) \/
      (n = CLIENT_TOKEN /\ cl = S sl /\ waiting) \/
      (n = 0 /\ sv = BS_back CLIENT_TOKEN /\ cl = S sl /\ (0 < sl)%nat)
  | BC_back v => v = SERVER_TOKEN /\ n = 0 /\ cl = sl /\ (0 < cl)%nat /\ waiting
  end.

Lemma eventfd_add_token n v : 0 <= n <= 2 -> 0 <= v <= 2 -> eventfd_add n v = Some (n + v).
Proof. intros. unfold eventfd_add, EVENTFD_MAX. by rewrite decide_True by lia. Qed.

#[local] Arguments eventfd_add : simpl never.

Lemma bi_inv_client s s' : bi_inv s -> bi_client_move s = Some s' -> bi_inv s'.
Proof.
  destruct s as [n c cl sv sl]. intros Hi Hm. destruct c as [| |v]; simpl in Hi, Hm.
  - destruct Hi as (-> & -> & Hw). destruct sl as [|sl]; [done|].
    rewrite eventfd_add_token in Hm by (unfold SERVER_TOKEN; lia). simplify_eq/=. left. split_and!; [done|done|lia|done].
  - destruct Hi as [(-> & -> & Hc & Hw)|[(-> & _)|[(-> & -> & Hw)|(-> & _)]]]; simpl in Hm; simplify_eq.
    + by split_and!.
    + split_and!; [done|lia|done].
  - destruct Hi as (-> & -> & -> & Hc & Hw).
    rewrite eventfd_add_token in Hm by (unfold SERVER_TOKEN; lia). simplify_eq/=. left. by split_and!.
Qed.

Lemma bi_inv_server s s' : bi_inv s -> bi_server_move s = Some s' -> bi_inv s'.
Proof.
  destruct s as [n c cl sv sl]. intros Hi Hm. destruct sv as [| |v|]; simpl in Hm.
  - destruct sl as [|sl]; [done|]. simplify_eq.
    assert (Hw : (BS_read = BS_test \/ BS_read = BS_read /\ (0 < S sl)%nat)) by (right; split; [done|lia]).
    destruct c; simpl in *; intuition discriminate.
  - destruct c; simpl in Hi.
    + destruct Hi as (-> & _). done.
    + destruct Hi as [(-> & -> & Hc & _)|[(_ & ? & _)|[(-> & -> & Hw)|(_ & ? & _)]]]; try done; simpl in Hm; simplify_eq.
      * right; left. by split_and!.
      * right; right; right. destruct Hw as [|[_ Hw]]; [done|]. by split_and!.
    + destruct Hi as (_ & -> & _). done.
  - destruct c; simpl in Hi; try (exfalso; intuition discriminate).
    assert (v = CLIENT_TOKEN /\ n = 0 /\ cl = S sl /\ (0 < sl)%nat) as (-> & -> & -> & Hl)
      by (intuition congruence).
    rewrite eventfd_add_token in Hm by (unfold CLIENT_TOKEN; lia). simplify_eq/=.
    right; right; left. split_and!; [done|done|]. by right.
  - destruct c; simpl in Hi; try (exfalso; intuition discriminate).
    assert (n = 0 /\ cl = sl /\ (0 < cl)%nat) as (-> & -> & Hl) by (intuition congruence).
    rewrite eventfd_add_token in Hm by (unfold CLIENT_TOKEN; lia). simplify_eq/=.
    right; right; left. split_and!; [done|lia|]. by left.
Qed.

Lemma bi_inv_reachable count s : rtc bi_step (bi_init count) s -> bi_inv s.
Proof.
  intros Hr. eapply inv_rtc; [|idtac|exact Hr].
  - intros a b Ha Hs. destruct Hs; [by eapply bi_inv_client|by eapply bi_inv_server].
  - simpl. split_and!; auto.
Qed.

(** ** The two processes of eventfd-uni *)

Record uni_state := mk_uni_state {
  uni_counter : Z;
  uni_sent : list Z;         (* timestamps written *)
  uni_received : list Z;     (* values read into single_start *)
}.

Inductive uni_step : uni_state -> uni_state -> Prop :=
  | Uni_write n sent rcv t n' :
      0 < t -> eventfd_add n t = Some n' ->
      uni_step (mk_uni_state n sent rcv) (mk_uni_state n' (sent ++ [t]) rcv)
  | Uni_read n sent rcv :
      n <> 0 -> uni_step (mk_uni_state n sent rcv) (mk_uni_state 0 sent (rcv ++ [n])).

Definition uni_init : uni_state := mk_uni_state 0 [] [].

Definition uni_inv (s : uni_state) : Prop :=
  exists groups pending,
    uni_sent s = concat groups ++ pending /\ uni_received s = zsum <$> groups /\
    uni_counter s = zsum pending /\ Forall (fun g => g <> []) groups /\
    Forall (fun t => 0 < t) (uni_sent s).

Lemma zsum_app l k : zsum (l ++ k) = zsum l + zsum k.
Proof. unfold zsum. induction l as [|x l IH]; simpl; [done|]. rewrite IH. lia. Qed.

Lemma uni_inv_step s s' : uni_inv s -> uni_step s s' -> uni_inv s'.
Proof.
  intros (groups & pending & Hs & Hr & Hc & Hg & Hp) Hst. destruct Hst as [n sent rcv t n' Ht Ha|n sent rcv Hn];
    simpl in *; subst.
  - exists groups, (pending ++ [t]). unfold eventfd_add in Ha. case_decide; simplify_eq. simpl.
    rewrite <- app_assoc, zsum_app. split_and!; [done|done|unfold zsum; simpl; lia|done|].
    rewrite app_assoc. apply Forall_app. split; [done|by constructor].
  - exists (groups ++ [pending]), []. simpl. rewrite concat_app, fmap_app. simpl. rewrite !app_nil_r.
    split_and!; [done|done|done| |done]. apply Forall_app. split; [done|]. constructor; [|done].
    intros ->. done.
Qed.

Lemma uni_inv_reachable s : rtc uni_step uni_init s -> uni_inv s.
Proof.
  intros Hr. eapply inv_rtc; [|idtac|exact Hr]; [intros a b; apply uni_inv_step|].
  exists [], []. by split_and!.
Qed.

(** Both processes have returned. *)
Definition bi_finished (s : bi_state) : Prop := exists n, s = mk_bi_state n BC_test 0 BS_test 0.

(** The number of productive steps left. *)
Definition bi_measure (s : bi_state) : nat :=
  20 * bi_client_left s +
  match bi_client s with
  | BC_test => 15
  | BC_back _ => 14
  | BC_read =>
      if bi_counter s =? CLIENT_TOKEN then 9
      else match bi_server s with BS_test => 13 | BS_read => 12 | BS_notify => 11 | BS_back _ => 10 end
  end.

Lemma bi_productive s :
  bi_inv s -> bi_finished s \/ exists s', bi_step s s' /\ (bi_measure s' < bi_measure s)%nat.
Proof.
  destruct s as [n c cl sv sl]. intros Hi.
  assert (Hc : forall s', bi_client_move (mk_bi_state n c cl sv sl) = Some s' ->
    (bi_measure s' < bi_measure (mk_bi_state n c cl sv sl))%nat ->
    bi_finished (mk_bi_state n c cl sv sl) \/
    exists s', bi_step (mk_bi_state n c cl sv sl) s' /\ (bi_measure s' < bi_measure (mk_bi_state n c cl sv sl))%nat)
    by (intros s' H Hlt; right; exists s'; split; [by apply Bi_client|done]).
  assert (Hs : forall s', bi_server_move (mk_bi_state n c cl sv sl) = Some s' ->
    (bi_measure s' < bi_measure (mk_bi_state n c cl sv sl))%nat ->
    bi_finished (mk_bi_state n c cl sv sl) \/
    exists s', bi_step (mk_bi_state n c cl sv sl) s' /\ (bi_measure s' < bi_measure (mk_bi_state n c cl sv sl))%nat)
    by (intros s' H Hlt; right; exists s'; split; [by apply Bi_server|done]).
  destruct c as [| |v]; simpl in Hi.
  - destruct Hi as (-> & -> & Hw). destruct sl as [|sl].
    + left. destruct Hw as [->|[_ ?]]; [by exists 0|lia].
    + eapply Hc; [reflexivity|].
      unfold bi_measure. simpl. destruct sv; lia.
  - destruct Hi as [(-> & -> & Hcl & Hw)|[(-> & -> & -> & Hcl)|[(-> & -> & Hw)|(-> & -> & -> & Hsl)]]].
    + destruct Hw as [->|[-> _]].
      * destruct sl as [|sl]; [lia|]. eapply Hs; [reflexivity|unfold bi_measure; simpl; lia].
      * eapply Hs; [reflexivity|unfold bi_measure; simpl; lia].
    + eapply Hs; [reflexivity|]. unfold bi_measure. simpl. lia.
    + eapply Hc; [reflexivity|unfold bi_measure; simpl; lia].
    + eapply Hs; [reflexivity|]. unfold bi_measure. simpl. lia.
  - destruct Hi as (-> & -> & -> & Hcl & Hw).
    eapply Hc; [reflexivity|].
    unfold bi_measure. simpl. destruct sv; lia.
Qed.

Lemma bi_inv_finishes s : bi_inv s -> exists s', rtc bi_step s s' /\ bi_finished s'.
Proof.
  remember (bi_measure s) as k eqn:Ek. revert s Ek.
  induction (lt_wf k) as [k _ IH]. intros s -> Hi.
  destruct (bi_productive s Hi) as [Hf|(s1 & Hst & Hlt)]; [by exists s|].
  destruct (IH _ Hlt s1 eq_refl) as (s' & Hr & Hf).
  - destruct Hst; [by eapply bi_inv_client|by eapply bi_inv_server].
  - exists s'. split; [by eapply rtc_l|done].
Qed.

(** The results of a wait that reads [others] and then [wanted]. *)
Definition eventfd_answers (others : list Z) (wanted : Z) : list result :=
  concat ((fun v => [mk_result 8 0 (le_bytes 8 v); mk_result 8 0 []]) <$> others) ++
  [mk_result 8 0 (le_bytes 8 wanted)].

Lemma le_value_event v : 0 <= v < 2 ^ 64 -> le_value (le_bytes 8 v) = v.
Proof. intros H. rewrite le_value_bytes. by apply Z.mod_small. Qed.

Lemma eventfd_wait_script others : forall fuel fd wanted rs e tr,
  0 <= wanted < 2 ^ 64 -> Forall (fun v => 0 <= v < 2 ^ 64 /\ v <> wanted) others ->
  (length others < fuel)%nat ->
  exists p, eventfd_wait fuel fd wanted (mk_process e tr (eventfd_answers others wanted ++ rs)) = (Done (), p) /\
    env p = rs /\ calls_of (trace p) = calls_of tr ++
      concat ((fun v => [Read fd 8; Write fd (le_bytes 8 v)]) <$> others) ++ [Read fd 8].
Proof.
  induction others as [|v others IH]; intros [|fuel] fd wanted rs e tr Hw Hf Hl; cbn [length] in *; try lia.
  - eexists. cbn [eventfd_wait eventfd_answers fmap list_fmap concat app]. exec.
    cbn [rv data]. change (8 =? -1) with false. exec. rewrite le_value_event, Z.eqb_refl by done.
    exec. split; [done|]. cbn [env trace]. split; [done|]. unfold calls_of. by rewrite fmap_app.
  - inversion Hf as [|? ? [Hv Hne] Hf']; subst.
    destruct (IH fuel fd wanted rs e ((tr ++ [(Read fd 8, mk_result 8 0 (le_bytes 8 v))]) ++
      [(Write fd (le_bytes 8 v), mk_result 8 0 [])])) as (p & Hp & He & Ht); [done|done|lia|].
    exists p. split; [|split; [done|]].
    + cbn [eventfd_wait eventfd_answers fmap list_fmap concat app].
      erewrite bind_done by done. cbn [rv data kernel script_kernel fst snd].
      change (8 =? -1) with false. erewrite bind_done by done.
      rewrite le_value_event, (proj2 (Z.eqb_neq v wanted)) by done.
      erewrite bind_done by apply sys_rv_script. cbn [rv err]. change (8 =? -1) with false.
      erewrite bind_done by done. etrans; [|exact Hp]. done.
    + rewrite Ht. unfold calls_of. rewrite !fmap_app, <- !app_assoc. done.
Qed.

(** ** Properties *)

(** Eventfd-bi keeps one token.  In every reachable state of the two
    processes the counter holds nothing, the server's token or the client's,
    never a sum of them, and the client's remaining rounds are the server's or
    one more. *)
Theorem eventfd_bi_single_token count s :
  rtc bi_step (bi_init count) s ->
  (bi_counter s = 0 \/ bi_counter s = SERVER_TOKEN \/ bi_counter s = CLIENT_TOKEN) /\
  (bi_client_left s = bi_server_left s \/ bi_client_left s = S (bi_server_left s)) /\
  (bi_client_left s <= count)%nat.
Proof.
  intros Hr. split; [|split].
  - pose proof (bi_inv_reachable count s Hr) as Hi. destruct s as [n c cl sv sl].
    destruct c; simpl in *; intuition congruence.
  - pose proof (bi_inv_reachable count s Hr) as Hi. destruct s as [n c cl sv sl].
    destruct c; simpl in *; intuition congruence.
  - assert (Hle : forall a b, bi_step a b -> (bi_client_left b <= bi_client_left a)%nat).
    { intros a b Hs. destruct Hs as [[n c cl sv sl] s' Hm|[n c cl sv sl] s' Hm]; simpl in Hm.
      - destruct c; repeat case_match; simplify_eq; simpl; try lia;
          destruct (eventfd_add _ _); simplify_eq/=; lia.
      - destruct sv; repeat case_match; simplify_eq; simpl; try lia;
          destruct (eventfd_add _ _); simplify_eq/=; lia. }
    apply (inv_rtc bi_step (fun x => (bi_client_left x <= count)%nat) (bi_init count)); [|simpl; lia|done].
    intros a b Ha Hs. specialize (Hle a b Hs). lia.
Qed.

(** Eventfd-bi can always finish.  From every reachable state some run of
    the two processes ends with all rounds done on both sides: no interleaving
    loses the token or leaves a process waiting for ever. *)
Theorem eventfd_bi_can_finish count s :
  rtc bi_step (bi_init count) s -> exists s', rtc bi_step s s' /\ bi_finished s'.
Proof. intros Hr. apply bi_inv_finishes. by eapply bi_inv_reachable. Qed.

(** [eventfd_wait] returns exactly at the wanted value, and has written
    back every other value it read, in order. *)
Theorem eventfd_wait_writes_back fuel fd wanted others rs :
  0 <= wanted < 2 ^ 64 -> Forall (fun v => 0 <= v < 2 ^ 64 /\ v <> wanted) others ->
  (length others < fuel)%nat ->
  outcome_on (eventfd_wait fuel fd wanted) (eventfd_answers others wanted ++ rs) = Done () /\
  calls_on (eventfd_wait fuel fd wanted) (eventfd_answers others wanted ++ rs) =
    concat ((fun v => [Read fd 8; Write fd (le_bytes 8 v)]) <$> others) ++ [Read fd 8].
Proof.
  intros Hw Hf Hl. destruct (eventfd_wait_script others fuel fd wanted rs 0 [] Hw Hf Hl) as (p & Hp & _ & Ht).
  unfold outcome_on, calls_on, start. by rewrite Hp.
Qed.

(** Eventfd-uni measures sums.  Every value the client reads into
    [single_start] is the sum of all timestamps written since its previous
    read, of which there is at least one; it is a timestamp only when there is
    exactly one, and two writes before a read are always possible. *)
Theorem eventfd_uni_reads_sums s :
  rtc uni_step uni_init s ->
  (exists groups pending,
     uni_sent s = concat groups ++ pending /\ uni_received s = zsum <$> groups /\
     uni_counter s = zsum pending /\ Forall (fun g => g <> []) groups) /\
  (forall t1 t2, uni_counter s = 0 -> 0 < t1 -> 0 < t2 -> t1 + t2 <= EVENTFD_MAX ->
     exists s', rtc uni_step s s' /\ uni_received s' = uni_received s ++ [t1 + t2]).
Proof.
  intros Hr. split.
  - destruct (uni_inv_reachable s Hr) as (groups & pending & H1 & H2 & H3 & H4 & _).
    by exists groups, pending.
  - destruct s as [n sent rcv]. simpl. intros t1 t2 -> H1 H2 Hle.
    exists (mk_uni_state 0 ((sent ++ [t1]) ++ [t2]) (rcv ++ [t1 + t2])). split; [|done].
    eapply rtc_l; [apply (Uni_write _ _ _ t1 t1); [done|]|].
    { unfold eventfd_add. by rewrite decide_True by lia. }
    eapply rtc_l; [apply (Uni_write _ _ _ t2 (t1 + t2)); [done|]|].
    { unfold eventfd_add. by rewrite decide_True by lia. }
    apply rtc_once. constructor. lia.
Qed.

(** ** Witnesses *)

(** The client has read its own token and writes it back. *)
Definition bi_w : bi_state := mk_bi_state 0 (BC_back 1) 3 BS_read 3.

Lemma bi_reachable_w : rtc bi_step (bi_init 3) bi_w.
Proof.
  eapply rtc_l; [apply Bi_client; by vm_compute|].
  eapply rtc_l; [apply Bi_server; by vm_compute|].
  eapply rtc_l; [apply Bi_client; by vm_compute|]. apply rtc_refl.
Qed.

Lemma eventfd_bi_single_token_witness :
  bi_counter bi_w = 0 \/ bi_counter bi_w = SERVER_TOKEN \/ bi_counter bi_w = CLIENT_TOKEN.
Proof. apply (eventfd_bi_single_token 3 bi_w). exact bi_reachable_w. Defined.

Lemma eventfd_bi_can_finish_witness : exists s', rtc bi_step bi_w s' /\ bi_finished s'.
Proof. apply (eventfd_bi_can_finish 3 bi_w). exact bi_reachable_w. Defined.

Lemma eventfd_wait_writes_back_witness :
  calls_on (eventfd_wait 9 3 2) (eventfd_answers [1; 1] 2 ++ []) =
    [Read 3 8; Write 3 (le_bytes 8 1); Read 3 8; Write 3 (le_bytes 8 1); Read 3 8].
Proof.
  apply (eventfd_wait_writes_back 9 3 2 [1; 1] []).
  - lia.
  - repeat constructor; lia.
  - simpl; lia.
Defined.

Lemma eventfd_uni_reads_sums_witness :
  exists s', rtc uni_step uni_init s' /\ uni_received s' = [1700000000000000000 + 1700000000000000512].
Proof.
  apply (eventfd_uni_reads_sums uni_init); [apply rtc_refl|done|lia|lia|by vm_compute].
Defined.
