(* ===== verification/EventFdLink.v ===== *)
(** * eventfd-bi: the programs make the protocol's moves

    [bi_client_communicate] and the loop of [bi_server_communicate] run in the
    place of their processes in the protocol of [EventFd]. *)
From S2P Require Import Prelude Kernel Memory Benchmarks Linking EventFd.

#[local] Arguments le_bytes : simpl never.
#[local] Arguments eventfd_add : simpl never.

(** A write of [v] that is the move of [o], and a read that returns [n]. *)
Definition by_write {S} (bytes : list Z) (v : Z) (o : option S) : reply S :=
  if bool_decide (bytes = le_bytes 8 v) then by_move o (val 8) else Strange.
Definition by_read {S} (size n : Z) (o : option S) : reply S :=
  if size =? 8 then by_move o (mk_result 8 0 (le_bytes 8 n)) else Strange.

Lemma by_write_inv {S} bytes v (o : option S) r s : by_write bytes v o = Answer r s -> o = Some s.
Proof. unfold by_write. case_match; [apply by_move_inv|done]. Qed.

Lemma by_read_inv {S} size n (o : option S) r s : by_read size n o = Answer r s -> o = Some s.
Proof. unfold by_read. case_match; [apply by_move_inv|done]. Qed.

Lemma le_value_token v : 0 <= v <= 2 -> le_value (le_bytes 8 v) = v.
Proof. intros H. rewrite le_value_bytes. apply Z.mod_small. lia. Qed.

(** The counter holds 0 or one token. *)
Lemma bi_counter_range s : bi_inv s -> 0 <= bi_counter s <= 2.
Proof.
  destruct s as [n c cl sv sl]. unfold SERVER_TOKEN, CLIENT_TOKEN. simpl. destruct c; simpl.
  - intros (-> & _). lia.
  - unfold SERVER_TOKEN, CLIENT_TOKEN. intros [(-> & _)|[(-> & _)|[(-> & _)|(-> & _)]]]; lia.
  - intros (_ & -> & _). lia.
Qed.

(** A token in the hand of a process that read the wrong one. *)
Lemma bi_back_range s v :
  bi_inv s -> bi_client s = BC_back v \/ bi_server s = BS_back v -> 0 <= v <= 2.
Proof.
  destruct s as [n c cl sv sl]. unfold bi_inv, SERVER_TOKEN, CLIENT_TOKEN. simpl. intros Hi [-> | ->].
  - destruct Hi as (-> & _). lia.
  - destruct c; simpl in Hi.
    + destruct Hi as (_ & _ & [|[? _]]); done.
    + destruct Hi as [(_ & _ & _ & [|[? _]])|[(_ & ? & _)|[(_ & _ & [|[? _]])|(_ & [= ->] & _)]]]; try done; lia.
    + destruct Hi as (_ & _ & _ & _ & [|[? _]]); done.
Qed.

(** ** The client *)

(** The choices for a call of the client: moves of the server, which have no
    choices of their own. *)
Variant bi_server_goes := Server_goes.
Definition bi_client_turn : Type := turn bi_server_goes.

Definition bi_client_answer (t : bi_client_turn) (c : syscall) (s : bi_state) : reply bi_state :=
  match bi_client s, c with
  | BC_test, Write _ bytes =>
      match bi_client_left s with
      | O => Strange
      | Datatypes.S _ => by_write bytes SERVER_TOKEN (bi_client_move s)
      end
  | BC_read, Read _ size => by_read size (bi_counter s) (bi_client_move s)
  | BC_back v, Write _ bytes => by_write bytes v (bi_client_move s)
  | _, _ => Strange
  end.

Lemma bi_client_answer_steps t c s r s' : bi_client_answer t c s = Answer r s' -> rtc bi_step s s'.
Proof.
  assert (Hm : forall s1, bi_client_move s = Some s1 -> rtc bi_step s s1)
    by (intros s1 H; eapply rtc_once, Bi_client, H).
  unfold bi_client_answer. intros H. destruct (bi_client s), c; try done; try (destruct (bi_client_left s); [done|]); apply Hm;
    solve [by eapply by_write_inv|by eapply by_read_inv].
Qed.

#[export] Instance bi_client_link : Link bi_state bi_client_turn := {
  link_step := bi_step;
  link_others t s := moves_along (fun _ => bi_server_move) (tn_others t) s;
  link_answer := bi_client_answer;
  link_others_steps t s := moves_along_rtc _ bi_step _ s (fun _ s1 s2 => Bi_server s1 s2);
  link_answer_steps := bi_client_answer_steps;
  link_errno _ _ := True;
  link_others_errno _ _ _ H := H;
  link_answer_errno _ _ _ _ _ _ H _ := H;
}.

(** The client at a place with [left] rounds to go. *)
Definition bi_client_at (pc : bi_client_pc) (left : nat) (s : bi_state) : Prop :=
  bi_inv s /\ bi_client s = pc /\ bi_client_left s = left.

Lemma bi_server_move_keeps s s' :
  bi_server_move s = Some s' -> bi_client s' = bi_client s /\ bi_client_left s' = bi_client_left s.
Proof.
  destruct s as [n c cl sv sl]. destruct sv; cbn [bi_server_move]; intros H.
  - destruct sl; by simplify_eq.
  - repeat case_match; by simplify_eq.
  - destruct (eventfd_add _ _); [|done]. cbn in H. by simplify_eq.
  - destruct (eventfd_add _ _); [|done]. cbn in H. by simplify_eq.
Qed.

Lemma bi_client_at_stable pc left : stable (T:=bi_client_turn) (bi_client_at pc left).
Proof.
  intros t s H. cbn. apply moves_along_inv; [|done].
  intros c s1 s2 (H1 & H2 & H3) Hm. destruct (bi_server_move_keeps _ _ Hm) as [E1 E2].
  split; [by eapply bi_inv_server|]. by rewrite E1, E2.
Qed.

Section client.
Abbreviation W := (world bi_state bi_client_turn).

Lemma bi_client_notifies descriptor left D R :
  triple (bi_client_at BC_test (Datatypes.S left)) (eventfd_notify (W:=W) descriptor SERVER_TOKEN)
    (fun _ => bi_client_at BC_read (Datatypes.S left)) D R.
Proof.
  unfold eventfd_notify.
  eapply (triple_bind _ _ _ (fun v s => v = 8 /\ bi_client_at BC_read (Datatypes.S left) s)); [halting| |intros v].
  - apply triple_returning, (triple_move _ _ (val 8) bi_client_move); [apply bi_client_at_stable| |].
    + intros t s (_ & Hpc & Hl). cbn. unfold bi_client_answer, by_write. by rewrite Hpc, Hl, bool_decide_eq_true_2.
    + intros s s' (Hi & Hpc & Hl) Hm. split; [done|]. pose proof (bi_inv_client _ _ Hi Hm) as Hi'.
      destruct s as [n c cl sv sl]. simpl in Hpc, Hl. subst. cbn [bi_client_move] in Hm.
      destruct (eventfd_add _ _); [|done]. cbn in Hm. injection Hm as <-. by split_and!.
  - apply triple_pure. intros ->. by apply triple_ret.
Qed.

(** [eventfd_wait(CLIENT_TOKEN)]. *)
Lemma bi_client_waits fuel descriptor left D :
  triple (bi_client_at BC_read (Datatypes.S left)) (eventfd_wait (W:=W) fuel descriptor CLIENT_TOKEN)
    (fun _ => bi_client_at BC_test left) D (fun s => exists l, bi_client_at BC_read l s).
Proof.
  induction fuel as [|fuel IH]; cbn [eventfd_wait].
  { apply triple_running. intros s H. by eexists. }
  assert (Hh : forall n, halts (eventfd_wait (W:=W) n descriptor CLIENT_TOKEN)).
  { intros n. induction n; cbn [eventfd_wait]; [apply halts_running|]. halting. }
  eapply (triple_bind _ _ _ (fun r s => exists n, (rv r = 8 /\ data r = le_bytes 8 n /\ 0 <= n <= 2) /\
    (n = CLIENT_TOKEN /\ bi_client_at BC_test left s \/ n <> CLIENT_TOKEN /\ bi_client_at (BC_back n) (Datatypes.S left) s)));
    [halting; apply Hh| |intros r].
  - apply triple_sys; [apply bi_client_at_stable|]. intros t s (Hi & Hpc & Hl).
    cbn [link_answer bi_client_link]. unfold bi_client_answer, by_read. rewrite Hpc. change (8 =? 8) with true. cbn iota.
    destruct (bi_client_move s) as [s'|] eqn:Hm; [|done]. cbn. exists (bi_counter s).
    split; [split_and!; try done; by apply bi_counter_range|]. pose proof (bi_inv_client _ _ Hi Hm) as Hi'.
    destruct s as [n c cl sv sl]. simpl in Hpc, Hl. subst. cbn [bi_client_move] in Hm. cbn [bi_counter].
    destruct (n =? 0); [done|]. destruct (Z.eqb_spec n CLIENT_TOKEN); injection Hm as <-; [left|right];
      (split; [done|]); split_and!; simpl; try done; lia.
  - apply triple_exists. intros n. apply triple_pure. intros (Hrv & Hd & Hn).
    apply triple_bind_passes; [by rewrite Hrv|]. rewrite Hd, le_value_token by done.
    destruct (Z.eqb_spec n CLIENT_TOKEN) as [Hn'|Hn'].
    { apply triple_ret. by intros s [[_ H]|[H _]]. }
    eapply (triple_bind _ _ _ (fun v s => v = 8 /\ bi_client_at BC_read (Datatypes.S left) s));
      [halting; apply Hh| |intros v; apply triple_pure; intros ->; by apply triple_bind_passes].
    apply (triple_conseq _ (bi_client_at (BC_back n) (Datatypes.S left)) _ _
      (fun v s => v = 8 /\ bi_client_at BC_read (Datatypes.S left) s) D D
      (fun s => exists l, bi_client_at BC_read l s) (fun s => exists l, bi_client_at BC_read l s)); [|by intros s [[H _]|[_ H]]|done..].
    apply triple_returning, (triple_move _ _ (val 8) bi_client_move); [apply bi_client_at_stable| |].
    + intros t s (_ & Hpc & _). cbn. unfold bi_client_answer, by_write. by rewrite Hpc, bool_decide_eq_true_2.
    + intros s s' (Hi & Hpc & Hl) Hm. split; [done|]. pose proof (bi_inv_client _ _ Hi Hm) as Hi'.
      destruct s as [m c cl sv sl]. simpl in Hpc, Hl. subst. cbn [bi_client_move] in Hm.
      destruct (eventfd_add _ _); [|done]. cbn in Hm. injection Hm as <-. by split_and!.
Qed.

Lemma halts_eventfd_wait fuel descriptor wanted : halts (eventfd_wait (W:=W) fuel descriptor wanted).
Proof. induction fuel; cbn [eventfd_wait]; [apply halts_running|]. halting. Qed.

Lemma halts_bi_client fuel rounds descriptor : halts (bi_client_communicate (W:=W) fuel rounds descriptor).
Proof.
  induction rounds as [|n IH]; cbn [bi_client_communicate]; [apply halts_ret|].
  apply halts_bind; [unfold eventfd_notify; halting|]. intros u. apply halts_bind; [apply halts_eventfd_wait|done].
Qed.

Lemma bi_client_loops fuel rounds descriptor D :
  triple (bi_client_at BC_test rounds) (bi_client_communicate (W:=W) fuel rounds descriptor)
    (fun _ => bi_client_at BC_test 0) D (fun s => exists l, bi_client_at BC_read l s).
Proof.
  induction rounds as [|n IH]; cbn [bi_client_communicate]; [by apply triple_ret|].
  eapply triple_bind; [|apply bi_client_notifies|intros u].
  { intros u. apply halts_bind; [apply halts_eventfd_wait|]. intros. apply halts_bi_client. }
  eapply triple_bind; [intros; apply halts_bi_client|apply bi_client_waits|intros u'; exact IH].
Qed.

End client.

(** ** The server *)

Variant bi_client_goes := Client_goes.
Definition bi_server_turn : Type := turn bi_client_goes.

(** The test of the loop is not a call: it comes before the read that follows it.
    The readings of the clock around the test are not moves of the protocol. *)
Definition bi_server_answer (t : bi_server_turn) (c : syscall) (s : bi_state) : reply bi_state :=
  match bi_server s, c with
  | BS_test, Timespec_get => by_clock t (fun _ => Some s)
  | BS_test, Read _ size =>
      match bi_server_move s with
      | Some s1 => by_read size (bi_counter s1) (bi_server_move s1)
      | None => Strange
      end
  | BS_read, Read _ size => by_read size (bi_counter s) (bi_server_move s)
  | BS_back v, Write _ bytes => by_write bytes v (bi_server_move s)
  | BS_notify, Write _ bytes => by_write bytes CLIENT_TOKEN (bi_server_move s)
  | _, _ => Strange
  end.

Lemma bi_server_answer_steps t c s r s' : bi_server_answer t c s = Answer r s' -> rtc bi_step s s'.
Proof.
  assert (Hm : forall s1 s2, bi_server_move s1 = Some s2 -> rtc bi_step s1 s2)
    by (intros s1 s2 H; eapply rtc_once, Bi_server, H).
  unfold bi_server_answer. intros H. destruct (bi_server s), c; try done;
    try (apply Hm; solve [by eapply by_write_inv|by eapply by_read_inv]).
  - apply by_clock_inv in H as [v [= ->]]. apply rtc_refl.
  - destruct (bi_server_move s) as [s1|] eqn:E; [|done]. apply by_read_inv in H. etrans; by apply Hm.
Qed.

#[export] Instance bi_server_link : Link bi_state bi_server_turn := {
  link_step := bi_step;
  link_others t s := moves_along (fun _ => bi_client_move) (tn_others t) s;
  link_answer := bi_server_answer;
  link_others_steps t s := moves_along_rtc _ bi_step _ s (fun _ s1 s2 => Bi_client s1 s2);
  link_answer_steps := bi_server_answer_steps;
  link_errno _ _ := True;
  link_others_errno _ _ _ H := H;
  link_answer_errno _ _ _ _ _ _ H _ := H;
}.

Definition bi_server_at (pc : bi_server_pc) (left : nat) (s : bi_state) : Prop :=
  bi_inv s /\ bi_server s = pc /\ bi_server_left s = left.

(** Before a read: at the test with rounds to go, or after a write back. *)
Definition bi_server_reads (left : nat) (s : bi_state) : Prop :=
  bi_inv s /\ (bi_server s = BS_test \/ bi_server s = BS_read) /\ bi_server_left s = Datatypes.S left.

Lemma bi_client_move_keeps s s' :
  bi_client_move s = Some s' -> bi_server s' = bi_server s /\ bi_server_left s' = bi_server_left s.
Proof.
  destruct s as [n c cl sv sl]. destruct c; cbn [bi_client_move]; intros H.
  - destruct cl; [done|]. destruct (eventfd_add _ _); [|done]. cbn in H. by simplify_eq.
  - repeat case_match; by simplify_eq.
  - destruct (eventfd_add _ _); [|done]. cbn in H. by simplify_eq.
Qed.

Lemma bi_server_stable (P : bi_server_pc -> nat -> Prop) :
  stable (T:=bi_server_turn) (fun s => bi_inv s /\ P (bi_server s) (bi_server_left s)).
Proof.
  intros t s H. cbn. apply moves_along_inv; [|done].
  intros c s1 s2 [H1 H2] Hm. destruct (bi_client_move_keeps _ _ Hm) as [E1 E2].
  split; [by eapply bi_inv_client|]. by rewrite E1, E2.
Qed.

Lemma bi_server_at_stable pc left : stable (T:=bi_server_turn) (bi_server_at pc left).
Proof. apply (bi_server_stable (fun pc' l => pc' = pc /\ l = left)). Qed.

Lemma bi_server_reads_stable left : stable (T:=bi_server_turn) (bi_server_reads left).
Proof. apply (bi_server_stable (fun pc l => (pc = BS_test \/ pc = BS_read) /\ l = Datatypes.S left)). Qed.

Section server.
Abbreviation W := (world bi_state bi_server_turn).

(** The read, at the test or after a write back. *)
Lemma bi_server_read left s s' :
  bi_inv s -> bi_server s = BS_read -> bi_server_left s = left -> bi_server_move s = Some s' ->
  0 <= bi_counter s <= 2 /\
  (bi_counter s = SERVER_TOKEN /\ bi_server_at BS_notify left s' \/
   bi_counter s <> SERVER_TOKEN /\ bi_server_at (BS_back (bi_counter s)) left s').
Proof.
  intros Hi Hpc Hl Hm. split; [by apply bi_counter_range|]. pose proof (bi_inv_server _ _ Hi Hm) as Hi'.
  destruct s as [n c cl sv sl]. simpl in Hpc, Hl. subst. cbn [bi_server_move] in Hm. cbn [bi_counter].
  destruct (n =? 0); [done|]. destruct (Z.eqb_spec n SERVER_TOKEN); injection Hm as <-; [left|right];
    (split; [done|]); by split_and!.
Qed.

Lemma bi_server_calls_read descriptor left D R :
  triple (bi_server_reads left) (sys (W:=W) (Read descriptor 8))
    (fun r s => exists n, (rv r = 8 /\ data r = le_bytes 8 n /\ 0 <= n <= 2) /\
      (n = SERVER_TOKEN /\ bi_server_at BS_notify (Datatypes.S left) s \/
       n <> SERVER_TOKEN /\ bi_server_at (BS_back n) (Datatypes.S left) s)) D R.
Proof.
  apply triple_sys; [apply bi_server_reads_stable|]. intros t s (Hi & Hpc & Hl).
  cbn [link_answer bi_server_link]. unfold bi_server_answer, by_read. change (8 =? 8) with true. cbn iota.
  destruct Hpc as [Hpc|Hpc]; rewrite Hpc.
  - assert (exists s1, bi_server_move s = Some s1 /\ bi_inv s1 /\ bi_server s1 = BS_read /\
      bi_server_left s1 = Datatypes.S left) as (s1 & -> & Hi1 & Hpc1 & Hl1).
    { destruct s as [n c cl sv sl]. simpl in Hpc, Hl. subst. eexists. split; [reflexivity|]. split; [|done].
      by apply (bi_inv_server (mk_bi_state n c cl BS_test (Datatypes.S left))). }
    destruct (bi_server_move s1) as [s'|] eqn:Hm; [|done]. cbn. exists (bi_counter s1).
    destruct (bi_server_read _ _ _ Hi1 Hpc1 Hl1 Hm) as [Hr H]. exact (conj (conj eq_refl (conj eq_refl Hr)) H).
  - destruct (bi_server_move s) as [s'|] eqn:Hm; [|done]. cbn. exists (bi_counter s).
    destruct (bi_server_read _ _ _ Hi Hpc Hl Hm) as [Hr H]. exact (conj (conj eq_refl (conj eq_refl Hr)) H).
Qed.

(** A write of a token, from where it is in hand. *)
Lemma bi_server_writes descriptor pc v left Q D R :
  (forall t s, bi_server s = pc -> bi_server_answer t (Write descriptor (le_bytes 8 v)) s
     = by_write (le_bytes 8 v) v (bi_server_move s)) ->
  (forall s s', bi_server_at pc left s -> bi_server_move s = Some s' -> Q s') ->
  triple (bi_server_at pc left) (sys_rv (W:=W) (Write descriptor (le_bytes 8 v))) (fun r s => r = 8 /\ Q s) D R.
Proof.
  intros Ha HQ. apply triple_returning, (triple_move _ _ (val 8) bi_server_move); [apply bi_server_at_stable| |].
  - intros t s (_ & Hpc & _). cbn. rewrite Ha by done. unfold by_write. by rewrite bool_decide_eq_true_2.
  - intros s s' H Hm. split; [done|]. by eapply HQ.
Qed.

Lemma halts_server_wait fuel descriptor wanted : halts (eventfd_wait (W:=W) fuel descriptor wanted).
Proof. induction fuel; cbn [eventfd_wait]; [apply halts_running|]. halting. Qed.

(** [eventfd_wait(SERVER_TOKEN)]. *)
Lemma bi_server_waits fuel descriptor left D :
  triple (bi_server_reads left) (eventfd_wait (W:=W) fuel descriptor SERVER_TOKEN)
    (fun _ => bi_server_at BS_notify (Datatypes.S left)) D (fun s => exists l, bi_server_reads l s).
Proof.
  induction fuel as [|fuel IH]; cbn [eventfd_wait].
  { apply triple_running. intros s H. by eexists. }
  eapply triple_bind; [halting; apply halts_server_wait|apply bi_server_calls_read|intros r].
  apply triple_exists. intros n. apply triple_pure. intros (Hrv & Hd & Hn).
  apply triple_bind_passes; [by rewrite Hrv|]. rewrite Hd, le_value_token by done.
  destruct (Z.eqb_spec n SERVER_TOKEN) as [Hn'|Hn'].
  { apply triple_ret. by intros s [[_ H]|[H _]]. }
  eapply (triple_bind _ _ _ (fun v s => v = 8 /\ bi_server_reads left s));
    [halting; apply halts_server_wait| |intros v; apply triple_pure; intros ->; by apply triple_bind_passes].
  eapply (triple_conseq _ (bi_server_at (BS_back n) (Datatypes.S left)));
    [|by intros s [[H _]|[_ H]]|exact (fun _ _ H => H)|exact (fun _ H => H)|exact (fun _ H => H)].
  apply bi_server_writes; [intros t s Hpc; unfold bi_server_answer; by rewrite Hpc|].
  intros s s' (Hi & Hpc & Hl) Hm. pose proof (bi_inv_server _ _ Hi Hm) as Hi'.
  destruct s as [m c cl sv sl]. simpl in Hpc, Hl. subst. cbn [bi_server_move] in Hm.
  destruct (eventfd_add _ _); [|done]. cbn in Hm. injection Hm as <-. split; [done|]. split; [by right|done].
Qed.

Lemma bi_server_notifies descriptor left D R :
  triple (bi_server_at BS_notify (Datatypes.S left)) (eventfd_notify (W:=W) descriptor CLIENT_TOKEN)
    (fun _ => bi_server_at BS_test left) D R.
Proof.
  unfold eventfd_notify.
  eapply (triple_bind _ _ _ (fun v s => v = 8 /\ bi_server_at BS_test left s)); [halting| |intros v].
  - apply bi_server_writes; [intros t s Hpc; unfold bi_server_answer; by rewrite Hpc|].
    intros s s' (Hi & Hpc & Hl) Hm. pose proof (bi_inv_server _ _ Hi Hm) as Hi'.
    destruct s as [m c cl sv sl]. simpl in Hpc, Hl. subst. cbn [bi_server_move] in Hm.
    destruct (eventfd_add _ _); [|done]. cbn in Hm. injection Hm as <-. split_and!; simpl; [done|done|lia].
  - apply triple_pure. intros ->. by apply triple_ret.
Qed.

Lemma bi_server_clock left D R :
  triple (bi_server_at BS_test left) (read_now (W:=W)) (fun _ => bi_server_at BS_test left) D R.
Proof.
  apply (triple_read_now _ (fun _ => bi_server_at BS_test left)); [apply bi_server_at_stable|].
  intros t s H. pose proof H as (_ & Hpc & _). cbn [link_answer bi_server_link]. unfold bi_server_answer, by_clock.
  rewrite Hpc. destruct (now _ _) as [v|] eqn:Hn; [|done]. cbn. do 3 eexists. by split_and!.
Qed.

Lemma halts_bi_server fuel rounds descriptor : forall bench, halts (bi_server_loop (W:=W) fuel rounds descriptor bench).
Proof.
  induction rounds as [|n IH]; intros bench; cbn [bi_server_loop]; [apply halts_ret|].
  unfold start_single, eventfd_notify, benchmark_call. halting; apply halts_server_wait || apply IH.
Qed.

Lemma bi_server_loops fuel rounds descriptor D : forall bench,
  0 <= count bench -> count bench + Z.of_nat rounds <= INT32_MAX ->
  triple (bi_server_at BS_test rounds) (bi_server_loop (W:=W) fuel rounds descriptor bench)
    (fun b s => count b = count bench + Z.of_nat rounds /\ bi_server_at BS_test 0 s) D
    (fun s => exists l, bi_server_reads l s).
Proof.
  induction rounds as [|n IH]; intros bench Hc Hle; cbn [bi_server_loop].
  { apply triple_ret. intros s H. split; [lia|done]. }
  assert (Hrest : forall b, halts (eventfd_wait (W:=W) fuel descriptor SERVER_TOKEN;;
    eventfd_notify descriptor CLIENT_TOKEN;; b ← benchmark_call b; bi_server_loop fuel n descriptor b)).
  { intros b. unfold eventfd_notify, benchmark_call. halting; apply halts_server_wait || apply halts_bi_server. }
  eapply (triple_bind _ _ _ (fun b s => count b = count bench /\ bi_server_at BS_test (Datatypes.S n) s));
    [exact Hrest| |intros b; apply triple_pure; intros Hb].
  { apply triple_start_single, bi_server_clock. }
  eapply triple_bind; [|eapply triple_conseq; [apply bi_server_waits| |exact (fun _ _ H => H)|exact (fun _ H => H)|exact (fun _ H => H)]|intros u].
  { intros u. unfold eventfd_notify, benchmark_call. halting; apply halts_bi_server. }
  { intros s (Hi & Hpc & Hl). split; [done|]. split; [by left|done]. }
  eapply triple_bind; [|apply bi_server_notifies|intros u'].
  { intros u'. unfold benchmark_call. halting; apply halts_bi_server. }
  eapply (triple_bind _ _ _ (fun b' s => count b' = count bench + 1 /\ bi_server_at BS_test n s));
    [intros; apply halts_bi_server| |intros b'; apply triple_pure; intros Hb'].
  - rewrite <- Hb. apply triple_benchmark_count; [lia|apply bi_server_clock].
  - eapply triple_conseq; [apply IH; lia|done| |done|done]. intros b'' s [H1 H2]. split; [lia|done].
Qed.

End server.

(** ** Properties *)

(** Both programs of eventfd-bi make the moves of their protocol.  Run from
    the start with a count, each beside any behaviour of the other, they only
    read the counter and write the tokens that [bi_client_move] and
    [bi_server_move] say, back when it is the other's; they never die and have
    no undefined behaviour, and when they return they have made all rounds: the
    server has then measured [count] times. *)
Theorem eventfd_bi_refines fuel rounds descriptor bench0 :
  0 <= count bench0 -> count bench0 + Z.of_nat rounds <= INT32_MAX ->
  triple (T:=bi_client_turn) (fun s => s = bi_init rounds) (bi_client_communicate fuel rounds descriptor)
    (fun _ s => bi_client s = BC_test /\ bi_client_left s = 0%nat) (fun _ => False)
    (fun s => bi_client s = BC_read) /\
  triple (T:=bi_server_turn) (fun s => s = bi_init rounds) (bi_server_loop fuel rounds descriptor bench0)
    (fun bench s => count bench = count bench0 + Z.of_nat rounds /\ bi_server s = BS_test /\ bi_server_left s = 0%nat)
    (fun _ => False) (fun s => bi_server s = BS_test \/ bi_server s = BS_read).
Proof.
  intros Hc Hle. assert (Hi : bi_inv (bi_init rounds)) by (apply (bi_inv_reachable rounds), rtc_refl). split.
  - eapply triple_conseq; [apply (bi_client_loops fuel rounds descriptor (fun _ => False))|..].
    + intros s ->. by split_and!.
    + intros _ s (_ & H1 & H2). by split.
    + done.
    + by intros s (l & _ & H & _).
  - eapply triple_conseq; [apply (bi_server_loops fuel rounds descriptor (fun _ => False) bench0 Hc Hle)|..].
    + intros s ->. by split_and!.
    + intros b s (H & _ & H1 & H2). by split_and!.
    + done.
    + by intros s (l & _ & H & _).
Qed.

(** ** Witness *)

Definition bi_client_choices : list bi_client_turn :=
  let c n := mk_turn (replicate n Server_goes) (0, 0) (val 0) in [c 1%nat; c 0%nat; c 0%nat; c 3%nat; c 0%nat; c 5%nat].

Lemma eventfd_bi_refines_witness :
  let p := mk_process 0 [] (mk_world (bi_init 2) bi_client_choices Live) in
  let run := bi_client_communicate 3 2 5 p in
  run.1 = Done () /\ w_progress (env run.2) = Live /\ rtc bi_step (bi_init 2) (w_state (env run.2)) /\
  bi_client_left (w_state (env run.2)) = 0%nat.
Proof.
  intros p run. split; [by vm_compute|]. split; [by vm_compute|].
  destruct (proj1 (eventfd_bi_refines 3 2 5 (mk_Benchmarks 0 0 0 0 0 0 0) ltac:(done) ltac:(by vm_compute)) p eq_refl I eq_refl)
    as [Hr He].
  split; [exact Hr|]. by vm_compute.
Defined.
