(* ===== verification/EventFdPair.v ===== *)
(** * eventfd-bi: the two programs together

    [bi_client_communicate] and the loop of [bi_server_communicate], call by
    call in any order, over one counter. *)
From S2P Require Import Prelude Kernel Memory Benchmarks Linking Together EventFd EventFdLink.

#[local] Arguments le_bytes : simpl never.
#[local] Arguments eventfd_add : simpl never.

(** ** The programs call nothing but the kernel *)
Lemma interactive_eventfd_wait fuel descriptor wanted : interactive (fun W _ => eventfd_wait (W:=W) fuel descriptor wanted).
Proof. induction fuel; cbn [eventfd_wait]; interacting. Qed.
#[local] Hint Resolve interactive_eventfd_wait : interactive.

Lemma interactive_bi_client fuel rounds descriptor :
  interactive (fun W _ => bi_client_communicate (W:=W) fuel rounds descriptor).
Proof. induction rounds; cbn [bi_client_communicate]; unfold eventfd_notify; interacting. Qed.

Lemma interactive_bi_server fuel rounds descriptor : forall bench,
  interactive (fun W _ => bi_server_loop (W:=W) fuel rounds descriptor bench).
Proof.
  induction rounds; intros bench; cbn [bi_server_loop];
    unfold start_single, eventfd_notify, benchmark_call, read_now; interacting.
Qed.

(** ** The two sides of the protocol *)
#[export] Instance bi_client_choices_ok : Choices bi_state bi_client_turn.
Proof.
  refine {| link_alone := turn_alone; link_then := turn_then |}; try done. intros. cbn. apply moves_along_app.
Defined.

#[export] Instance bi_server_choices_ok : Choices bi_state bi_server_turn.
Proof.
  refine {| link_alone := turn_alone; link_then := turn_then |}; try done. intros. cbn. apply moves_along_app.
Defined.

Lemma bi_client_answer_move t c s r s' : bi_client_answer t c s = Answer r s' -> bi_client_move s = Some s'.
Proof.
  unfold bi_client_answer. intros H. destruct (bi_client s), c; try done; try (destruct (bi_client_left s); [done|]);
    solve [by eapply by_write_inv|by eapply by_read_inv].
Qed.

#[export] Instance bi_server_beside : Beside bi_state bi_server_turn bi_client_turn.
Proof.
  constructor. intros t c s r s' H%bi_client_answer_move. exists (mk_turn [Client_goes] (0, 0) (val 0)).
  cbn. unfold moves_along. cbn. by rewrite H.
Qed.

(** A call of the server is no move, one, or the test of the loop and the read. *)
Lemma bi_server_answer_moves t c s r s' :
  bi_server_answer t c s = Answer r s' ->
  exists n, moves_along (fun _ => bi_server_move) (replicate n Server_goes) s = s'.
Proof.
  assert (Hm : forall s1, bi_server_move s = Some s1 ->
    exists n, moves_along (fun _ => bi_server_move) (replicate n Server_goes) s = s1).
  { intros s1 H. exists 1%nat. unfold moves_along. cbn. by rewrite H. }
  unfold bi_server_answer. intros H. destruct (bi_server s), c; try done;
    try (apply Hm; solve [by eapply by_write_inv|by eapply by_read_inv]).
  - apply by_clock_inv in H as [v [= ->]]. by exists 0%nat.
  - destruct (bi_server_move s) as [s1|] eqn:E; [|done]. apply by_read_inv in H.
    exists 2%nat. unfold moves_along. cbn. rewrite E. cbn. by rewrite H.
Qed.

#[export] Instance bi_client_beside : Beside bi_state bi_client_turn bi_server_turn.
Proof.
  constructor. intros t c s r s' [n H]%bi_server_answer_moves.
  by exists (mk_turn (replicate n Server_goes) (0, 0) (val 0)).
Qed.

(** ** A call that is expected and possible is answered *)
Lemma bi_client_answers c s :
  (forall t, bi_client_answer (turn_alone t) c s <> Strange) -> is_Some (bi_client_move s) ->
  exists t r s', bi_client_answer (turn_alone t) c s = Answer r s'.
Proof.
  intros Hc [s' Hm]. specialize (Hc (mk_turn [] (0, 0) (val 0))). exists (mk_turn [] (0, 0) (val 0)).
  unfold bi_client_answer, by_write, by_read, turn_alone in *. rewrite Hm in *.
  destruct (bi_client s), c; try done; try (destruct (bi_client_left s); [done|]); case_match; try done;
    by do 2 eexists.
Qed.

(** A call of the client that has ended is not expected. *)
Lemma bi_client_ended c s t : bi_client s = BC_test -> bi_client_left s = 0%nat -> bi_client_answer t c s = Strange.
Proof. intros H1 H2. unfold bi_client_answer. rewrite H1, H2. by destruct c. Qed.

(** The server can go on past the test of its loop. *)
Definition bi_server_ready (s : bi_state) : Prop :=
  match bi_server s with
  | BS_test => bi_server_left s = 0%nat \/ bi_counter s <> 0
  | _ => is_Some (bi_server_move s)
  end.

Lemma bi_server_answers c s :
  (forall t, bi_server_answer (turn_alone t) c s <> Strange) -> bi_server_ready s ->
  exists t r s', bi_server_answer (turn_alone t) c s = Answer r s'.
Proof.
  intros Hc Hm. specialize (Hc (mk_turn [] (0, 0) (val 0))). exists (mk_turn [] (0, 0) (val 0)).
  destruct s as [n cl l sv sl]. unfold bi_server_answer, bi_server_ready, by_write, by_read, by_clock, turn_alone in *.
  cbn [bi_server bi_server_left bi_counter tn_clock fst snd] in *. destruct sv; destruct c; try done.
  - destruct (now 0 0) eqn:E; [|by vm_compute in E]. by do 2 eexists.
  - destruct Hm as [->|Hn]; [done|]. destruct sl as [|sl]; [done|]. cbn [bi_server_move bi_counter] in *.
    case_match; [|done]. rewrite (proj2 (Z.eqb_neq n 0)) in * by done. case_match; by do 2 eexists.
  - destruct Hm as [s' Hm]. rewrite Hm in *. case_match; [|done]. by do 2 eexists.
  - destruct Hm as [s' Hm]. rewrite Hm in *. case_match; [|done]. by do 2 eexists.
  - destruct Hm as [s' Hm]. rewrite Hm in *. case_match; [|done]. by do 2 eexists.
Qed.

(** Somebody can go on: the client, or the server past its test. *)
Lemma bi_ready s : bi_inv s -> is_Some (bi_client_move s) \/ bi_server_ready s.
Proof.
  destruct s as [n c cl sv sl]. intros Hi. unfold bi_server_ready. cbn [bi_server bi_server_left bi_counter].
  destruct c as [| |v]; simpl in Hi.
  - destruct Hi as (-> & -> & Hw). destruct sl as [|sl].
    + right. destruct Hw as [->|[_ ?]]; [by left|lia].
    + left. cbn [bi_client_move]. rewrite eventfd_add_token by (unfold SERVER_TOKEN; lia). by eexists.
  - destruct Hi as [(-> & -> & Hc & [->|[-> _]])|[(-> & -> & _)|[(-> & _)|(-> & -> & -> & _)]]].
    + right. by right.
    + right. cbn. by eexists.
    + right. cbn [bi_server_move]. rewrite eventfd_add_token by (unfold CLIENT_TOKEN; lia). by eexists.
    + left. cbn. by eexists.
    + right. cbn [bi_server_move]. rewrite eventfd_add_token by (unfold CLIENT_TOKEN; lia). by eexists.
  - destruct Hi as (-> & -> & _). left. cbn [bi_client_move]. rewrite eventfd_add_token by (unfold SERVER_TOKEN; lia).
    by eexists.
Qed.

(** When the server has returned, the client goes on to its end. *)
Lemma bi_server_gone s :
  bi_inv s -> bi_server s = BS_test -> bi_server_left s = 0%nat ->
  bi_client s = BC_test /\ bi_client_left s = 0%nat \/ is_Some (bi_client_move s).
Proof.
  destruct s as [n c cl sv sl]. simpl. intros Hi -> ->. destruct c as [| |v]; simpl in Hi.
  - left. intuition lia.
  - right. destruct Hi as [(_ & -> & Hc & _)|[(_ & ? & _)|[(-> & _)|(_ & ? & _)]]]; [lia|done|by eexists|done].
  - destruct Hi as (_ & _ & -> & Hc & _). lia.
Qed.

(** ** The pair *)
Section pair.
Context (fuel rounds : nat) (descriptor : Z) (bench0 : Benchmarks).

Definition bi_client_program W `{!Kernel W} : M (process W) () := bi_client_communicate fuel rounds descriptor.
Definition bi_server_program W `{!Kernel W} : M (process W) Benchmarks := bi_server_loop fuel rounds descriptor bench0.

Definition bi_joint_step : relation (joint bi_state) :=
  joint_step (TA:=bi_client_turn) (TB:=bi_server_turn) (bi_client_program script) (bi_server_program script).
Definition bi_joint_init : joint bi_state := mk_joint (bi_init rounds) [] [].

Definition bi_client_returned : () -> bi_state -> Prop := fun _ => bi_client_at BC_test 0.
Definition bi_client_spins (s : bi_state) : Prop := exists l, bi_client_at BC_read l s.
Definition bi_server_returned (b : Benchmarks) (s : bi_state) : Prop :=
  count b = count bench0 + Z.of_nat rounds /\ bi_server_at BS_test 0 s.
Definition bi_server_spins (s : bi_state) : Prop := exists l, bi_server_reads l s.

Lemma bi_pair_sound j :
  0 <= count bench0 -> count bench0 + Z.of_nat rounds <= INT32_MAX -> rtc bi_joint_step bi_joint_init j ->
  rtc bi_step (bi_init rounds) (j_state j) /\
  abides (T:=bi_client_turn) (bi_client_program script) bi_client_returned (fun _ => False) bi_client_spins
    (j_first j) (j_state j) /\
  abides (T:=bi_server_turn) (bi_server_program script) bi_server_returned (fun _ => False) bi_server_spins
    (j_second j) (j_state j).
Proof.
  intros Hc Hle Hr. assert (Hi : bi_inv (bi_init rounds)) by (apply (bi_inv_reachable rounds), rtc_refl). split.
  - by apply (joint_steps (TA:=bi_client_turn) (TB:=bi_server_turn) bi_client_program bi_server_program) in Hr.
  - apply (joint_sound (TA:=bi_client_turn) (TB:=bi_server_turn) bi_client_program bi_server_program
      (interactive_bi_client fuel rounds descriptor) (interactive_bi_server fuel rounds descriptor bench0)
      (bi_client_at BC_test rounds) (bi_server_at BS_test rounds)) with (s0 := bi_init rounds); try done.
    + apply bi_client_loops.
    + by apply bi_server_loops.
    + intros a. apply bi_client_at_stable.
    + apply stable_False.
    + apply stable_exists. intros l. apply bi_client_at_stable.
    + intros b. apply stable_pure, bi_server_at_stable.
    + apply stable_False.
    + apply stable_exists. intros l. apply bi_server_reads_stable.
Qed.

End pair.

(** ** Properties *)

(** C9: the two programs of eventfd-bi work together.  However their calls are
    interleaved, over one counter, they only make moves of the protocol, never
    die and have no undefined behaviour; a client that returns has done all its
    rounds, a server that returns has measured [count] times; and as long as
    neither has used up the fuel of a wait, one of the two can make its next
    call until both have returned: they never deadlock. *)
Theorem eventfd_bi_together fuel rounds descriptor bench0 j :
  0 <= count bench0 -> count bench0 + Z.of_nat rounds <= INT32_MAX ->
  rtc (bi_joint_step fuel rounds descriptor bench0) (bi_joint_init rounds) j ->
  let client := bi_client_program fuel rounds descriptor script in
  let server := bi_server_program fuel rounds descriptor bench0 script in
  rtc bi_step (bi_init rounds) (j_state j) /\
  (next_call client (j_first j) = None ->
     outcome_on client (j_first j) = Done () /\ bi_client_left (j_state j) = 0%nat \/
     outcome_on client (j_first j) = Running) /\
  (next_call server (j_second j) = None ->
     (exists bench, outcome_on server (j_second j) = Done bench /\ count bench = count bench0 + Z.of_nat rounds) \/
     outcome_on server (j_second j) = Running) /\
  ((exists j', bi_joint_step fuel rounds descriptor bench0 j j') \/
   next_call client (j_first j) = None /\ next_call server (j_second j) = None \/
   next_call client (j_first j) = None /\ outcome_on client (j_first j) = Running \/
   next_call server (j_second j) = None /\ outcome_on server (j_second j) = Running).
Proof.
  intros Hc Hle Hr client server.
  destruct (bi_pair_sound fuel rounds descriptor bench0 j Hc Hle Hr) as (Hs & Ha & Hb).
  pose proof (bi_inv_reachable rounds _ Hs) as Hi. unfold abides in Ha, Hb. fold client in Ha. fold server in Hb.
  split_and!; [done|..].
  - intros Hn. rewrite Hn in Ha. destruct (outcome_on client (j_first j)) as [[]| | |]; try done; [left|by right].
    split; [done|]. by destruct Ha as (_ & _ & ?).
  - intros Hn. rewrite Hn in Hb. destruct (outcome_on server (j_second j)) as [b| | |]; try done; [left|by right].
    exists b. split; [done|]. by destruct Hb.
  - destruct j as [s ra rb]. cbn [j_state j_first j_second] in *.
    destruct (next_call client ra) as [c|] eqn:Ea; destruct (next_call server rb) as [d|] eqn:Eb.
    + left. destruct (bi_ready s Hi) as [Hm|Hm].
      * destruct (bi_client_answers c s Ha Hm) as (t & r & s' & E). eexists. eapply First_calls; [exact Ea|exact E].
      * destruct (bi_server_answers d s Hb Hm) as (t & r & s' & E). eexists. eapply Second_calls; [exact Eb|exact E].
    + destruct (outcome_on server rb) as [b| | |] eqn:Eo; try done; [|by do 3 right].
      destruct Hb as (_ & _ & Hpc & Hl). destruct (bi_server_gone s Hi Hpc Hl) as [[H1 H2]|Hm].
      * by destruct (Ha (mk_turn [] (0, 0) (val 0)) (bi_client_ended c s _ H1 H2)).
      * left. destruct (bi_client_answers c s Ha Hm) as (t & r & s' & E). eexists. eapply First_calls; [exact Ea|exact E].
    + destruct (outcome_on client ra) as [[]| | |] eqn:Eo; try done; [|by right; right; left].
      destruct Ha as (_ & Hpc & Hl). destruct (bi_ready s Hi) as [[s1 Hm]|Hm].
      { destruct s as [n cl l sv sl]. simpl in Hpc, Hl. subst. done. }
      left. destruct (bi_server_answers d s Hb Hm) as (t & r & s' & E). eexists. eapply Second_calls; [exact Eb|exact E].
    + by right; left.
Qed.

(** ** Witness *)

(** One round: the server reads the clock, the client notifies and reads its own
    token back, and so on to the end of both. *)
Definition bi_schedule : list (bi_client_turn + bi_server_turn) :=
  let c := inl (mk_turn [] (0, 0) (val 0)) in
  let s ns := inr (mk_turn [] (1700000000, ns) (val 0)) in
  [s 0; c; c; c; s 0; s 0; c; s 256].

Definition bi_run : joint bi_state :=
  state_along (joint_move (bi_client_program 3 1 5 script) (bi_server_program 3 1 5 (mk_Benchmarks 0 0 0 0 0 0 0) script))
    bi_schedule (bi_joint_init 1).

Lemma bi_run_reachable : rtc (bi_joint_step 3 1 5 (mk_Benchmarks 0 0 0 0 0 0 0)) (bi_joint_init 1) bi_run.
Proof. apply state_along_rtc; [intros t a b; apply joint_move_step|by vm_compute; eexists]. Qed.

Lemma eventfd_bi_together_witness :
  next_call (bi_client_program 3 1 5 script) (j_first bi_run) = None /\
  next_call (bi_server_program 3 1 5 (mk_Benchmarks 0 0 0 0 0 0 0) script) (j_second bi_run) = None /\
  bi_counter (j_state bi_run) = 0 /\
  rtc bi_step (bi_init 1) (j_state bi_run).
Proof.
  split; [by vm_compute|]. split; [by vm_compute|]. split; [by vm_compute|].
  exact (proj1 (eventfd_bi_together 3 1 5 (mk_Benchmarks 0 0 0 0 0 0 0) bi_run ltac:(done) ltac:(by vm_compute)
    bi_run_reachable)).
Defined.
