(* ===== verification/EventFdUni.v ===== *)
(** * eventfd-uni: the programs make the protocol's moves, alone and together

    The server's endless loop and the client's measuring loop of
    [eventfd/eventfd-uni.c] in the place of the two processes over the counter
    of [EventFd], and both call by call in any order. *)
From S2P Require Import Prelude Kernel Memory Benchmarks Linking Together EventFd EventFdLink.

#[local] Arguments le_bytes : simpl never.
#[local] Arguments eventfd_add : simpl never.

(** ** The moves, executable *)

(** What one write can add. *)
Definition uni_timestamp (v : Z) : bool := (0 <? v) && (v <=? EVENTFD_MAX).

Definition uni_write (v : Z) (s : uni_state) : option uni_state :=
  let 'mk_uni_state n sent rcv := s in
  if uni_timestamp v then n ← eventfd_add n v; Some (mk_uni_state n (sent ++ [v]) rcv) else None.

Definition uni_read (s : uni_state) : option uni_state :=
  let 'mk_uni_state n sent rcv := s in
  if n =? 0 then None else Some (mk_uni_state 0 sent (rcv ++ [n])).

Lemma uni_write_step v s s' : uni_write v s = Some s' -> uni_step s s'.
Proof.
  destruct s as [n sent rcv]. unfold uni_write, uni_timestamp. destruct (Z.ltb_spec 0 v); [|done]. cbn [andb].
  destruct (v <=? EVENTFD_MAX); [|done]. destruct (eventfd_add n v) as [n'|] eqn:E; [|done]. cbn. intros [= <-].
  by constructor.
Qed.

Lemma uni_read_step s s' : uni_read s = Some s' -> uni_step s s'.
Proof. destruct s as [n sent rcv]. unfold uni_read. destruct (Z.eqb_spec n 0); [done|]. intros [= <-]. by constructor. Qed.

(** The counter is the sum of what is pending, and fits. *)
Definition uni_ok (s : uni_state) : Prop := uni_inv s /\ 0 <= uni_counter s <= EVENTFD_MAX.

Lemma uni_ok_step s s' : uni_ok s -> uni_step s s' -> uni_ok s'.
Proof.
  intros [Hi Hc] Hs. split; [by eapply uni_inv_step|]. destruct Hs as [n sent rcv t n' Ht Ha|n sent rcv Hn]; cbn in *.
  - unfold eventfd_add in Ha. case_decide; [|done]. injection Ha as <-. lia.
  - by unfold EVENTFD_MAX.
Qed.

Lemma uni_ok_init : uni_ok uni_init.
Proof. split; [by apply uni_inv_reachable, rtc_refl|by unfold EVENTFD_MAX]. Qed.

Lemma uni_ok_write v s s' : uni_ok s -> uni_write v s = Some s' -> uni_ok s'.
Proof. intros H Hm. by eapply uni_ok_step, uni_write_step. Qed.

Lemma uni_ok_read s s' : uni_ok s -> uni_read s = Some s' -> uni_ok s'.
Proof. intros H Hm. by eapply uni_ok_step, uni_read_step. Qed.

(** ** The server *)

(** The choices for a call of the server: the client's reads.  A clock whose
    reading a write cannot add is not among them. *)
Variant uni_client_goes := Client_reads.
Definition uni_server_turn : Type := turn uni_client_goes.

Definition uni_clock_fits {C} (t : turn C) : bool :=
  match now (tn_clock t).1 (tn_clock t).2 with Some v => uni_timestamp v | None => false end.

Definition uni_server_answer (t : uni_server_turn) (c : syscall) (s : uni_state) : reply uni_state :=
  match c with
  | Timespec_get => if uni_clock_fits t then by_clock t (fun _ => Some s) else Waits
  | Write _ bytes =>
      let v := le_value bytes in
      if bool_decide (bytes = le_bytes 8 v) && uni_timestamp v then by_move (uni_write v s) (val 8) else Strange
  | _ => Strange
  end.

Lemma uni_server_answer_moves t c s r s' :
  uni_server_answer t c s = Answer r s' -> s' = s \/ exists v, uni_write v s = Some s'.
Proof.
  destruct c; try done; cbn; intros H; case_match; try done.
  - apply by_clock_inv in H as [? H]. injection H as <-. by left.
  - apply by_move_inv in H. right. by eexists.
Qed.

Lemma uni_server_answer_steps t c s r s' : uni_server_answer t c s = Answer r s' -> rtc uni_step s s'.
Proof. intros [-> | [v H]]%uni_server_answer_moves; [apply rtc_refl|]. by eapply rtc_once, uni_write_step. Qed.

#[export] Instance uni_server_link : Link uni_state uni_server_turn := {
  link_step := uni_step;
  link_others t s := moves_along (fun _ => uni_read) (tn_others t) s;
  link_answer := uni_server_answer;
  link_others_steps t s := moves_along_rtc _ uni_step _ s (fun _ => uni_read_step);
  link_answer_steps := uni_server_answer_steps;
  link_errno _ _ := True;
  link_others_errno _ _ _ H := H;
  link_answer_errno _ _ _ _ _ _ H _ := H;
}.

Lemma uni_server_stable : stable (T:=uni_server_turn) uni_ok.
Proof. intros t s H. cbn. apply moves_along_inv; [|done]. intros c s1 s2. apply uni_ok_read. Qed.

Lemma halts_uni_server fuel descriptor {T} `{!Link uni_state T} :
  halts (uni_server_communicate (W:=world uni_state T) fuel descriptor).
Proof. apply halts_forever. unfold uni_server_round. halting. Qed.

(** [server_communicate]: the timestamp it has read is the value it writes. *)
Lemma uni_server_sends fuel descriptor Q D :
  triple (T:=uni_server_turn) uni_ok (uni_server_communicate fuel descriptor) Q D uni_ok.
Proof.
  apply triple_forever; [unfold uni_server_round; halting|]. unfold uni_server_round.
  eapply (triple_bind _ _ _ (fun v s => uni_timestamp v = true /\ uni_ok s)); [halting| |intros v; apply triple_pure; intros Hv].
  - apply triple_read_now; [apply uni_server_stable|]. intros t s H. cbn. unfold uni_clock_fits, by_clock.
    destruct (now _ _) as [v|] eqn:E; [|done]. destruct (uni_timestamp v) eqn:Hv; [|done]. cbn. do 3 eexists.
    split; [done|]. by split.
  - eapply (triple_bind _ _ _ (fun w s => w = 8 /\ uni_ok s)); [halting| |intros w; apply triple_pure; intros ->; by apply triple_ret].
    apply triple_sys_rv; [apply uni_server_stable|]. intros t s H. cbn.
    rewrite le_value_event by (unfold uni_timestamp, EVENTFD_MAX in Hv; lia).
    rewrite bool_decide_eq_true_2, Hv by done. cbn [andb]. destruct (uni_write v s) as [s'|] eqn:E; [|done].
    cbn. split; [done|by eapply uni_ok_write].
Qed.

(** ** The client *)

(** The choices for a call of the client: the server's writes.  [start] is the
    microseconds the time test compares with. *)
Definition uni_client_turn (start : Z) : Type := turn Z.

Definition uni_client_answer (start : Z) (t : uni_client_turn start) (c : syscall) (s : uni_state) : reply uni_state :=
  match c with
  | Gettimeofday => Answer (mk_result 0 0 [(tn_clock t).1; (tn_clock t).2]) s
  | Read _ size => by_read size (uni_counter s) (uni_read s)
  | Timespec_get => by_clock t (fun _ => Some s)
  | _ => Strange
  end.

Lemma uni_client_answer_moves start t c s r s' :
  uni_client_answer start t c s = Answer r s' -> s' = s \/ uni_read s = Some s'.
Proof.
  destruct c; try done; cbn; intros H.
  - injection H as _ <-. by left.
  - apply by_clock_inv in H as [? H]. injection H as <-. by left.
  - right. by eapply by_read_inv.
Qed.

Lemma uni_client_answer_steps start t c s r s' : uni_client_answer start t c s = Answer r s' -> rtc uni_step s s'.
Proof. intros [-> | H]%uni_client_answer_moves; [apply rtc_refl|]. by eapply rtc_once, uni_read_step. Qed.

#[export] Instance uni_client_link start : Link uni_state (uni_client_turn start) := {
  link_step := uni_step;
  link_others t s := moves_along uni_write (tn_others t) s;
  link_answer := uni_client_answer start;
  link_others_steps t s := moves_along_rtc _ uni_step _ s uni_write_step;
  link_answer_steps := uni_client_answer_steps start;
  link_errno _ _ := True;
  link_others_errno _ _ _ H := H;
  link_answer_errno _ _ _ _ _ _ H _ := H;
}.

(** The client with the values it has received. *)
Definition uni_client_at (rcv : list Z) (s : uni_state) : Prop := uni_ok s /\ uni_received s = rcv.

Lemma uni_client_stable start rcv : stable (T:=uni_client_turn start) (uni_client_at rcv).
Proof.
  intros t s H. cbn. apply moves_along_inv; [|done]. intros v s1 s2 [H1 H2] Hm. split; [by eapply uni_ok_write|].
  destruct s1 as [n sent r]. unfold uni_write in Hm. destruct (uni_timestamp v); [|done].
  destruct (eventfd_add n v); [|done]. by injection Hm as <-.
Qed.

Lemma uni_client_rounds start descriptor rcv bench D R :
  0 <= count bench < INT32_MAX ->
  triple (T:=uni_client_turn start) (uni_client_at rcv) (uni_client_round descriptor bench)
    (fun b s => exists v, (exists t, benchmark t (set_single_start bench v) = Some b) /\ uni_client_at (rcv ++ [v]) s) D R.
Proof.
  intros Hc. unfold uni_client_round.
  eapply (triple_bind _ _ _ (fun r s => exists v, (rv r = 8 /\ le_value (data r) = v) /\ uni_client_at (rcv ++ [v]) s));
    [unfold benchmark_call; halting| |intros r; apply triple_exists; intros v; apply triple_pure; intros [Hr Hv]].
  - apply triple_sys; [apply uni_client_stable|]. intros t s [[Hi Hn] Hrc]. cbn. unfold by_read. cbn [Z.eqb Pos.eqb].
    destruct (uni_read s) as [s'|] eqn:E; [|done]. cbn. exists (uni_counter s).
    split; [split; [done|apply le_value_event; unfold EVENTFD_MAX in Hn; lia]|].
    split; [by eapply uni_ok_read|]. destruct s as [n sent r]. cbn in *. destruct (n =? 0); [done|].
    injection E as <-. cbn. by rewrite Hrc.
  - apply triple_bind_passes; [by rewrite Hr|]. rewrite Hv.
    apply (triple_benchmark_from _ (fun v => uni_client_at (rcv ++ [v]))); [done|].
    apply triple_read_now; [apply uni_client_stable|]. intros t s H. cbn. unfold by_clock.
    destruct (now _ _) as [w|] eqn:E; [|done]. cbn. by do 3 eexists.
Qed.

(** The client's measuring loop. *)
Definition uni_client_done (bench0 : Benchmarks) (r : Benchmarks * Z) (s : uni_state) : Prop :=
  exists rcv, measured bench0 rcv r.1 /\ r.2 = Z.of_nat (length rcv) /\ uni_client_at rcv s.

Lemma uni_client_measures start descriptor fuel bench0 :
  0 <= count bench0 -> count bench0 + Z.of_nat fuel <= INT32_MAX ->
  triple (T:=uni_client_turn start) (uni_client_at []) (timed_loop fuel gettimeofday_usec start (uni_client_round descriptor) bench0 0)
    (uni_client_done bench0) (fun _ => False) uni_ok.
Proof.
  intros Hc Hf.
  apply (client_loops (T:=uni_client_turn start) uni_client_at uni_client_at uni_client_at (fun _ => True) (fun b => b)); try done.
  - intros b. unfold uni_client_round, benchmark_call. halting.
  - by intros rcv s [H _].
  - intros rcv. apply triple_gettimeofday; [apply uni_client_stable|]. intros t s H. cbn. do 2 eexists. split; [done|].
    by case_match.
  - intros rcv b _ Hcnt. eapply triple_conseq; [by apply (uni_client_rounds start descriptor rcv b)|exact (fun _ H => H)| |exact (fun _ H => H)|exact (fun _ H => H)].
    intros b' s H. exact (conj I H).
Qed.

(** ** The two programs together *)
Lemma groups_length (groups : list (list Z)) : Forall (fun g => g <> []) groups -> (length groups <= length (concat groups))%nat.
Proof. induction 1 as [|g gs Hg _ IH]; [done|]. cbn. rewrite length_app. destruct g; [done|]. cbn. lia. Qed.

Lemma interactive_uni_server fuel descriptor : interactive (fun W _ => uni_server_communicate (W:=W) fuel descriptor).
Proof.
  apply (interactive_forever fuel (fun W _ => uni_server_round (W:=W) descriptor)).
  unfold uni_server_round, read_now. interacting.
Qed.

Lemma interactive_uni_client_round descriptor bench : interactive (fun W _ => uni_client_round (W:=W) descriptor bench).
Proof. unfold uni_client_round, benchmark_call, read_now. interacting. Qed.

#[export] Instance uni_server_choices : Choices uni_state uni_server_turn.
Proof.
  refine {| link_alone := turn_alone : uni_server_turn -> uni_server_turn; link_then := turn_then |}; try done.
  intros. cbn. apply moves_along_app.
Defined.

#[export] Instance uni_client_choices start : Choices uni_state (uni_client_turn start).
Proof.
  refine {| link_alone := turn_alone : uni_client_turn start -> uni_client_turn start; link_then := turn_then |}; try done.
  intros. cbn. apply moves_along_app.
Defined.

#[export] Instance uni_server_beside start : Beside uni_state uni_server_turn (uni_client_turn start).
Proof.
  constructor. intros t c s r s' [-> | H]%uni_client_answer_moves; [by exists (mk_turn [] (0, 0) (val 0))|].
  exists (mk_turn [Client_reads] (0, 0) (val 0)). cbn. unfold moves_along. cbn. by rewrite H.
Qed.

#[export] Instance uni_client_beside start : Beside uni_state (uni_client_turn start) uni_server_turn.
Proof.
  constructor. intros t c s r s' [-> | [v H]]%uni_server_answer_moves; [by exists (mk_turn [] (0, 0) (val 0))|].
  exists (mk_turn [v] (0, 0) (val 0)). cbn. unfold moves_along. cbn. by rewrite H.
Qed.

(** A clock at one nanosecond or so after the epoch. *)
Lemma now_some : exists nsec v, now 0 nsec = Some v /\ uni_timestamp v = true.
Proof. exists 256, 256. by vm_compute. Qed.

(** The server goes on while the counter is 0, the client while it is not. *)
Lemma uni_server_answers c s :
  (forall t, uni_server_answer (turn_alone t) c s <> Strange) -> uni_counter s = 0 ->
  exists t r s', uni_server_answer (turn_alone t) c s = Answer r s'.
Proof.
  destruct now_some as (nsec & v & Hn & Hv). intros Hc H0. specialize (Hc (mk_turn [] (0, nsec) (val 0))).
  exists (mk_turn [] (0, nsec) (val 0)). unfold uni_server_answer, by_clock, uni_clock_fits, turn_alone in *.
  cbn [tn_clock fst snd] in *. rewrite ?Hn, ?Hv in *. destruct c; try done; [by do 2 eexists|].
  destruct (bool_decide _ && _) eqn:E; [|done]. apply andb_true_iff in E as [_ E].
  destruct s as [n sent rcv]. cbn in H0. subst. cbn [uni_write]. rewrite E. unfold eventfd_add.
  rewrite decide_True by (unfold uni_timestamp in E; lia). by do 2 eexists.
Qed.

Lemma uni_client_answers start c s :
  (forall t, uni_client_answer start (turn_alone t) c s <> Strange) -> uni_counter s <> 0 ->
  exists t r s', uni_client_answer start (turn_alone t) c s = Answer r s'.
Proof.
  intros Hc Hn. specialize (Hc (mk_turn [] (0, 0) (val 0))). exists (mk_turn [] (0, 0) (val 0)).
  unfold uni_client_answer, by_clock, turn_alone in *. cbn [tn_clock fst snd] in *. rewrite now_zero in *.
  destruct c; try done; try (by do 2 eexists). unfold by_read in *. case_match; [|done].
  destruct s as [n sent rcv]. cbn in Hn |- *. apply Z.eqb_neq in Hn. rewrite Hn. by do 2 eexists.
Qed.

Section pair.
Context (start : Z) (fuel_s fuel_c : nat) (descriptor : Z) (bench0 : Benchmarks).

Definition uni_server_program W `{!Kernel W} : M (process W) () := uni_server_communicate fuel_s descriptor.
Definition uni_client_program W `{!Kernel W} : M (process W) (Benchmarks * Z) :=
  timed_loop fuel_c gettimeofday_usec start (uni_client_round descriptor) bench0 0.

Definition uni_joint_step : relation (joint uni_state) :=
  joint_step (TA:=uni_server_turn) (TB:=uni_client_turn start) (uni_server_program script) (uni_client_program script).
Definition uni_joint_init : joint uni_state := mk_joint uni_init [] [].

Lemma uni_pair_sound j :
  0 <= count bench0 -> count bench0 + Z.of_nat fuel_c <= INT32_MAX -> rtc uni_joint_step uni_joint_init j ->
  rtc uni_step uni_init (j_state j) /\
  abides (T:=uni_server_turn) (uni_server_program script) (fun _ _ => False) (fun _ => False) uni_ok
    (j_first j) (j_state j) /\
  abides (T:=uni_client_turn start) (uni_client_program script) (uni_client_done bench0) (fun _ => False) uni_ok
    (j_second j) (j_state j).
Proof.
  intros Hc Hf Hr. split.
  - by apply (joint_steps (TA:=uni_server_turn) (TB:=uni_client_turn start) uni_server_program uni_client_program) in Hr.
  - assert (ic : interactive uni_client_program).
    { apply (interactive_timed_loop fuel_c start (fun W _ => uni_client_round (W:=W) descriptor)).
      apply interactive_uni_client_round. }
    apply (joint_sound (TA:=uni_server_turn) (TB:=uni_client_turn start) uni_server_program uni_client_program
      (interactive_uni_server fuel_s descriptor) ic uni_ok (uni_client_at [])) with (s0 := uni_init);
      try done; try (intros; apply stable_False).
    + apply uni_server_sends.
    + by apply uni_client_measures.
    + apply uni_server_stable.
    + intros r. apply stable_exists. intros rcv. do 2 apply stable_pure. apply uni_client_stable.
    + intros t s H. apply (uni_client_stable start (uni_received s) t s). by split.
    + apply uni_ok_init.
    + split; [apply uni_ok_init|done].
Qed.

End pair.

(** ** Properties *)

(** C14: the two programs of eventfd-uni work together, and measure sums.  In
    whatever order they make their calls on the counter, neither dies or has
    undefined behaviour, and until the client has returned (or a loop has used
    up its fuel) one of the two can make its next call.  The client's record is
    that of one measurement from each value it has read, each the sum of one or
    more consecutive timestamps of the server, so it counts no more measurements
    than there were timestamps. *)
Theorem eventfd_uni_together start fuel_s fuel_c descriptor bench0 j :
  0 <= count bench0 -> count bench0 + Z.of_nat fuel_c <= INT32_MAX ->
  rtc (uni_joint_step start fuel_s fuel_c descriptor bench0) uni_joint_init j ->
  let server := uni_server_program fuel_s descriptor script in
  let client := uni_client_program start fuel_c descriptor bench0 script in
  rtc uni_step uni_init (j_state j) /\
  (next_call server (j_first j) = None -> outcome_on server (j_first j) = Running) /\
  (next_call client (j_second j) = None ->
     outcome_on client (j_second j) = Running \/
     exists bench groups pending,
       outcome_on client (j_second j) = Done (bench, Z.of_nat (length groups)) /\
       uni_sent (j_state j) = concat groups ++ pending /\ Forall (fun g => g <> []) groups /\
       (length groups <= length (uni_sent (j_state j)))%nat /\
       measured bench0 (zsum <$> groups) bench /\ count bench = count bench0 + Z.of_nat (length groups)) /\
  ((exists j', uni_joint_step start fuel_s fuel_c descriptor bench0 j j') \/
   next_call server (j_first j) = None \/ next_call client (j_second j) = None).
Proof.
  intros Hc Hf Hr server client. destruct (uni_pair_sound start fuel_s fuel_c descriptor bench0 j Hc Hf Hr) as (Hs & Ha & Hb).
  fold server in Ha. fold client in Hb. split; [done|]. split_and!.
  - intros Hn. unfold abides in Ha. rewrite Hn in Ha. by destruct (outcome_on server (j_first j)).
  - intros Hn. unfold abides in Hb. rewrite Hn in Hb. destruct (outcome_on client (j_second j)) as [[b cnt]| | |]; try done; [right|by left].
    destruct Hb as (rcv & Hm & Hl & ((groups & pending & H1 & H2 & _ & H4 & _) & _) & Hrc). cbn in Hm, Hl.
    rewrite Hrc in H2. subst rcv cnt. rewrite length_fmap. exists b, groups, pending. split_and!; try done.
    { rewrite H1, length_app. pose proof (groups_length groups H4). lia. }
    destruct Hm as (ends & _ & _ & H). by rewrite length_fmap in H.
  - eapply (joint_goes_on (TA:=uni_server_turn) (TB:=uni_client_turn start)) with
      (can_a := fun s => uni_counter s = 0) (can_b := fun s => uni_counter s <> 0);
      [apply uni_server_answers|apply uni_client_answers|exact Ha|exact Hb|].
    destruct (decide (uni_counter (j_state j) = 0)); [by left|by right].
Qed.

(** ** Witness *)

(** Two timestamps are written before the client reads once. *)
Definition uni_schedule : list (uni_server_turn + uni_client_turn 500000) :=
  let s nsec := inl (mk_turn [] (1700000000, nsec) (val 0)) in
  let c usec := inr (mk_turn [] (1700000000, usec) (val 0)) in
  [c 500100; s 0; s 0; s 512; s 0; c 0; c 1024; c 600001].

Definition uni_pair_bench : Benchmarks := mk_Benchmarks 0 0 INT32_MAX 0 0 0 0.

Definition uni_pair_run : joint uni_state :=
  state_along (joint_move (TA:=uni_server_turn) (TB:=uni_client_turn 500000)
    (uni_server_program 3 7 script) (uni_client_program 500000 3 7 uni_pair_bench script)) uni_schedule uni_joint_init.

Lemma eventfd_uni_together_witness :
  next_call (uni_client_program 500000 3 7 uni_pair_bench script) (j_second uni_pair_run) = None /\
  uni_received (j_state uni_pair_run) = [1700000000000000000 + 1700000000000000512] /\
  rtc uni_step uni_init (j_state uni_pair_run).
Proof.
  split; [by vm_compute|]. split; [by vm_compute|].
  refine (proj1 (eventfd_uni_together 500000 3 3 7 uni_pair_bench uni_pair_run _ _ _)); [done|by vm_compute|].
  apply state_along_rtc; [intros t a b; apply joint_move_step|by vm_compute; eexists].
Defined.
