(* ===== verification/UintrFd.v ===== *)
(** * uintrfd: notification through user interrupts

    The programs of [uintrfd/uintrfd-bi.c] and [uintrfd/uintrfd-uni.c] call by
    call, and their two threads with the interrupts in flight: a sent
    interrupt is pending until the receiving thread has enabled interrupts,
    then its handler runs to completion. *)
From S2P Require Import Prelude Kernel Benchmarks.

Section programs.
Context {W : Type} `{!Kernel W}.

(** ** uintrfd-bi.c *)

(** [uintr_received[token]]. *)
Definition uintr_received (token : Z) : string :=
  if token =? 0 then "uintr_received[0]" else "uintr_received[1]".

Definition setup_handler_with_vector (vector : Z) : M (process W) Z :=
  r ← sys_rv Uintr_register_handler;
  throw_if (negb (r =? 0)) "Interrupt handler register error";;
  fd ← sys_rv (Uintr_create_fd vector 0);
  throw_if (fd <? 0) "Interrupt vector registration error";;
  mret fd.

Fixpoint uintrfd_wait (fuel : nat) (token : Z) : M (process W) () :=
  match fuel with
  | O => running
  | S fuel =>
      v ← sys_rv (Load (uintr_received token));
      if negb (v =? 0) then sys_ (Store (uintr_received token) 0) else uintrfd_wait fuel token
  end.

Definition uintrfd_notify (uipi_index : Z) : M (process W) () := senduipi uipi_index.

(** [while (!variable) usleep(10);], with the value that ends it. *)
Fixpoint wait_for_fd (fuel : nat) (variable : string) : M (process W) Z :=
  match fuel with
  | O => running
  | S fuel =>
      v ← sys_rv (Load variable);
      if v =? 0 then sys_ (Usleep 10);; wait_for_fd fuel variable else mret v
  end.

(** Returns [uipi_index[SERVER_TOKEN]]. *)
Definition uipi_bi_setup_client (fuel : nat) : M (process W) Z :=
  fd ← setup_handler_with_vector 1;
  sys_ (Store "uintrfd_client" fd);;
  uintrfd_server ← wait_for_fd fuel "uintrfd_server";
  index ← sys_rv (Uintr_register_sender uintrfd_server 0);
  throw_if (index <? 0) "Sender register error";;
  sys_ Stui;;
  mret index.

(** The server does not check the registration: with a negative index its first
    notification faults. *)
Definition uipi_bi_setup_server (fuel : nat) : M (process W) Z :=
  fd ← setup_handler_with_vector 0;
  sys_ (Store "uintrfd_server" fd);;
  uintrfd_client ← wait_for_fd fuel "uintrfd_client";
  index ← sys_rv (Uintr_register_sender uintrfd_client 0);
  sys_ Stui;;
  mret index.

Fixpoint uipi_bi_client_loop (fuel rounds : nat) (index : Z) : M (process W) () :=
  match rounds with
  | O => mret ()
  | S rounds => uintrfd_wait fuel 1;; uintrfd_notify index;; uipi_bi_client_loop fuel rounds index
  end.

Definition uipi_bi_client_communicate (fuel : nat) (args : Arguments) : M (process W) () :=
  index ← uipi_bi_setup_client fuel; uipi_bi_client_loop fuel (Z.to_nat (arg_count args)) index.

Fixpoint uipi_bi_server_loop (fuel rounds : nat) (index : Z) (bench : Benchmarks) : M (process W) Benchmarks :=
  match rounds with
  | O => mret bench
  | S rounds =>
      bench ← start_single bench;
      uintrfd_notify index;;
      uintrfd_wait fuel 0;;
      bench ← benchmark_call bench;
      uipi_bi_server_loop fuel rounds index bench
  end.

Definition uipi_bi_server_communicate (fuel : nat) (args : Arguments) (bench0 : Benchmarks) : M (process W) report :=
  bench ← setup_benchmarks_call bench0;
  index ← uipi_bi_setup_server fuel;
  bench ← uipi_bi_server_loop fuel (Z.to_nat (arg_count args)) index bench;
  of_outcome (evaluate bench (mk_Arguments 1 (arg_count args))).

(** The created thread runs [uipi_bi_client_communicate]. *)
Definition uipi_bi_communicate (fuel : nat) (args : Arguments) (bench0 : Benchmarks) : M (process W) report :=
  r ← sys_rv Pthread_create;
  throw_if (negb (r =? 0)) "Error creating sender thread";;
  uipi_bi_server_communicate fuel args bench0.

(** ** uintrfd-uni.c *)

(** [ui_handler]: [bench], [uintr_count] and [uintr_received] are globals. *)
Definition uipi_uni_ui_handler (bench : Benchmarks) (uintr_count : Z) : M (process W) (Benchmarks * Z) :=
  bench ← benchmark_call bench;
  sys_ (Store "uintr_received" 1);;
  mret (bench, u32 (uintr_count + 1)).

Fixpoint uipi_uni_spin (fuel : nat) : M (process W) () :=
  match fuel with
  | O => running
  | S fuel => v ← sys_rv (Load "uintr_received"); if v =? 0 then uipi_uni_spin fuel else mret ()
  end.

(** The new [bench.single_start] is stored into the global. *)
Fixpoint uipi_uni_client_loop (fuel rounds : nat) (index : Z) : M (process W) () :=
  match rounds with
  | O => mret ()
  | S rounds =>
      sys_ (Store "uintr_received" 0);;
      t ← read_now;
      sys_ (Store "bench.single_start" t);;
      senduipi index;;
      uipi_uni_spin fuel;;
      uipi_uni_client_loop fuel rounds index
  end.

Definition uipi_uni_client_communicate (fuel : nat) (descriptor : Z) (args : Arguments) : M (process W) () :=
  uipi_index ← sys_rv (Uintr_register_sender descriptor 0);
  throw_if (uipi_index <? 0) "Sender register error";;
  uipi_uni_client_loop fuel (Z.to_nat (arg_count args)) uipi_index.

(** [while (uintr_count < args->count)]: the count is converted to unsigned. *)
Fixpoint uipi_uni_server_wait (fuel : nat) (args : Arguments) : M (process W) () :=
  match fuel with
  | O => running
  | S fuel =>
      uintr_count ← sys_rv (Load "uintr_count");
      if uintr_count <? u32 (arg_count args) then uipi_uni_server_wait fuel args else mret ()
  end.

(** [bench] is the global after the handlers. *)
Definition uipi_uni_server_communicate (fuel : nat) (args : Arguments) (bench : Benchmarks) : M (process W) report :=
  uipi_uni_server_wait fuel args;;
  of_outcome (evaluate bench (mk_Arguments 1 (arg_count args))).

Definition uipi_uni_communicate (fuel : nat) (descriptor : Z) (args : Arguments) (bench0 bench : Benchmarks)
    : M (process W) report :=
  _ ← setup_benchmarks_call bench0;
  r ← sys_rv Pthread_create;
  throw_if (negb (r =? 0)) "Error creating sender thread";;
  report ← uipi_uni_server_communicate fuel args bench;
  sys_ (Close descriptor);;
  mret report.

Definition uipi_uni_main (fuel : nat) (args : Arguments) (bench0 bench : Benchmarks) : M (process W) report :=
  r ← sys_rv Uintr_register_handler;
  throw_if (negb (r =? 0)) "Interrupt handler register error";;
  descriptor ← sys_rv (Uintr_create_fd 0 0);
  throw_if (descriptor <? 0) "Interrupt vector allocation error";;
  sys_ Stui;;
  uipi_uni_communicate fuel descriptor args bench0 bench.

End programs.

(** ** The two threads of uintrfd-bi *)

(** Both threads: set-up, then the loop. *)
Inductive ui_pc :=
  | UI_start                 (* before the descriptor is stored *)
  | UI_fd                    (* waiting for the other's descriptor *)
  | UI_stui                  (* registered as a sender, before _stui() *)
  | UI_test                  (* the loop's test *)
  | UI_wait                  (* while (!uintr_received[token]) *)
  | UI_clear                 (* uintr_received[token] = 0 *)
  | UI_notify.               (* _senduipi *)

(** One thread: its control point, the rounds left, the interrupt pending for
    it, and its [uintr_received] flag. *)
Record ui_thread := mk_ui_thread {
  ui_at : ui_pc;
  ui_left : nat;
  ui_pending : bool;
  ui_flag : bool;
}.

(** The server notifies first and then waits; the client waits first. *)
Record ui_state := mk_ui_state { ui_server : ui_thread; ui_client : ui_thread }.

Definition has_fd (t : ui_thread) : bool := match ui_at t with UI_start => false | _ => true end.
Definition enabled (t : ui_thread) : bool :=
  match ui_at t with UI_start | UI_fd | UI_stui => false | _ => true end.

Definition goto (t : ui_thread) (pc : ui_pc) : ui_thread :=
  mk_ui_thread pc (ui_left t) (ui_pending t) (ui_flag t).
Definition post (t : ui_thread) : ui_thread := mk_ui_thread (ui_at t) (ui_left t) true (ui_flag t).
Definition next_round (t : ui_thread) : ui_thread :=
  mk_ui_thread UI_test (ui_left t - 1) (ui_pending t) (ui_flag t).

(** [ui_handler] on a thread with an interrupt pending. *)
Definition ui_deliver (t : ui_thread) : option ui_thread :=
  if ui_pending t && enabled t then Some (mk_ui_thread (ui_at t) (ui_left t) false true) else None.

(** A move of the thread [t], which notifies first when [first], beside the
    other thread [o]; returns both. *)
Definition ui_move (first : bool) (t o : ui_thread) : option (ui_thread * ui_thread) :=
  match ui_at t with
  | UI_start => Some (goto t UI_fd, o)
  | UI_fd => if has_fd o then Some (goto t UI_stui, o) else None
  | UI_stui => Some (goto t UI_test, o)
  | UI_test =>
      match ui_left t with
      | O => None
      | S _ => Some (goto t (if first then UI_notify else UI_wait), o)
      end
  | UI_wait => if ui_flag t then Some (goto t UI_clear, o) else None
  | UI_clear =>
      let t := mk_ui_thread (ui_at t) (ui_left t) (ui_pending t) false in
      Some (if first then next_round t else goto t UI_notify, o)
  | UI_notify => Some (if first then goto t UI_wait else next_round t, post o)
  end.

Inductive ui_step : ui_state -> ui_state -> Prop :=
  | Ui_server s c s' c' : ui_move true s c = Some (s', c') -> ui_step (mk_ui_state s c) (mk_ui_state s' c')
  | Ui_client s c s' c' : ui_move false c s = Some (c', s') -> ui_step (mk_ui_state s c) (mk_ui_state s' c')
  | Ui_deliver_server s c s' : ui_deliver s = Some s' -> ui_step (mk_ui_state s c) (mk_ui_state s' c)
  | Ui_deliver_client s c c' : ui_deliver c = Some c' -> ui_step (mk_ui_state s c) (mk_ui_state s c').

Definition ui_init (count : nat) : ui_state :=
  mk_ui_state (mk_ui_thread UI_start count false false) (mk_ui_thread UI_start count false false).

(** Where the token is. *)
Definition quiet (t : ui_thread) : Prop := ui_pending t = false /\ ui_flag t = false.

(** The thread is waiting for the token, or still on its way to the wait. *)
Definition expecting (t : ui_thread) : Prop :=
  match ui_at t with
  | UI_clear | UI_notify => False
  | UI_wait => (0 < ui_left t)%nat
  | _ => True
  end.

(** The token has been posted to [t]: pending, or in its flag. *)
Definition addressed (t : ui_thread) : Prop :=
  (ui_pending t = true /\ ui_flag t = false /\ ui_at t <> UI_start /\ ui_at t <> UI_clear /\ ui_at t <> UI_notify) \/
  (ui_pending t = false /\ ui_flag t = true /\ enabled t = true /\ ui_at t <> UI_notify).

Definition ui_inv (s : ui_state) : Prop :=
  let 'mk_ui_state sv cl := s in
  match ui_at sv with
  | UI_wait =>
      (0 < ui_left sv)%nat /\
      ((quiet sv /\ addressed cl /\ ui_left cl = ui_left sv) \/
       (quiet sv /\ quiet cl /\ ui_at cl = UI_notify /\ ui_left cl = ui_left sv) \/
       (addressed sv /\ quiet cl /\ enabled cl = true /\ expecting cl /\ S (ui_left cl) = ui_left sv))
  | UI_clear =>
      (0 < ui_left sv)%nat /\ ui_pending sv = false /\ ui_flag sv = true /\ quiet cl /\
      enabled cl = true /\ expecting cl /\ S (ui_left cl) = ui_left sv
  | _ =>
      quiet sv /\ quiet cl /\ expecting cl /\ ui_left cl = ui_left sv /\
      (ui_at sv = UI_notify -> (0 < ui_left sv)%nat) /\
      (match ui_at sv with UI_start | UI_fd => True | _ => has_fd cl = true end) /\
      (enabled cl = true \/ ui_at cl = UI_stui -> has_fd sv = true)
  end.

Definition ui_finished (s : ui_state) : Prop :=
  let 'mk_ui_state sv cl := s in
  ui_at sv = UI_test /\ ui_at cl = UI_test /\ ui_left sv = 0%nat /\ ui_left cl = 0%nat.

Lemma ui_inv_server s c s' c' :
  ui_inv (mk_ui_state s c) -> ui_move true s c = Some (s', c') -> ui_inv (mk_ui_state s' c').
Proof.
  destruct s as [sp sl sd sf], c as [cp cl cd cf]. unfold ui_move, ui_inv, quiet, addressed, expecting, has_fd, enabled.
  intros Hi Hm. destruct sp; simpl in *; repeat case_match; simplify_eq; simpl in *;
    try (intuition (try discriminate; try congruence; auto; lia)).
Qed.

Lemma ui_inv_client s c s' c' :
  ui_inv (mk_ui_state s c) -> ui_move false c s = Some (c', s') -> ui_inv (mk_ui_state s' c').
Proof.
  destruct s as [sp sl sd sf], c as [cp cl cd cf]. unfold ui_move, ui_inv, quiet, addressed, expecting, has_fd, enabled.
  intros Hi Hm. destruct cp; simpl in *; repeat case_match; simplify_eq; simpl in *;
    try (intuition (try discriminate; try congruence; auto; lia)).
Qed.

Lemma ui_inv_deliver_server s c s' :
  ui_inv (mk_ui_state s c) -> ui_deliver s = Some s' -> ui_inv (mk_ui_state s' c).
Proof.
  destruct s as [sp sl sd sf], c as [cp cl cd cf]. unfold ui_deliver, ui_inv, quiet, addressed, expecting, has_fd, enabled.
  intros Hi Hm. destruct sd; simpl in *; [|done].
  destruct sp; simpl in *; simplify_eq; simpl in *;
    try (intuition (try discriminate; try congruence; auto; lia)).
Qed.

Lemma ui_inv_deliver_client s c c' :
  ui_inv (mk_ui_state s c) -> ui_deliver c = Some c' -> ui_inv (mk_ui_state s c').
Proof.
  destruct s as [sp sl sd sf], c as [cp cl cd cf]. unfold ui_deliver, ui_inv, quiet, addressed, expecting, has_fd, enabled.
  intros Hi Hm. destruct cd; simpl in *; [|done].
  destruct sp, cp; simpl in *; simplify_eq; simpl in *;
    try (intuition (try discriminate; try congruence; auto; lia)).
Qed.

Lemma ui_inv_step s s' : ui_inv s -> ui_step s s' -> ui_inv s'.
Proof.
  intros Hi Hs. destruct Hs; [by eapply ui_inv_server|by eapply ui_inv_client
    |by eapply ui_inv_deliver_server|by eapply ui_inv_deliver_client].
Qed.

Lemma ui_inv_reachable count s : rtc ui_step (ui_init count) s -> ui_inv s.
Proof.
  intros Hr. eapply inv_rtc; [intros a b; apply ui_inv_step| |exact Hr].
  simpl. unfold quiet, expecting. simpl. intuition discriminate.
Qed.

(** ** Termination *)

#[local] Arguments Nat.mul : simpl never.

Definition thread_measure (t : ui_thread) (p : ui_pc -> nat) : nat :=
  400 * ui_left t + 10 * p (ui_at t) + (if ui_pending t then 2 else 0) + (if ui_flag t then 1 else 0).

(** The order of each thread's control points within a round. *)
Definition server_order (pc : ui_pc) : nat :=
  match pc with
  | UI_start => 23 | UI_fd => 22 | UI_stui => 21 | UI_test => 20
  | UI_notify => 19 | UI_wait => 18 | UI_clear => 17
  end.
Definition client_order (pc : ui_pc) : nat :=
  match pc with
  | UI_start => 23 | UI_fd => 22 | UI_stui => 21 | UI_test => 20
  | UI_wait => 19 | UI_clear => 18 | UI_notify => 17
  end.

Definition ui_measure (s : ui_state) : nat :=
  thread_measure (ui_server s) server_order + thread_measure (ui_client s) client_order.

Lemma ui_left_pos s :
  ui_inv s ->
  (ui_at (ui_server s) = UI_clear -> (0 < ui_left (ui_server s))%nat) /\
  (ui_at (ui_client s) = UI_notify -> (0 < ui_left (ui_client s))%nat).
Proof.
  destruct s as [[sp sl sd sf] [cp cl cd cf]]. unfold ui_inv, quiet, addressed, expecting. simpl.
  intros Hi. split; intros ->; [tauto|].
  destruct sp; simpl in Hi; try tauto.
  destruct Hi as (Hl & [(_ & [?|?] & _)|[(_ & _ & _ & <-)|(_ & _ & _ & ? & _)]]); tauto || done.
Qed.

Lemma goto_measure t p pc :
  (thread_measure (goto t pc) p + 10 * p (ui_at t) = thread_measure t p + 10 * p pc)%nat.
Proof. unfold thread_measure, goto. cbn [ui_at ui_left ui_pending ui_flag]. lia. Qed.

Lemma post_measure t p : (thread_measure (post t) p <= thread_measure t p + 2)%nat.
Proof. unfold thread_measure, post. cbn [ui_at ui_left ui_pending ui_flag]. destruct (ui_pending t); lia. Qed.

Lemma next_measure t p :
  (0 < ui_left t)%nat ->
  (thread_measure (next_round t) p + 400 + 10 * p (ui_at t) = thread_measure t p + 10 * p UI_test)%nat.
Proof.
  intros Hl. unfold thread_measure, next_round. cbn [ui_at ui_left ui_pending ui_flag].
  destruct (ui_left t) as [|l]; [lia|]. replace (S l - 1)%nat with l by lia. lia.
Qed.

Definition clear (t : ui_thread) : ui_thread := mk_ui_thread (ui_at t) (ui_left t) (ui_pending t) false.

Lemma clear_measure t p : (thread_measure (clear t) p <= thread_measure t p)%nat.
Proof. unfold thread_measure, clear. cbn [ui_at ui_left ui_pending ui_flag]. destruct (ui_flag t); lia. Qed.

Lemma deliver_measure t p t' : ui_deliver t = Some t' -> (thread_measure t' p < thread_measure t p)%nat.
Proof.
  unfold ui_deliver, thread_measure. destruct t as [pc l [] f]; cbn [ui_pending andb]; [|done].
  destruct (enabled _); [|done]. intros [= <-]. cbn [ui_at ui_left ui_pending ui_flag]. destruct f; lia.
Qed.

(** A move decreases the thread's measure by more than a post adds. *)
Lemma move_measure first t o t' o' p :
  ui_move first t o = Some (t', o') ->
  (match ui_at t with UI_clear => first = true | UI_notify => first = false | _ => False end ->
     (0 < ui_left t)%nat) ->
  p = (if first then server_order else client_order) ->
  (thread_measure t' p + 10 <= thread_measure t p)%nat /\ (o' = o \/ o' = post o).
Proof.
  intros Hm Hl ->. unfold ui_move in Hm.
  set (p := if first then server_order else client_order).
  pose proof (goto_measure t p) as Hg. pose proof (next_measure t p) as Hn.
  pose proof (goto_measure (clear t) p) as Hg'. pose proof (next_measure (clear t) p) as Hn'.
  pose proof (clear_measure t p) as Hc. cbn [clear ui_at ui_left] in Hg', Hn'.
  unfold clear in Hg', Hn', Hc.
  assert (Hsplit : forall u q, (thread_measure u p + 10 <= thread_measure t p)%nat -> q = o \/ q = post o ->
    Some (u, q) = Some (t', o') ->
    (thread_measure t' p + 10 <= thread_measure t p)%nat /\ (o' = o \/ o' = post o))
    by (intros u q H1 H2 [= <- <-]; done).
  destruct (ui_at t) eqn:Ha.
  - eapply Hsplit; [|by left|exact Hm]. specialize (Hg UI_fd). destruct first; simpl in *; lia.
  - destruct (has_fd o); [|done]. eapply Hsplit; [|by left|exact Hm]. specialize (Hg UI_stui). destruct first; simpl in *; lia.
  - eapply Hsplit; [|by left|exact Hm]. specialize (Hg UI_test). destruct first; simpl in *; lia.
  - destruct (ui_left t); [done|]. eapply Hsplit; [|by left|exact Hm].
    specialize (Hg (if first then UI_notify else UI_wait)). destruct first; simpl in *; lia.
  - destruct (ui_flag t); [|done]. eapply Hsplit; [|by left|exact Hm].
    specialize (Hg UI_clear). destruct first; simpl in *; lia.
  - eapply Hsplit; [|by left|exact Hm]. destruct first.
    + specialize (Hn' (Hl eq_refl)). simpl in *; lia.
    + specialize (Hg' UI_notify). simpl in *; lia.
  - eapply Hsplit; [|by right|exact Hm]. destruct first.
    + specialize (Hg UI_wait). simpl in *; lia.
    + specialize (Hn (Hl eq_refl)). simpl in *; lia.
Qed.

Lemma ui_measure_step s s' : ui_inv s -> ui_step s s' -> (ui_measure s' < ui_measure s)%nat.
Proof.
  intros Hi Hs. destruct (ui_left_pos s Hi) as [Hsl Hcl].
  destruct Hs as [s c s' c' Hm|s c s' c' Hm|s c s' Hm|s c c' Hm]; unfold ui_measure;
    cbn [ui_server ui_client] in *.
  - destruct (move_measure true s c s' c' server_order Hm) as [H1 [->| ->]]; [|done|lia|].
    + destruct (ui_at s); auto; done.
    + pose proof (post_measure c client_order). lia.
  - destruct (move_measure false c s c' s' client_order Hm) as [H1 [->| ->]]; [|done|lia|].
    + destruct (ui_at c); auto; done.
    + pose proof (post_measure s server_order). lia.
  - pose proof (deliver_measure s server_order s' Hm). lia.
  - pose proof (deliver_measure c client_order c' Hm). lia.
Qed.

Lemma ui_enabled s : ui_inv s -> ui_finished s \/ exists s', ui_step s s'.
Proof.
  destruct s as [sv cl]. intros Hi.
  destruct (ui_move true sv cl) as [[s' c']|] eqn:Hs.
  { right. eexists. by apply Ui_server. }
  destruct (ui_move false cl sv) as [[c' s']|] eqn:Hc.
  { right. eexists. by apply Ui_client. }
  destruct (ui_deliver sv) as [s'|] eqn:Hds.
  { right. eexists. by apply Ui_deliver_server. }
  destruct (ui_deliver cl) as [c'|] eqn:Hdc.
  { right. eexists. by apply Ui_deliver_client. }
  left. destruct sv as [sp sl sd sf], cl as [cp cl cd cf].
  unfold ui_move, ui_deliver, ui_inv, ui_finished, quiet, addressed, expecting, has_fd, enabled in *.
  destruct sp; simpl in Hs; try done; destruct cp; simpl in Hc; try done; simpl in *;
    repeat case_match; try done; simpl in *; rewrite ?andb_true_r, ?andb_false_r in *;
    intuition (try discriminate; try congruence; try lia).
Qed.

(** ** The two threads of uintrfd-uni *)

Inductive uni_client_pc :=
  | UC_test                  (* the loop's test *)
  | UC_reset                 (* uintr_received = 0 *)
  | UC_now                   (* bench.single_start = now() *)
  | UC_send                  (* _senduipi *)
  | UC_spin.                 (* while (!uintr_received) *)
#[export] Instance uni_client_pc_eq_dec : EqDecision uni_client_pc.
Proof. solve_decision. Defined.

Record uni_ui_state := mk_uni_ui_state {
  uu_left : nat;             (* the sender's loop *)
  uu_client : uni_client_pc;
  uu_single_start : Z;
  uu_pending : bool;
  uu_received : bool;        (* uintr_received *)
  uu_count : Z;              (* uintr_count *)
  uu_measured : list Z;      (* single_start at each handler's benchmark *)
  uu_sent : list Z;          (* timestamps taken *)
  uu_server_done : bool;     (* the receiver has left its loop *)
}.

Inductive uni_ui_step (args_count : Z) : uni_ui_state -> uni_ui_state -> Prop :=
  | Uu_test l ss p r n m t d :
      uni_ui_step args_count (mk_uni_ui_state (S l) UC_test ss p r n m t d)
                             (mk_uni_ui_state (S l) UC_reset ss p r n m t d)
  | Uu_reset l ss p r n m t d :
      uni_ui_step args_count (mk_uni_ui_state l UC_reset ss p r n m t d)
                             (mk_uni_ui_state l UC_now ss p false n m t d)
  | Uu_now l ss p r n m t d now :
      uni_ui_step args_count (mk_uni_ui_state l UC_now ss p r n m t d)
                             (mk_uni_ui_state l UC_send now p r n m (t ++ [now]) d)
  | Uu_send l ss p r n m t d :
      uni_ui_step args_count (mk_uni_ui_state l UC_send ss p r n m t d)
                             (mk_uni_ui_state l UC_spin ss true r n m t d)
  | Uu_spin l ss p n m t d :
      uni_ui_step args_count (mk_uni_ui_state l UC_spin ss p true n m t d)
                             (mk_uni_ui_state (l - 1) UC_test ss p true n m t d)
  | Uu_handler l c ss r n m t d :
      uni_ui_step args_count (mk_uni_ui_state l c ss true r n m t d)
                             (mk_uni_ui_state l c ss false true (u32 (n + 1)) (m ++ [ss]) t d)
  | Uu_leave l c ss p r n m t :
      u32 args_count <= n ->
      uni_ui_step args_count (mk_uni_ui_state l c ss p r n m t false)
                             (mk_uni_ui_state l c ss p r n m t true).

(** The loop runs [args->count] times when that is positive. *)
Definition uni_ui_init (args_count : Z) : uni_ui_state :=
  mk_uni_ui_state (Z.to_nat args_count) UC_test 0 false false 0 [] [] false.

Definition uni_ui_inv (args_count : Z) (s : uni_ui_state) : Prop :=
  let 'mk_uni_ui_state l c ss p r n m t d := s in
  n = Z.of_nat (length m) /\ (l <= Z.to_nat args_count)%nat /\
  (d = true -> u32 args_count <= n) /\
  match c with
  | UC_test => t = m /\ p = false /\ Z.of_nat (length m + l) = Z.max 0 args_count
  | UC_reset => t = m /\ p = false /\ Z.of_nat (length m + l) = Z.max 0 args_count /\ (0 < l)%nat
  | UC_now => t = m /\ p = false /\ r = false /\ Z.of_nat (length m + l) = Z.max 0 args_count /\ (0 < l)%nat
  | UC_send => t = m ++ [ss] /\ p = false /\ r = false /\ Z.of_nat (length m + l) = Z.max 0 args_count /\ (0 < l)%nat
  | UC_spin =>
      (p = true /\ r = false /\ t = m ++ [ss] /\ Z.of_nat (length m + l) = Z.max 0 args_count /\ (0 < l)%nat) \/
      (p = false /\ r = true /\ t = m /\ Z.of_nat (length m + l) = Z.max 0 args_count + 1 /\ (0 < l)%nat)
  end.

Lemma uni_ui_inv_step n s s' :
  n <= INT32_MAX -> uni_ui_inv n s -> uni_ui_step n s s' -> uni_ui_inv n s'.
Proof.
  intros Hn Hi Hs. unfold INT32_MAX in Hn. destruct Hs; simpl in *.
  - intuition lia.
  - intuition.
  - intuition congruence.
  - intuition.
  - destruct Hi as (-> & Hl & Hd & [(_ & ? & _)|(-> & _ & -> & Hc & Hp)]); [done|].
    split_and!; try done; lia.
  - destruct Hi as (-> & Hl & Hd & Hc). destruct c; try (exfalso; intuition discriminate).
    destruct Hc as [(_ & -> & -> & Hc & Hp)|(? & _)]; [|done]. rewrite length_app. cbn [length].
    rewrite u32_small by lia. split_and!; [lia|lia|intros H; specialize (Hd H); lia|].
    right. split_and!; done || lia.
  - intuition.
Qed.

Lemma uni_ui_inv_reachable n s :
  n <= INT32_MAX -> rtc (uni_ui_step n) (uni_ui_init n) s -> uni_ui_inv n s.
Proof.
  intros Hn Hr. eapply inv_rtc; [intros a b; by apply uni_ui_inv_step| |exact Hr].
  simpl. split_and!; done || lia.
Qed.

Definition uni_ui_measure (s : uni_ui_state) : nat :=
  10 * uu_left s +
  match uu_client s with UC_test => 5 | UC_reset => 4 | UC_now => 3 | UC_send => 2 | UC_spin => 0 end +
  (if uu_pending s then 1 else 0) + (if uu_server_done s then 0 else 1).

Lemma uni_ui_measure_step n s s' :
  uni_ui_inv n s -> uni_ui_step n s s' -> (uni_ui_measure s' < uni_ui_measure s)%nat.
Proof.
  intros Hi Hs. unfold uni_ui_measure. destruct Hs; cbn [uu_left uu_client uu_pending uu_server_done];
    try lia; try (destruct p, d; lia).
  assert (0 < l)%nat by (simpl in Hi; intuition lia). destruct l as [|l]; [lia|].
  replace (S l - 1)%nat with l by lia. destruct p, d; lia.
Qed.

Lemma uni_ui_stuck n s :
  0 <= n <= INT32_MAX -> uni_ui_inv n s -> (forall s', ~ uni_ui_step n s s') ->
  uu_server_done s = true /\ uu_left s = 0%nat /\ uu_client s = UC_test /\
  uu_measured s = uu_sent s /\ Z.of_nat (length (uu_sent s)) = n.
Proof.
  intros Hn Hi Hst. unfold INT32_MAX in Hn. destruct s as [l c ss p r k m t d].
  destruct c; simpl in Hi.
  - destruct Hi as (-> & Hl & Hd & -> & -> & Hc). destruct l as [|l].
    + destruct d; [simpl; split_and!; done || lia|]. exfalso.
      eapply Hst, Uu_leave. rewrite u32_small; lia.
    + exfalso. eapply Hst, Uu_test.
  - exfalso. eapply Hst, Uu_reset.
  - exfalso. eapply Hst, (Uu_now n l ss p r k m t d 0).
  - exfalso. eapply Hst, Uu_send.
  - exfalso. destruct Hi as (_ & _ & _ & [(-> & _)|(_ & -> & _)]).
    + eapply Hst, Uu_handler.
    + eapply Hst, Uu_spin.
Qed.

(** ** Properties *)

(** C29: uintrfd-bi always ends, and not before all rounds are done.  From the
    start of both threads, set-ups that succeed and unordered [_stui] included, every step
    other than a spin decreases a measure, so that no run is longer than
    [800 * count + 460] steps; and a state without a step has both loops
    finished with no round left, on both sides: no interleaving loses an
    interrupt. *)
Theorem uintrfd_bi_terminates count s :
  rtc ui_step (ui_init count) s ->
  (forall n s', nsteps ui_step n s s' -> (n + ui_measure s' <= 800 * count + 460)%nat) /\ ((forall s', ~ ui_step s s') -> ui_finished s).
Proof.
  intros Hr. split.
  - assert (Hb : forall n a b, ui_inv a -> nsteps ui_step n a b -> (n + ui_measure b <= ui_measure a)%nat).
    { intros n a b Ha Hn. induction Hn as [|n a b c Hab Hbc IH]; [lia|].
      specialize (IH (ui_inv_step a b Ha Hab)). pose proof (ui_measure_step a b Ha Hab). lia. }
    assert (H0 : ui_inv (ui_init count)) by (apply (ui_inv_reachable count); apply rtc_refl).
    apply rtc_nsteps in Hr as [k Hk]. intros n s' Hn.
    pose proof (Hb (k + n)%nat _ _ H0 (nsteps_trans _ _ _ _ _ Hk Hn)) as Hle.
    assert (E : ui_measure (ui_init count) = (800 * count + 460)%nat)
      by (unfold ui_measure, thread_measure; cbn [ui_init ui_server ui_client ui_at ui_left ui_pending ui_flag server_order client_order]; lia).
    lia.
  - intros Hst. destruct (ui_enabled s (ui_inv_reachable count s Hr)) as [Hf|[s' Hs]]; [done|].
    by destruct (Hst s').
Qed.

(** Uintrfd-bi never has two interrupts on their way.  In every reachable
    state at most one interrupt is pending or flagged, and the rounds left on
    the two sides differ by at most one. *)
Theorem uintrfd_bi_single_interrupt count s :
  rtc ui_step (ui_init count) s ->
  let on_way (t : ui_thread) := (Nat.b2n (ui_pending t) + Nat.b2n (ui_flag t))%nat in
  (on_way (ui_server s) + on_way (ui_client s) <= 1)%nat /\ (ui_left (ui_client s) <= ui_left (ui_server s) <= S (ui_left (ui_client s)))%nat.
Proof.
  intros Hr on_way. pose proof (ui_inv_reachable count s Hr) as Hi.
  destruct s as [[sp sl sd sf] [cp cl cd cf]]. unfold on_way, ui_inv, quiet, addressed in *. simpl in *.
  destruct sp; simpl in Hi; intuition (subst; simpl; lia).
Qed.

(** Uintrfd-uni measures every message once.  With a count of at least 0,
    every run ends, and in the final state the receiver has left its loop and
    the handler has measured exactly the [count] timestamps of the sender, in
    order. *)
Theorem uintrfd_uni_complete n s :
  0 <= n <= INT32_MAX -> rtc (uni_ui_step n) (uni_ui_init n) s ->
  (forall s', uni_ui_step n s s' -> (uni_ui_measure s' < uni_ui_measure s)%nat) /\ ((forall s', ~ uni_ui_step n s s') ->
     uu_server_done s = true /\ uu_measured s = uu_sent s /\ Z.of_nat (length (uu_measured s)) = n).
Proof.
  intros Hn Hr. assert (Hi : uni_ui_inv n s) by (apply uni_ui_inv_reachable; [lia|done]). split.
  - intros s' Hs. by eapply uni_ui_measure_step.
  - intros Hst. destruct (uni_ui_stuck n s Hn Hi Hst) as (H1 & _ & _ & H2 & H3). by rewrite H2.
Qed.

(** [uintrfd-uni] with a negative count.  The receiver compares its unsigned
    counter with the count converted to unsigned, while the sender sends
    nothing: the receiver never leaves its loop. *)
Theorem uintrfd_uni_negative n s :
  INT32_MIN <= n < 0 -> rtc (uni_ui_step n) (uni_ui_init n) s ->
  uu_server_done s = false /\ uu_sent s = [].
Proof.
  intros Hn Hr. unfold INT32_MIN in Hn.
  assert (Hi : uni_ui_inv n s) by (apply uni_ui_inv_reachable; [unfold INT32_MAX; lia|done]).
  destruct s as [l c ss p r k m t d]. destruct Hi as (-> & Hl & Hd & Hc).
  assert (Hu : u32 n = n + 2 ^ 32) by (unfold u32; rewrite <- (Z.mod_unique n (2 ^ 32) (-1) (n + 2 ^ 32)); lia).
  assert (l = 0)%nat as -> by lia.
  destruct c; simpl in *; try (exfalso; intuition lia).
  destruct Hc as (-> & _ & Hc). destruct m; [|simpl in *; lia].
  split; [|done]. destruct d; [|done]. specialize (Hd eq_refl). simpl in Hd. lia.
Qed.

(** ** Witnesses *)

Definition ui_w : ui_state :=
  mk_ui_state (mk_ui_thread UI_wait 2 false false) (mk_ui_thread UI_stui 2 true false).

(** The server has notified before the client has enabled interrupts. *)
Lemma ui_reachable_w : rtc ui_step (ui_init 2) ui_w.
Proof.
  eapply rtc_l; [apply Ui_client; reflexivity|]. eapply rtc_l; [apply Ui_server; reflexivity|].
  eapply rtc_l; [apply Ui_client; reflexivity|]. do 4 (eapply rtc_l; [apply Ui_server; reflexivity|]).
  apply rtc_refl.
Qed.

Lemma uintrfd_bi_terminates_witness :
  ~ ui_finished ui_w /\
  (forall n s', nsteps ui_step n ui_w s' -> (n + ui_measure s' <= 800 * 2 + 460)%nat).
Proof.
  split; [unfold ui_finished; simpl; intuition discriminate|].
  apply (uintrfd_bi_terminates 2 ui_w). exact ui_reachable_w.
Defined.

Lemma uintrfd_bi_single_interrupt_witness :
  ui_pending (ui_client ui_w) = true /\ (ui_left (ui_client ui_w) <= ui_left (ui_server ui_w) <= S (ui_left (ui_client ui_w)))%nat.
Proof.
  split; [done|]. apply (uintrfd_bi_single_interrupt 2 ui_w). exact ui_reachable_w.
Defined.

Lemma uintrfd_uni_complete_witness :
  uu_sent (uni_ui_init 1) = [] /\
  (forall s', uni_ui_step 1 (uni_ui_init 1) s' -> (uni_ui_measure s' < uni_ui_measure (uni_ui_init 1))%nat).
Proof.
  split; [done|]. apply (uintrfd_uni_complete 1 (uni_ui_init 1)); [unfold INT32_MAX; lia|apply rtc_refl].
Defined.

Lemma uintrfd_uni_negative_witness : uu_server_done (uni_ui_init (-1)) = false /\ uu_sent (uni_ui_init (-1)) = [].
Proof. apply (uintrfd_uni_negative (-1) (uni_ui_init (-1))); [unfold INT32_MIN; lia|apply rtc_refl]. Defined.
