(* ===== verification/UintrFdLink.v ===== *)
(** * uintrfd-bi: the programs make the protocol's moves

    The two threads of [uintrfd/uintrfd-bi.c], from their set-ups to the end of
    their loops, run in the place of their processes in the protocol of
    [UintrFd].  Interrupts are delivered between any two calls. *)
From S2P Require Import Prelude Kernel Benchmarks Linking UintrFd.

(** ** One thread and the other

    [first] is the server, which notifies first; else the client. *)
Definition ui_mine (first : bool) (s : ui_state) : ui_thread := if first then ui_server s else ui_client s.

Definition ui_goes (first : bool) (s : ui_state) : option ui_state :=
  let 'mk_ui_state sv cl := s in
  if first then '(sv, cl) ← ui_move true sv cl; Some (mk_ui_state sv cl)
  else '(cl, sv) ← ui_move false cl sv; Some (mk_ui_state sv cl).

Definition ui_delivers (first : bool) (s : ui_state) : option ui_state :=
  let 'mk_ui_state sv cl := s in
  if first then sv ← ui_deliver sv; Some (mk_ui_state sv cl) else cl ← ui_deliver cl; Some (mk_ui_state sv cl).

Lemma ui_goes_step first s s' : ui_goes first s = Some s' -> ui_step s s'.
Proof.
  destruct s as [sv cl], first; cbn; destruct (ui_move _ _ _) as [[t o]|] eqn:E; try done; cbn; intros [= <-];
    by constructor.
Qed.

Lemma ui_delivers_step first s s' : ui_delivers first s = Some s' -> ui_step s s'.
Proof.
  destruct s as [sv cl], first; cbn; destruct (ui_deliver _) as [t|] eqn:E; try done; cbn; intros [= <-]; by constructor.
Qed.

(** What happens beside a thread: a move of the other one, a delivery to it, and
    a delivery to the thread itself. *)
Variant ui_event := Other_goes | Other_delivered | Delivered.

Definition ui_happens (first : bool) (c : ui_event) (s : ui_state) : option ui_state :=
  match c with
  | Other_goes => ui_goes (negb first) s
  | Other_delivered => ui_delivers (negb first) s
  | Delivered => ui_delivers first s
  end.

Lemma ui_happens_step first c s s' : ui_happens first c s = Some s' -> ui_step s s'.
Proof. destruct c; [apply ui_goes_step|apply ui_delivers_step..]. Qed.

(** None of it moves the thread. *)
Lemma ui_happens_keeps first c s s' :
  ui_happens first c s = Some s' ->
  ui_at (ui_mine first s') = ui_at (ui_mine first s) /\ ui_left (ui_mine first s') = ui_left (ui_mine first s).
Proof.
  destruct s as [[sp sl sd sf] [cp cl cd cf]]. unfold ui_happens, ui_delivers, ui_deliver, ui_goes, ui_move, ui_mine.
  destruct c, first; cbn; intros H; repeat (case_match; cbn in *); by simplify_eq/=.
Qed.

(** The variables of a thread. *)
Definition own_received (first : bool) : string := uintr_received (if first then 0 else 1).
Definition own_fd (first : bool) : string := if first then "uintrfd_server" else "uintrfd_client".

(** The choices for a call: what happens before it, and whether an interrupt is
    delivered to the thread right before it. *)
Definition ui_turn (first : bool) : Type := turn ui_event * bool.

(** The load of the thread's [uintr_received], at the wait. *)
Definition by_flag (first : bool) (s : ui_state) : reply ui_state :=
  if ui_flag (ui_mine first s) then by_move (ui_goes first s) (val 1) else Answer (val 0) s.

(** The other thread's descriptor: 0 until it is stored; its value is not part
    of the protocol's state, but is not 0. *)
Definition by_descriptor (first : bool) (t : ui_turn first) (s : ui_state) : reply ui_state :=
  if has_fd (ui_mine (negb first) s) then
    if rv (tn_result t.1) =? 0 then Waits else by_move (ui_goes first s) (val (rv (tn_result t.1)))
  else Answer (val 0) s.

(** The test of a loop is not a call: it comes before the call that follows it.
    A notification with a negative index faults and is no move. *)
Definition ui_answer (first : bool) (t : ui_turn first) (c : syscall) (s : ui_state) : reply ui_state :=
  let s := if t.2 then default s (ui_delivers first s) else s in
  match ui_at (ui_mine first s), c with
  | UI_start, (Uintr_register_handler | Uintr_create_fd _ _) => by_system t.1 s
  | UI_start, Store x _ => if bool_decide (x = own_fd first) then by_move (ui_goes first s) (val 0) else Strange
  | UI_fd, Load x => if bool_decide (x = own_fd (negb first)) then by_descriptor first t s else Strange
  | UI_fd, Usleep _ => by_system t.1 s
  | UI_stui, Uintr_register_sender _ _ => by_system t.1 s
  | UI_stui, Stui => by_move (ui_goes first s) (val 0)
  | UI_test, Timespec_get => if first then by_clock t.1 (fun _ => Some s) else Strange
  | UI_test, Senduipi index =>
      if first then match ui_goes first s with Some s1 => by_senduipi index (ui_goes first s1) s1 | None => Strange end
      else Strange
  | UI_test, Load x =>
      if negb first && bool_decide (x = own_received first)
      then match ui_goes first s with Some s1 => by_flag first s1 | None => Strange end else Strange
  | UI_wait, Load x => if bool_decide (x = own_received first) then by_flag first s else Strange
  | UI_clear, Store x v =>
      if bool_decide (x = own_received first) && (v =? 0) then by_move (ui_goes first s) (val 0) else Strange
  | UI_notify, Senduipi index => by_senduipi index (ui_goes first s) s
  | _, _ => Strange
  end.

(** An answered call is a delivery or none, and then at most two moves. *)
Lemma ui_answer_moves first t c s r s' :
  ui_answer first t c s = Answer r s' ->
  exists n, moves_along (fun _ => ui_goes first) (replicate n ())
    (if t.2 then default s (ui_delivers first s) else s) = s'.
Proof.
  unfold ui_answer. set (s0 := if t.2 then _ else s). clearbody s0. intros H.
  assert (H0 : forall s1, s0 = s1 -> exists n, moves_along (fun _ => ui_goes first) (replicate n ()) s0 = s1)
    by (intros s1 <-; by exists 0%nat).
  assert (H1 : forall s1, ui_goes first s0 = Some s1 -> exists n, moves_along (fun _ => ui_goes first) (replicate n ()) s0 = s1)
    by (intros s1 E; exists 1%nat; unfold moves_along; cbn; by rewrite E).
  assert (H2 : forall s1 s2, ui_goes first s0 = Some s1 -> ui_goes first s1 = Some s2 ->
    exists n, moves_along (fun _ => ui_goes first) (replicate n ()) s0 = s2)
    by (intros s1 s2 E1 E2; exists 2%nat; unfold moves_along; cbn; rewrite E1; cbn; by rewrite E2).
  unfold by_flag, by_descriptor, by_system in H.
  destruct (ui_at _), c; try done; repeat case_match; simplify_eq;
    try (apply by_clock_inv in H as [? H]; injection H as ->); try apply by_move_inv in H;
    try (apply by_senduipi_inv in H as [->|H]); eauto.
Qed.

Lemma ui_answer_steps first t c s r s' : ui_answer first t c s = Answer r s' -> rtc ui_step s s'.
Proof.
  intros [n <-]%ui_answer_moves.
  etrans; [|apply moves_along_rtc; intros _ s1 s2; apply ui_goes_step].
  destruct t.2; [|apply rtc_refl]. destruct (ui_delivers first s) eqn:E; [|apply rtc_refl].
  by eapply rtc_once, ui_delivers_step.
Qed.

#[export] Instance ui_link first : Link ui_state (ui_turn first) := {
  link_step := ui_step;
  link_others t s := moves_along (ui_happens first) (tn_others t.1) s;
  link_answer := ui_answer first;
  link_others_steps t s := moves_along_rtc _ ui_step _ s (ui_happens_step first);
  link_answer_steps := ui_answer_steps first;
  link_errno _ _ := True;
  link_others_errno _ _ _ H := H;
  link_answer_errno _ _ _ _ _ _ H _ := H;
}.

(** ** A thread at a place *)

(** What is said of a thread: its control point and the rounds left. *)
Definition ui_side (first : bool) (P : ui_pc -> nat -> Prop) (s : ui_state) : Prop :=
  ui_inv s /\ P (ui_at (ui_mine first s)) (ui_left (ui_mine first s)).

Definition ui_thread_at (first : bool) (pc : ui_pc) (left : nat) : ui_state -> Prop :=
  ui_side first (fun pc' left' => pc' = pc /\ left' = left).

Lemma ui_side_happens first P c s s' : ui_side first P s -> ui_happens first c s = Some s' -> ui_side first P s'.
Proof.
  intros [Hi HP] H. destruct (ui_happens_keeps _ _ _ _ H) as [E1 E2].
  split; [by eapply ui_inv_step, ui_happens_step|by rewrite E1, E2].
Qed.

Lemma ui_side_stable first P : stable (T:=ui_turn first) (ui_side first P).
Proof. intros t s H. cbn. apply moves_along_inv; [intros c s1 s2; apply ui_side_happens|done]. Qed.

(** A call of a thread, after what happens before it. *)
Lemma ui_sys first P c Q D R :
  (forall t s, ui_side first P s ->
     match ui_answer first (t, false) c s with Answer r s' => Q r s' | Waits => True | Strange => False end) ->
  triple (T:=ui_turn first) (ui_side first P) (sys c) Q D R.
Proof.
  intros H. apply triple_sys; [apply ui_side_stable|]. intros [t d] s Hs.
  refine (H t (if d then default s (ui_delivers first s) else s) _).
  destruct d; [|done]. destruct (ui_delivers first s) eqn:E; [|done]. by apply (ui_side_happens first P Delivered s).
Qed.

Lemma ui_senduipi first P index Q D R :
  (forall t s, ui_side first P s ->
     match ui_answer first (t, false) (Senduipi index) s with
     | Answer r s' => if rv r <? 0 then D s' else Q s' | Waits => True | Strange => False end) ->
  triple (T:=ui_turn first) (ui_side first P) (senduipi index) (fun _ => Q) D R.
Proof.
  intros H. apply triple_senduipi; [apply ui_side_stable|]. intros [t d] s Hs.
  refine (H t (if d then default s (ui_delivers first s) else s) _).
  destruct d; [|done]. destruct (ui_delivers first s) eqn:E; [|done]. by apply (ui_side_happens first P Delivered s).
Qed.

(** The thread's move. *)
Lemma ui_goes_mine first s s' :
  ui_goes first s = Some s' ->
  ui_move first (ui_mine first s) (ui_mine (negb first) s) = Some (ui_mine first s', ui_mine (negb first) s').
Proof.
  destruct s as [sv cl], first; cbn; destruct (ui_move _ _ _) as [[t o]|]; try done; cbn; by intros [= <-].
Qed.

(** A call that is the thread's next move, from one place to another. *)
Lemma ui_calls first pc left c v pc' left' D R :
  (forall t s, ui_at (ui_mine first s) = pc -> ui_answer first (t, false) c s = by_move (ui_goes first s) (val v)) ->
  (forall t o t' o', ui_at t = pc -> ui_left t = left -> ui_move first t o = Some (t', o') ->
     ui_at t' = pc' /\ ui_left t' = left') ->
  triple (T:=ui_turn first) (ui_thread_at first pc left) (sys_ c) (fun _ => ui_thread_at first pc' left') D R.
Proof.
  intros Ha Hm. apply triple_ignoring, ui_sys. intros t s (Hi & Hpc & Hl). rewrite Ha by done.
  destruct (ui_goes first s) as [s'|] eqn:E; [|done]. cbn. split; [by eapply ui_inv_step, ui_goes_step|].
  by eapply Hm; [exact Hpc|exact Hl|apply ui_goes_mine].
Qed.

(** ** The set-ups *)
Section setup.
Context (first : bool).
Abbreviation W := (world ui_state (ui_turn first)).

(** A call that is no move of the protocol. *)
Lemma ui_steady pc left c :
  match pc, c with
  | UI_start, (Uintr_register_handler | Uintr_create_fd _ _) => True
  | UI_fd, Usleep _ => True
  | UI_stui, Uintr_register_sender _ _ => True
  | _, _ => False
  end -> steady (ui_thread_at first pc left) (sys (W:=W) c).
Proof.
  intros Hc. split; [apply halts_sys|]. apply ui_sys. intros t s (Hi & Hpc & Hl).
  unfold ui_answer, by_system. cbn [fst snd]. rewrite Hpc. by destruct pc, c.
Qed.

(** The threads die while they set up. *)
Definition ui_setting_up : ui_state -> Prop := ui_side first (fun pc _ => pc = UI_start \/ pc = UI_stui).

(** Where a thread that has used up its fuel is. *)
Definition ui_spinning : ui_state -> Prop :=
  ui_side first (fun pc _ => pc = UI_fd \/ pc = UI_wait \/ (first = false /\ pc = UI_test)).

Lemma ui_registers left vector R :
  triple (ui_thread_at first UI_start left) (setup_handler_with_vector (W:=W) vector)
    (fun _ => ui_thread_at first UI_start left) ui_setting_up R.
Proof.
  apply steady_triple_in; [intros s (Hi & E & _); split; [done|rewrite E; by left]|].
  unfold setup_handler_with_vector. steadying; by apply ui_steady.
Qed.

Lemma ui_stores left fd D R :
  triple (ui_thread_at first UI_start left) (sys_ (W:=W) (Store (own_fd first) fd))
    (fun _ => ui_thread_at first UI_fd left) D R.
Proof.
  eapply (ui_calls _ _ _ _ 0).
  - intros t s Hpc. unfold ui_answer. cbn [fst snd]. by rewrite Hpc, bool_decide_eq_true_2.
  - intros t o t' o' Hpc Hl Hm. unfold ui_move in Hm. rewrite Hpc in Hm. by injection Hm as <- <-.
Qed.

Lemma halts_wait_for_fd fuel x : halts (wait_for_fd (W:=W) fuel x).
Proof. induction fuel; cbn [wait_for_fd]; halting. Qed.

Lemma ui_finds_fd fuel left D :
  triple (ui_thread_at first UI_fd left) (wait_for_fd (W:=W) fuel (own_fd (negb first)))
    (fun _ => ui_thread_at first UI_stui left) D ui_spinning.
Proof.
  induction fuel as [|fuel IH]; cbn [wait_for_fd].
  { apply triple_running. intros s (Hi & E & _). split; [done|]. rewrite E. by left. }
  eapply (triple_bind _ _ _ (fun v s => v = 0 /\ ui_thread_at first UI_fd left s \/ v <> 0 /\ ui_thread_at first UI_stui left s)).
  - intros v. case_match; [|apply halts_ret]. apply halts_bind; [apply halts_sys_|]. intros. apply halts_wait_for_fd.
  - apply triple_returning, ui_sys. intros t s (Hi & Hpc & Hl). unfold ui_answer. cbn [fst snd].
    rewrite Hpc, bool_decide_eq_true_2 by done. unfold by_descriptor. cbn [fst snd].
    destruct (has_fd _) eqn:Hf; [|left; by split_and!].
    destruct (Z.eqb_spec (rv (tn_result t)) 0) as [E|E]; [done|].
    destruct (ui_goes first s) as [s'|] eqn:Hm; [|done]. cbn. right. split; [done|].
    split; [by eapply ui_inv_step, ui_goes_step|]. apply ui_goes_mine in Hm. unfold ui_move in Hm.
    rewrite Hpc, Hf in Hm. injection Hm as <- _. by split.
  - intros v. destruct (Z.eqb_spec v 0) as [->|Hv].
    + eapply (triple_bind _ _ _ (fun _ => ui_thread_at first UI_fd left)); [intros; apply halts_wait_for_fd| |intros u; exact IH].
      eapply (triple_conseq _ (ui_thread_at first UI_fd left));
        [|by intros s [[_ H]|[H _]]|exact (fun _ _ H => H)|exact (fun _ H => H)|exact (fun _ H => H)].
      apply triple_ignoring, ui_sys. intros t s (Hi & Hpc & Hl). unfold ui_answer, by_system. cbn [fst snd].
      rewrite Hpc. by split_and!.
    + apply triple_ret. by intros s [[H _]|[_ H]].
Qed.

Lemma ui_registers_sender left fd R :
  triple (ui_thread_at first UI_stui left) (sys_rv (W:=W) (Uintr_register_sender fd 0))
    (fun _ => ui_thread_at first UI_stui left) ui_setting_up R.
Proof.
  apply steady_triple_in; [intros s (Hi & E & _); split; [done|rewrite E; by right]|].
  apply steady_sys_rv. by apply ui_steady.
Qed.

Lemma ui_enables left D R :
  triple (ui_thread_at first UI_stui left) (sys_ (W:=W) Stui) (fun _ => ui_thread_at first UI_test left) D R.
Proof.
  eapply (ui_calls _ _ _ _ 0).
  - intros t s Hpc. unfold ui_answer. cbn [fst snd]. by rewrite Hpc.
  - intros t o t' o' Hpc Hl Hm. unfold ui_move in Hm. rewrite Hpc in Hm. by injection Hm as <- <-.
Qed.

(** ** The wait *)

(** Before the load of the flag; for the client also before the test of its loop. *)
Definition ui_waits (left : nat) : ui_state -> Prop :=
  ui_side first (fun pc left' => (pc = UI_wait \/ (first = false /\ pc = UI_test)) /\ left' = S left).

Lemma ui_flag_answer left s :
  ui_thread_at first UI_wait (S left) s ->
  match by_flag first s with
  | Answer r s' => rv r = 1 /\ ui_thread_at first UI_clear (S left) s' \/ rv r = 0 /\ ui_waits left s'
  | Waits => True
  | Strange => False
  end.
Proof.
  intros (Hi & Hpc & Hl). unfold by_flag. destruct (ui_flag _) eqn:Hf.
  - destruct (ui_goes first s) as [s'|] eqn:Hm; [|done]. cbn. left. split; [done|].
    split; [by eapply ui_inv_step, ui_goes_step|]. apply ui_goes_mine in Hm. unfold ui_move in Hm.
    rewrite Hpc, Hf in Hm. injection Hm as <- _. by split.
  - right. split; [done|]. split; [done|]. by split; [left|].
Qed.

Lemma ui_loads left D R :
  triple (ui_waits left) (sys_rv (W:=W) (Load (own_received first)))
    (fun v s => v = 1 /\ ui_thread_at first UI_clear (S left) s \/ v = 0 /\ ui_waits left s) D R.
Proof.
  apply triple_returning, ui_sys. intros t s (Hi & Hpc & Hl). unfold ui_answer. cbn [fst snd].
  destruct Hpc as [Hpc|[Hfirst Hpc]]; rewrite Hpc, bool_decide_eq_true_2 by done.
  - apply (ui_flag_answer left s). by split_and!.
  - assert (Hn : negb first = true) by by rewrite Hfirst. rewrite Hn. cbn [andb]. destruct (ui_goes first s) as [s1|] eqn:Hm.
    + apply (ui_flag_answer left s1). split; [by eapply ui_inv_step, ui_goes_step|]. apply ui_goes_mine in Hm.
      unfold ui_move in Hm. rewrite Hpc, Hl in Hm. injection Hm as E _. rewrite <- E.
      split; [by rewrite Hfirst|exact Hl].
    + revert Hpc Hl Hm. destruct s as [sv cl]. rewrite Hfirst. cbn. unfold ui_move. by intros -> ->.
Qed.

(** Where [uintrfd_wait] leaves a thread. *)
Definition ui_notified (left : nat) : ui_state -> Prop :=
  if first then ui_thread_at first UI_test left else ui_thread_at first UI_notify (S left).

Lemma halts_uintrfd_wait fuel token : halts (uintrfd_wait (W:=W) fuel token).
Proof. induction fuel; cbn [uintrfd_wait]; halting. Qed.

Lemma ui_waits_for fuel left D :
  triple (ui_waits left) (uintrfd_wait (W:=W) fuel (if first then 0 else 1)) (fun _ => ui_notified left) D ui_spinning.
Proof.
  induction fuel as [|fuel IH]; cbn [uintrfd_wait].
  { apply triple_running. intros s (Hi & E & _). split; [done|by right]. }
  eapply triple_bind; [|apply ui_loads|].
  { intros v. destruct (negb (v =? 0)); [apply halts_sys_|apply halts_uintrfd_wait]. }
  intros v. destruct (Z.eqb_spec v 0) as [->|Hv]; cbn [negb].
  - eapply triple_conseq; [exact IH|by intros s [[H _]|[_ H]]|done|done|done].
  - eapply (triple_conseq _ (ui_thread_at first UI_clear (S left)));
      [|by intros s [[_ H]|[H _]]|exact (fun _ _ H => H)|exact (fun _ H => H)|exact (fun _ H => H)].
    unfold ui_notified. destruct first eqn:E; eapply (ui_calls _ _ _ _ 0);
      try (intros t s Hpc; unfold ui_answer; cbn [fst snd]; by rewrite Hpc, Z.eqb_refl, bool_decide_eq_true_2);
      intros t o t' o' Hpc Hl Hm; unfold ui_move in Hm; rewrite Hpc in Hm; injection Hm as <- <-; cbn; split; lia || done.
Qed.

End setup.

(** ** The client's thread *)
Section client.
Abbreviation W := (world ui_state (ui_turn false)).

Lemma halts_uipi_client_loop fuel rounds index : halts (uipi_bi_client_loop (W:=W) fuel rounds index).
Proof.
  induction rounds as [|n IH]; cbn [uipi_bi_client_loop]; [apply halts_ret|].
  apply halts_bind; [apply halts_uintrfd_wait|]. intros u. apply halts_bind; [apply halts_senduipi|done].
Qed.

(** The client has checked its registration. *)
Lemma ui_client_notifies left index D R :
  0 <= index ->
  triple (ui_thread_at false UI_notify (S left)) (uintrfd_notify (W:=W) index) (fun _ => ui_thread_at false UI_test left) D R.
Proof.
  intros Hx. apply ui_senduipi. intros t s (Hi & Hpc & Hl). unfold ui_answer, by_senduipi. cbn [fst snd]. rewrite Hpc.
  destruct (Z.ltb_spec index 0); [lia|]. destruct (ui_goes false s) as [s'|] eqn:E; [|done]. cbn.
  split; [by eapply ui_inv_step, ui_goes_step|]. apply ui_goes_mine in E. unfold ui_move in E. rewrite Hpc in E.
  injection E as E _. unfold ui_mine in *. rewrite <- E. cbn [ui_at ui_left next_round]. split; [done|]. rewrite Hl. lia.
Qed.

Lemma ui_client_loops fuel rounds index D :
  0 <= index ->
  triple (ui_thread_at false UI_test rounds) (uipi_bi_client_loop (W:=W) fuel rounds index)
    (fun _ => ui_thread_at false UI_test 0) D (ui_spinning false).
Proof.
  intros Hx. induction rounds as [|n IH]; cbn [uipi_bi_client_loop]; [by apply triple_ret|].
  eapply triple_bind; [|eapply triple_conseq; [apply (ui_waits_for false fuel n)| |exact (fun _ _ H => H)|exact (fun _ H => H)|exact (fun _ H => H)]|].
  - intros u. apply halts_bind; [apply halts_senduipi|]. intros. apply halts_uipi_client_loop.
  - intros s (Hi & Hpc & Hl). split; [done|]. split; [by right|done].
  - intros u. eapply triple_bind; [intros; apply halts_uipi_client_loop|by apply ui_client_notifies|intros u'; exact IH].
Qed.

Lemma halts_client_thread fuel args : halts (uipi_bi_client_communicate (W:=W) fuel args).
Proof.
  unfold uipi_bi_client_communicate, uipi_bi_setup_client, setup_handler_with_vector.
  halting; apply halts_wait_for_fd || apply halts_uipi_client_loop.
Qed.

(** From the start of the thread to its end. *)
Lemma ui_client_thread fuel args :
  triple (ui_thread_at false UI_start (Z.to_nat (arg_count args))) (uipi_bi_client_communicate (W:=W) fuel args)
    (fun _ => ui_thread_at false UI_test 0) (ui_setting_up false) (ui_spinning false).
Proof.
  unfold uipi_bi_client_communicate, uipi_bi_setup_client. set (n := Z.to_nat _).
  eapply (triple_bind _ _ _ (fun index s => 0 <= index /\ ui_thread_at false UI_test n s));
    [intros; apply halts_uipi_client_loop| |intros index; apply triple_pure; apply ui_client_loops].
  eapply triple_bind; [halting; apply halts_wait_for_fd|apply ui_registers|intros fd].
  eapply triple_bind; [halting; apply halts_wait_for_fd|apply (ui_stores false)|intros u].
  eapply triple_bind; [halting|apply (ui_finds_fd false)|intros other].
  eapply triple_bind; [halting|apply ui_registers_sender|intros index].
  apply triple_bind_check; [intros _ s (Hi & E & _); split; [done|rewrite E; by right]|intros Hx%Z.ltb_ge].
  eapply triple_bind; [halting|apply ui_enables|intros u']. by apply triple_ret.
Qed.

End client.

(** ** The server's thread *)

(** [server_communicate] between [setup_benchmarks] and [evaluate]. *)
Definition uipi_bi_server_measures {W} `{!Kernel W} (fuel : nat) (args : Arguments) (bench : Benchmarks)
    : M (process W) Benchmarks :=
  index ← uipi_bi_setup_server fuel;
  uipi_bi_server_loop fuel (Z.to_nat (arg_count args)) index bench.

Section server.
Abbreviation W := (world ui_state (ui_turn true)).

Lemma ui_server_clock left D R :
  triple (ui_thread_at true UI_test left) (read_now (W:=W)) (fun _ => ui_thread_at true UI_test left) D R.
Proof.
  apply triple_read_now; [apply ui_side_stable|]. intros [t d] s H.
  set (s0 := if d then default s (ui_delivers true s) else s).
  assert (H0 : ui_thread_at true UI_test left s0).
  { unfold s0. destruct d; [|done]. destruct (ui_delivers true s) eqn:E; [|done].
    by apply (ui_side_happens true _ Delivered s). }
  cbn [link_answer ui_link]. unfold ui_answer. cbn [fst snd]. fold s0. rewrite (proj1 (proj2 H0)). unfold by_clock.
  destruct (now _ _) as [v|] eqn:E; [|done]. cbn. by do 3 eexists.
Qed.

(** The test of the loop and the notification, which faults when the registration
    has failed. *)
Lemma ui_server_notifies left index R :
  triple (ui_thread_at true UI_test (S left)) (uintrfd_notify (W:=W) index) (fun _ s => 0 <= index /\ ui_waits true left s)
    (fun s => index < 0 /\ ui_thread_at true UI_notify (S left) s) R.
Proof.
  apply ui_senduipi. intros t s (Hi & Hpc & Hl). unfold ui_answer, by_senduipi. cbn [fst snd]. rewrite Hpc.
  destruct (ui_goes true s) as [s1|] eqn:Hm.
  - assert (H1 : ui_thread_at true UI_notify (S left) s1).
    { split; [by eapply ui_inv_step, ui_goes_step|]. apply ui_goes_mine in Hm. unfold ui_move in Hm.
      rewrite Hpc, Hl in Hm. injection Hm as E _. unfold ui_mine. rewrite <- E. by split. }
    destruct (Z.ltb_spec index 0); [done|]. destruct (ui_goes true s1) as [s2|] eqn:Hm2; [|done].
    cbn. split; [done|]. destruct H1 as (Hi1 & Hpc1 & Hl1). split; [by eapply ui_inv_step, ui_goes_step|].
    apply ui_goes_mine in Hm2. unfold ui_move in Hm2. rewrite Hpc1 in Hm2. injection Hm2 as E _.
    unfold ui_mine in *. rewrite <- E. split; [by left|exact Hl1].
  - revert Hpc Hl Hm. destruct s as [sv cl]. cbn. unfold ui_move. by intros -> ->.
Qed.

Lemma halts_uipi_server_loop fuel rounds index : forall bench, halts (uipi_bi_server_loop (W:=W) fuel rounds index bench).
Proof.
  induction rounds as [|n IH]; intros bench; cbn [uipi_bi_server_loop]; [apply halts_ret|].
  unfold start_single, uintrfd_notify, benchmark_call. halting; apply halts_uintrfd_wait || apply IH.
Qed.

(** The server's loop ends at its first notification or makes all rounds. *)
Lemma ui_server_loops fuel rounds index : forall bench,
  0 <= count bench -> count bench + Z.of_nat rounds <= INT32_MAX ->
  triple (ui_thread_at true UI_test rounds) (uipi_bi_server_loop (W:=W) fuel rounds index bench)
    (fun b s => count b = count bench + Z.of_nat rounds /\ ui_thread_at true UI_test 0 s)
    (fun s => index < 0 /\ ui_thread_at true UI_notify rounds s) (ui_spinning true).
Proof.
  induction rounds as [|n IH]; intros bench Hc Hle; cbn [uipi_bi_server_loop].
  { apply triple_ret. intros s H. split; [lia|done]. }
  eapply (triple_bind _ _ _ (fun b s => count b = count bench /\ ui_thread_at true UI_test (S n) s));
    [| |intros b; apply triple_pure; intros Hb].
  { intros b. unfold uintrfd_notify, benchmark_call. halting; apply halts_uintrfd_wait || apply halts_uipi_server_loop. }
  { apply triple_start_single, ui_server_clock. }
  eapply triple_bind; [|apply ui_server_notifies|intros u; apply triple_pure; intros Hx].
  { intros u. unfold benchmark_call. halting; apply halts_uintrfd_wait || apply halts_uipi_server_loop. }
  eapply triple_bind; [|apply (ui_waits_for true)|intros u'].
  { intros u'. unfold benchmark_call. halting; apply halts_uipi_server_loop. }
  eapply (triple_bind _ _ _ (fun b' s => count b' = count bench + 1 /\ ui_thread_at true UI_test n s));
    [intros; apply halts_uipi_server_loop| |intros b'; apply triple_pure; intros Hb'].
  - rewrite <- Hb. apply triple_benchmark_count; [lia|apply ui_server_clock].
  - eapply triple_conseq; [apply IH; lia|done| |intros s [? _]; lia|done]. intros b'' s [H1 H2]. split; [lia|done].
Qed.

(** Where the server dies: in its set-up, or at its first notification. *)
Definition ui_server_stops (left : nat) (s : ui_state) : Prop :=
  ui_setting_up true s \/ ui_thread_at true UI_notify left s.

Lemma ui_server_thread fuel args bench :
  0 <= count bench -> count bench + Z.of_nat (Z.to_nat (arg_count args)) <= INT32_MAX ->
  triple (ui_thread_at true UI_start (Z.to_nat (arg_count args))) (uipi_bi_server_measures (W:=W) fuel args bench)
    (fun b s => count b = count bench + Z.of_nat (Z.to_nat (arg_count args)) /\ ui_thread_at true UI_test 0 s)
    (ui_server_stops (Z.to_nat (arg_count args))) (ui_spinning true).
Proof.
  intros Hc Hle. unfold uipi_bi_server_measures, uipi_bi_setup_server. set (n := Z.to_nat _) in *.
  eapply (triple_bind _ _ _ (fun _ => ui_thread_at true UI_test n));
    [intros; apply halts_uipi_server_loop| |intros index;
     eapply triple_conseq; [by apply ui_server_loops|done|done|intros s [_ H]; by right|done]].
  apply (triple_conseq _ (ui_thread_at true UI_start n) _ _ (fun _ => ui_thread_at true UI_test n) _
    (ui_setting_up true) _ (ui_spinning true)); [|done|done|by left|done].
  eapply triple_bind; [halting; apply halts_wait_for_fd|apply ui_registers|intros fd].
  eapply triple_bind; [halting; apply halts_wait_for_fd|apply (ui_stores true)|intros u].
  eapply triple_bind; [halting|apply (ui_finds_fd true)|intros other].
  eapply triple_bind; [halting|apply ui_registers_sender|intros index].
  eapply triple_bind; [halting|apply ui_enables|intros u']. by apply triple_ret.
Qed.

End server.

(** ** Properties *)

(** Both threads of uintrfd-bi make the moves of their protocol.  Run from
    the start with a count, each beside any behaviour of the other and with
    interrupts delivered between any two calls, they only make their moves; the
    client dies only while it sets up, the server while it sets up or, its
    registration having failed unnoticed, at its first notification; they have no
    undefined behaviour, and when they return they have made all rounds: the
    server has then measured [count] times. *)
Theorem uintrfd_bi_refines fuel args bench0 :
  0 <= arg_count args -> 0 <= count bench0 -> count bench0 + arg_count args <= INT32_MAX ->
  triple (T:=ui_turn false) (fun s => s = ui_init (Z.to_nat (arg_count args))) (uipi_bi_client_communicate fuel args)
    (fun _ s => ui_at (ui_client s) = UI_test /\ ui_left (ui_client s) = 0%nat)
    (fun s => ui_at (ui_client s) = UI_start \/ ui_at (ui_client s) = UI_stui)
    (fun s => ui_at (ui_client s) = UI_fd \/ ui_at (ui_client s) = UI_test \/ ui_at (ui_client s) = UI_wait) /\
  triple (T:=ui_turn true) (fun s => s = ui_init (Z.to_nat (arg_count args))) (uipi_bi_server_measures fuel args bench0)
    (fun bench s => count bench = count bench0 + arg_count args /\ ui_at (ui_server s) = UI_test /\
       ui_left (ui_server s) = 0%nat)
    (fun s => ui_at (ui_server s) = UI_start \/ ui_at (ui_server s) = UI_stui \/
       (ui_at (ui_server s) = UI_notify /\ ui_left (ui_server s) = Z.to_nat (arg_count args)))
    (fun s => ui_at (ui_server s) = UI_fd \/ ui_at (ui_server s) = UI_wait).
Proof.
  intros Hn Hc Hle. set (n := Z.to_nat (arg_count args)).
  assert (Hi : ui_inv (ui_init n)) by (apply (ui_inv_reachable n), rtc_refl). split.
  - eapply triple_conseq; [apply (ui_client_thread fuel args)|..].
    + intros s ->. split; [done|by split].
    + intros _ s (_ & H1 & H2). by split.
    + intros s [_ H]. exact H.
    + intros s [_ [H|[H|[_ H]]]]; [by left|by right; right|by right; left].
  - eapply triple_conseq; [apply (ui_server_thread fuel args bench0 Hc); lia|..].
    + intros s ->. split; [done|by split].
    + intros b s (H & _ & H1 & H2). split; [lia|by split].
    + intros s [[_ [H|H]]|(_ & H1 & H2)]; [by left|by right; left|by right; right].
    + intros s [_ [H|[H|[H _]]]]; [by left|by right|done].
Qed.

(** ** Witness *)

(** One round of the client: set-up, the server's moves, the wait. *)
Definition ui_choices : list (ui_turn false) :=
  let c moves d := (mk_turn moves (0, 0) (val 3), d) in
  [(mk_turn [] (0, 0) (val 0), false); c [] false; c [Other_goes] false; c [] false; c [] false; c [] false;
   c [Other_goes; Other_goes; Other_goes; Other_goes] false; c [] true; c [] false; c [] false].

Lemma uintrfd_bi_refines_witness :
  let args := mk_Arguments 1 1 in
  let p := mk_process 0 [] (mk_world (ui_init 1) ui_choices Live) in
  let run := uipi_bi_client_communicate 3 args p in
  run.1 = Done () /\ w_progress (env run.2) = Live /\ rtc ui_step (ui_init 1) (w_state (env run.2)) /\
  ui_left (ui_client (w_state (env run.2))) = 0%nat.
Proof.
  intros args p run.
  assert (H : run.1 = Done () /\ w_progress (env run.2) = Live /\ ui_left (ui_client (w_state (env run.2))) = 0%nat)
    by by vm_compute.
  destruct H as (H1 & H2 & H3). split; [done|]. split; [done|]. split; [|done].
  destruct (proj1 (uintrfd_bi_refines 3 args (mk_Benchmarks 0 0 0 0 0 0 0) ltac:(done) ltac:(done) ltac:(by vm_compute))
    p eq_refl I eq_refl) as [Hr _]. exact Hr.
Defined.
