(* ===== verification/UintrFdPair.v ===== *)
(** * uintrfd-bi: the two threads together

    Both threads of [uintrfd/uintrfd-bi.c], from their set-ups on, call by call
    in any order; an interrupt is delivered to a thread before any of its
    calls. *)
From S2P Require Import Prelude Kernel Benchmarks Linking Together UintrFd UintrFdLink.

(** ** The programs call nothing but the kernel *)
Lemma interactive_uintrfd_wait fuel token : interactive (fun W _ => uintrfd_wait (W:=W) fuel token).
Proof. induction fuel; cbn [uintrfd_wait]; interacting. Qed.
#[local] Hint Resolve interactive_uintrfd_wait : interactive.

Lemma interactive_wait_for_fd fuel x : interactive (fun W _ => wait_for_fd (W:=W) fuel x).
Proof. induction fuel; cbn [wait_for_fd]; interacting. Qed.
#[local] Hint Resolve interactive_wait_for_fd : interactive.

Lemma interactive_client_loop fuel rounds index : interactive (fun W _ => uipi_bi_client_loop (W:=W) fuel rounds index).
Proof. induction rounds; cbn [uipi_bi_client_loop]; unfold uintrfd_notify; interacting. Qed.
#[local] Hint Resolve interactive_client_loop : interactive.

Lemma interactive_server_loop fuel rounds index : forall bench,
  interactive (fun W _ => uipi_bi_server_loop (W:=W) fuel rounds index bench).
Proof.
  induction rounds; intros bench; cbn [uipi_bi_server_loop];
    unfold start_single, uintrfd_notify, benchmark_call, read_now; interacting.
Qed.
#[local] Hint Resolve interactive_server_loop : interactive.

Lemma interactive_client_thread fuel args : interactive (fun W _ => uipi_bi_client_communicate (W:=W) fuel args).
Proof. unfold uipi_bi_client_communicate, uipi_bi_setup_client, setup_handler_with_vector. interacting. Qed.

Lemma interactive_server_thread fuel args bench :
  interactive (fun W _ => uipi_bi_server_measures (W:=W) fuel args bench).
Proof. unfold uipi_bi_server_measures, uipi_bi_setup_server, setup_handler_with_vector. interacting. Qed.

(** ** The two sides of the protocol *)

(** A delivery right before a call belongs to it. *)
#[export] Instance ui_choices_ok first : Choices ui_state (ui_turn first).
Proof.
  refine {| link_alone (t : ui_turn first) := (turn_alone t.1, t.2) : ui_turn first;
            link_then t1 t2 := (turn_then t1.1 t2.1, t2.2) |}; try done.
  intros. cbn. apply moves_along_app.
Defined.

Lemma ui_calls_beside first (t : ui_turn first) c s r s' :
  ui_answer first (turn_alone t.1, t.2) c s = Answer r s' ->
  exists cs, moves_along (ui_happens (negb first)) cs s = s'.
Proof.
  intros [n <-]%ui_answer_moves. destruct t as [t d]. cbn [fst snd].
  exists ((if d then [Other_delivered] else []) ++ replicate n Other_goes). rewrite moves_along_app.
  assert (E : moves_along (ui_happens (negb first)) (if d then [Other_delivered] else []) s =
    if d then default s (ui_delivers first s) else s).
  { destruct d; [|done]. unfold moves_along. cbn. by rewrite negb_involutive. }
  rewrite E. generalize (if d then default s (ui_delivers first s) else s). clear. induction n as [|n IH]; intros s; [done|].
  unfold moves_along in *. cbn. rewrite negb_involutive. apply IH.
Qed.

#[export] Instance ui_client_beside : Beside ui_state (ui_turn false) (ui_turn true).
Proof.
  constructor. intros t c s r s' H. apply (ui_calls_beside true t c s r s') in H as [cs H].
  by exists (mk_turn cs (0, 0) (val 0), false).
Qed.

#[export] Instance ui_server_beside : Beside ui_state (ui_turn true) (ui_turn false).
Proof.
  constructor. intros t c s r s' H. apply (ui_calls_beside false t c s r s') in H as [cs H].
  by exists (mk_turn cs (0, 0) (val 0), false).
Qed.

(** ** Every expected call is answered *)

(** At a place without a wait the thread can move. *)
Lemma ui_can_go first s :
  match ui_at (ui_mine first s) with
  | UI_test => ui_left (ui_mine first s) <> 0%nat
  | UI_fd => has_fd (ui_mine (negb first) s) = true
  | UI_wait => ui_flag (ui_mine first s) = true
  | _ => True
  end -> is_Some (ui_goes first s).
Proof.
  destruct s as [sv cl]. destruct first; cbn; intros H; unfold ui_move; destruct (ui_at _); cbn; try by eexists.
  all: try (destruct (ui_left _); [done|by eexists]).
  all: rewrite H; by eexists.
Qed.

Lemma ui_past_test first s u :
  ui_at (ui_mine first s) = UI_test -> ui_goes first s = Some u ->
  ui_at (ui_mine first u) = if first then UI_notify else UI_wait.
Proof.
  intros Hpc Hm%ui_goes_mine. unfold ui_move in Hm. rewrite Hpc in Hm. destruct (ui_left _); [done|].
  by injection Hm as <- _.
Qed.

Lemma ui_flag_answered first s :
  ui_at (ui_mine first s) = UI_wait -> exists r s', by_flag first s = Answer r s'.
Proof.
  intros Hpc. unfold by_flag. destruct (ui_flag _) eqn:Hf; [|by do 2 eexists].
  destruct (ui_can_go first s) as [s' ->]; [by rewrite Hpc|by do 2 eexists].
Qed.

Lemma ui_answers first c s :
  (forall t : ui_turn first, ui_answer first (turn_alone t.1, t.2) c s <> Strange) ->
  exists (t : ui_turn first) r s', ui_answer first (turn_alone t.1, t.2) c s = Answer r s'.
Proof.
  intros Hc. set (t := (mk_turn [] (0, 0) (val 1), false) : ui_turn first). specialize (Hc t). exists t.
  pose proof (ui_can_go first s) as Hg. unfold ui_answer, by_system, by_descriptor, by_clock, by_senduipi, turn_alone in *.
  cbn [t fst snd tn_clock tn_result] in *. rewrite ?now_zero in *.
  destruct (ui_at (ui_mine first s)) eqn:Hpc, c; try done; repeat case_match; try done; try (by do 2 eexists).
  all: try (destruct Hg as [s' ->]; [done|by do 2 eexists]).
  - apply ui_flag_answered. destruct first; [done|]. by apply (ui_past_test false s).
  - destruct (ui_can_go true u) as [s' ->]; [by rewrite (ui_past_test true s u)|by do 2 eexists].
  - by apply ui_flag_answered.
Qed.

(** A thread that waits and has been sent the interrupt receives it with its
    next call. *)
Lemma ui_receives first c s :
  ui_at (ui_mine first s) = UI_wait -> addressed (ui_mine first s) ->
  (forall t : ui_turn first, ui_answer first (turn_alone t.1, t.2) c s <> Strange) ->
  exists (t : ui_turn first) r s',
    ui_answer first (turn_alone t.1, t.2) c s = Answer r s' /\ ui_at (ui_mine first s') = UI_clear.
Proof.
  intros Hpc Ha Hc. set (t := (mk_turn [] (0, 0) (val 1), true) : ui_turn first). specialize (Hc t). exists t.
  set (s0 := default s (ui_delivers first s)).
  assert (H0 : ui_at (ui_mine first s0) = UI_wait /\ ui_flag (ui_mine first s0) = true).
  { unfold s0. destruct s as [[sp sl sd sf] [cp cl cd cf]]. unfold addressed, enabled in Ha.
    destruct first; cbn in Hpc, Ha; subst; unfold ui_delivers, ui_deliver; cbn;
      destruct Ha as [(-> & -> & _)|(-> & -> & _)]; done. }
  destruct H0 as [H0 Hf]. unfold ui_answer in *. cbn [t fst snd] in *. fold s0 in Hc |- *.
  rewrite H0 in Hc |- *. destruct c; try done. case_match; [|done]. unfold by_flag. rewrite Hf.
  destruct (ui_goes first s0) as [s'|] eqn:Hm.
  - do 2 eexists. split; [reflexivity|]. apply ui_goes_mine in Hm. unfold ui_move in Hm. rewrite H0, Hf in Hm.
    by injection Hm as <- _.
  - destruct (ui_can_go first s0) as [s1 E]; [by rewrite H0|congruence].
Qed.

(** When both wait, one of them has been sent the interrupt. *)
Lemma ui_both_wait s :
  ui_inv s -> ui_at (ui_server s) = UI_wait -> ui_at (ui_client s) = UI_wait ->
  addressed (ui_server s) \/ addressed (ui_client s).
Proof.
  destruct s as [sv cl]. cbn. intros Hi Hs Hc. rewrite Hs in Hi. destruct Hi as (_ & [H|[H|H]]).
  - right. apply H.
  - destruct H as (_ & _ & H & _). congruence.
  - left. apply H.
Qed.

(** Before the server's notification both sides have the same rounds left. *)
Lemma ui_notify_left s : ui_inv s -> ui_at (ui_server s) = UI_notify -> ui_left (ui_client s) = ui_left (ui_server s).
Proof. destruct s as [sv cl]. cbn. intros Hi E. rewrite E in Hi. apply Hi. Qed.

(** ** The pair *)
Section pair.
Context (fuel_c fuel_s : nat) (args : Arguments) (bench0 : Benchmarks).

Definition ui_client_program W `{!Kernel W} : M (process W) () := uipi_bi_client_communicate fuel_c args.
Definition ui_server_program W `{!Kernel W} : M (process W) Benchmarks := uipi_bi_server_measures fuel_s args bench0.

Definition ui_joint_step : relation (joint ui_state) :=
  joint_step (TA:=ui_turn false) (TB:=ui_turn true) (ui_client_program script) (ui_server_program script).
Definition ui_joint_init : joint ui_state := mk_joint (ui_init (Z.to_nat (arg_count args))) [] [].

Definition ui_server_returned (b : Benchmarks) (s : ui_state) : Prop :=
  count b = count bench0 + Z.of_nat (Z.to_nat (arg_count args)) /\ ui_thread_at true UI_test 0 s.

Lemma ui_pair_sound j :
  0 <= count bench0 -> count bench0 + Z.of_nat (Z.to_nat (arg_count args)) <= INT32_MAX ->
  rtc ui_joint_step ui_joint_init j ->
  rtc ui_step (ui_init (Z.to_nat (arg_count args))) (j_state j) /\
  abides (T:=ui_turn false) (ui_client_program script) (fun _ => ui_thread_at false UI_test 0) (ui_setting_up false)
    (ui_spinning false) (j_first j) (j_state j) /\
  abides (T:=ui_turn true) (ui_server_program script) ui_server_returned
    (ui_server_stops (Z.to_nat (arg_count args))) (ui_spinning true) (j_second j) (j_state j).
Proof.
  intros Hc Hle Hr.
  assert (Hi : ui_inv (ui_init (Z.to_nat (arg_count args)))) by (apply (ui_inv_reachable (Z.to_nat (arg_count args))), rtc_refl).
  split.
  - by apply (joint_steps (TA:=ui_turn false) (TB:=ui_turn true) ui_client_program ui_server_program) in Hr.
  - apply (joint_sound (TA:=ui_turn false) (TB:=ui_turn true) ui_client_program ui_server_program
      (interactive_client_thread fuel_c args) (interactive_server_thread fuel_s args bench0)
      (ui_thread_at false UI_start (Z.to_nat (arg_count args))) (ui_thread_at true UI_start (Z.to_nat (arg_count args))))
      with (s0 := ui_init (Z.to_nat (arg_count args))); try done.
    + apply ui_client_thread.
    + by apply ui_server_thread.
    + intros a. apply ui_side_stable.
    + apply ui_side_stable.
    + apply ui_side_stable.
    + intros b. apply stable_pure, ui_side_stable.
    + apply stable_or; apply ui_side_stable.
    + apply ui_side_stable.
Qed.

End pair.

(** ** Properties *)

(** C10: the two threads of uintrfd-bi work together, from the start of their
    set-ups.  In whatever order they make their calls, and whenever interrupts
    are delivered between them, they only make moves of the protocol and have
    no undefined behaviour.  The client dies only while it sets up; the server
    while it sets up or, its registration as a sender having failed unnoticed, at
    its first notification, before either side has made a round.  A thread that
    returns has made all rounds.  Each can make its next call at any time, and
    when both wait, one of the two receives its interrupt with its next call:
    they never wait for each other. *)
Theorem uintrfd_bi_together fuel_c fuel_s args bench0 j :
  0 <= arg_count args -> 0 <= count bench0 -> count bench0 + arg_count args <= INT32_MAX ->
  rtc (ui_joint_step fuel_c fuel_s args bench0) (ui_joint_init args) j ->
  let client := ui_client_program fuel_c args script in
  let server := ui_server_program fuel_s args bench0 script in
  let moves t j' := joint_move (TA:=ui_turn false) (TB:=ui_turn true) client server t j = Some j' in
  rtc ui_step (ui_init (Z.to_nat (arg_count args))) (j_state j) /\
  (next_call client (j_first j) = None ->
     match outcome_on client (j_first j) with
     | Done _ => ui_left (ui_client (j_state j)) = 0%nat
     | Died _ => ui_at (ui_client (j_state j)) = UI_start \/ ui_at (ui_client (j_state j)) = UI_stui
     | Undefined => False
     | Running => True
     end) /\
  (next_call server (j_second j) = None ->
     match outcome_on server (j_second j) with
     | Done bench => count bench = count bench0 + arg_count args /\ ui_left (ui_server (j_state j)) = 0%nat
     | Died _ => ui_at (ui_server (j_state j)) = UI_start \/ ui_at (ui_server (j_state j)) = UI_stui \/
         (ui_at (ui_server (j_state j)) = UI_notify /\ ui_left (ui_server (j_state j)) = Z.to_nat (arg_count args) /\
          ui_left (ui_client (j_state j)) = Z.to_nat (arg_count args))
     | Undefined => False
     | Running => True
     end) /\
  (next_call client (j_first j) <> None -> exists t j', moves (inl t) j') /\
  (next_call server (j_second j) <> None -> exists t j', moves (inr t) j') /\
  (ui_at (ui_client (j_state j)) = UI_wait -> ui_at (ui_server (j_state j)) = UI_wait ->
   next_call client (j_first j) <> None -> next_call server (j_second j) <> None ->
   exists t j', moves t j' /\
     (ui_at (ui_client (j_state j')) = UI_clear \/ ui_at (ui_server (j_state j')) = UI_clear)).
Proof.
  intros Hn Hc Hle Hr client server moves.
  destruct (ui_pair_sound fuel_c fuel_s args bench0 j Hc) as (Hs & Ha & Hb); [lia|done|].
  pose proof (ui_inv_reachable _ _ Hs) as Hi. fold client in Ha. fold server in Hb. unfold abides in Ha, Hb.
  split; [done|]. destruct j as [s ra rb]. cbn [j_state j_first j_second] in *. split_and!.
  - intros E. rewrite E in Ha. destruct (outcome_on client ra) as [[]| | |]; try done; [by destruct Ha as (_ & _ & ?)|apply Ha].
  - intros E. rewrite E in Hb. destruct (outcome_on server rb) as [b| | |]; try done.
    + destruct Hb as (Hb & _ & _ & ?). split; [lia|done].
    + destruct Hb as [[_ [H|H]]|(_ & H1 & H2)]; [by left|by right; left|]. right; right.
      split; [done|]. split; [done|]. rewrite <- H2. by apply ui_notify_left.
  - intros E. unfold moves. cbn [joint_move]. destruct (next_call client ra) as [c|]; [|done].
    destruct (ui_answers false c s Ha) as (t & r & s' & Ht). exists t. eexists. cbn. by rewrite Ht.
  - intros E. unfold moves. cbn [joint_move]. destruct (next_call server rb) as [c|]; [|done].
    destruct (ui_answers true c s Hb) as (t & r & s' & Ht). exists t. eexists. cbn. by rewrite Ht.
  - intros Hwc Hws Ec Es. unfold moves. cbn [joint_move].
    destruct (next_call client ra) as [c|] eqn:E1; [|done]. destruct (next_call server rb) as [d|] eqn:E2; [|done].
    destruct (ui_both_wait s Hi Hws Hwc) as [H|H].
    + destruct (ui_receives true d s Hws H Hb) as (t & r & s' & Ht & Hpc). exists (inr t). eexists. cbn.
      rewrite Ht. split; [done|]. by right.
    + destruct (ui_receives false c s Hwc H Ha) as (t & r & s' & Ht & Hpc). exists (inl t). eexists. cbn.
      rewrite Ht. split; [done|]. by left.
Qed.

(** ** Witness *)

(** One round.  The client waits for the server's descriptor, and once in vain
    for the interrupt, which is delivered before its second load. *)
Definition ui_schedule : list (ui_turn false + ui_turn true) :=
  let c v d := inl (mk_turn [] (0, 0) (val v), d) in
  let s v d := inr (mk_turn [] (1700000000, 0) (val v), d) in
  [c 0 false; c 3 false; c 0 false; c 1 false; c 0 false; s 0 false; s 4 false; s 0 false; s 5 false; s 0 false; s 0 false;
   c 4 false; c 1 false; c 0 false; c 0 false; s 0 false; s 0 false; c 0 true; c 0 false; s 0 false; c 0 false; s 0 true;
   s 0 false; s 0 false].

Definition ui_pair_args : Arguments := mk_Arguments 1 1.
Definition ui_pair_bench : Benchmarks := mk_Benchmarks 0 0 INT32_MAX 0 0 0 0.

Definition ui_pair_run : joint ui_state :=
  state_along (joint_move (TA:=ui_turn false) (TB:=ui_turn true)
    (ui_client_program 5 ui_pair_args script) (ui_server_program 5 ui_pair_args ui_pair_bench script))
    ui_schedule (ui_joint_init ui_pair_args).

Lemma uintrfd_bi_together_witness :
  outcome_on (ui_client_program 5 ui_pair_args script) (j_first ui_pair_run) = Done () /\
  next_call (ui_server_program 5 ui_pair_args ui_pair_bench script) (j_second ui_pair_run) = None /\
  ui_finished (j_state ui_pair_run) /\
  rtc ui_step (ui_init 1) (j_state ui_pair_run).
Proof.
  split; [by vm_compute|]. split; [by vm_compute|]. split; [by vm_compute|].
  refine (proj1 (uintrfd_bi_together 5 5 ui_pair_args ui_pair_bench ui_pair_run _ _ _ _)); [done|done|by vm_compute|].
  apply state_along_rtc; [intros t a b; apply joint_move_step|by vm_compute; eexists].
Defined.

(** The kernel refuses to register the server as a sender: its first
    notification faults, and the client waits. *)
Definition ui_unregistered_schedule : list (ui_turn false + ui_turn true) :=
  let c v := inl (mk_turn [] (0, 0) (val v), false) in
  let s v := inr (mk_turn [] (1700000000, 0) (val v), false) in
  [c 0; c 3; c 0; s 0; s 4; s 0; s 5; s (-1); s 0; s 0; s 0; c 4; c 1; c 0; c 0].

Definition ui_unregistered_run : joint ui_state :=
  state_along (joint_move (TA:=ui_turn false) (TB:=ui_turn true)
    (ui_client_program 5 ui_pair_args script) (ui_server_program 5 ui_pair_args ui_pair_bench script))
    ui_unregistered_schedule (ui_joint_init ui_pair_args).

Example uintrfd_bi_unregistered :
  outcome_on (ui_server_program 5 ui_pair_args ui_pair_bench script) (j_second ui_unregistered_run) =
    Died "Segmentation fault" /\
  calls_on (ui_server_program 5 ui_pair_args ui_pair_bench script) (j_second ui_unregistered_run) =
    [Uintr_register_handler; Uintr_create_fd 0 0; Store "uintrfd_server" 4; Load "uintrfd_client";
     Uintr_register_sender 5 0; Stui; Timespec_get; Senduipi (-1)] /\
  ui_at (ui_server (j_state ui_unregistered_run)) = UI_notify /\
  ui_at (ui_client (j_state ui_unregistered_run)) = UI_wait.
Proof. by vm_compute. Qed.
