(* ===== verification/UintrFdUni.v ===== *)
(** * uintrfd-uni: the programs make the protocol's moves, alone and together

    The sender's thread of [uintrfd/uintrfd-uni.c] and the receiver's loop in
    the place of the two threads of [UintrFd], and both call by call in any
    order.  The handler runs in the receiver's thread between any two calls. *)
From S2P Require Import Prelude Kernel Benchmarks Linking Together UintrFd.

(** ** The moves, executable *)

(** The sender; [v] is the clock. *)
Definition uu_goes (v : Z) (s : uni_ui_state) : option uni_ui_state :=
  let 'mk_uni_ui_state l c ss p r n m t d := s in
  match c with
  | UC_test => match l with O => None | S _ => Some (mk_uni_ui_state l UC_reset ss p r n m t d) end
  | UC_reset => Some (mk_uni_ui_state l UC_now ss p false n m t d)
  | UC_now => Some (mk_uni_ui_state l UC_send v p r n m (t ++ [v]) d)
  | UC_send => Some (mk_uni_ui_state l UC_spin ss true r n m t d)
  | UC_spin => if r then Some (mk_uni_ui_state (l - 1) UC_test ss p r n m t d) else None
  end.

Definition uu_handles (s : uni_ui_state) : option uni_ui_state :=
  let 'mk_uni_ui_state l c ss p r n m t d := s in
  if p then Some (mk_uni_ui_state l c ss false true (u32 (n + 1)) (m ++ [ss]) t d) else None.

(** The receiver leaves its loop. *)
Definition uu_leaves (args_count : Z) (s : uni_ui_state) : option uni_ui_state :=
  let 'mk_uni_ui_state l c ss p r n m t d := s in
  if d then None else if u32 args_count <=? n then Some (mk_uni_ui_state l c ss p r n m t true) else None.

Lemma uu_goes_step n v s s' : uu_goes v s = Some s' -> uni_ui_step n s s'.
Proof.
  destruct s as [l c ss p r k m t d]. destruct c; cbn; intros H; repeat case_match; simplify_eq; constructor.
Qed.

Lemma uu_handles_step n s s' : uu_handles s = Some s' -> uni_ui_step n s s'.
Proof. destruct s as [l c ss [] r k m t d]; cbn; [|done]. intros [= <-]. constructor. Qed.

Lemma uu_leaves_step n s s' : uu_leaves n s = Some s' -> uni_ui_step n s s'.
Proof.
  destruct s as [l c ss p r k m t []]; unfold uu_leaves; [done|]. destruct (Z.leb_spec (u32 n) k); [|done].
  intros [= <-]. by constructor.
Qed.

(** What happens beside a thread, the sender or the receiver: moves of the other
    one, and the handler. *)
Variant uu_event := Other_goes (v : Z) | Handled.

Definition uu_happens (n : Z) (sender : bool) (e : uu_event) (s : uni_ui_state) : option uni_ui_state :=
  match e with
  | Other_goes v => if sender then uu_leaves n s else uu_goes v s
  | Handled => uu_handles s
  end.

Lemma uu_happens_step n sender e s s' : uu_happens n sender e s = Some s' -> uni_ui_step n s s'.
Proof. destruct e; cbn; [destruct sender; [apply uu_leaves_step|apply uu_goes_step]|apply uu_handles_step]. Qed.

(** ** The answers to a thread's calls *)

(** The choices for a call: what happens before it, and whether the handler runs
    right before it. *)
Definition uu_turn (n : Z) (sender : bool) : Type := turn uu_event * bool.

(** The test of the sender's loop is not a call: it comes before the store. *)
Definition uu_sender_answer {C} (t : turn C) (c : syscall) (s : uni_ui_state) : reply uni_ui_state :=
  match uu_client s, c with
  | UC_test, Uintr_register_sender _ _ => by_system t s
  | UC_test, Store x v =>
      if bool_decide (x = "uintr_received") && (v =? 0)
      then match uu_goes 0 s with Some s1 => by_move (uu_goes 0 s1) (val 0) | None => Strange end else Strange
  | UC_now, Timespec_get => by_clock t (fun _ => Some s)
  | UC_now, Store x v => if bool_decide (x = "bench.single_start") then by_move (uu_goes v s) (val 0) else Strange
  | UC_send, Senduipi index => by_senduipi index (uu_goes 0 s) s
  | UC_spin, Load x =>
      if bool_decide (x = "uintr_received")
      then if uu_received s then by_move (uu_goes 0 s) (val 1) else Answer (val 0) s else Strange
  | _, _ => Strange
  end.

Definition uu_receiver_answer (n : Z) (c : syscall) (s : uni_ui_state) : reply uni_ui_state :=
  match c with
  | Load x =>
      if bool_decide (x = "uintr_count") && negb (uu_server_done s)
      then if u32 n <=? uu_count s then by_move (uu_leaves n s) (val (uu_count s)) else Answer (val (uu_count s)) s
      else Strange
  | _ => Strange
  end.

Definition uu_answer (n : Z) (sender : bool) (t : uu_turn n sender) (c : syscall) (s : uni_ui_state) : reply uni_ui_state :=
  let s := if t.2 then default s (uu_handles s) else s in
  if sender then uu_sender_answer t.1 c s else uu_receiver_answer n c s.

(** An answered call is the handler or not, and then at most two moves. *)
Lemma uu_answer_moves n sender t c s r s' :
  uu_answer n sender t c s = Answer r s' ->
  exists es, moves_along (uu_happens n (negb sender)) es s = s'.
Proof.
  unfold uu_answer. intros H.
  cut (exists vs, moves_along (uu_happens n (negb sender)) (Other_goes <$> vs)
    (if t.2 then default s (uu_handles s) else s) = s').
  { intros [vs <-]. exists ((if t.2 then [Handled] else []) ++ (Other_goes <$> vs)). rewrite moves_along_app. by destruct t.2. }
  set (s0 := if t.2 then _ else s) in *. clearbody s0. destruct sender; cbn [negb].
  - assert (H0 : s0 = s' -> exists vs, moves_along (uu_happens n false) (Other_goes <$> vs) s0 = s') by (intros <-; by exists []).
    assert (H1 : forall v, uu_goes v s0 = Some s' -> exists vs, moves_along (uu_happens n false) (Other_goes <$> vs) s0 = s')
      by (intros v E; exists [v]; unfold moves_along; cbn; by rewrite E).
    assert (H2 : forall s1, uu_goes 0 s0 = Some s1 -> uu_goes 0 s1 = Some s' ->
      exists vs, moves_along (uu_happens n false) (Other_goes <$> vs) s0 = s')
      by (intros s1 E1 E2; exists [0; 0]; unfold moves_along; cbn; rewrite E1; cbn; by rewrite E2).
    unfold uu_sender_answer, by_system in H.
    destruct (uu_client s0), c; try done; repeat case_match; simplify_eq;
      try (apply by_clock_inv in H as [? H]; injection H as ->); try apply by_move_inv in H;
      try (apply by_senduipi_inv in H as [->|H]); eauto.
  - unfold uu_receiver_answer in H. destruct c; try done. case_match; [|done]. case_match.
    + apply by_move_inv in H. exists [0]. unfold moves_along. cbn. by rewrite H.
    + injection H as _ <-. by exists [].
Qed.

Lemma uu_answer_steps n sender t c s r s' : uu_answer n sender t c s = Answer r s' -> rtc (uni_ui_step n) s s'.
Proof. intros [es <-]%uu_answer_moves. apply moves_along_rtc. intros e s1 s2. apply uu_happens_step. Qed.

#[export] Instance uu_link n sender : Link uni_ui_state (uu_turn n sender) := {
  link_step := uni_ui_step n;
  link_others t s := moves_along (uu_happens n sender) (tn_others t.1) s;
  link_answer := uu_answer n sender;
  link_others_steps t s := moves_along_rtc _ (uni_ui_step n) _ s (uu_happens_step n sender);
  link_answer_steps := uu_answer_steps n sender;
  link_errno _ _ := True;
  link_others_errno _ _ _ H := H;
  link_answer_errno _ _ _ _ _ _ H _ := H;
}.

(** ** The two programs *)
Lemma halts_uu_spin {T} `{!Link uni_ui_state T} fuel : halts (uipi_uni_spin (W:=world uni_ui_state T) fuel).
Proof. induction fuel; cbn [uipi_uni_spin]; halting. Qed.

Lemma halts_uu_wait {T} `{!Link uni_ui_state T} fuel args : halts (uipi_uni_server_wait (W:=world uni_ui_state T) fuel args).
Proof. induction fuel; cbn [uipi_uni_server_wait]; halting. Qed.
#[local] Hint Resolve halts_uu_spin halts_uu_wait : halts.

Section threads.
Context (n : Z) (n_int : n <= INT32_MAX).

Lemma uu_inv_happens sender e s s' : uni_ui_inv n s -> uu_happens n sender e s = Some s' -> uni_ui_inv n s'.
Proof. intros Hi H. by eapply uni_ui_inv_step, uu_happens_step. Qed.

Lemma uu_inv_goes v s s' : uni_ui_inv n s -> uu_goes v s = Some s' -> uni_ui_inv n s'.
Proof. intros Hi H. by eapply uni_ui_inv_step, uu_goes_step. Qed.

(** The sender at a place of its loop, which nothing beside it changes. *)
Definition uu_sender_at (pc : uni_client_pc) (left : nat) (s : uni_ui_state) : Prop :=
  uni_ui_inv n s /\ uu_client s = pc /\ uu_left s = left.

Lemma uu_sender_happens pc left e s s' :
  uu_sender_at pc left s -> uu_happens n true e s = Some s' -> uu_sender_at pc left s'.
Proof.
  intros (Hi & Hpc & Hl) H. split; [by eapply uu_inv_happens|].
  destruct s as [l c ss p r k m t d], e; cbn in *; repeat case_match; simplify_eq; done.
Qed.

Lemma uu_sender_stable pc left : stable (T:=uu_turn n true) (uu_sender_at pc left).
Proof. intros t s H. cbn. apply moves_along_inv; [|done]. intros e s1 s2. apply uu_sender_happens. Qed.

Lemma uu_sender_handled pc left (d : bool) s :
  uu_sender_at pc left s -> uu_sender_at pc left (if d then default s (uu_handles s) else s).
Proof.
  intros H. destruct d; [|done]. destruct (uu_handles s) eqn:E; [|done]. by apply (uu_sender_happens _ _ Handled s).
Qed.

Lemma uu_sender_sys pc left c Q D R :
  (forall t s, uu_sender_at pc left s ->
     match uu_sender_answer (C:=uu_event) t c s with Answer r s' => Q r s' | Waits => True | Strange => False end) ->
  triple (T:=uu_turn n true) (uu_sender_at pc left) (sys c) Q D R.
Proof.
  intros H. apply triple_sys; [apply uu_sender_stable|]. intros [t d] s Hs.
  exact (H t _ (uu_sender_handled pc left d s Hs)).
Qed.

(** A call that is the sender's next move. *)
Lemma uu_sender_moves pc left c v w pc' D R :
  (forall (t : turn uu_event) s, uu_client s = pc -> uu_sender_answer t c s = by_move (uu_goes w s) (val v)) ->
  (forall s s', uu_client s = pc -> uu_goes w s = Some s' -> uu_client s' = pc' /\ uu_left s' = uu_left s) ->
  triple (T:=uu_turn n true) (uu_sender_at pc left) (sys_ c) (fun _ => uu_sender_at pc' left) D R.
Proof.
  intros Ha Hm. apply triple_ignoring, uu_sender_sys. intros t s (Hi & Hpc & Hl). rewrite Ha by done.
  destruct (uu_goes w s) as [s'|] eqn:E; [|done]. cbn. destruct (Hm s s' Hpc E) as [H1 H2].
  split; [by eapply uu_inv_goes|]. by rewrite H1, H2.
Qed.

Lemma uu_resets left D R :
  triple (T:=uu_turn n true) (uu_sender_at UC_test (S left)) (sys_ (Store "uintr_received" 0))
    (fun _ => uu_sender_at UC_now (S left)) D R.
Proof.
  apply triple_ignoring, uu_sender_sys. intros t s (Hi & Hpc & Hl). unfold uu_sender_answer.
  rewrite Hpc, bool_decide_eq_true_2 by done. cbn [andb Z.eqb].
  destruct (uu_goes 0 s) as [s1|] eqn:E1.
  - destruct (uu_goes 0 s1) as [s2|] eqn:E2; [|done]. cbn. split; [by eapply uu_inv_goes; [eapply uu_inv_goes|]|].
    destruct s as [l c ss p r k m ts d]. cbn in Hpc, Hl. subst. cbn in E1. injection E1 as <-. cbn in E2.
    by injection E2 as <-.
  - destruct s as [l c ss p r k m ts d]. cbn in Hpc, Hl. by subst.
Qed.

(** The registration is checked, so that the interrupt is sent. *)
Lemma uu_sends left index D R :
  0 <= index ->
  triple (T:=uu_turn n true) (uu_sender_at UC_send left) (senduipi index) (fun _ => uu_sender_at UC_spin left) D R.
Proof.
  intros Hx. apply triple_senduipi; [apply uu_sender_stable|]. intros [t d] s Hs.
  cbn [link_answer uu_link]. unfold uu_answer. cbn [fst snd].
  destruct (uu_sender_handled _ _ d s Hs) as (Hi & Hpc & Hl). set (s0 := if d then _ else s) in *.
  unfold uu_sender_answer, by_senduipi. rewrite Hpc. destruct (Z.ltb_spec index 0); [lia|].
  destruct (uu_goes 0 s0) as [s'|] eqn:E; [|done]. cbn. split; [by eapply uu_inv_goes|].
  destruct s0 as [l c ss p r k m ts d0]. cbn in Hpc, Hl. subst. cbn in E. by injection E as <-.
Qed.

(** [bench.single_start = now()]. *)
Lemma uu_reads_clock left D R :
  triple (T:=uu_turn n true) (uu_sender_at UC_now left) (read_now) (fun _ => uu_sender_at UC_now left) D R.
Proof.
  apply triple_read_now; [apply uu_sender_stable|]. intros [t d] s H. cbn [link_answer uu_link]. unfold uu_answer.
  cbn [fst snd]. pose proof (uu_sender_handled _ _ d s H) as H0. set (s0 := if d then _ else s) in *.
  unfold uu_sender_answer. rewrite (proj1 (proj2 H0)). unfold by_clock. destruct (now _ _) as [v|] eqn:E; [|done].
  cbn. by do 3 eexists.
Qed.

Lemma uu_spins fuel left D :
  triple (T:=uu_turn n true) (uu_sender_at UC_spin (S left)) (uipi_uni_spin fuel)
    (fun _ => uu_sender_at UC_test left) D (fun s => uu_client s = UC_spin).
Proof.
  induction fuel as [|fuel IH]; cbn [uipi_uni_spin]; [apply triple_running; by intros s (_ & H & _)|].
  eapply (triple_bind _ _ _ (fun v s => v = 1 /\ uu_sender_at UC_test left s \/ v = 0 /\ uu_sender_at UC_spin (S left) s)).
  - intros v. case_match; [auto with halts|apply halts_ret].
  - apply triple_returning, uu_sender_sys. intros t s (Hi & Hpc & Hl). unfold uu_sender_answer.
    rewrite Hpc, bool_decide_eq_true_2 by done. destruct (uu_received s) eqn:Hr; [|right; by split_and!].
    destruct (uu_goes 0 s) as [s'|] eqn:E; [|done]. left. split; [done|]. split; [by eapply uu_inv_goes|].
    destruct s as [l c ss p r k m ts d]. cbn in Hpc, Hl, Hr. subst. cbn in E. injection E as <-. cbn. split; [done|lia].
  - intros v. destruct (Z.eqb_spec v 0) as [->|Hv].
    + eapply triple_conseq; [exact IH|by intros s [[H _]|[_ H]]|exact (fun _ _ H => H)|done|done].
    + apply triple_ret. by intros s [[_ H]|[H _]].
Qed.

Lemma halts_uu_client_loop fuel rounds index :
  halts (uipi_uni_client_loop (W:=world uni_ui_state (uu_turn n true)) fuel rounds index).
Proof.
  induction rounds; cbn [uipi_uni_client_loop]; halting.
Qed.
#[local] Hint Resolve halts_uu_client_loop : halts.

Lemma uu_client_loops fuel rounds index D :
  0 <= index ->
  triple (T:=uu_turn n true) (uu_sender_at UC_test rounds) (uipi_uni_client_loop fuel rounds index)
    (fun _ => uu_sender_at UC_test 0) D (fun s => uu_client s = UC_spin).
Proof.
  intros Hx. induction rounds as [|rounds IH]; cbn [uipi_uni_client_loop]; [by apply triple_ret|].
  eapply triple_bind; [halting|apply uu_resets|intros u].
  eapply triple_bind; [halting|apply uu_reads_clock|intros v].
  eapply triple_bind; [halting|apply (uu_sender_moves _ _ _ 0 v UC_send)|intros u1].
  { intros t s Hpc. unfold uu_sender_answer. by rewrite Hpc, bool_decide_eq_true_2. }
  { intros [l c ss p r k m ts d] s' Hpc. cbn in Hpc. subst. cbn. by intros [= <-]. }
  eapply triple_bind; [halting|by apply uu_sends|intros u2].
  eapply triple_bind; [halting|apply uu_spins|intros u3; exact IH].
Qed.

(** The sender dies only before its loop, when it cannot register. *)
Lemma uu_sender_thread fuel descriptor args :
  triple (T:=uu_turn n true) (uu_sender_at UC_test (Z.to_nat (arg_count args)))
    (uipi_uni_client_communicate fuel descriptor args)
    (fun _ => uu_sender_at UC_test 0) (uu_sender_at UC_test (Z.to_nat (arg_count args))) (fun s => uu_client s = UC_spin).
Proof.
  unfold uipi_uni_client_communicate. eapply (triple_bind _ _ _ (fun _ => uu_sender_at UC_test (Z.to_nat (arg_count args)))).
  - intros index. halting.
  - apply triple_returning, uu_sender_sys. intros t s H. unfold uu_sender_answer, by_system. by rewrite (proj1 (proj2 H)).
  - intros index. apply triple_bind_check; [done|]. intros Hx. apply uu_client_loops. by apply Z.ltb_ge.
Qed.

(** The receiver in its loop, and after it. *)
Definition uu_receiver_at (done : bool) (s : uni_ui_state) : Prop := uni_ui_inv n s /\ uu_server_done s = done.

Lemma uu_receiver_happens b e s s' : uu_receiver_at b s -> uu_happens n false e s = Some s' -> uu_receiver_at b s'.
Proof.
  intros [Hi Hd] H. split; [by eapply uu_inv_happens|].
  destruct s as [l c ss p r k m t d], e; [destruct c|]; cbn in *; repeat case_match; simplify_eq; done.
Qed.

Lemma uu_receiver_stable b : stable (T:=uu_turn n false) (uu_receiver_at b).
Proof. intros t s H. cbn. apply moves_along_inv; [|done]. intros e s1 s2. apply uu_receiver_happens. Qed.

Lemma uu_receiver_waits fuel args D :
  arg_count args = n ->
  triple (T:=uu_turn n false) (uu_receiver_at false) (uipi_uni_server_wait fuel args)
    (fun _ => uu_receiver_at true) D (uu_receiver_at false).
Proof.
  intros Hn.
  induction fuel as [|fuel IH]; cbn [uipi_uni_server_wait]; [by apply triple_running|].
  eapply (triple_bind _ _ _ (fun v s => u32 n <= v /\ uu_receiver_at true s \/ v < u32 n /\ uu_receiver_at false s)).
  - intros v. case_match; [auto with halts|apply halts_ret].
  - apply triple_returning, triple_sys; [apply uu_receiver_stable|]. intros [t d] s H.
    cbn [link_answer uu_link]. unfold uu_answer. cbn [fst snd].
    assert (H0 : uu_receiver_at false (if d then default s (uu_handles s) else s)).
    { destruct d; [|done]. destruct (uu_handles s) eqn:E; [|done]. by apply (uu_receiver_happens _ Handled s). }
    set (s0 := if d then _ else s) in *. destruct H0 as [Hi Hd]. unfold uu_receiver_answer.
    rewrite Hd, bool_decide_eq_true_2 by done. cbn [andb negb].
    destruct (Z.leb_spec (u32 n) (uu_count s0)) as [Hle|Hlt]; [|right; by split_and!].
    destruct (uu_leaves n s0) as [s'|] eqn:E; [|done]. cbn. left. split; [done|].
    split; [by eapply uni_ui_inv_step, uu_leaves_step|]. destruct s0 as [l c ss p r k m ts d0]. unfold uu_leaves in E.
    destruct d0; [done|]. destruct (u32 n <=? k); [|done]. by injection E as <-.
  - intros v. rewrite Hn. destruct (Z.ltb_spec v (u32 n)) as [Hlt|Hle].
    + eapply triple_conseq; [exact IH|by intros s [[? H]|[_ H]]; [lia|]|exact (fun _ _ H => H)|done|done].
    + apply triple_ret. intros s [[_ H]|[? H]]; [done|lia].
Qed.

End threads.

(** ** The two threads together *)
Lemma interactive_uu_spin fuel : interactive (fun W _ => uipi_uni_spin (W:=W) fuel).
Proof. induction fuel; cbn [uipi_uni_spin]; interacting. Qed.
#[local] Hint Resolve interactive_uu_spin : interactive.

Lemma interactive_uu_loop fuel rounds index : interactive (fun W _ => uipi_uni_client_loop (W:=W) fuel rounds index).
Proof. induction rounds; cbn [uipi_uni_client_loop]; unfold read_now; interacting. Qed.
#[local] Hint Resolve interactive_uu_loop : interactive.

Lemma interactive_uu_sender fuel descriptor args :
  interactive (fun W _ => uipi_uni_client_communicate (W:=W) fuel descriptor args).
Proof. unfold uipi_uni_client_communicate. interacting. Qed.

Lemma interactive_uu_receiver fuel args : interactive (fun W _ => uipi_uni_server_wait (W:=W) fuel args).
Proof. induction fuel; cbn [uipi_uni_server_wait]; interacting. Qed.

(** A run of the handler right before a call belongs to it. *)
#[export] Instance uu_choices_ok n sender : Choices uni_ui_state (uu_turn n sender).
Proof.
  refine {| link_alone (t : uu_turn n sender) := (turn_alone t.1, t.2) : uu_turn n sender;
            link_then t1 t2 := (turn_then t1.1 t2.1, t2.2) |}; try done.
  intros. cbn. apply moves_along_app.
Defined.

#[export] Instance uu_sender_beside n : Beside uni_ui_state (uu_turn n true) (uu_turn n false).
Proof.
  constructor. intros t c s r s' [es H]%(uu_answer_moves n false (turn_alone t.1, t.2) c s r s').
  by exists (mk_turn es (0, 0) (val 0), false).
Qed.

#[export] Instance uu_receiver_beside n : Beside uni_ui_state (uu_turn n false) (uu_turn n true).
Proof.
  constructor. intros t c s r s' [es H]%(uu_answer_moves n true (turn_alone t.1, t.2) c s r s').
  by exists (mk_turn es (0, 0) (val 0), false).
Qed.

#[local] Arguments uu_answer : simpl never.

(** Neither thread is ever kept from its next call. *)
Lemma uu_answers n sender c s :
  (forall t : uu_turn n sender, uu_answer n sender (turn_alone t.1, t.2) c s <> Strange) ->
  exists (t : uu_turn n sender) r s', uu_answer n sender (turn_alone t.1, t.2) c s = Answer r s'.
Proof.
  intros Hc. set (t := (mk_turn [] (0, 0) (val 0), false) : uu_turn n sender). specialize (Hc t). exists t.
  unfold uu_answer, turn_alone in *. cbn [t fst snd tn_clock tn_result] in *.
  destruct s as [l pc ss p r k m ts d]. destruct sender.
  - unfold uu_sender_answer, by_system, by_clock, by_senduipi in *. cbn [uu_client uu_received tn_clock fst snd] in *. rewrite now_zero in *.
    destruct pc, c; try done; try (by do 2 eexists); case_match; try done; try (by do 2 eexists).
    + destruct l; [done|]. by do 2 eexists.
    + destruct r; by do 2 eexists.
  - unfold uu_receiver_answer in *. destruct c; try done. cbn [uu_server_done uu_count] in *.
    destruct d; [by rewrite andb_false_r in Hc|]. case_match; [|done]. destruct (u32 n <=? k) eqn:E; [|by do 2 eexists].
    unfold uu_leaves. rewrite E. by do 2 eexists.
Qed.

(** The sender's spinning ends with its next call, when the handler runs before it. *)
Lemma uu_spin_ends n c s :
  uni_ui_inv n s -> uu_client s = UC_spin ->
  (forall t : uu_turn n true, uu_answer n true (turn_alone t.1, t.2) c s <> Strange) ->
  exists (t : uu_turn n true) r s', uu_answer n true (turn_alone t.1, t.2) c s = Answer r s' /\ uu_client s' = UC_test.
Proof.
  intros Hi Hpc Hc. set (t := (mk_turn [] (0, 0) (val 0), true) : uu_turn n true). specialize (Hc t). exists t.
  unfold uu_answer in *. cbn [t fst snd] in *. destruct s as [l pc ss p r k m ts d]. cbn in Hpc. subst.
  destruct c; try (by destruct p). cbn in Hi.
  destruct p; cbn in Hc |- *; (case_bool_decide; [|done]).
  - by do 2 eexists.
  - assert (r = true) as -> by intuition congruence. by do 2 eexists.
Qed.

Section pair.
Context (fuel_s fuel_r : nat) (descriptor : Z) (args : Arguments).
Abbreviation n := (arg_count args).

Definition uu_sender_program W `{!Kernel W} : M (process W) () := uipi_uni_client_communicate fuel_s descriptor args.
Definition uu_receiver_program W `{!Kernel W} : M (process W) () := uipi_uni_server_wait fuel_r args.

Definition uu_joint_step : relation (joint uni_ui_state) :=
  joint_step (TA:=uu_turn n true) (TB:=uu_turn n false) (uu_sender_program script) (uu_receiver_program script).
Definition uu_joint_init : joint uni_ui_state := mk_joint (uni_ui_init n) [] [].

Lemma uu_spinning_stable : stable (T:=uu_turn n true) (fun s => uu_client s = UC_spin).
Proof.
  intros t s H. cbn. apply moves_along_inv; [|done]. intros e s1 s2 H1 H2.
  destruct s1 as [l c ss p r k m ts d], e; cbn in *; repeat case_match; simplify_eq; done.
Qed.

Lemma uu_pair_sound j :
  n <= INT32_MAX -> rtc uu_joint_step uu_joint_init j ->
  rtc (uni_ui_step n) (uni_ui_init n) (j_state j) /\
  abides (T:=uu_turn n true) (uu_sender_program script) (fun _ => uu_sender_at n UC_test 0)
    (uu_sender_at n UC_test (Z.to_nat n)) (fun s => uu_client s = UC_spin) (j_first j) (j_state j) /\
  abides (T:=uu_turn n false) (uu_receiver_program script) (fun _ => uu_receiver_at n true) (fun _ => False)
    (uu_receiver_at n false) (j_second j) (j_state j).
Proof.
  intros Hn Hr. assert (Hi : uni_ui_inv n (uni_ui_init n)) by (apply uni_ui_inv_reachable; [done|apply rtc_refl]). split.
  - by apply (joint_steps (TA:=uu_turn n true) (TB:=uu_turn n false) uu_sender_program uu_receiver_program) in Hr.
  - apply (joint_sound (TA:=uu_turn n true) (TB:=uu_turn n false) uu_sender_program uu_receiver_program
      (interactive_uu_sender fuel_s descriptor args) (interactive_uu_receiver fuel_r args)
      (uu_sender_at n UC_test (Z.to_nat n)) (uu_receiver_at n false)) with (s0 := uni_ui_init n); try done.
    + by apply uu_sender_thread.
    + by apply uu_receiver_waits.
    + intros a. by apply uu_sender_stable.
    + by apply uu_sender_stable.
    + apply uu_spinning_stable.
    + intros a. by apply uu_receiver_stable.
    + apply stable_False.
    + by apply uu_receiver_stable.
Qed.

End pair.

(** ** Properties *)

(** C13: the two threads of uintrfd-uni work together.  In whatever order they make
    their calls, and whenever the handler runs between them, they only make
    moves of the protocol and have no undefined behaviour.  The sender dies only
    when it cannot register, before it has sent anything; once either thread has
    returned the handler has measured every timestamp the sender took, in order
    and once, and there are as many as messages.  Each can make its next call at
    any time, and the sender's spinning ends with its next load when the
    interrupt is delivered before it. *)
Theorem uintrfd_uni_together fuel_s fuel_r descriptor args j :
  0 <= arg_count args <= INT32_MAX ->
  rtc (uu_joint_step fuel_s fuel_r descriptor args) (uu_joint_init args) j ->
  let sender := uu_sender_program fuel_s descriptor args script in
  let receiver := uu_receiver_program fuel_r args script in
  let complete s := uu_measured s = uu_sent s /\ Z.of_nat (length (uu_sent s)) = arg_count args in
  let moves t j' :=
    joint_move (TA:=uu_turn (arg_count args) true) (TB:=uu_turn (arg_count args) false) sender receiver t j = Some j' in
  rtc (uni_ui_step (arg_count args)) (uni_ui_init (arg_count args)) (j_state j) /\
  (next_call sender (j_first j) = None ->
     match outcome_on sender (j_first j) with
     | Done _ => complete (j_state j)
     | Died _ => uu_sent (j_state j) = []
     | Undefined => False
     | Running => uu_client (j_state j) = UC_spin
     end) /\
  (next_call receiver (j_second j) = None ->
     match outcome_on receiver (j_second j) with
     | Done _ => complete (j_state j)
     | Running => True
     | _ => False
     end) /\
  (next_call sender (j_first j) <> None -> exists t j', moves (inl t) j' /\
     (uu_client (j_state j) = UC_spin -> uu_client (j_state j') = UC_test)) /\
  (next_call receiver (j_second j) <> None -> exists t j', moves (inr t) j').
Proof.
  intros [H0 Hn] Hr sender receiver complete moves.
  destruct (uu_pair_sound fuel_s fuel_r descriptor args j Hn Hr) as (Hs & Ha & Hb).
  pose proof (uni_ui_inv_reachable _ _ Hn Hs) as Hi. fold sender in Ha. fold receiver in Hb. unfold abides in Ha, Hb.
  split; [done|]. destruct j as [s ra rb]. cbn [j_state j_first j_second] in *. split_and!.
  - intros E. rewrite E in Ha. destruct s as [l c ss p r k m ts d]. unfold complete.
    destruct (outcome_on sender ra) as [[]| | |]; try done; destruct Ha as (_ & Hpc & Hl); cbn in *; subst.
    + destruct Hi as (_ & _ & _ & -> & _ & Hl). split; [done|lia].
    + destruct Hi as (_ & _ & _ & -> & _ & Hl). destruct m; [done|]. cbn in Hl. lia.
  - intros E. rewrite E in Hb. destruct s as [l c ss p r k m ts d]. unfold complete.
    destruct (outcome_on receiver rb) as [[]| | |]; try done. destruct Hb as [_ Hd]. cbn in *. subst.
    destruct Hi as (-> & Hl & Hd & Hc). specialize (Hd eq_refl). rewrite u32_small in Hd by (unfold INT32_MAX in Hn; lia).
    destruct c; cbn in Hc; intuition (subst; done || lia).
  - intros E. unfold moves. cbn [joint_move]. destruct (next_call sender ra) as [c|]; [|done].
    destruct (decide (uu_client s = UC_spin)) as [Hpc|Hpc].
    + destruct (uu_spin_ends _ c s Hi Hpc Ha) as (t & r & s' & Ht & Hs'). exists t. eexists. cbn. rewrite Ht. by split.
    + destruct (uu_answers _ true c s Ha) as (t & r & s' & Ht). exists t. eexists. cbn. rewrite Ht. by split.
  - intros E. unfold moves. cbn [joint_move]. destruct (next_call receiver rb) as [c|]; [|done].
    destruct (uu_answers _ false c s Hb) as (t & r & s' & Ht). exists t. eexists. cbn. by rewrite Ht.
Qed.

(** ** Witness *)

(** Two messages.  The receiver looks at the counter while it is 0, and again
    after the second handler, which runs before the sender's last load. *)
Definition uu_schedule : list (uu_turn 2 true + uu_turn 2 false) :=
  let c v d := inl (mk_turn [] (1700000000, 0) (val v), d) in
  let s d := inr (mk_turn [] (0, 0) (val 0), d) in
  [c 3 false; s false; c 0 false; c 0 false; c 0 false; c 0 false; c 0 false; s true; c 0 false;
   c 0 false; c 0 false; c 0 false; c 0 false; c 0 true; s false].

Definition uu_pair_run : joint uni_ui_state :=
  state_along (joint_move (TA:=uu_turn 2 true) (TB:=uu_turn 2 false)
    (uu_sender_program 5 4 (mk_Arguments 1 2) script) (uu_receiver_program 5 (mk_Arguments 1 2) script))
    uu_schedule (uu_joint_init (mk_Arguments 1 2)).

Lemma uintrfd_uni_together_witness :
  outcome_on (uu_sender_program 5 4 (mk_Arguments 1 2) script) (j_first uu_pair_run) = Done () /\
  outcome_on (uu_receiver_program 5 (mk_Arguments 1 2) script) (j_second uu_pair_run) = Done () /\
  uu_measured (j_state uu_pair_run) = [1700000000000000000; 1700000000000000000] /\
  rtc (uni_ui_step 2) (uni_ui_init 2) (j_state uu_pair_run).
Proof.
  split; [by vm_compute|]. split; [by vm_compute|]. split; [by vm_compute|].
  refine (proj1 (uintrfd_uni_together 5 5 4 (mk_Arguments 1 2) uu_pair_run _ _)); [by vm_compute|].
  apply state_along_rtc; [intros t a b; apply joint_move_step|by vm_compute; eexists].
Defined.
