(* ===== verification/Arguments.v ===== *)
(** * common/arguments.c: the command line

    [parse_arguments] and [check_flag] over a model of the C library's
    [getopt_long] and [atoi] in the modes the programs use: an option string
    that starts with ['+'] (scanning stops at the first argument that is not
    an option) and [':'] (no messages, [':'] for a missing argument). *)
From S2P Require Import Prelude Benchmarks.
From Stdlib Require Import Ascii String.
#[local] Open Scope string_scope.
#[local] Open Scope Z_scope.

(** ** The C library *)

Record long_option := mk_long_option { lo_name : string; lo_has_arg : bool; lo_val : ascii }.

(** What a call of [getopt_long] returns: an option with [optarg], ['?'],
    [':'], or -1. *)
Inductive getopt_result :=
  | Opt (c : ascii) (optarg : option string)
  | Unknown
  | MissingArgument
  | Finished.

(** Between calls: the rest of the current cluster of short options
    ([nextchar]) and the arguments from [optind] on. *)
Record getopt_state := mk_getopt_state { nextchar : string; rest : list string }.

(** The option characters: each may be followed by [':'].  The leading ['+']
    and [':'] have been removed. *)
Fixpoint short_lookup (c : ascii) (optstring : string) : option bool :=
  match optstring with
  | EmptyString => None
  | String d s =>
      if Ascii.eqb c d && negb (Ascii.eqb c ":")
      then Some (match s with String ":" _ => true | _ => false end)
      else short_lookup c s
  end.

Fixpoint is_prefix (p s : string) : bool :=
  match p, s with
  | EmptyString, _ => true
  | String a p, String b s => Ascii.eqb a b && is_prefix p s
  | _, EmptyString => false
  end.

(** The text before and after the first ['=']. *)
Fixpoint split_equals (s : string) : string * option string :=
  match s with
  | EmptyString => (EmptyString, None)
  | String "=" s => (EmptyString, Some s)
  | String a s => let '(n, v) := split_equals s in (String a n, v)
  end.

(** An exact name, or the only option with that prefix. *)
Definition long_lookup (name : string) (opts : list long_option) : option long_option :=
  match List.find (fun o => String.eqb (lo_name o) name) opts with
  | Some o => Some o
  | None =>
      match filter (fun o => is_prefix name (lo_name o) = true) opts with
      | [o] => Some o
      | _ => None
      end
  end.

Definition short_step (optstring : string) (c : ascii) (cluster : string) (args : list string)
    : getopt_result * getopt_state :=
  match short_lookup c optstring with
  | None => (Unknown, mk_getopt_state cluster args)
  | Some false => (Opt c None, mk_getopt_state cluster args)
  | Some true =>
      match cluster, args with
      | String _ _, _ => (Opt c (Some cluster), mk_getopt_state "" args)
      | EmptyString, a :: args => (Opt c (Some a), mk_getopt_state "" args)
      | EmptyString, [] => (MissingArgument, mk_getopt_state "" [])
      end
  end.

Definition long_step (opts : list long_option) (text : string) (args : list string)
    : getopt_result * getopt_state :=
  let '(name, value) := split_equals text in
  match long_lookup name opts with
  | None => (Unknown, mk_getopt_state "" args)
  | Some o =>
      match lo_has_arg o, value, args with
      | false, None, _ => (Opt (lo_val o) None, mk_getopt_state "" args)
      | false, Some _, _ => (Unknown, mk_getopt_state "" args)
      | true, Some v, _ => (Opt (lo_val o) (Some v), mk_getopt_state "" args)
      | true, None, a :: args => (Opt (lo_val o) (Some a), mk_getopt_state "" args)
      | true, None, [] => (MissingArgument, mk_getopt_state "" [])
      end
  end.

Definition getopt_long (optstring : string) (opts : list long_option) (s : getopt_state)
    : getopt_result * getopt_state :=
  match nextchar s with
  | String c cluster => short_step optstring c cluster (rest s)
  | EmptyString =>
      match rest s with
      | [] => (Finished, s)
      | a :: args =>
          match a with
          | String "-" (String "-" EmptyString) => (Finished, mk_getopt_state "" args)
          | String "-" (String "-" text) => long_step opts text args
          | String "-" (String c cluster) => short_step optstring c cluster args
          | _ => (Finished, s)
          end
      end
  end.

(** [atoi] as [strtol] in base 10, converted to [int]. *)
Definition LONG_MAX : Z := 2 ^ 63 - 1.
Definition LONG_MIN : Z := - 2 ^ 63.

Definition digit (c : ascii) : option Z :=
  let n := Z.of_nat (nat_of_ascii c) in
  if (48 <=? n) && (n <=? 57) then Some (n - 48) else None.

Definition is_space (c : ascii) : bool :=
  let n := Z.of_nat (nat_of_ascii c) in (n =? 32) || ((9 <=? n) && (n <=? 13)).

Fixpoint digits (s : string) (acc : Z) : Z :=
  match s with
  | String c s => match digit c with Some d => digits s (10 * acc + d) | None => acc end
  | EmptyString => acc
  end.

Definition strtol_sign (s : string) : Z :=
  let v := match s with
           | String "-" s => - digits s 0
           | String "+" s => digits s 0
           | _ => digits s 0
           end in
  Z.max LONG_MIN (Z.min LONG_MAX v).

Fixpoint strtol (s : string) : Z :=
  match s with
  | String c s' => if is_space c then strtol s' else strtol_sign s
  | EmptyString => strtol_sign s
  end.

Definition atoi (s : string) : Z := to_i32 (strtol s).

(** ** common/arguments.c *)

Definition DEFAULT_COUNT : Z := 1000.
Definition DEFAULT_SIZE : Z := 4096.

Definition parse_long_options : list long_option :=
  [mk_long_option "size" true "s"; mk_long_option "count" true "c"].

(** [case 's': ...; case 'c': ...; default: continue]. *)
Definition apply_option (arguments : Arguments) (option : getopt_result) : Arguments :=
  match option with
  | Opt "s" (Some optarg) => mk_Arguments (atoi optarg) (arg_count arguments)
  | Opt "c" (Some optarg) => mk_Arguments (arg_size arguments) (atoi optarg)
  | _ => arguments
  end.

Fixpoint parse_loop (fuel : nat) (arguments : Arguments) (s : getopt_state) : outcome Arguments :=
  match fuel with
  | O => Running
  | S fuel =>
      let '(option, s) := getopt_long "s:c:" parse_long_options s in
      match option with
      | Finished => Done arguments
      | _ => parse_loop fuel (apply_option arguments option) s
      end
  end.

(** The characters and arguments left, which bound the calls. *)
Definition getopt_size (s : getopt_state) : nat :=
  String.length (nextchar s) + sum_list_with (fun a => S (String.length a)) (rest s).

(** [argv] without the program's name. *)
Definition parse_arguments (argv : list string) : outcome Arguments :=
  let s := mk_getopt_state "" argv in
  parse_loop (S (getopt_size s)) (mk_Arguments DEFAULT_SIZE DEFAULT_COUNT) s.

Fixpoint check_loop (fuel : nat) (flag : string) (c : ascii) (optstring : string) (s : getopt_state)
    : outcome bool :=
  match fuel with
  | O => Running
  | S fuel =>
      let '(option, s) := getopt_long optstring [mk_long_option flag false c] s in
      match option with
      | Opt d _ => if Ascii.eqb d c then Done true else check_loop fuel flag c optstring s
      | Finished => Done false
      | _ => check_loop fuel flag c optstring s
      end
  end.

(** [short_flag] has three characters and no terminator: [beyond] is what
    follows it on the stack, up to a null byte. *)
Definition check_flag (beyond : string) (flag : string) (argv : list string) : outcome bool :=
  match flag with
  | EmptyString => Undefined
  | String c _ =>
      let s := mk_getopt_state "" argv in
      check_loop (S (getopt_size s)) flag c (String c beyond) s
  end.

Definition print_usage {A} : outcome A := Died "Usage: fifos -s/--size <bytes> -c/--count <number>".

(** ** Examples *)

Example parse_ex1 : parse_arguments ["-s"; "100"; "--count=7"; "-c8x"; "file"; "-s1"]
  = Done (mk_Arguments 100 8).
Proof. reflexivity. Qed.
Example parse_ex2 : parse_arguments ["-x"; "--si"; " -12"; "--count"] = Done (mk_Arguments (-12) 1000).
Proof. reflexivity. Qed.
Example check_ex1 : check_flag "" "busy" ["--busy"; "-s"; "100"] = Done true.
Proof. reflexivity. Qed.
Example check_ex2 : check_flag "" "busy" ["-s"; "100"; "--busy"] = Done false.
Proof. reflexivity. Qed.

(** ** Lemmas *)

Lemma short_step_size optstring c cluster args o s :
  short_step optstring c cluster args = (o, s) ->
  (getopt_size s <= String.length cluster + getopt_size (mk_getopt_state "" args))%nat.
Proof.
  unfold short_step, getopt_size. intros H.
  destruct (short_lookup c optstring) as [[]|]; [|simplify_eq; simpl; lia..].
  destruct cluster, args; simplify_eq; simpl; lia.
Qed.

Lemma long_step_size opts text args o s :
  long_step opts text args = (o, s) -> (getopt_size s <= getopt_size (mk_getopt_state "" args))%nat.
Proof.
  unfold long_step, getopt_size. destruct (split_equals text) as [name value].
  destruct (long_lookup name opts) as [lo|]; [|intros; by simplify_eq].
  destruct (lo_has_arg lo), value, args; intros; simplify_eq; simpl; lia.
Qed.

(** Every call that does not finish consumes something. *)
Lemma getopt_long_size optstring opts s o s' :
  getopt_long optstring opts s = (o, s') -> o <> Finished -> (getopt_size s' < getopt_size s)%nat.
Proof.
  destruct s as [next args]. unfold getopt_long. simpl. intros H Ho. destruct next as [|c cluster].
  - destruct args as [|a args]; [by simplify_eq|].
    destruct a as [|d a]; [by simplify_eq|].
    assert (Hs : forall c cl, short_step optstring c cl args = (o, s') ->
      (String.length (String c cl) <= String.length a)%nat ->
      (getopt_size s' < getopt_size (mk_getopt_state "" (String d a :: args)))%nat).
    { intros c cl E Hl. apply short_step_size in E. unfold getopt_size in *. simpl in *. lia. }
    assert (Hl : forall text, long_step opts text args = (o, s') ->
      (getopt_size s' < getopt_size (mk_getopt_state "" (String d a :: args)))%nat).
    { intros text E. apply long_step_size in E. unfold getopt_size in *. simpl in *. lia. }
    destruct a as [|c cl]; [repeat case_match; by simplify_eq|].
    destruct (decide (d = "-"%char)) as [->|Hd].
    + destruct (decide (c = "-"%char)) as [->|Hc].
      * destruct cl; [by simplify_eq|]. by eapply Hl.
      * eapply (Hs c cl); [|simpl; lia]. clear -H Hc.
        destruct c as [[] [] [] [] [] [] [] []]; try done; destruct cl; done.
    + exfalso. apply Ho. destruct d as [[] [] [] [] [] [] [] []]; simplify_eq; try done.
  - apply short_step_size in H. unfold getopt_size in *. simpl in *. lia.
Qed.

Lemma parse_loop_done fuel : forall arguments s,
  (getopt_size s < fuel)%nat -> exists a, parse_loop fuel arguments s = Done a.
Proof.
  induction fuel as [|fuel IH]; intros arguments s Hf; [lia|]. cbn [parse_loop].
  destruct (getopt_long _ _ s) as [o s'] eqn:E. pose proof (getopt_long_size _ _ _ _ _ E) as Hs.
  destruct o; try (apply IH; specialize (Hs ltac:(done)); lia). by eexists.
Qed.

Lemma check_loop_done fuel flag c optstring : forall s,
  (getopt_size s < fuel)%nat -> exists b, check_loop fuel flag c optstring s = Done b.
Proof.
  induction fuel as [|fuel IH]; intros s Hf; [lia|]. cbn [check_loop].
  destruct (getopt_long _ _ s) as [o s'] eqn:E. pose proof (getopt_long_size _ _ _ _ _ E) as Hs.
  destruct o; try (apply IH; specialize (Hs ltac:(done)); lia); [|by eexists].
  destruct (Ascii.eqb c0 c); [by eexists|]. apply IH. specialize (Hs ltac:(done)). lia.
Qed.

(** More fuel than needed changes nothing. *)
Lemma parse_loop_fuel fuel : forall fuel' arguments s a,
  parse_loop fuel arguments s = Done a -> (fuel <= fuel')%nat -> parse_loop fuel' arguments s = Done a.
Proof.
  induction fuel as [|fuel IH]; intros fuel' arguments s a H Hle; [done|].
  destruct fuel' as [|fuel']; [lia|]. cbn [parse_loop] in *.
  destruct (getopt_long _ _ s) as [o s']. destruct o; try done; (apply IH; [done|lia]).
Qed.

Lemma check_loop_fuel fuel flag c optstring : forall fuel' s b,
  check_loop fuel flag c optstring s = Done b -> (fuel <= fuel')%nat ->
  check_loop fuel' flag c optstring s = Done b.
Proof.
  induction fuel as [|fuel IH]; intros fuel' s b H Hle; [done|].
  destruct fuel' as [|fuel']; [lia|]. cbn [check_loop] in *.
  destruct (getopt_long _ _ s) as [o s']. destruct o; try done; try (apply IH; [done|lia]).
  destruct (Ascii.eqb c0 c); [done|]. apply IH; [done|lia].
Qed.

(** The result does not depend on the fuel once there is enough. *)
Lemma parse_arguments_step arguments s o s' :
  getopt_long "s:c:" parse_long_options s = (o, s') -> o <> Finished ->
  parse_loop (S (getopt_size s)) arguments s
    = parse_loop (S (getopt_size s')) (apply_option arguments o) s'.
Proof.
  intros E Ho. pose proof (getopt_long_size _ _ _ _ _ E Ho) as Hs.
  cbn [parse_loop]. rewrite E.
  destruct (parse_loop_done (S (getopt_size s')) (apply_option arguments o) s') as [a Ha]; [lia|].
  assert (Hf : parse_loop (getopt_size s) (apply_option arguments o) s' = Done a)
    by (eapply parse_loop_fuel; [exact Ha|lia]).
  rewrite <- Hf in Ha. rewrite Hf in Ha. cbn [parse_loop] in Ha.
  destruct o; try done; by rewrite Hf.
Qed.

(** ** Settings *)

Inductive spelling := ShortSeparate | ShortAttached | LongSeparate | LongEquals.

Record setting := mk_setting { st_count : bool; st_spelling : spelling; st_value : string }.

Definition short_name (st : setting) : string := if st_count st then "c" else "s".
Definition long_name (st : setting) : string := if st_count st then "count" else "size".

(** The arguments that spell a setting. *)
Definition render (st : setting) : list string :=
  match st_spelling st with
  | ShortSeparate => ["-" +:+ short_name st; st_value st]
  | ShortAttached => ["-" +:+ short_name st +:+ st_value st]
  | LongSeparate => ["--" +:+ long_name st; st_value st]
  | LongEquals => ["--" +:+ long_name st +:+ "=" +:+ st_value st]
  end.

(** An attached value is not empty. *)
Definition well_spelled (st : setting) : Prop := st_spelling st = ShortAttached -> st_value st <> "".

Definition apply_setting (a : Arguments) (st : setting) : Arguments :=
  if st_count st then mk_Arguments (arg_size a) (atoi (st_value st))
  else mk_Arguments (atoi (st_value st)) (arg_count a).

(** Scanning ends here: no argument, ["--"], or one that is not an option. *)
Definition operand (a : string) : bool :=
  match a with
  | String "-" (String "-" EmptyString) => true
  | String "-" (String _ _) => false
  | _ => true
  end.

Definition ends (args : list string) : Prop := match args with [] => True | a :: _ => operand a = true end.

Lemma getopt_operand optstring opts args :
  ends args -> exists s, getopt_long optstring opts (mk_getopt_state "" args) = (Finished, s).
Proof.
  intros H. unfold getopt_long. cbn [nextchar Arguments.rest]. destruct args as [|a args]; [by eexists|].
  simpl in H. unfold operand in H. repeat case_match; simplify_eq; by eexists.
Qed.

Lemma getopt_setting st args :
  well_spelled st ->
  getopt_long "s:c:" parse_long_options (mk_getopt_state "" (render st ++ args)) =
    (Opt (if st_count st then "c"%char else "s"%char) (Some (st_value st)), mk_getopt_state "" args).
Proof.
  intros Hw. destruct st as [b sp v]. unfold render, well_spelled in *. simpl in Hw.
  destruct sp, b; cbn; try reflexivity; destruct v; try reflexivity; by destruct Hw.
Qed.

Lemma parse_settings_loop sts : forall arguments tail,
  Forall well_spelled sts -> ends tail ->
  parse_loop (S (getopt_size (mk_getopt_state "" (List.concat (render <$> sts) ++ tail)))) arguments
    (mk_getopt_state "" (List.concat (render <$> sts) ++ tail)) = Done (foldl apply_setting arguments sts).
Proof.
  induction sts as [|st sts IH]; intros arguments tail Hw Ht.
  - cbn [fmap list_fmap List.concat app foldl]. cbn [parse_loop].
    destruct (getopt_operand "s:c:" parse_long_options tail Ht) as [s ->]. done.
  - inversion Hw as [|? ? Hst Hsts]; subst. rewrite fmap_cons. cbn [List.concat foldl]. rewrite <- app_assoc.
    rewrite (parse_arguments_step _ _ _ _ (getopt_setting st _ Hst)) by done.
    rewrite IH by done. by destruct st as [[] sp v].
Qed.

(** A cluster without the flag's character is skipped, character by
    character. *)
Fixpoint mentions (c : ascii) (s : string) : bool :=
  match s with EmptyString => false | String d s => Ascii.eqb d c || mentions c s end.

Lemma getopt_size_cluster w args :
  getopt_size (mk_getopt_state w args) = (String.length w + getopt_size (mk_getopt_state "" args))%nat.
Proof. reflexivity. Qed.

Lemma check_skip_cluster flag c w : forall args,
  c <> ":"%char -> mentions c w = false ->
  check_loop (S (getopt_size (mk_getopt_state w args))) flag c (String c "") (mk_getopt_state w args)
    = check_loop (S (getopt_size (mk_getopt_state "" args))) flag c (String c "") (mk_getopt_state "" args).
Proof.
  induction w as [|d w IH]; intros args Hc Hm; [done|]. simpl in Hm. apply orb_false_elim in Hm as [Hd Hm].
  rewrite <- (IH args Hc Hm), (getopt_size_cluster (String d w)), (getopt_size_cluster w).
  cbn [String.length plus]. cbn [check_loop getopt_long nextchar Arguments.rest].
  unfold short_step. cbn [short_lookup]. rewrite Hd. done.
Qed.

(** An argument before the flag that [check_flag] looks at and passes over. *)
Inductive passed (flag : string) (c : ascii) : string -> Prop :=
  | Passed_cluster d w :
      d <> "-"%char -> mentions c (String d w) = false -> passed flag c (String "-" (String d w))
  | Passed_long text :
      text <> "" -> is_prefix (split_equals text).1 flag = false ->
      passed flag c (String "-" (String "-" text)).

Lemma check_skip flag c a args :
  c <> ":"%char -> passed flag c a ->
  check_loop (S (getopt_size (mk_getopt_state "" (a :: args)))) flag c (String c "") (mk_getopt_state "" (a :: args))
    = check_loop (S (getopt_size (mk_getopt_state "" args))) flag c (String c "") (mk_getopt_state "" args).
Proof.
  intros Hc Hp. destruct Hp as [d w Hd Hm|text Ht Hpre].
  - rewrite <- (check_skip_cluster flag c (String d w) args Hc Hm).
    destruct (check_loop_done (S (getopt_size (mk_getopt_state (String d w) args))) flag c (String c "")
      (mk_getopt_state (String d w) args)) as [b Hb]; [lia|].
    rewrite Hb. apply (check_loop_fuel (S (getopt_size (mk_getopt_state (String d w) args))));
      [|unfold getopt_size; simpl; lia].
    rewrite <- Hb. cbn [check_loop]. f_equal.
    assert (E : getopt_long (String c "") [mk_long_option flag false c] (mk_getopt_state "" (String "-" (String d w) :: args))
      = getopt_long (String c "") [mk_long_option flag false c] (mk_getopt_state (String d w) args)).
    { unfold getopt_long. cbn [nextchar Arguments.rest]. clear -Hd.
      destruct d as [[] [] [] [] [] [] [] []]; try done; by destruct w. }
    by rewrite E.
  - destruct (check_loop_done (S (getopt_size (mk_getopt_state "" args))) flag c (String c "")
      (mk_getopt_state "" args)) as [b Hb]; [lia|]. rewrite Hb.
    assert (E : getopt_long (String c "") [mk_long_option flag false c]
      (mk_getopt_state "" (String "-" (String "-" text) :: args)) = (Unknown, mk_getopt_state "" args)).
    { unfold getopt_long. cbn [nextchar Arguments.rest]. destruct text as [|x text]; [done|].
      unfold long_step. destruct (split_equals (String x text)) as [name value]. simpl in Hpre.
      unfold long_lookup. cbn [List.find lo_name].
      assert (Hne : String.eqb flag name = false).
      { apply String.eqb_neq. intros ->. clear -Hpre. induction name as [|y name IH]; [done|].
        simpl in Hpre. rewrite Ascii.eqb_refl in Hpre. auto. }
      rewrite Hne. unfold filter, list_filter. rewrite decide_False by (simpl; by rewrite Hpre). done. }
    cbn [check_loop]. rewrite E. apply (check_loop_fuel (S (getopt_size (mk_getopt_state "" args)))); [done|].
    unfold getopt_size. simpl. lia.
Qed.

(** Decimal numerals. *)
Definition digit_char (d : Z) : ascii := ascii_of_nat (Z.to_nat (48 + d)).

Fixpoint decimal (ds : list Z) (tail : string) : string :=
  match ds with [] => tail | d :: ds => String (digit_char d) (decimal ds tail) end.

Definition decimal_value (ds : list Z) : Z := foldl (fun acc d => 10 * acc + d) 0 ds.

Definition no_digit (tail : string) : Prop :=
  match tail with EmptyString => True | String c _ => digit c = None end.

Lemma digit_char_nat d : 0 <= d <= 9 -> nat_of_ascii (digit_char d) = Z.to_nat (48 + d).
Proof. intros Hd. unfold digit_char. apply nat_ascii_embedding. lia. Qed.

Lemma digit_digit_char d : 0 <= d <= 9 -> digit (digit_char d) = Some d.
Proof.
  intros Hd. unfold digit. rewrite digit_char_nat by done. rewrite Z2Nat.id by lia.
  rewrite (proj2 (Z.leb_le 48 (48 + d))), (proj2 (Z.leb_le (48 + d) 57)) by lia. simpl. f_equal. lia.
Qed.

Lemma digits_decimal ds : forall tail acc,
  Forall (fun d => 0 <= d <= 9) ds -> no_digit tail ->
  digits (decimal ds tail) acc = foldl (fun acc d => 10 * acc + d) acc ds.
Proof.
  induction ds as [|d ds IH]; intros tail acc Hd Ht.
  - simpl. destruct tail as [|c tail]; [done|]. simpl in Ht. cbn [digits]. by rewrite Ht.
  - inversion Hd; subst. cbn [decimal digits foldl]. rewrite digit_digit_char by done. by apply IH.
Qed.

Lemma decimal_value_nonneg ds acc :
  0 <= acc -> Forall (fun d => 0 <= d <= 9) ds -> 0 <= foldl (fun acc d => 10 * acc + d) acc ds.
Proof. intros Ha Hd. revert acc Ha. induction Hd; intros acc Ha; simpl; [done|]. apply IHHd. lia. Qed.

(** A digit is neither a space nor a sign. *)
Lemma strtol_decimal d ds tail :
  0 <= d <= 9 -> strtol (decimal (d :: ds) tail) = strtol_sign (decimal (d :: ds) tail) /\
  strtol_sign (decimal (d :: ds) tail) = Z.max LONG_MIN (Z.min LONG_MAX (digits (decimal (d :: ds) tail) 0)).
Proof.
  intros Hd. cbn [decimal]. assert (d = 0 \/ d = 1 \/ d = 2 \/ d = 3 \/ d = 4 \/ d = 5 \/ d = 6 \/ d = 7 \/
    d = 8 \/ d = 9) as Hcase by lia.
  destruct Hcase as [->|[->|[->|[->|[->|[->|[->|[->|[->| ->]]]]]]]]]; by split.
Qed.

(** ** Properties *)

(** [parse_arguments] terminates on every command line, and so does
    [check_flag], whatever follows its option string in memory. *)
Theorem command_line_total argv beyond c w :
  (exists a, parse_arguments argv = Done a) /\ (exists b, check_flag beyond (String c w) argv = Done b).
Proof.
  split; [apply parse_loop_done; lia|apply check_loop_done; lia].
Qed.

(** C30: settings round-trip.  A command line that spells any sequence of sizes
    and counts, separated or attached, short or long, followed by the end, by
    ["--"] or by an operand, sets each value to [atoi] of its last spelling;
    the others keep the defaults 4096 and 1000. *)
Theorem parse_arguments_settings sts tail :
  Forall well_spelled sts -> ends tail ->
  parse_arguments (List.concat (render <$> sts) ++ tail) =
    Done (foldl apply_setting (mk_Arguments DEFAULT_SIZE DEFAULT_COUNT) sts).
Proof. intros Hw Ht. apply parse_settings_loop; done. Qed.

(** Where [check_flag] looks.  If what follows the option string in memory
    is a null byte, the flag is found, in its long or short spelling, after
    arguments that are other options; but the scan ends at the first operand,
    so that the flag is not found after an option with a separate value. *)
Theorem check_flag_scan c w pre post :
  let flag := String c w in
  c <> ":"%char -> c <> "-"%char -> split_equals flag = (flag, None) -> Forall (passed flag c) pre ->
  check_flag "" flag (pre ++ ("--" +:+ flag) :: post) = Done true /\
  check_flag "" flag (pre ++ String "-" (String c "") :: post) = Done true /\
  (ends post -> check_flag "" flag (pre ++ post) = Done false).
Proof.
  intros flag Hc Hd Heq Hpre.
  assert (Hskip : forall args, check_flag "" flag (pre ++ args) = check_flag "" flag args).
  { intros args. induction Hpre as [|a pre Ha _ IH]; [done|]. rewrite <- IH. by apply check_skip. }
  rewrite !Hskip. split_and!.
  - unfold check_flag, flag. cbn [check_loop].
    assert (E : getopt_long (String c "") [mk_long_option (String c w) false c]
      (mk_getopt_state "" (("--" +:+ String c w) :: post)) = (Opt c None, mk_getopt_state "" post)).
    { change (getopt_long _ _ _) with (long_step [mk_long_option (String c w) false c] (String c w) post).
      unfold long_step. unfold flag in Heq. rewrite Heq. unfold long_lookup. cbn [List.find lo_name].
      by rewrite String.eqb_refl. }
    rewrite E. by rewrite Ascii.eqb_refl.
  - unfold check_flag, flag. cbn [check_loop].
    assert (E : getopt_long (String c "") [mk_long_option (String c w) false c]
      (mk_getopt_state "" (String "-" (String c "") :: post)) = (Opt c None, mk_getopt_state "" post)).
    { unfold getopt_long. cbn [nextchar Arguments.rest].
      assert (Es : short_step (String c "") c "" post = (Opt c None, mk_getopt_state "" post)).
      { unfold short_step. cbn [short_lookup]. rewrite Ascii.eqb_refl.
        destruct (Ascii.eqb_spec c ":"); done. }
      rewrite <- Es. clear -Hd. destruct c as [[] [] [] [] [] [] [] []]; done. }
    rewrite E. by rewrite Ascii.eqb_refl.
  - intros Ht. unfold check_flag, flag. cbn [check_loop].
    destruct (getopt_operand (String c "") [mk_long_option (String c w) false c] post Ht) as [s ->]. done.
Qed.

(** The numbers of the command line.  A decimal numeral, after spaces and
    up to the first other character, has its value capped at [LONG_MAX] and
    then reduced to 32 bits: above [INT32_MAX] the size or count silently
    becomes another number. *)
Theorem atoi_decimal d ds tail :
  Forall (fun d => 0 <= d <= 9) (d :: ds) -> no_digit tail ->
  atoi (decimal (d :: ds) tail) = to_i32 (Z.min LONG_MAX (decimal_value (d :: ds))) /\
  (decimal_value (d :: ds) <= INT32_MAX -> atoi (decimal (d :: ds) tail) = decimal_value (d :: ds)) /\
  atoi (String " " (decimal (d :: ds) tail)) = atoi (decimal (d :: ds) tail).
Proof.
  intros Hd Ht. assert (H0 : 0 <= d <= 9) by (by inversion Hd).
  destruct (strtol_decimal d ds tail H0) as [E1 E2].
  assert (Hv : 0 <= decimal_value (d :: ds)) by (apply decimal_value_nonneg; done).
  assert (E : atoi (decimal (d :: ds) tail) = to_i32 (Z.min LONG_MAX (decimal_value (d :: ds)))).
  { unfold atoi. rewrite E1, E2, digits_decimal by done. fold (decimal_value (d :: ds)).
    rewrite Z.max_r; [done|]. unfold LONG_MIN, LONG_MAX. lia. }
  split; [done|]. split; [|done]. intros Hle. rewrite E.
  rewrite Z.min_r by (unfold LONG_MAX, INT32_MAX in *; lia).
  apply to_i32_small. unfold INT32_MIN. lia.
Qed.

(** ** Witnesses *)

Lemma parse_arguments_settings_witness :
  parse_arguments ["-s64"; "--count=12"; "--size"; "128"; "input"; "-s1"] = Done (mk_Arguments 128 12).
Proof.
  apply (parse_arguments_settings
    [mk_setting false ShortAttached "64"; mk_setting true LongEquals "12"; mk_setting false LongSeparate "128"]
    ["input"; "-s1"]).
  - repeat constructor; done.
  - done.
Defined.

(** [-s 100 --busy] is not seen as busy. *)
Lemma check_flag_scan_witness :
  check_flag "" "busy" ["-s"; "100"; "--busy"] = Done false.
Proof.
  apply (check_flag_scan "b" "usy" ["-s"] ["100"; "--busy"]); try done.
  constructor; [|constructor]. by apply (Passed_cluster _ _ "s" "").
Defined.

Lemma atoi_decimal_witness : atoi "4294967396" = 100.
Proof.
  destruct (atoi_decimal 4 [2; 9; 4; 9; 6; 7; 3; 9; 6] "") as [H _].
  - repeat constructor; lia.
  - done.
  - exact H.
Defined.
