(* ===== verification/Process.v ===== *)
(** * common/process.c and common/parent.c: starting the two programs

    Building the names of the server and the client, the argument vectors, the
    forks, and the search for the build directory.  A write beyond a fixed
    buffer is undefined. *)
From S2P Require Import Prelude Kernel Signals Arguments.
From Stdlib Require String.

(** ** find_build_path *)

(** A C string as its characters. *)
Definition chars (s : string) : list Z := (fun c => Z.of_nat (Ascii.nat_of_ascii c)) <$> String.list_ascii_of_string s.

Definition IPC_BENCH : list Z := chars "ipc-bench".
Definition BUILD_PATH : list Z := chars "/build/source".

(** [for (--right; left >= path; --left, --right)]: [l] is the index of the
    window, [None] when it is before the path; returns [right]. *)
Fixpoint search_loop (path : list Z) (l : nat) : nat :=
  if decide (path !! l = Some 105 /\ path !! (l + 8)%nat = Some 104 /\
             take 9 (drop l path) = IPC_BENCH)
  then (l + 8)%nat
  else match l with O => 7 | S l => search_loop path l end.

(** [file] is [__FILE__].  The buffer has [strlen(__FILE__) +
    strlen(BUILD_PATH)] bytes, and the last copy writes a terminator. *)
Definition find_build_path (file : list Z) : option (list Z) :=
  let right := if decide (9 <= length file)%nat then search_loop file (length file - 9) else (length file - 1)%nat in
  let right := S right in
  if decide (right + length BUILD_PATH + 1 <= length file + length BUILD_PATH)%nat
  then Some (take right file ++ BUILD_PATH)
  else None.

(** ** Starting processes *)

Section processes.
Context {W : Type} `{!Kernel W}.

(** The child does not come back from a successful [execv]; the parent does
    not look at the result of [fork]. *)
Definition start_process (argv : list string) : M (process W) () :=
  parent_pid ← sys_rv Getpid;
  pid ← sys_rv Fork;
  if pid =? 0 then
    grouped ← sys_rv (Setpgid pid parent_pid);
    throw_if (grouped =? -1) "Could not set group id for child process";;
    r ← sys_rv (Execv (default "" (head argv)) argv);
    throw_if (r =? -1) "Error opening child process"
  else mret ().

(** [arguments[0]] is the name; [argv] has the [argc] strings. *)
Definition copy_arguments (name : string) (argv : list string) : outcome (list string) :=
  if decide (length argv < 8)%nat then
    Done (match argv with [] => [] | _ :: rest => name :: rest end)
  else Died "Assertion `argc < 8' failed.".

Definition start_child (name : string) (argv : list string) : M (process W) () :=
  arguments ← of_outcome (copy_arguments name argv);
  start_process arguments.

(** [sprintf] of ["%s-%s"] into a buffer of 100 bytes. *)
Definition child_name (program suffix : string) : option string :=
  let name := (program +:+ "-" +:+ suffix)%string in
  if decide (String.length name < 100)%nat then Some name else None.

(** [prefix] is not used. *)
Definition start_children (prefix : string) (argv : list string) : M (process W) () :=
  program ← defined (head argv);
  server_name ← defined (child_name program "server");
  client_name ← defined (child_name program "client");
  start_child server_name argv;;
  start_child client_name argv.

(** ** common/parent.c *)

Definition setup_parent (beyond name : string) (sa0 : sigaction) (argv : list string) : M (process W) () :=
  help ← of_outcome (check_flag beyond "help" (tail argv));
  (if (help : bool) then of_outcome print_usage else mret ());;
  setup_parent_signals sa0;;
  start_children name argv.

(** The launchers, [main] of [domain/domain.c] and the like; [beyond] is what lies
    after the string that [check_flag] builds. *)
Definition domain_launcher (beyond : string) : sigaction -> list string -> M (process W) () := setup_parent beyond "domain".
Definition fifo_launcher (beyond : string) : sigaction -> list string -> M (process W) () := setup_parent beyond "fifo".
Definition mmap_launcher (beyond : string) : sigaction -> list string -> M (process W) () := setup_parent beyond "mmap".
Definition mq_launcher (beyond : string) : sigaction -> list string -> M (process W) () := setup_parent beyond "mq".
Definition shm_sync_launcher (beyond : string) : sigaction -> list string -> M (process W) () := setup_parent beyond "shm-sync".
Definition shm_launcher (beyond : string) : sigaction -> list string -> M (process W) () := setup_parent beyond "shm".
Definition signal_launcher (beyond : string) : sigaction -> list string -> M (process W) () := setup_parent beyond "signal".
Definition tcp_launcher (beyond : string) : sigaction -> list string -> M (process W) () := setup_parent beyond "tcp".
Definition uintr_pro_launcher (beyond : string) : sigaction -> list string -> M (process W) () := setup_parent beyond "uintr-pro".
Definition zeromq_launcher (beyond : string) : sigaction -> list string -> M (process W) () := setup_parent beyond "zeromq".

End processes.

(** ** Lemmas *)

Lemma string_length_app s t : String.length (s +:+ t) = (String.length s + String.length t)%nat.
Proof. induction s as [|c s IH]; simpl; [done|]. by rewrite IH. Qed.

Lemma child_name_spec program :
  child_name program "server" =
    (if decide (String.length program <= 92)%nat then Some (program +:+ "-server")%string else None) /\
  child_name program "client" =
    (if decide (String.length program <= 92)%nat then Some (program +:+ "-client")%string else None).
Proof.
  unfold child_name. split; rewrite !string_length_app; cbn [String.length];
    repeat case_decide; done || lia.
Qed.

(** The last window of the path that holds the name, at [i] or before. *)
Definition window (path : list Z) (i : nat) : Prop := take 9 (drop i path) = IPC_BENCH.

Lemma window_ends path i : window path i -> path !! i = Some 105 /\ path !! (i + 8)%nat = Some 104.
Proof.
  unfold window. intros H. split.
  - rewrite <- (Nat.add_0_r i), <- lookup_drop, <- (lookup_take_lt _ 9) by lia. by rewrite H.
  - rewrite <- lookup_drop, <- (lookup_take_lt _ 9) by lia. by rewrite H.
Qed.

Lemma search_loop_found path i : forall left,
  window path i -> (i <= left)%nat -> (forall j, (i < j <= left)%nat -> ~ window path j) ->
  search_loop path left = (i + 8)%nat.
Proof.
  induction left as [|left IH]; intros Hw Hle Hno.
  - assert (i = 0%nat) as -> by lia. destruct (window_ends path 0 Hw) as [H1 H2]. cbn [search_loop].
    by rewrite decide_True.
  - cbn [search_loop]. destruct (decide (i = S left)) as [->|Hne].
    + destruct (window_ends path _ Hw). by rewrite decide_True.
    + rewrite decide_False.
      * apply IH; [done|lia|]. intros j Hj. apply Hno. lia.
      * intros (_ & _ & H). apply (Hno (S left)); [lia|exact H].
Qed.

Lemma search_loop_absent path : forall left,
  (forall j, (j <= left)%nat -> ~ window path j) -> search_loop path left = 7%nat.
Proof.
  induction left as [|left IH]; intros Hno; cbn [search_loop]; rewrite decide_False.
  - done.
  - intros (_ & _ & H). apply (Hno 0%nat); [lia|exact H].
  - apply IH. intros j Hj. apply Hno. lia.
  - intros (_ & _ & H). apply (Hno (S left)); [lia|exact H].
Qed.

(** ** Properties *)

(** Starting the two children, as the parent sees it.  With at most seven
    arguments and a program name of at most 92 characters both are forked,
    server first, and the parent goes on whatever [fork] returns, failures
    included.  A longer name overflows the buffers, more arguments fail the
    assertion before any process is started. *)
Theorem start_children_parent prefix program argv r1 rf1 r2 rf2 :
  rv rf1 <> 0 -> rv rf2 <> 0 ->
  let start := start_children prefix (program :: argv) in
  let answers := [r1; rf1; r2; rf2] in
  outcome_on start answers =
    (if decide (String.length program <= 92)%nat then
       if decide (length argv < 7)%nat then Done () else Died "Assertion `argc < 8' failed."
     else Undefined) /\
  calls_on start answers =
    (if decide (String.length program <= 92)%nat then
       if decide (length argv < 7)%nat then [Getpid; Fork; Getpid; Fork] else []
     else []).
Proof.
  intros H1%Z.eqb_neq H2%Z.eqb_neq start answers. destruct (child_name_spec program) as [Es Ec].
  unfold start, answers, start_children, start_child, start_process, copy_arguments.
  cbn [head]. exec. destruct (decide (String.length program <= 92)%nat); rewrite Es; [|by split].
  exec. rewrite Ec. exec. cbn [length]. destruct (decide (length argv < 7)%nat) as [Hl|Hl].
  - do 4 (rewrite ?(decide_True (P:=(S (length argv) < 8)%nat)) by lia; exec; rewrite ?H1, ?H2). done.
  - rewrite decide_False by lia. by exec.
Qed.

(** The children.  The process in which the first [fork] returns 0 joins
    the parent's group and replaces itself by [<program>-server] with the
    parent's own arguments, or dies with a message; nothing else happens in
    it when both calls succeed. *)
Theorem start_children_child prefix program argv r1 rf1 rg rx :
  (String.length program <= 92)%nat -> (length argv < 7)%nat -> rv rf1 = 0 -> rv rx = -1 ->
  let start := start_children prefix (program :: argv) in
  let name := (program +:+ "-server")%string in
  outcome_on start [r1; rf1; rg; rx] =
    (if rv rg =? -1 then Died "Could not set group id for child process"
     else Died "Error opening child process") /\
  calls_on start [r1; rf1; rg; rx] =
    [Getpid; Fork; Setpgid 0 (rv r1)] ++
    (if rv rg =? -1 then [] else [Execv name (name :: argv)]).
Proof.
  intros Hp Hl Hf Hx start name. destruct (child_name_spec program) as [Es Ec].
  unfold start, start_children, start_child, start_process, copy_arguments.
  cbn [head]. rewrite decide_True in Es, Ec by done. exec. rewrite Es. exec. rewrite Ec. exec. cbn [length].
  rewrite decide_True by lia. exec. rewrite Hf. cbn [Z.eqb]. exec.
  destruct (rv rg =? -1); [by exec|]. exec. rewrite Hx. cbn [Z.eqb Pos.eqb]. exec. by split.
Qed.

(** The build directory.  When the source path contains ["ipc-bench"], the
    result is the path up to its last occurrence followed by
    ["/build/source"], within the buffer unless the path ends there, which
    overflows by the terminator.  When it does not, the code cuts the path
    after eight characters. *)
Theorem find_build_path_spec file :
  (9 <= length file)%nat ->
  (forall i, window file i -> (forall j, (i < j)%nat -> ~ window file j) ->
     find_build_path file =
       if decide (i + 9 = length file)%nat then None else Some (take (i + 9) file ++ BUILD_PATH)) /\
  ((forall j, ~ window file j) -> find_build_path file = Some (take 8 file ++ BUILD_PATH)).
Proof.
  intros Hl. unfold find_build_path. rewrite (decide_True _ _ Hl). split.
  - intros i Hw Hlast.
    assert (Hi : (i + 9 <= length file)%nat).
    { destruct (window_ends file i Hw) as [_ H]. apply lookup_lt_Some in H. lia. }
    rewrite (search_loop_found file i) by (done || lia || (intros j Hj; apply Hlast; lia)).
    replace (S (i + 8)) with (i + 9)%nat by lia.
    destruct (decide (i + 9 = length file)%nat); [rewrite decide_False by lia|rewrite decide_True by lia]; done.
  - intros Hno. rewrite search_loop_absent by (intros; apply Hno).
    by rewrite decide_True by lia.
Qed.

(** ** Witnesses *)

Lemma start_children_parent_witness :
  outcome_on (start_children "shm" ["./shm"; "-s"; "100"]) [val 7; fails 11; val 7; val 9] = Done ().
Proof.
  apply (start_children_parent "shm" "./shm" ["-s"; "100"] (val 7) (fails 11) (val 7) (val 9)); done.
Defined.

Lemma start_children_child_witness :
  calls_on (start_children "shm" ["./shm"; "-s"; "100"]) [val 7; val 0; val 0; fails 2] =
    [Getpid; Fork; Setpgid 0 7; Execv "./shm-server" ["./shm-server"; "-s"; "100"]].
Proof.
  apply (start_children_child "shm" "./shm" ["-s"; "100"] (val 7) (val 0) (val 0) (fails 2)); simpl; try done; lia.
Defined.

Lemma find_build_path_spec_witness :
  find_build_path (chars "/home/ipc-bench/source/common/process.c") =
    Some (take 15 (chars "/home/ipc-bench/source/common/process.c") ++ BUILD_PATH).
Proof.
  destruct (find_build_path_spec (chars "/home/ipc-bench/source/common/process.c")) as [H _]; [simpl; lia|].
  apply (H 6%nat).
  - vm_compute. reflexivity.
  - intros j Hj Hw. destruct (window_ends _ _ Hw) as [H1 H2].
    do 40 (destruct j as [|j]; [try lia; try (vm_compute in H1; discriminate); try (vm_compute in H2; discriminate)|]).
    vm_compute in H1. destruct j; discriminate.
Defined.
