(* ===== verification/ShmSync.v ===== *)
(** * shm-sync: a mutex and a condition variable in the segment

    [shm-sync/shm-sync-common.c], [shm-sync/server.c] and [shm-sync/client.c]
    call by call, where the [struct Sync] lies, and the two processes over the
    mutex and the condition variable. *)
From S2P Require Import Prelude Kernel Benchmarks.

(** [sizeof(struct Sync)]: a [pthread_mutex_t] of 40 bytes and a
    [pthread_cond_t] of 48, on x86-64 Linux. *)
Definition sizeof_Sync : Z := 88.
Definition mutex_of (sync : Z) : Z := sync.
Definition condition_of (sync : Z) : Z := sync + 40.

Section programs.
Context {W : Type} `{!Kernel W}.

Definition pthread (name : string) (args : list Z) (message : string) : M (process W) () :=
  r ← sys_rv (Lib name args); throw_if (negb (r =? 0)) message.

(** The attribute objects are locals of the function, at [attrs]. *)
Definition init_sync (attrs sync : Z) : M (process W) () :=
  let mutex_attributes := attrs in
  let condition_attributes := attrs + 8 in
  pthread "pthread_mutexattr_init" [mutex_attributes] "Error initializing mutex attributes";;
  pthread "pthread_condattr_init" [condition_attributes]
    "Error initializing condition variable attributes";;
  pthread "pthread_mutexattr_setpshared" [mutex_attributes; 1]
    "Error setting process-shared attribute for mutex";;
  pthread "pthread_condattr_setpshared" [condition_attributes; 1]
    "Error setting process-shared attribute for condition variable";;
  pthread "pthread_mutex_init" [mutex_of sync; mutex_attributes] "Error initializing mutex";;
  pthread "pthread_cond_init" [condition_of sync; condition_attributes]
    "Error initializing condition variable";;
  pthread "pthread_mutexattr_destroy" [mutex_attributes] "Error destroying mutex attributes";;
  pthread "pthread_condattr_destroy" [condition_attributes]
    "Error destroying condition variable attributes".

Definition destroy_sync (sync : Z) : M (process W) () :=
  pthread "pthread_mutex_destroy" [mutex_of sync] "Error destroying mutex";;
  pthread "pthread_cond_destroy" [condition_of sync] "Error destroying condition variable".

Definition sync_wait (sync : Z) : M (process W) () :=
  pthread "pthread_mutex_lock" [mutex_of sync] "Error locking mutex";;
  pthread "pthread_cond_wait" [condition_of sync; mutex_of sync] "Error waiting for condition variable".

Definition sync_notify (sync : Z) : M (process W) () :=
  pthread "pthread_cond_signal" [condition_of sync] "Error signalling condition variable".

(** [int size = args->size + sizeof(...)]: computed unsigned, stored as [int]. *)
Definition create_segment (args : Arguments) : M (process W) Z :=
  segment_key ← generate_key "shm";
  let size := to_i32 (arg_size args + sizeof_Sync) in
  segment_id ← sys_rv (Shmget segment_key (u64 size) IPC_CREAT_0666);
  throw_if (segment_id <? 0) "Error allocating segment";;
  mret segment_id.

(** [shared_memory < 0] compares a pointer, unsigned. *)
Definition attach_segment (segment_id : Z) (args : Arguments) : M (process W) Z :=
  shared_memory ← sys_rv (Shmat segment_id);
  throw_if (u64 shared_memory <? 0) "Could not attach segment";;
  (if shared_memory =? -1 then undefined
   else sys_ (Memset shared_memory 0 (u64 (arg_size args))));;
  mret shared_memory.

(** Pointer arithmetic on [struct Sync*] counts in structures. *)
Definition sync_address (shared_memory : Z) (args : Arguments) : Z :=
  shared_memory + arg_size args * sizeof_Sync.

Definition create_sync (attrs shared_memory : Z) (args : Arguments) : M (process W) Z :=
  let sync := sync_address shared_memory args in
  init_sync attrs sync;; mret sync.

(** ** client.c *)

Definition shm_sync_client_cleanup (shared_memory : Z) : M (process W) () := sys_ (Shmdt shared_memory).

Fixpoint shm_sync_client_loop (rounds : nat) (shared_memory size sync : Z) : M (process W) () :=
  match rounds with
  | O => mret ()
  | S rounds =>
      sync_wait sync;;
      sys_ (Memcpy_from shared_memory size);;
      sys_ (Memset shared_memory 50 size);;
      sync_notify sync;;
      shm_sync_client_loop rounds shared_memory size sync
  end.

Definition shm_sync_client_communicate (shared_memory : Z) (args : Arguments) (sync : Z) : M (process W) () :=
  buffer ← sys_rv (Malloc (u64 (arg_size args)));
  sync_notify sync;;
  shm_sync_client_loop (Z.to_nat (arg_count args)) shared_memory (u64 (arg_size args)) sync;;
  sys_ (Free buffer).

Definition shm_sync_client_main (attrs : Z) (args : Arguments) : M (process W) () :=
  segment_id ← create_segment args;
  shared_memory ← attach_segment segment_id args;
  sync ← create_sync attrs shared_memory args;
  shm_sync_client_communicate shared_memory args sync;;
  shm_sync_client_cleanup shared_memory.

(** ** server.c *)

Definition shm_sync_server_cleanup (segment_id shared_memory sync : Z) : M (process W) () :=
  sys_ (Shmdt shared_memory);; sys_ (Shmctl_rmid segment_id);; destroy_sync sync.

Fixpoint shm_sync_server_loop (rounds : nat) (shared_memory size sync : Z) (bench : Benchmarks)
    : M (process W) Benchmarks :=
  match rounds with
  | O => mret bench
  | S rounds =>
      bench ← start_single bench;
      sys_ (Memset shared_memory 49 size);;
      sync_notify sync;;
      sync_wait sync;;
      sys_ (Memcpy_from shared_memory size);;
      sync_notify sync;;
      bench ← benchmark_call bench;
      shm_sync_server_loop rounds shared_memory size sync bench
  end.

Definition shm_sync_server_communicate (shared_memory : Z) (args : Arguments) (sync : Z) (bench0 : Benchmarks)
    : M (process W) report :=
  buffer ← sys_rv (Malloc (u64 (arg_size args)));
  sync_wait sync;;
  bench ← setup_benchmarks_call bench0;
  bench ← shm_sync_server_loop (Z.to_nat (arg_count args)) shared_memory (u64 (arg_size args)) sync bench;
  r ← of_outcome (evaluate bench args);
  sys_ (Free buffer);;
  mret r.

(** The structure destroyed by [cleanup] lies in the segment it has detached. *)
Definition shm_sync_server_main (attrs : Z) (args : Arguments) (bench0 : Benchmarks) : M (process W) report :=
  segment_id ← create_segment args;
  shared_memory ← attach_segment segment_id args;
  sync ← create_sync attrs shared_memory args;
  r ← shm_sync_server_communicate shared_memory args sync bench0;
  shm_sync_server_cleanup segment_id shared_memory sync;;
  mret r.

End programs.

(** ** The two processes over the mutex

    A mutex of the default kind: locking it waits while anybody owns it, the
    caller included.  Waiting on the condition variable releases the mutex;
    the wait ends after a signal, or spuriously, once the mutex is taken
    again.  The steps start when both processes have initialised one structure
    that both can reach. *)
Inductive sync_owner := Server_owns | Client_owns.
#[export] Instance sync_owner_eq_dec : EqDecision sync_owner.
Proof. solve_decision. Defined.

Inductive sync_pc :=
  | SY_notify                (* the client's first sync_notify *)
  | SY_lock                  (* sync_wait: pthread_mutex_lock *)
  | SY_cond                  (* about to wait: releases the mutex *)
  | SY_waiting               (* in pthread_cond_wait *)
  | SY_woken                 (* taking the mutex again *)
  | SY_body                  (* after the wait: the memory, sync_notify, the loop *)
  | SY_done.

(** [sy_waits]: completed calls of [sync_wait]; [sy_rounds]: calls still to
    make. *)
Record sync_process := mk_sync_process { sy_at : sync_pc; sy_waits : nat; sy_rounds : nat }.

Record sync_state := mk_sync_state {
  sy_owner : option sync_owner;
  sy_server : sync_process;
  sy_client : sync_process;
}.

(** [pthread_cond_signal]: a waiting process is woken. *)
Definition sync_wake (p : sync_process) : sync_process :=
  match sy_at p with SY_waiting => mk_sync_process SY_woken (sy_waits p) (sy_rounds p) | _ => p end.

(** Moves of the process [p], named [me], beside [q]. *)
Inductive sync_move (me : sync_owner) : option sync_owner -> sync_process -> sync_process ->
    option sync_owner -> sync_process -> sync_process -> Prop :=
  | Move_notify own w r q :
      sync_move me own (mk_sync_process SY_notify w r) q
                   own (mk_sync_process (if decide (r = 0%nat) then SY_done else SY_lock) w r) (sync_wake q)
  | Move_lock w r q :
      sync_move me None (mk_sync_process SY_lock w r) q (Some me) (mk_sync_process SY_cond w r) q
  | Move_cond own w r q :
      sync_move me own (mk_sync_process SY_cond w r) q None (mk_sync_process SY_waiting w r) q
  | Move_spurious own w r q :
      sync_move me own (mk_sync_process SY_waiting w r) q own (mk_sync_process SY_woken w r) q
  | Move_woken w r q :
      sync_move me None (mk_sync_process SY_woken w r) q
                   (Some me) (mk_sync_process SY_body (S w) (r - 1)) q
  | Move_body own w r q :
      sync_move me own (mk_sync_process SY_body w r) q
                   own (mk_sync_process (if decide (r = 0%nat) then SY_done else SY_lock) w r) (sync_wake q).

Inductive sync_step : sync_state -> sync_state -> Prop :=
  | Sync_server own p q own' p' q' :
      sync_move Server_owns own p q own' p' q' -> sync_step (mk_sync_state own p q) (mk_sync_state own' p' q')
  | Sync_client own p q own' p' q' :
      sync_move Client_owns own p q own' p' q' -> sync_step (mk_sync_state own q p) (mk_sync_state own' q' p').

(** The server waits once before its loop and once per message, the client
    notifies and then waits once per message. *)
Definition sync_init (count : nat) : sync_state :=
  mk_sync_state None (mk_sync_process SY_lock 0 (S count)) (mk_sync_process SY_notify 0 count).

(** A process that has completed a wait owns the mutex for ever. *)
Definition sync_process_ok (me : sync_owner) (own : option sync_owner) (p : sync_process) : Prop :=
  match sy_at p with
  | SY_notify => sy_waits p = 0%nat /\ own <> Some me
  | SY_lock => sy_waits p = 0%nat /\ own <> Some me \/ sy_waits p = 1%nat /\ own = Some me
  | SY_cond => sy_waits p = 0%nat /\ own = Some me
  | SY_waiting | SY_woken => sy_waits p = 0%nat /\ own <> Some me
  | SY_body => sy_waits p = 1%nat /\ own = Some me
  | SY_done => sy_waits p = 0%nat /\ own <> Some me \/ sy_waits p = 1%nat /\ own = Some me
  end.

Definition sync_inv (s : sync_state) : Prop :=
  sync_process_ok Server_owns (sy_owner s) (sy_server s) /\
  sync_process_ok Client_owns (sy_owner s) (sy_client s).

Lemma sync_wake_ok me own q : sync_process_ok me own q -> sync_process_ok me own (sync_wake q).
Proof. destruct q as [[] w r]; done. Qed.

Lemma sync_move_ok me other own p q own' p' q' :
  me <> other -> sync_move me own p q own' p' q' ->
  sync_process_ok me own p -> sync_process_ok other own q ->
  sync_process_ok me own' p' /\ sync_process_ok other own' q'.
Proof.
  intros Hne Hm Hp Hq. destruct Hm; simpl in *.
  - split; [|by apply sync_wake_ok]. unfold sync_process_ok. simpl. case_decide; by left.
  - split; [unfold sync_process_ok in *; simpl in *; intuition congruence|].
    destruct q as [[] ? ?]; unfold sync_process_ok in *; simpl in *; intuition congruence.
  - unfold sync_process_ok in Hp. simpl in Hp. destruct Hp as [-> ->]. split; [done|].
    destruct q as [[] ? ?]; unfold sync_process_ok in *; simpl in *; intuition congruence.
  - by split.
  - unfold sync_process_ok in Hp. simpl in Hp. destruct Hp as [-> _]. split; [done|].
    destruct q as [[] ? ?]; unfold sync_process_ok in *; simpl in *; intuition congruence.
  - split; [|by apply sync_wake_ok]. unfold sync_process_ok in *. simpl in *. case_decide; by right.
Qed.

Lemma sync_inv_reachable count s : rtc sync_step (sync_init count) s -> sync_inv s.
Proof.
  intros Hr. eapply inv_rtc; [|idtac|exact Hr]; [|by repeat split; try left].
  intros a b [Ha Hb] Hs. destruct Hs; simpl in *.
  - by eapply (sync_move_ok Server_owns Client_owns).
  - split; simpl; by eapply (sync_move_ok Client_owns Server_owns).
Qed.

(** A process that has completed a wait never completes another, and the other
    process then never completes one. *)
Lemma sync_waits_total s : sync_inv s -> (sy_waits (sy_server s) + sy_waits (sy_client s) <= 1)%nat.
Proof.
  intros [Hs Hc]. destruct s as [own [sp sw sr] [cp cw cr]]. unfold sync_process_ok in *. simpl in *.
  destruct sp, cp; intuition (try lia; try congruence).
Qed.

(** The calls the server has still to make, in every place of its loop. *)
Definition sync_server_left (count : nat) (p : sync_process) : Prop :=
  (sy_rounds p + sy_waits p = S count)%nat /\
  match sy_at p with
  | SY_lock | SY_cond | SY_waiting | SY_woken => (0 < sy_rounds p)%nat
  | SY_done => sy_rounds p = 0%nat
  | SY_notify => False
  | SY_body => True
  end.

Lemma sync_server_left_reachable count s :
  rtc sync_step (sync_init count) s -> sync_server_left count (sy_server s).
Proof.
  intros Hr. eapply (inv_rtc sync_step (fun s => sync_server_left count (sy_server s)));
    [|idtac|exact Hr]; [|split; simpl; lia].
  intros a b Ha Hs. destruct Hs as [own p q own' p' q' Hm|own p q own' p' q' Hm]; simpl in *.
  - unfold sync_server_left in *. destruct Hm; simpl in *; try case_decide; simpl; intuition lia.
  - destruct Hm; simpl in *; try done; destruct q as [[] ? ?]; done.
Qed.

(** ** Properties *)

(** Shm-sync deadlocks.  [sync_wait] returns with the mutex locked and
    nothing unlocks it: whatever the interleaving and the spurious wake-ups,
    at most one call of [sync_wait] ever completes, in one of the processes;
    with at least one message the server never leaves its loop, and it never
    measures a message. *)
Theorem shm_sync_deadlock count s :
  (0 < count)%nat -> rtc sync_step (sync_init count) s ->
  (sy_waits (sy_server s) + sy_waits (sy_client s) <= 1)%nat /\
  sy_at (sy_server s) <> SY_done /\
  (sy_waits (sy_server s) = 1%nat -> sy_at (sy_server s) = SY_lock -> forall own p q,
     ~ sync_move Server_owns (sy_owner s) (sy_server s) (sy_client s) own p q).
Proof.
  intros Hc Hr. pose proof (sync_inv_reachable count s Hr) as Hi. pose proof (sync_waits_total s Hi) as Ht.
  destruct (sync_server_left_reachable count s Hr) as [Hro Hat].
  split; [done|]. split; [intros Hd; rewrite Hd in Hat; lia|].
  intros H1 Hl own p q Hm. destruct s as [o [sp sw sr] c]. simpl in *. subst.
  destruct Hi as [Hs _]. unfold sync_process_ok in Hs. simpl in Hs.
  destruct Hs as [[? _]|[_ ->]]; [done|]. inversion Hm.
Qed.

(** The server waits, is signalled and takes the mutex; it then stands before
    its second [pthread_mutex_lock]. *)
Definition sync_stuck : sync_state :=
  mk_sync_state (Some Server_owns) (mk_sync_process SY_lock 1 1) (mk_sync_process SY_lock 0 1).

Lemma sync_stuck_reachable : rtc sync_step (sync_init 1) sync_stuck.
Proof.
  eapply rtc_l; [apply Sync_server, Move_lock|].
  eapply rtc_l; [apply Sync_server, Move_cond|].
  eapply rtc_l; [apply Sync_client, Move_notify|].
  eapply rtc_l; [apply Sync_server, Move_woken|].
  eapply rtc_l; [apply Sync_server, Move_body|].
  apply rtc_refl.
Qed.

Lemma shm_sync_deadlock_witness :
  rtc sync_step (sync_init 1) sync_stuck /\
  forall own p q, ~ sync_move Server_owns (sy_owner sync_stuck) (sy_server sync_stuck) (sy_client sync_stuck) own p q.
Proof.
  split; [exact sync_stuck_reachable|].
  exact (proj2 (proj2 (shm_sync_deadlock 1 sync_stuck ltac:(lia) sync_stuck_reachable)) eq_refl eq_refl).
Defined.

(** The structure is outside the segment.  [create_sync] advances the
    pointer by [size] structures instead of [size] bytes: for sizes from 46
    up, the default included, the mutex does not lie in the pages of the
    segment that [create_segment] asks for. *)
Theorem shm_sync_outside_segment base args :
  46 <= arg_size args -> arg_size args + sizeof_Sync <= INT32_MAX ->
  let pages := (to_i32 (arg_size args + sizeof_Sync) + 4095) / 4096 * 4096 in
  base + pages < sync_address base args + sizeof_Sync /\
  (arg_size args >= 50 -> base + pages <= sync_address base args).
Proof.
  intros Hs Hmax pages. unfold pages, sync_address, sizeof_Sync in *.
  rewrite to_i32_small by (unfold INT32_MIN; lia).
  pose proof (Z.mul_div_le (arg_size args + 88 + 4095) 4096 ltac:(lia)). lia.
Qed.

Lemma shm_sync_outside_segment_witness :
  4096 + (to_i32 (4096 + sizeof_Sync) + 4095) / 4096 * 4096 <= sync_address 4096 (mk_Arguments 4096 1000).
Proof.
  exact (proj2 (shm_sync_outside_segment 4096 (mk_Arguments 4096 1000) ltac:(done) ltac:(done)) ltac:(done)).
Defined.
