(* ===== verification/ShmSyncLink.v ===== *)
(** * shm-sync: the programs make the protocol's moves

    [communicate] of [shm-sync/server.c] and [shm-sync/client.c] in the place
    of their processes over the mutex and the condition variable of [ShmSync].
    A process that stands before [pthread_cond_wait] has nothing else to do:
    its entering the call, which releases the mutex, and a spurious wake-up are
    moves of the system, which come between any two calls.  The server's rounds
    signal twice between two waits; the protocol has one signal there, which is
    enough, since no process comes back from a second wait. *)
From S2P Require Import Prelude Kernel Benchmarks Linking ShmSync.

(** ** The moves, executable *)

(** The next move of [p], named [me], beside [q]; none while it waits. *)
Definition sync_go (me : sync_owner) (own : option sync_owner) (p q : sync_process)
    : option (option sync_owner * sync_process * sync_process) :=
  let 'mk_sync_process pc w r := p in
  match pc, own with
  | (SY_notify | SY_body), _ =>
      Some (own, mk_sync_process (if decide (r = 0%nat) then SY_done else SY_lock) w r, sync_wake q)
  | SY_lock, None => Some (Some me, mk_sync_process SY_cond w r, q)
  | SY_cond, _ => Some (None, mk_sync_process SY_waiting w r, q)
  | SY_woken, None => Some (Some me, mk_sync_process SY_body (S w) (r - 1), q)
  | _, _ => None
  end.

Lemma sync_go_move me own p q own' p' q' : sync_go me own p q = Some (own', p', q') -> sync_move me own p q own' p' q'.
Proof. destruct p as [[] w r], own; cbn; intros [= <- <- <-]; constructor. Qed.

(** The moves of the system: a process enters its wait, or wakes by itself. *)
Variant sync_event := Enters | Wakes.

Definition sync_let (ev : sync_event) (me : sync_owner) (own : option sync_owner) (p q : sync_process)
    : option (option sync_owner * sync_process * sync_process) :=
  match ev, sy_at p with
  | Enters, SY_cond => sync_go me own p q
  | Wakes, SY_waiting => Some (own, mk_sync_process SY_woken (sy_waits p) (sy_rounds p), q)
  | _, _ => None
  end.

Lemma sync_let_move ev me own p q own' p' q' :
  sync_let ev me own p q = Some (own', p', q') -> sync_move me own p q own' p' q'.
Proof. destruct ev, p as [[] w r]; cbn; try done; intros [= <- <- <-]; constructor. Qed.

(** ** One process and the other *)
Definition sync_other (me : sync_owner) : sync_owner :=
  match me with Server_owns => Client_owns | Client_owns => Server_owns end.

Definition sy_mine (me : sync_owner) (s : sync_state) : sync_process :=
  match me with Server_owns => sy_server s | Client_owns => sy_client s end.

(** A move as a process makes it, in the state. *)
Definition sy_by (me : sync_owner)
    (move : option sync_owner -> sync_process -> sync_process -> option (option sync_owner * sync_process * sync_process))
    (s : sync_state) : option sync_state :=
  let 'mk_sync_state own sv cl := s in
  match me with
  | Server_owns => '(own, sv, cl) ← move own sv cl; Some (mk_sync_state own sv cl)
  | Client_owns => '(own, cl, sv) ← move own cl sv; Some (mk_sync_state own sv cl)
  end.

Definition sy_goes (me : sync_owner) : sync_state -> option sync_state := sy_by me (sync_go me).
Definition sy_let (e : sync_owner * sync_event) : sync_state -> option sync_state := sy_by e.1 (sync_let e.2 e.1).

Lemma sy_by_step me move s s' :
  (forall own p q own' p' q', move own p q = Some (own', p', q') -> sync_move me own p q own' p' q') ->
  sy_by me move s = Some s' -> sync_step s s'.
Proof.
  intros Hm. destruct s as [own sv cl], me; cbn;
    destruct (move _ _ _) as [[[own' p] q]|] eqn:E; try done; intros [= <-]; constructor; by apply Hm.
Qed.

Lemma sy_by_mine me move s s' :
  sy_by me move s = Some s' ->
  move (sy_owner s) (sy_mine me s) (sy_mine (sync_other me) s) =
    Some (sy_owner s', sy_mine me s', sy_mine (sync_other me) s').
Proof.
  destruct s as [own sv cl], me; cbn; destruct (move _ _ _) as [[[own' p] q]|] eqn:E; try done; by intros [= <-].
Qed.

(** What happens beside a process: the other one's moves and the system's. *)
Variant sync_beside := Other_goes | System (e : sync_owner * sync_event).

Definition sy_happens (me : sync_owner) (c : sync_beside) (s : sync_state) : option sync_state :=
  match c with Other_goes => sy_goes (sync_other me) s | System e => sy_let e s end.

Lemma sy_goes_step me s s' : sy_goes me s = Some s' -> sync_step s s'.
Proof. apply sy_by_step, sync_go_move. Qed.

Lemma sy_let_step e s s' : sy_let e s = Some s' -> sync_step s s'.
Proof. apply sy_by_step, sync_let_move. Qed.

Lemma sy_happens_step me c s s' : sy_happens me c s = Some s' -> sync_step s s'.
Proof. destruct c; [apply sy_goes_step|apply sy_let_step]. Qed.

(** The three places inside a wait are one for the program. *)
Definition sync_phase (pc : sync_pc) : sync_pc :=
  match pc with SY_cond | SY_woken => SY_waiting | _ => pc end.

Lemma sync_wake_keeps q :
  sync_phase (sy_at (sync_wake q)) = sync_phase (sy_at q) /\
  sy_waits (sync_wake q) = sy_waits q /\ sy_rounds (sync_wake q) = sy_rounds q.
Proof. by destruct q as [[] w r]. Qed.

(** Of the other process a move changes nothing but whether it is woken. *)
Lemma sync_go_other me own p q own' p' q' : sync_go me own p q = Some (own', p', q') -> q' = q \/ q' = sync_wake q.
Proof. destruct p as [[] w r], own; cbn; intros [= <- <- <-]; auto. Qed.

Lemma sync_let_keeps ev me own p q own' p' q' :
  sync_let ev me own p q = Some (own', p', q') ->
  q' = q /\ sync_phase (sy_at p') = sync_phase (sy_at p) /\ sy_waits p' = sy_waits p /\ sy_rounds p' = sy_rounds p.
Proof. destruct ev, p as [[] w r]; cbn; try done; by intros [= <- <- <-]. Qed.

(** Where the process [me] is: its place, its completed waits, its rounds. *)
Definition sy_in (me : sync_owner) (pc : sync_pc) (w r : nat) (s : sync_state) : Prop :=
  sync_inv s /\ sync_phase (sy_at (sy_mine me s)) = pc /\ sy_waits (sy_mine me s) = w /\ sy_rounds (sy_mine me s) = r.

Lemma sync_inv_step s s' : sync_inv s -> sync_step s s' -> sync_inv s'.
Proof.
  intros [Ha Hb] Hs. destruct Hs; cbn in *.
  - by eapply (sync_move_ok Server_owns Client_owns).
  - split; cbn; by eapply (sync_move_ok Client_owns Server_owns).
Qed.

Lemma sync_other_other me : sync_other (sync_other me) = me.
Proof. by destruct me. Qed.

Lemma sync_other_eq me who : who = me \/ who = sync_other me.
Proof. destruct me, who; auto. Qed.

Lemma sy_happens_in me pc w r c s s' : sy_in me pc w r s -> sy_happens me c s = Some s' -> sy_in me pc w r s'.
Proof.
  intros (Hi & Hpc & Hw & Hr) H. split; [by eapply sync_inv_step, sy_happens_step|].
  rewrite <- Hpc, <- Hw, <- Hr. clear Hi Hpc Hw Hr. destruct c as [|[who ev]]; apply sy_by_mine in H; cbn [fst snd] in H.
  - rewrite sync_other_other in H. apply sync_go_other in H as [-> | ->]; [done|apply sync_wake_keeps].
  - apply sync_let_keeps in H as [Hq Hp]. destruct (sync_other_eq me who) as [-> | ->]; [done|].
    rewrite sync_other_other in Hq. by rewrite Hq.
Qed.

(** ** The answers to a process's calls *)

(** The choices for a call: what happens before it, and the system's moves right
    before its return. *)
Definition sync_turn (sync : Z) (me : sync_owner) : Type := turn sync_beside * list (sync_owner * sync_event).

Definition sy_answer (sync : Z) (me : sync_owner) (t : sync_turn sync me) (c : syscall) (s : sync_state) : reply sync_state :=
  let s := moves_along sy_let t.2 s in
  let calls name args := bool_decide (c = Lib name args) in
  match sy_at (sy_mine me s), c with
  | (SY_notify | SY_lock), Malloc _ => by_system t.1 s
  | (SY_notify | SY_body), Lib _ _ =>
      if calls "pthread_cond_signal" [condition_of sync] then by_move (sy_goes me s) (val 0) else Strange
  | SY_lock, Lib _ _ =>
      if calls "pthread_mutex_lock" [mutex_of sync] then by_move (sy_goes me s) (val 0) else Strange
  | (SY_cond | SY_waiting | SY_woken), Lib _ _ =>
      if calls "pthread_cond_wait" [condition_of sync; mutex_of sync]
      then match sy_at (sy_mine me s) with SY_woken => by_move (sy_goes me s) (val 0) | _ => Waits end
      else Strange
  | SY_body, Timespec_get => by_clock t.1 (fun _ => Some s)
  | SY_body, (Memset _ _ _ | Memcpy_from _ _) => by_system t.1 s
  | SY_done, Free _ => by_system t.1 s
  | _, _ => Strange
  end.

(** An answered call is some moves of the system, and then at most one move. *)
Lemma sy_answer_moves sync me t c s r s' :
  sy_answer sync me t c s = Answer r s' ->
  let s0 := moves_along sy_let t.2 s in s' = s0 \/ sy_goes me s0 = Some s'.
Proof.
  unfold sy_answer, by_system. cbn zeta. set (s0 := moves_along sy_let t.2 s). intros H.
  destruct (sy_at (sy_mine me s0)), c; try done; repeat case_match; simplify_eq; try (by left);
    try (apply by_clock_inv in H as [? H]; injection H as ->; by left); apply by_move_inv in H; by right.
Qed.

Lemma sy_answer_steps sync me t c s r s' : sy_answer sync me t c s = Answer r s' -> rtc sync_step s s'.
Proof.
  intros H%sy_answer_moves. etrans; [apply (moves_along_rtc sy_let sync_step t.2 s); intros e s1 s2; apply sy_let_step|].
  destruct H as [-> | H]; [apply rtc_refl|]. by eapply rtc_once, sy_goes_step.
Qed.

#[export] Instance sync_link sync me : Link sync_state (sync_turn sync me) := {
  link_step := sync_step;
  link_others t s := moves_along (sy_happens me) (tn_others t.1) s;
  link_answer := sy_answer sync me;
  link_others_steps t s := moves_along_rtc _ sync_step _ s (sy_happens_step me);
  link_answer_steps := sy_answer_steps sync me;
  link_errno _ _ := True;
  link_others_errno _ _ _ H := H;
  link_answer_errno _ _ _ _ _ _ H _ := H;
}.

(** ** What the calls do *)
Section process.
Context (sync : Z) (me : sync_owner).
Abbreviation T := (sync_turn sync me).
Abbreviation W := (world sync_state T).

Lemma sy_in_stable pc w r : stable (T:=T) (sy_in me pc w r).
Proof. intros t s H. cbn. apply moves_along_inv; [intros c s1 s2; apply sy_happens_in|done]. Qed.

(** A call, after what happens before it and before its return. *)
Lemma sy_sys pc w r c Q D R :
  (forall t s, sy_in me pc w r s ->
     match sy_answer sync me (t, []) c s with Answer a s' => Q a s' | Waits => True | Strange => False end) ->
  triple (T:=T) (sy_in me pc w r) (sys c) Q D R.
Proof.
  intros H. apply triple_sys; [apply sy_in_stable|]. intros [t es] s Hs.
  refine (H t (moves_along sy_let es s) _). apply moves_along_inv; [|done].
  intros e s1 s2 H1 H2. by apply (sy_happens_in me pc w r (System e) s1).
Qed.

Lemma sy_goes_in pc w r s s' :
  sync_inv s -> sy_goes me s = Some s' ->
  (forall own q own' p' q', sync_go me own (sy_mine me s) q = Some (own', p', q') ->
     sync_phase (sy_at p') = pc /\ sy_waits p' = w /\ sy_rounds p' = r) -> sy_in me pc w r s'.
Proof.
  intros Hi Hg Hp. split; [by eapply sync_inv_step, sy_goes_step|]. apply sy_by_mine in Hg. by eapply Hp.
Qed.

(** A place that is not inside the wait is itself. *)
Lemma sy_in_place pc w r s :
  sy_in me pc w r s -> pc <> SY_waiting -> sy_mine me s = mk_sync_process pc w r.
Proof. intros (_ & Hpc & Hw & Hr) Hne. destruct (sy_mine me s) as [[] ? ?]; cbn in *; congruence. Qed.

(** The protocol's invariant, of one process. *)
Lemma sy_in_ok s : sync_inv s -> sync_process_ok me (sy_owner s) (sy_mine me s).
Proof. intros [H1 H2]. by destruct me. Qed.

(** Calls that are no move. *)
Lemma sy_mallocs pc w r size D R :
  pc = SY_notify \/ pc = SY_lock ->
  triple (sy_in me pc w r) (sys_rv (W:=W) (Malloc size)) (fun _ => sy_in me pc w r) D R.
Proof.
  intros Hpc. apply triple_returning, sy_sys. intros t s H. unfold sy_answer, by_system. cbn [fst snd moves_along foldl].
  rewrite (sy_in_place _ _ _ _ H) by (destruct Hpc; congruence). by destruct Hpc as [-> | ->].
Qed.

Lemma sy_frees w r pointer D R :
  triple (sy_in me SY_done w r) (sys_ (W:=W) (Free pointer)) (fun _ => sy_in me SY_done w r) D R.
Proof.
  apply triple_ignoring, sy_sys. intros t s H. unfold sy_answer, by_system. cbn [fst snd moves_along foldl].
  by rewrite (sy_in_place _ _ _ _ H).
Qed.

Lemma sy_touches w r c D R :
  match c with Memset _ _ _ | Memcpy_from _ _ => True | _ => False end ->
  triple (sy_in me SY_body w r) (sys_ (W:=W) c) (fun _ => sy_in me SY_body w r) D R.
Proof.
  intros Hc. apply triple_ignoring, sy_sys. intros t s H. unfold sy_answer, by_system. cbn [fst snd moves_along foldl].
  rewrite (sy_in_place _ _ _ _ H) by done. by destruct c.
Qed.

Lemma sy_clock w r D R :
  triple (sy_in me SY_body w r) (read_now (W:=W)) (fun _ => sy_in me SY_body w r) D R.
Proof.
  apply triple_read_now; [apply sy_in_stable|]. intros [t es] s H.
  cbn [link_answer sync_link]. unfold sy_answer. cbn [fst snd]. set (s0 := moves_along sy_let es s).
  assert (H0 : sy_in me SY_body w r s0).
  { apply moves_along_inv; [|done]. intros e s1 s2 H1 H2. by apply (sy_happens_in me _ w r (System e) s1). }
  rewrite (sy_in_place _ _ _ _ H0) by done. cbn. unfold by_clock. destruct (now _ _) as [v|] eqn:E; [|done].
  cbn. by do 3 eexists.
Qed.

(** A function of the library that is the process's next move returns 0. *)
Lemma sy_pthread pc w r name args message Q D R :
  (forall t s, sy_in me pc w r s ->
     match sy_answer sync me (t, []) (Lib name args) s with
     | Answer a s' => rv a = 0 /\ Q s' | Waits => True | Strange => False end) ->
  triple (sy_in me pc w r) (pthread (W:=W) name args message) (fun _ => Q) D R.
Proof.
  intros H. unfold pthread. eapply (triple_bind _ _ _ (fun v s => v = 0 /\ Q s)); [halting| |].
  - apply triple_returning, sy_sys. exact H.
  - intros v. apply triple_pure. intros ->. by apply triple_ret.
Qed.

(** [sync_notify]. *)
Lemma sy_notifies pc w r D R :
  pc = SY_notify \/ pc = SY_body ->
  triple (sy_in me pc w r) (sync_notify (W:=W) sync)
    (fun _ => sy_in me (if decide (r = 0%nat) then SY_done else SY_lock) w r) D R.
Proof.
  intros Hpc. apply sy_pthread. intros t s H. unfold sy_answer. cbn [fst snd moves_along foldl].
  assert (Hp : sy_mine me s = mk_sync_process pc w r) by (eapply sy_in_place; [exact H|destruct Hpc; congruence]).
  rewrite Hp, bool_decide_eq_true_2 by done. cbn [sy_at].
  assert (Hg : match by_move (sy_goes me s) (val 0) with
    | Answer a s' => rv a = 0 /\ sy_in me (if decide (r = 0%nat) then SY_done else SY_lock) w r s'
    | Waits => True | Strange => False end); [|by destruct Hpc as [-> | ->]].
  destruct (sy_goes me s) as [s'|] eqn:E; [|done]. cbn. split; [done|].
  eapply sy_goes_in; [apply H|exact E|]. rewrite Hp. intros own q own' p' q' Hm.
  destruct Hpc as [-> | ->]; cbn in Hm; injection Hm as <- <- <-; cbn; by case_decide.
Qed.

(** [sync_wait]: only a process that has not waited before gets the mutex, and
    it comes back with it. *)
Lemma sy_waits_once w r D R :
  triple (sy_in me SY_lock w r) (sync_wait (W:=W) sync)
    (fun _ s => w = 0%nat /\ sy_in me SY_body 1 (r - 1) s) D R.
Proof.
  unfold sync_wait. eapply (triple_bind _ _ _ (fun _ s => w = 0%nat /\ sy_in me SY_waiting w r s));
    [unfold pthread; halting| |intros u; apply triple_pure; intros ->].
  - apply sy_pthread. intros t s H. pose proof (sy_in_place _ _ _ _ H ltac:(done)) as Hp.
    pose proof (sy_in_ok s (proj1 H)) as Hok. rewrite Hp in Hok. unfold sy_answer. cbn [fst snd moves_along foldl].
    rewrite Hp. cbn [sy_at]. rewrite bool_decide_eq_true_2 by done.
    destruct (sy_goes me s) as [s'|] eqn:E; [|done]. cbn. split; [done|].
    assert (Hown : sy_owner s = None).
    { apply sy_by_mine in E. rewrite Hp in E. cbn in E. by destruct (sy_owner s). }
    destruct Hok as [[Hw _]|[_ Ho]]; [|cbn in Ho; congruence]. split; [exact Hw|].
    eapply sy_goes_in; [apply H|exact E|]. rewrite Hp. intros own q own' p' q' Hm.
    destruct own; [done|]. by injection Hm as <- <- <-.
  - apply sy_pthread. intros t s (Hi & Hpc & Hw & Hr). unfold sy_answer. cbn [fst snd moves_along foldl].
    destruct (sy_mine me s) as [pc w' r'] eqn:Hp. cbn in Hpc, Hw, Hr. subst w' r'.
    destruct pc; try done; cbn [sy_at]; rewrite bool_decide_eq_true_2 by done; try done. destruct (sy_goes me s) as [s'|] eqn:E; [|done]. cbn. split; [done|].
    split; [done|]. eapply sy_goes_in; [done|exact E|]. rewrite Hp. intros own q own' p' q' Hm.
    destruct own; [done|]. by injection Hm as <- <- <-.
Qed.

Lemma halts_pthread name args message : halts (pthread (W:=W) name args message).
Proof. unfold pthread. halting. Qed.

Lemma halts_sync_wait : halts (sync_wait (W:=W) sync).
Proof. apply halts_bind; [apply halts_pthread|]. intros u. apply halts_pthread. Qed.

(** A process that has completed a wait never comes back from the next one. *)
Lemma sy_second_wait {A} r (k : () -> M (process W) A) Q D R :
  (forall u, halts (k u)) -> triple (sy_in me SY_lock 1 r) (u ← sync_wait (W:=W) sync; k u) Q D R.
Proof. intros Hk. eapply triple_bind; [exact Hk|apply sy_waits_once|]. intros u. apply triple_pure. intros [=]. Qed.

End process.

(** ** The two programs *)
Section programs.
Context (sync : Z).

Lemma halts_sync_client_loop {T} `{!Link sync_state T} n shared_memory size :
  halts (shm_sync_client_loop (W:=world sync_state T) n shared_memory size sync).
Proof.
  induction n as [|n IH]; cbn [shm_sync_client_loop]; unfold sync_wait, sync_notify, pthread; halting.
Qed.

Lemma halts_sync_server_loop {T} `{!Link sync_state T} n shared_memory size : forall bench,
  halts (shm_sync_server_loop (W:=world sync_state T) n shared_memory size sync bench).
Proof.
  induction n as [|n IH]; intros bench; cbn [shm_sync_server_loop];
    unfold sync_wait, sync_notify, pthread, start_single, benchmark_call; halting.
Qed.

#[local] Hint Resolve halts_pthread halts_sync_wait halts_sync_client_loop halts_sync_server_loop : halts.

(** The client comes back from one wait at most, so it returns only when it
    has one message to wait for, or none. *)
Definition sync_client_returned (count : nat) (s : sync_state) : Prop :=
  (count <= 1)%nat /\ sy_in Client_owns SY_done count 0 s.

Lemma sync_client_loops n shared_memory size D R :
  triple (T:=sync_turn sync Client_owns) (sy_in Client_owns (if decide (n = 0%nat) then SY_done else SY_lock) 0 n)
    (shm_sync_client_loop n shared_memory size sync) (fun _ => sync_client_returned n) D R.
Proof.
  destruct n as [|n]; cbn [shm_sync_client_loop]; [apply triple_ret; intros s H; split; [lia|done]|].
  rewrite decide_False by done.
  eapply triple_bind; [|apply sy_waits_once|intros u; apply triple_pure; intros _].
  { intros u. unfold sync_notify. halting. }
  replace (S n - 1)%nat with n by lia.
  eapply triple_bind; [|by apply sy_touches|intros u1].
  { intros u1. unfold sync_notify. halting. }
  eapply triple_bind; [|by apply sy_touches|intros u2].
  { intros u2. unfold sync_notify. halting. }
  eapply triple_bind; [intros; apply halts_sync_client_loop|apply sy_notifies; by right|intros u3].
  destruct n as [|n]; [apply triple_ret; intros s H; by split|].
  rewrite decide_False by done. cbn [shm_sync_client_loop]. apply sy_second_wait.
  intros u4. unfold sync_notify. halting.
Qed.

Lemma sync_client_program shared_memory args D R :
  triple (T:=sync_turn sync Client_owns) (sy_in Client_owns SY_notify 0 (Z.to_nat (arg_count args)))
    (shm_sync_client_communicate shared_memory args sync)
    (fun _ => sync_client_returned (Z.to_nat (arg_count args))) D R.
Proof.
  unfold shm_sync_client_communicate. set (n := Z.to_nat _).
  eapply triple_bind; [|apply sy_mallocs; by left|intros buffer].
  { intros buffer. unfold sync_notify. halting. }
  eapply triple_bind; [|apply sy_notifies; by left|intros u].
  { intros u. halting. }
  eapply triple_bind; [intros; apply halts_sys_|apply sync_client_loops|intros u'].
  apply triple_pure. intros Hn.
  eapply triple_conseq; [apply sy_frees|exact (fun _ H => H)| |exact (fun _ H => H)|exact (fun _ H => H)].
  intros a s H. by split.
Qed.

(** The server does not come back from its loop. *)
Lemma sync_server_program shared_memory args bench0 Q D R :
  0 < arg_count args ->
  triple (T:=sync_turn sync Server_owns) (sy_in Server_owns SY_lock 0 (S (Z.to_nat (arg_count args))))
    (shm_sync_server_communicate shared_memory args sync bench0) Q D R.
Proof.
  intros Hc. unfold shm_sync_server_communicate. set (n := Z.to_nat _).
  assert (Hn : n <> 0%nat) by (unfold n; lia). clearbody n.
  eapply triple_bind; [|apply sy_mallocs; by right|intros buffer].
  { intros buffer. unfold setup_benchmarks_call. halting. }
  eapply triple_bind; [|apply sy_waits_once|intros u; apply triple_pure; intros _].
  { intros u. unfold setup_benchmarks_call. halting. }
  replace (S n - 1)%nat with n by lia.
  eapply (triple_bind _ _ _ (fun _ => sy_in Server_owns SY_body 1 n)); [| |intros bench].
  { intros bench. halting. }
  { unfold setup_benchmarks_call. eapply triple_bind; [halting|apply sy_clock|intros v]. by apply triple_ret. }
  eapply (triple_bind _ _ _ (fun _ _ => False)); [halting| |by intros b p Hp He []].
  destruct n as [|n]; [done|]. cbn [shm_sync_server_loop].
  eapply (triple_bind _ _ _ (fun _ => sy_in Server_owns SY_body 1 (S n))); [| |intros bench'].
  { intros b. unfold sync_notify, benchmark_call. halting. }
  { unfold start_single. eapply triple_bind; [halting|apply sy_clock|intros v]. by apply triple_ret. }
  eapply triple_bind; [|by apply sy_touches|intros u1].
  { intros b. unfold sync_notify, benchmark_call. halting. }
  eapply triple_bind; [|apply sy_notifies; by right|intros u2].
  { intros b. unfold sync_notify, benchmark_call. halting. }
  rewrite decide_False by done. apply sy_second_wait.
  intros u3. unfold sync_notify, benchmark_call. halting.
Qed.

End programs.

(** ** Properties *)

(** Both programs of shm-sync make the moves of their processes and nothing
    else, whatever the other one does and however the waits wake up: they call
    the library only where the protocol does, touch the memory and read the
    clock only between a wait and the signal after it, and neither dies.  The
    client returns from [communicate] only when there is at most one message;
    with a message to measure the server never does. *)
Theorem shm_sync_refines sync shared_memory args bench0 :
  0 < arg_count args ->
  triple (T:=sync_turn sync Client_owns) (fun s => s = sync_init (Z.to_nat (arg_count args)))
    (shm_sync_client_communicate shared_memory args sync)
    (fun _ s => arg_count args = 1 /\ sy_at (sy_client s) = SY_done /\ sy_waits (sy_client s) = 1%nat)
    (fun _ => False) (fun _ => False) /\
  triple (T:=sync_turn sync Server_owns) (fun s => s = sync_init (Z.to_nat (arg_count args)))
    (shm_sync_server_communicate shared_memory args sync bench0)
    (fun _ _ => False) (fun _ => False) (fun _ => False).
Proof.
  intros Hc. set (n := Z.to_nat (arg_count args)). assert (Hn : n <> 0%nat) by lia.
  assert (Hi : sync_inv (sync_init n)) by (apply (sync_inv_reachable n), rtc_refl). split.
  - eapply triple_conseq; [apply sync_client_program| | |exact (fun _ H => H)|exact (fun _ H => H)].
    + intros s ->. by split.
    + intros _ s (Hle & _ & Hpc & Hw & _). fold n in Hle, Hw. assert (n = 1%nat) as E by lia. rewrite E in Hw.
      split; [lia|]. split; [|done]. cbn in Hpc. by destruct (sy_at (sy_client s)).
  - eapply triple_conseq; [by apply (sync_server_program sync shared_memory args bench0 (fun _ _ => False) (fun _ => False) (fun _ => False))| |done|done|done].
    intros s ->. by split.
Qed.

(** One message.  The server has locked the mutex and stands before its wait:
    it enters the wait and is signalled and wakes, but does not get the mutex,
    which the client has come back with. *)
Definition sync_choices sync : list (sync_turn sync Client_owns) :=
  let c moves evs := (mk_turn moves (0, 0) (val 3), evs) in
  [c [] []; c [Other_goes; Other_goes] []; c [] []; c [Other_goes; System (Client_owns, Enters)] [(Client_owns, Wakes)];
   c [Other_goes] []; c [] []; c [] []; c [] []].

Lemma shm_sync_refines_witness :
  let args := mk_Arguments 1 1 in
  let p := mk_process 0 [] (mk_world (sync_init 1) (sync_choices 64) Live) in
  let run := shm_sync_client_communicate 0 args 64 p in
  run.1 = Done () /\ w_progress (env run.2) = Live /\ rtc sync_step (sync_init 1) (w_state (env run.2)) /\
  sy_at (sy_server (w_state (env run.2))) = SY_woken.
Proof.
  intros args p run.
  assert (H : run.1 = Done () /\ w_progress (env run.2) = Live /\ sy_at (sy_server (w_state (env run.2))) = SY_woken)
    by by vm_compute.
  destruct H as (H1 & H2 & H3). split; [done|]. split; [done|]. split; [|done].
  exact (proj1 (proj1 (shm_sync_refines 64 0 args (mk_Benchmarks 0 0 0 0 0 0 0) ltac:(done)) p eq_refl I eq_refl)).
Defined.
