(* ===== verification/ShmSyncPair.v ===== *)
(** * shm-sync: the two programs together

    [communicate] of [shm-sync/server.c] and of [shm-sync/client.c] call by
    call in any order, over the mutex and the condition variable: they never
    complete. *)
From S2P Require Import Prelude Kernel Benchmarks Linking Together ShmSync ShmSyncLink.

(** ** The programs call nothing but the kernel *)
Lemma interactive_pthread name args message : interactive (fun W _ => pthread (W:=W) name args message).
Proof. unfold pthread. interacting. Qed.
#[local] Hint Resolve interactive_pthread : interactive.

Lemma interactive_sync_client_loop n shared_memory size sync :
  interactive (fun W _ => shm_sync_client_loop (W:=W) n shared_memory size sync).
Proof. induction n; cbn [shm_sync_client_loop]; unfold sync_wait, sync_notify; interacting. Qed.

Lemma interactive_sync_server_loop n shared_memory size sync : forall bench,
  interactive (fun W _ => shm_sync_server_loop (W:=W) n shared_memory size sync bench).
Proof.
  induction n; intros bench; cbn [shm_sync_server_loop];
    unfold sync_wait, sync_notify, start_single, benchmark_call, read_now; interacting.
Qed.
#[local] Hint Resolve interactive_sync_client_loop interactive_sync_server_loop : interactive.

Lemma interactive_sync_client shared_memory args sync :
  interactive (fun W _ => shm_sync_client_communicate (W:=W) shared_memory args sync).
Proof. unfold shm_sync_client_communicate, sync_notify. interacting. Qed.

Lemma interactive_sync_server shared_memory args sync bench :
  interactive (fun W _ => shm_sync_server_communicate (W:=W) shared_memory args sync bench).
Proof. unfold shm_sync_server_communicate, sync_wait, setup_benchmarks_call, read_now. interacting. Qed.

(** ** The two sides of the protocol *)

(** The system's moves right before a return belong to the call. *)
#[export] Instance sync_choices_ok sync me : Choices sync_state (sync_turn sync me).
Proof.
  refine {| link_alone (t : sync_turn sync me) := (turn_alone t.1, t.2) : sync_turn sync me;
            link_then t1 t2 := (turn_then t1.1 t2.1, t2.2) |}; try done.
  intros. cbn. apply moves_along_app.
Defined.

Lemma sync_system_beside me es s : moves_along (sy_happens me) (System <$> es) s = moves_along sy_let es s.
Proof. revert s. unfold moves_along. induction es as [|e es IH]; intros s; [done|]. apply IH. Qed.

Lemma sync_calls_beside sync me (t : sync_turn sync (sync_other me)) c s r s' :
  sy_answer sync (sync_other me) (turn_alone t.1, t.2) c s = Answer r s' ->
  exists cs, moves_along (sy_happens me) cs s = s'.
Proof.
  intros [-> | H]%sy_answer_moves; [exists (System <$> t.2); apply sync_system_beside|].
  exists ((System <$> t.2) ++ [Other_goes]). rewrite moves_along_app, sync_system_beside.
  unfold moves_along at 1. cbn. cbn [snd] in H. by rewrite H.
Qed.

#[export] Instance sync_client_beside sync :
  Beside sync_state (sync_turn sync Client_owns) (sync_turn sync Server_owns).
Proof.
  constructor. intros t c s r s' [cs H]%(sync_calls_beside sync Client_owns t c s r s').
  by exists (mk_turn cs (0, 0) (val 0), []).
Qed.

#[export] Instance sync_server_beside sync :
  Beside sync_state (sync_turn sync Server_owns) (sync_turn sync Client_owns).
Proof.
  constructor. intros t c s r s' [cs H]%(sync_calls_beside sync Server_owns t c s r s').
  by exists (mk_turn cs (0, 0) (val 0), []).
Qed.

(** ** The number of calls *)
Lemma pthread_calls {W} `{!Kernel W} name args message : at_most 1 (pthread (W:=W) name args message).
Proof. apply (at_most_bind 1 0); [apply at_most_sys_rv|intros v; apply at_most_throw_if]. Qed.

Lemma sync_wait_calls {W} `{!Kernel W} sync : at_most 2 (sync_wait (W:=W) sync).
Proof. apply (at_most_bind 1 1); [apply pthread_calls|intros u; apply pthread_calls]. Qed.

Lemma sync_client_calls {W} `{!Kernel W} n shared_memory size sync :
  at_most (5 * n) (shm_sync_client_loop (W:=W) n shared_memory size sync).
Proof.
  induction n as [|n IH]; cbn [shm_sync_client_loop]; [apply at_most_pure|].
  apply (at_most_le (2 + (1 + (1 + (1 + 5 * n))))); [|lia].
  apply at_most_bind; [apply sync_wait_calls|intros u]. apply at_most_bind; [apply at_most_sys_|intros u1].
  apply at_most_bind; [apply at_most_sys_|intros u2]. apply at_most_bind; [apply pthread_calls|intros u3]. exact IH.
Qed.

Lemma sync_server_calls {W} `{!Kernel W} n shared_memory size sync : forall bench,
  at_most (8 * n) (shm_sync_server_loop (W:=W) n shared_memory size sync bench).
Proof.
  induction n as [|n IH]; intros bench; cbn [shm_sync_server_loop]; [apply at_most_pure|].
  apply (at_most_le ((1 + 0) + (1 + (1 + (2 + (1 + (1 + ((1 + 0) + 8 * n)))))))); [|lia].
  apply at_most_bind; [apply at_most_bind; [apply at_most_read_now|intros; apply at_most_pure]|intros b].
  apply at_most_bind; [apply at_most_sys_|intros u]. apply at_most_bind; [apply pthread_calls|intros u1].
  apply at_most_bind; [apply sync_wait_calls|intros u2]. apply at_most_bind; [apply at_most_sys_|intros u3].
  apply at_most_bind; [apply pthread_calls|intros u4].
  apply at_most_bind; [apply at_most_bind; [apply at_most_read_now|intros; apply at_most_defined]|intros b']. apply IH.
Qed.

Lemma sync_client_program_calls {W} `{!Kernel W} shared_memory args sync :
  at_most (5 * Z.to_nat (arg_count args) + 3) (shm_sync_client_communicate (W:=W) shared_memory args sync).
Proof.
  apply (at_most_le (1 + (1 + (5 * Z.to_nat (arg_count args) + 1)))); [|lia].
  apply at_most_bind; [apply at_most_sys_rv|intros b]. apply at_most_bind; [apply pthread_calls|intros u].
  apply at_most_bind; [apply sync_client_calls|intros u']. apply at_most_sys_.
Qed.

Lemma sync_server_program_calls {W} `{!Kernel W} shared_memory args sync bench :
  at_most (8 * Z.to_nat (arg_count args) + 5) (shm_sync_server_communicate (W:=W) shared_memory args sync bench).
Proof.
  apply (at_most_le (1 + (2 + ((1 + 0) + (8 * Z.to_nat (arg_count args) + (0 + (1 + 0))))))); [|lia].
  apply at_most_bind; [apply at_most_sys_rv|intros b]. apply at_most_bind; [apply sync_wait_calls|intros u].
  apply at_most_bind; [apply at_most_bind; [apply at_most_read_now|intros; apply at_most_pure]|intros b'].
  apply at_most_bind; [apply sync_server_calls|intros b''].
  apply at_most_bind; [apply at_most_pure|intros r]. apply at_most_bind; [apply at_most_sys_|intros; apply at_most_pure].
Qed.

(** ** Every expected call is answered, or the mutex is taken *)
Definition sync_blocks (sync : Z) (c : syscall) : Prop :=
  c = Lib "pthread_mutex_lock" [mutex_of sync] \/
  c = Lib "pthread_cond_wait" [condition_of sync; mutex_of sync].

(** Enough of the system's moves for a wait to return once the mutex is free. *)
Definition sync_helps (me : sync_owner) (pc : sync_pc) : list (sync_owner * sync_event) :=
  match pc with SY_cond => [(me, Enters); (me, Wakes)] | SY_waiting => [(me, Wakes)] | _ => [] end.

Lemma sync_answers sync me c s :
  (forall t : sync_turn sync me, sy_answer sync me (turn_alone t.1, t.2) c s <> Strange) ->
  (exists (t : sync_turn sync me) r s', sy_answer sync me (turn_alone t.1, t.2) c s = Answer r s') \/
  (sync_blocks sync c /\ sy_owner s <> None).
Proof.
  intros Hc. set (t es := (mk_turn [] (0, 0) (val 0), es) : sync_turn sync me).
  assert (H0 := Hc (t [])).
  assert (Hgo : forall t r s', sy_answer sync me (turn_alone t.1, t.2) c s = Answer r s' ->
    exists (t : sync_turn sync me) r s', sy_answer sync me (turn_alone t.1, t.2) c s = Answer r s') by eauto.
  specialize (Hgo (t (sync_helps me (sy_at (sy_mine me s))))). revert H0 Hgo. clear Hc. subst t. cbn [fst snd].
  generalize (exists (t : sync_turn sync me) r s', sy_answer sync me (turn_alone t.1, t.2) c s = Answer r s'). intros E.
  unfold sy_answer, by_system, by_clock, turn_alone. cbn [tn_clock tn_result fst snd]. rewrite now_zero.
  unfold sync_blocks.
  destruct s as [own [sp sw sr] [cp cw cr]], me; cbn [sy_mine sy_server sy_client sy_at];
    [destruct sp|destruct cp]; destruct c; cbn -[mutex_of condition_of]; try done;
    intros H0 Hgo; try (left; by eapply Hgo);
    try (case_bool_decide as Hb; [|done]); try (left; by eapply Hgo); rewrite ?Hb; destruct own;
    try (left; by eapply Hgo); right; split; auto.
Qed.

(** ** The pair *)
Section pair.
Context (sync shared_c shared_s : Z) (args : Arguments) (bench0 : Benchmarks).

Definition sync_client_run W `{!Kernel W} : M (process W) () := shm_sync_client_communicate shared_c args sync.
Definition sync_server_run W `{!Kernel W} : M (process W) report := shm_sync_server_communicate shared_s args sync bench0.

Definition sync_joint_move : sync_turn sync Client_owns + sync_turn sync Server_owns -> joint sync_state -> option (joint sync_state) :=
  joint_move (TA:=sync_turn sync Client_owns) (TB:=sync_turn sync Server_owns) (sync_client_run script) (sync_server_run script).
Definition sync_joint_step : relation (joint sync_state) :=
  joint_step (TA:=sync_turn sync Client_owns) (TB:=sync_turn sync Server_owns) (sync_client_run script) (sync_server_run script).
Definition sync_joint_init : joint sync_state := mk_joint (sync_init (Z.to_nat (arg_count args))) [] [].

Lemma sync_pair_sound j :
  0 < arg_count args -> rtc sync_joint_step sync_joint_init j ->
  rtc sync_step (sync_init (Z.to_nat (arg_count args))) (j_state j) /\
  abides (T:=sync_turn sync Client_owns) (sync_client_run script)
    (fun _ => sync_client_returned (Z.to_nat (arg_count args))) (fun _ => False) (fun _ => False)
    (j_first j) (j_state j) /\
  abides (T:=sync_turn sync Server_owns) (sync_server_run script) (fun _ _ => False) (fun _ => False) (fun _ => False)
    (j_second j) (j_state j).
Proof.
  intros Hc Hr. set (n := Z.to_nat (arg_count args)).
  assert (Hi : sync_inv (sync_init n)) by (apply (sync_inv_reachable n), rtc_refl). split.
  - by apply (joint_steps (TA:=sync_turn sync Client_owns) (TB:=sync_turn sync Server_owns) sync_client_run sync_server_run) in Hr.
  - apply (joint_sound (TA:=sync_turn sync Client_owns) (TB:=sync_turn sync Server_owns) sync_client_run sync_server_run
      (interactive_sync_client shared_c args sync) (interactive_sync_server shared_s args sync bench0)
      (sy_in Client_owns SY_notify 0 n) (sy_in Server_owns SY_lock 0 (S n))) with (s0 := sync_init n); try done; try (intros; apply stable_False).
    + apply sync_client_program.
    + by apply sync_server_program.
    + intros a. apply stable_pure, sy_in_stable.
Qed.

End pair.

(** ** Properties *)

(** C11: the two programs of shm-sync, run together, come to a halt before the
    first message is measured.  With a positive count and a structure that both
    reach, in whatever order they make their calls, and
    however their waits wake up, they make only moves of the protocol; at most
    one wait of the two processes ever returns; the server always has a call to
    make and never returns, dies or has undefined behaviour; the client returns
    only when there is one message.  No run has more than 13 calls per message
    and 8, and where the server cannot go on it is in [pthread_mutex_lock] or
    [pthread_cond_wait], and the mutex is taken. *)
Theorem shm_sync_together sync shared_c shared_s args bench0 j :
  0 < arg_count args ->
  rtc (sync_joint_step sync shared_c shared_s args bench0) (sync_joint_init args) j ->
  let client := sync_client_run sync shared_c args script in
  let server := sync_server_run sync shared_s args bench0 script in
  rtc sync_step (sync_init (Z.to_nat (arg_count args))) (j_state j) /\
  (sy_waits (sy_server (j_state j)) + sy_waits (sy_client (j_state j)) <= 1)%nat /\
  (next_call client (j_first j) = None ->
     outcome_on client (j_first j) = Done () /\ arg_count args = 1 /\ sy_waits (sy_client (j_state j)) = 1%nat) /\
  (exists c, next_call server (j_second j) = Some c /\
     ((forall t, sync_joint_move sync shared_c shared_s args bench0 (inr t) j = None) ->
      sync_blocks sync c /\ sy_owner (j_state j) <> None)) /\
  (forall n j', nsteps (sync_joint_step sync shared_c shared_s args bench0) n (sync_joint_init args) j' ->
     (n <= 13 * Z.to_nat (arg_count args) + 8)%nat).
Proof.
  intros Hc Hr client server.
  destruct (sync_pair_sound sync shared_c shared_s args bench0 j Hc Hr) as (Hs & Ha & Hb).
  fold client in Ha. fold server in Hb. unfold abides in Ha, Hb. split; [done|]. split_and!.
  - by eapply sync_waits_total, sync_inv_reachable.
  - intros E. rewrite E in Ha. destruct (outcome_on client (j_first j)) as [[]| | |]; try done.
    destruct Ha as (Hle & _ & _ & Hw & _). cbn in Hw. split; [done|]. split; lia.
  - destruct (next_call server (j_second j)) as [c|] eqn:E.
    + exists c. split; [done|]. intros Hno. destruct (sync_answers sync Server_owns c _ Hb) as [(t & r & s' & Ht)|H]; [|done].
      specialize (Hno t). revert Hno. destruct j as [s ra rb]. cbn [j_state j_second] in E, Ht. unfold server in E.
      unfold sync_joint_move. cbn [joint_move]. rewrite E. cbn. by rewrite Ht.
    + by destruct (outcome_on server (j_second j)).
  - intros n j' Hn.
    pose proof (joint_run_bounded _ _ client server n (sync_joint_init args) j' (sync_client_program_calls shared_c args sync)
      (sync_server_program_calls shared_s args sync bench0) (Nat.le_0_l _) (Nat.le_0_l _) Hn) as H. cbn in H. lia.
Qed.

(** ** Witness *)

(** One message.  The server enters its wait, is signalled and measures up to
    its second lock; the client locks before it signals a second time. *)
Definition sync_schedule sync : list (sync_turn sync Client_owns + sync_turn sync Server_owns) :=
  let c evs := inl (mk_turn [] (0, 0) (val 3), evs) in
  let s evs := inr (mk_turn [] (1700000000, 0) (val 5), evs) in
  [s []; s []; c []; c [(Server_owns, Enters)]; s []; s []; s []; s []; s []].

Definition sync_pair_args : Arguments := mk_Arguments 1 1.
Definition sync_pair_bench : Benchmarks := mk_Benchmarks 0 0 INT32_MAX 0 0 0 0.

Definition sync_pair_run : joint sync_state :=
  state_along (sync_joint_move 64 0 0 sync_pair_args sync_pair_bench) (sync_schedule 64) (sync_joint_init sync_pair_args).

Lemma shm_sync_together_witness :
  sy_waits (sy_server (j_state sync_pair_run)) = 1%nat /\
  next_call (sync_server_run 64 0 sync_pair_args sync_pair_bench script) (j_second sync_pair_run) =
    Some (Lib "pthread_mutex_lock" [64]) /\
  sy_owner (j_state sync_pair_run) = Some Server_owns /\
  rtc sync_step (sync_init 1) (j_state sync_pair_run).
Proof.
  split; [by vm_compute|]. split; [by vm_compute|]. split; [by vm_compute|].
  refine (proj1 (shm_sync_together 64 0 0 sync_pair_args sync_pair_bench sync_pair_run _ _)); [done|].
  apply state_along_rtc; [intros t a b; apply joint_move_step|by vm_compute; eexists].
Defined.
