(* ===== verification/Zeromq.v ===== *)
(** * zeromq: the benchmark over a request-reply pair of libzmq

    [zeromq/server.c] and [zeromq/client.c] call by call; libzmq is not part of
    the repository and answers through the kernel parameter.  Then the two
    processes over a request-reply pair of sockets, which delivers one message
    in each direction in turn. *)
From S2P Require Import Prelude Kernel Benchmarks.

Definition ZMQ_REQ : Z := 3.
Definition ZMQ_REP : Z := 4.

Definition server_address (use_tcp : bool) : string :=
  if use_tcp then "tcp://*:6969" else "ipc:///tmp/zmq_ipc".
Definition client_address (use_tcp : bool) : string :=
  if use_tcp then "tcp://localhost:6969" else "ipc:///tmp/zmq_ipc".

Section programs.
Context {W : Type} `{!Kernel W}.

Definition zmq_create_context : M (process W) Z :=
  context ← sys_rv Zmq_ctx_new;
  throw_if (context =? 0) "Error creating ZMQ context";;
  mret context.

Definition zmq_cleanup (context socket : Z) : M (process W) () :=
  sys_ (Zmq_close socket);; sys_ (Zmq_ctx_destroy context).

(** ** server.c *)

Definition zmq_server_create_socket (context : Z) (use_tcp : bool) : M (process W) Z :=
  socket ← sys_rv (Zmq_socket context ZMQ_REP);
  throw_if (socket =? 0) "Error creating socket";;
  bound ← sys_rv (Zmq_bind socket (server_address use_tcp));
  throw_if (bound =? -1) "Error binding socket to address";;
  mret socket.

(** [memset(buffer, '*', args->size)]: the size is converted to [size_t]. *)
Definition fill_buffer (buffer size : Z) : M (process W) (list Z) :=
  if (buffer =? 0) || (size <? 0) then undefined else mret (replicate (Z.to_nat size) 42).

Fixpoint zmq_server_loop (rounds : nat) (socket buffer : Z) (args : Arguments) (bench : Benchmarks)
    : M (process W) Benchmarks :=
  match rounds with
  | O => mret bench
  | S rounds =>
      bench ← start_single bench;
      received ← sys_rv (Zmq_recv socket (u64 (arg_size args)));
      throw_if (received <? arg_size args) "Error receiving on server-side";;
      bytes ← fill_buffer buffer (arg_size args);
      sent ← sys_rv (Zmq_send socket bytes);
      throw_if (sent <? arg_size args) "Error sending on server-side";;
      bench ← benchmark_call bench;
      zmq_server_loop rounds socket buffer args bench
  end.

Definition zmq_server_communicate (socket : Z) (args : Arguments) (bench0 : Benchmarks)
    : M (process W) report :=
  buffer ← sys_rv (Malloc (u64 (arg_size args)));
  bench ← setup_benchmarks_call bench0;
  bench ← zmq_server_loop (Z.to_nat (arg_count args)) socket buffer args bench;
  r ← of_outcome (evaluate bench args);
  sys_ (Free buffer);;
  mret r.

(** [main] after the command line. *)
Definition zmq_server_main (args : Arguments) (use_tcp : bool) (bench0 : Benchmarks) : M (process W) report :=
  context ← zmq_create_context;
  socket ← zmq_server_create_socket context use_tcp;
  r ← zmq_server_communicate socket args bench0;
  zmq_cleanup context socket;;
  mret r.

(** ** client.c *)

Definition zmq_client_create_context : M (process W) Z :=
  context ← sys_rv Zmq_ctx_new;
  throw_if (context =? 0) "Error creating ZMQ context";;
  mret context.

Definition zmq_client_cleanup (context socket : Z) : M (process W) () :=
  sys_ (Zmq_close socket);; sys_ (Zmq_ctx_destroy context).

Definition zmq_client_create_socket (context : Z) (use_tcp : bool) : M (process W) Z :=
  socket ← sys_rv (Zmq_socket context ZMQ_REQ);
  throw_if (socket =? 0) "Error creating socket";;
  connected ← sys_rv (Zmq_connect socket (client_address use_tcp));
  throw_if (connected =? -1) "Error binding socket to address";;
  mret socket.

(** [bytes]: what the buffer holds, at first whatever [malloc] left in it.  The
    reply replaces its beginning. *)
Fixpoint zmq_client_loop (rounds : nat) (socket : Z) (args : Arguments) (bytes : list Z)
    : M (process W) (list Z) :=
  match rounds with
  | O => mret bytes
  | S rounds =>
      sent ← sys_rv (Zmq_send socket bytes);
      throw_if (sent <? arg_size args) "Error sending on client-side";;
      r ← sys (Zmq_recv socket (u64 (arg_size args)));
      throw_if (rv r <? arg_size args) "Error receiving on client-side";;
      zmq_client_loop rounds socket args (data r ++ drop (length (data r)) bytes)
  end.

Definition zmq_client_communicate (socket : Z) (args : Arguments) (uninitialised : list Z)
    : M (process W) () :=
  buffer ← sys_rv (Malloc (u64 (arg_size args)));
  zmq_client_loop (Z.to_nat (arg_count args)) socket args uninitialised;;
  sys_ (Free buffer).

Definition zmq_client_main (args : Arguments) (use_tcp : bool) (uninitialised : list Z) : M (process W) () :=
  context ← zmq_client_create_context;
  socket ← zmq_client_create_socket context use_tcp;
  zmq_client_communicate socket args uninitialised;;
  zmq_client_cleanup context socket.

End programs.

(** ** Lemmas *)

Definition zmq_round_calls (socket size : Z) : list syscall :=
  [Timespec_get; Zmq_recv socket size; Zmq_send socket (replicate (Z.to_nat size) 42); Timespec_get].

Lemma zmq_server_loop_did {W} `{!Kernel W} n : forall socket buffer args bench (p : process W) b q,
  zmq_server_loop n socket buffer args bench p = (Done b, q) -> arg_size args <= INT32_MAX ->
  (n = 0%nat \/ 0 <= arg_size args) /\
  did p q (concat (replicate n (zmq_round_calls socket (arg_size args)))) /\
  count b = count bench + Z.of_nat n.
Proof.
  induction n as [|n IH]; intros socket buffer args bench p b q H Hmax.
  { apply mret_inv in H as [-> ->]. split; [by left|]. split; [apply did_nil|lia]. }
  cbn [zmq_server_loop] in H.
  apply bind_inv in H as (b1 & p1 & H1 & H). apply bind_inv in H1 as (t & p1' & H1 & [-> ->]%mret_inv).
  apply read_now_did in H1. apply bind_inv in H as (v & p2 & H2 & H). apply sys_rv_did in H2.
  apply bind_inv in H as (? & p3 & [_ ->]%throw_if_inv & H).
  apply bind_inv in H as (bytes & p4 & H4 & H). unfold fill_buffer in H4.
  destruct ((buffer =? 0) || (arg_size args <? 0)) eqn:Eb; [done|]. apply mret_inv in H4 as [-> ->].
  apply orb_false_iff in Eb as [_ Es%Z.ltb_ge].
  apply bind_inv in H as (w & p5 & H5 & H). apply sys_rv_did in H5.
  apply bind_inv in H as (? & p6 & [_ ->]%throw_if_inv & H).
  apply bind_inv in H as (b7 & p7 & H7 & H). apply bind_inv in H7 as (t' & p7' & H7 & [Hb ->]%defined_inv).
  apply read_now_did in H7. apply IH in H as (_ & H & Hc); [|done]. split; [by right|]. split.
  - rewrite u64_small in H2 by (unfold INT32_MAX in *; lia).
    cbn [replicate concat]. unfold zmq_round_calls at 1.
    change ([Timespec_get; Zmq_recv socket (arg_size args);
       Zmq_send socket (replicate (Z.to_nat (arg_size args)) 42); Timespec_get])
      with ([Timespec_get] ++ [Zmq_recv socket (arg_size args)] ++
        [Zmq_send socket (replicate (Z.to_nat (arg_size args)) 42)] ++ [Timespec_get]).
    rewrite <- !app_assoc. repeat (eapply did_trans; [eassumption|]). done.
  - apply benchmark_count in Hb. cbn [set_single_start count] in Hb. lia.
Qed.

(** ** Properties *)

(** The rounds of the zeromq server.  Whenever it ends with a report, for
    any libzmq and any kernel, the count was positive and the size not
    negative, and between allocating and freeing its buffer it has read the
    clock, received a request, sent a reply of [size] asterisks and read the
    clock again exactly [count] times, which is the count it reports. *)
Theorem zmq_server_rounds {W} `{!Kernel W} socket args bench0 (p : process W) r q :
  INT32_MIN <= arg_size args <= INT32_MAX ->
  zmq_server_communicate socket args bench0 p = (Done r, q) ->
  exists buffer, did p q ([Malloc (arg_size args); Timespec_get] ++
    concat (replicate (Z.to_nat (arg_count args)) (zmq_round_calls socket (arg_size args))) ++ [Free buffer]) /\
  0 <= arg_size args /\ 0 < arg_count args /\
  rep_size r = arg_size args /\ rep_count r = arg_count args.
Proof.
  intros Hrange H. unfold zmq_server_communicate in H.
  apply bind_inv in H as (buffer & p1 & H1 & H). apply sys_rv_did in H1.
  apply bind_inv in H as (b & p2 & H2 & H). apply bind_inv in H2 as (t & p2' & H2 & [-> ->]%mret_inv).
  apply read_now_did in H2. apply bind_inv in H as (b3 & p3 & H3 & H).
  apply zmq_server_loop_did in H3 as (Hs & H3 & Hc); [|lia].
  apply bind_inv in H as (r' & p4 & He & H). injection He as He <-.
  apply bind_inv in H as (? & p5 & H5 & [-> ->]%mret_inv). apply sys__did in H5.
  assert (Hpos : arg_count args > 0).
  { revert He. unfold evaluate. case_bool_decide; done. }
  apply evaluate_fields in He as [-> ->]. cbn [setup_benchmarks count] in *.
  assert (Hs0 : 0 <= arg_size args) by lia. rewrite u64_small in H1 by (unfold INT32_MAX in *; lia).
  exists buffer. split_and!; [|lia|lia|done|lia].
  change [Malloc (arg_size args); Timespec_get] with ([Malloc (arg_size args)] ++ [Timespec_get]).
  rewrite <- !app_assoc. repeat (eapply did_trans; [eassumption|]). done.
Qed.

(** ** The pair of sockets

    A request-reply pair carries at most one message: the requester sends and
    then waits for the reply, the replier receives and then sends it. *)
Record zmq_pair := mk_zmq_pair {
  zp_request : option (list Z);
  zp_reply : option (list Z);
  zp_replying : bool;          (* the server is between zmq_recv and zmq_send *)
  zp_server_left : nat;        (* rounds the server has left *)
  zp_waiting : bool;           (* the client is between zmq_send and zmq_recv *)
  zp_client_left : nat;
  zp_buffer : list Z;          (* the client's buffer *)
  zp_requests : list (list Z); (* the requests the server has received *)
}.

Inductive zmq_step (size : nat) : zmq_pair -> zmq_pair -> Prop :=
  | Zmq_request rep sv sl cl b rs :
      zmq_step size (mk_zmq_pair None rep sv sl false (S cl) b rs)
                    (mk_zmq_pair (Some b) rep sv sl true (S cl) b rs)
  | Zmq_received r rep sl cw cl b rs :
      zmq_step size (mk_zmq_pair (Some r) rep false (S sl) cw cl b rs)
                    (mk_zmq_pair None rep true (S sl) cw cl b (rs ++ [r]))
  | Zmq_replied req sl cw cl b rs :
      zmq_step size (mk_zmq_pair req None true (S sl) cw cl b rs)
                    (mk_zmq_pair req (Some (replicate size 42)) false sl cw cl b rs)
  | Zmq_answered req r sv sl cl b rs :
      zmq_step size (mk_zmq_pair req (Some r) sv sl true (S cl) b rs)
                    (mk_zmq_pair req None sv sl false cl (r ++ drop (length r) b) rs).

(** Both sides were started with the same [count]. *)
Definition zmq_init (count : nat) (uninitialised : list Z) : zmq_pair :=
  mk_zmq_pair None None false count false count uninitialised [].

(** The first [k] requests: what [malloc] left in the buffer, then asterisks. *)
Definition requests_upto (size : nat) (uninitialised : list Z) (k : nat) : list (list Z) :=
  match k with O => [] | S k => uninitialised :: replicate k (replicate size 42) end.

Definition buffer_after (size : nat) (uninitialised : list Z) (k : nat) : list Z :=
  match k with O => uninitialised | S _ => replicate size 42 end.

Definition zmq_inv (size count : nat) (u : list Z) (s : zmq_pair) : Prop :=
  exists k, let b := buffer_after size u k in
  (k + zp_client_left s = count)%nat /\ zp_buffer s = b /\
  match zp_waiting s with
  | false =>
      zp_request s = None /\ zp_reply s = None /\ zp_replying s = false /\
      zp_server_left s = zp_client_left s /\ zp_requests s = requests_upto size u k
  | true =>
      (0 < zp_client_left s)%nat /\
      (zp_request s = Some b /\ zp_reply s = None /\ zp_replying s = false /\
         zp_server_left s = zp_client_left s /\ zp_requests s = requests_upto size u k \/
       zp_request s = None /\ zp_reply s = None /\ zp_replying s = true /\
         zp_server_left s = zp_client_left s /\ zp_requests s = requests_upto size u (S k) \/
       zp_request s = None /\ zp_reply s = Some (replicate size 42) /\ zp_replying s = false /\
         zp_client_left s = S (zp_server_left s) /\ zp_requests s = requests_upto size u (S k))
  end.

Definition zmq_measure (s : zmq_pair) : nat :=
  4 * zp_client_left s -
    (if zp_waiting s then
       match zp_request s with Some _ => 1 | None => if zp_replying s then 2 else 3 end
     else 0).

Lemma requests_upto_next size u k :
  requests_upto size u k ++ [buffer_after size u k] = requests_upto size u (S k).
Proof.
  destruct k as [|k]; [done|]. simpl. f_equal. change [replicate size 42] with (replicate 1 (replicate size 42)).
  rewrite <- replicate_add. by rewrite Nat.add_comm.
Qed.

Lemma zmq_inv_step size count u s s' :
  length u = size -> zmq_inv size count u s -> zmq_step size s s' ->
  zmq_inv size count u s' /\ (zmq_measure s' < zmq_measure s)%nat.
Proof.
  intros Hu (k & Hk & Hb & Hi) Hst.
  destruct Hst as [rep sv sl cl b rs|r rep sl cw cl b rs|req sl cw cl b rs|req r sv sl cl b rs]; simpl in *.
  - destruct Hi as (_ & -> & -> & -> & ->). split; [|unfold zmq_measure; simpl; lia].
    exists k. simpl. split_and!; auto; try lia. left. by rewrite Hb.
  - destruct cw; [|by destruct Hi].
    destruct Hi as [Hl [(Hr & -> & _ & -> & ->)|[(Hr & _)|(Hr & _)]]]; [|done|done].
    split; [|unfold zmq_measure; simpl; lia]. exists k. simpl. split_and!; auto. right. left.
    injection Hr as ->. by rewrite requests_upto_next.
  - destruct cw; [|by destruct Hi as (_ & _ & ? & _)].
    destruct Hi as [Hl [(_ & _ & Hr & _)|[(-> & _ & _ & <- & ->)|(_ & _ & Hr & _)]]]; [done| |done].
    split; [|unfold zmq_measure; simpl; lia]. exists k. simpl. split_and!; auto. by right; right.
  - destruct Hi as [Hl [(_ & Hr & _)|[(_ & Hr & _)|(-> & Hr & -> & [= ->] & ->)]]]; [done|done|].
    split; [|unfold zmq_measure; simpl; lia]. injection Hr as ->. exists (S k). simpl.
    split_and!; auto; try lia. subst b. rewrite drop_ge, app_nil_r; [done|].
    rewrite length_replicate. destruct k; simpl; [lia|by rewrite length_replicate].
Qed.

(** The zeromq benchmark completes.  With the same count on both sides,
    over every interleaving each run is at most four steps per message, and it
    can only end with both loops finished; the server has then received
    [count] requests: the uninitialised buffer first, and from the second on
    the asterisks of its own replies. *)
Theorem zmq_pair_completes size count u s :
  length u = size -> rtc (zmq_step size) (zmq_init count u) s ->
  (forall n s', nsteps (zmq_step size) n s s' -> (n <= 4 * count)%nat) /\
  ((forall s', ~ zmq_step size s s') ->
     zp_server_left s = 0%nat /\ zp_client_left s = 0%nat /\ zp_requests s = requests_upto size u count).
Proof.
  intros Hu Hr.
  assert (Hi : zmq_inv size count u s /\ (zmq_measure s <= 4 * count)%nat).
  { eapply (inv_rtc (zmq_step size) (fun s => zmq_inv size count u s /\ (zmq_measure s <= 4 * count)%nat));
      [|idtac|exact Hr].
    - intros a b [Ha Hm] Hs. destruct (zmq_inv_step size count u a b Hu Ha Hs). split; [done|lia].
    - split; [|unfold zmq_measure; simpl; lia]. exists 0%nat. by split_and!. }
  destruct Hi as [Hi Hm]. split.
  - intros n s' Hn. enough (n + zmq_measure s' <= zmq_measure s)%nat by lia. clear Hr Hm.
    induction Hn as [|n x y z Hxy Hyz IH]; [lia|].
    destruct (zmq_inv_step size count u x y Hu Hi Hxy) as [Hy Hlt]. specialize (IH Hy). lia.
  - intros Hstop. destruct Hi as (k & Hk & Hb & Hi).
    destruct s as [req rep sv sl cw cl b rs]. simpl in *. destruct cw.
    + destruct Hi as [Hl [(-> & -> & -> & -> & _)|[(-> & -> & -> & -> & _)|(-> & -> & -> & -> & _)]]].
      * destruct cl; [lia|]. destruct (Hstop _ (Zmq_received _ _ _ _ _ _ _ _)).
      * destruct cl; [lia|]. destruct (Hstop _ (Zmq_replied _ _ _ _ _ _ _)).
      * destruct (Hstop _ (Zmq_answered _ _ _ _ _ _ _ _)).
    + destruct Hi as (-> & -> & -> & -> & ->). destruct cl as [|cl]; [|destruct (Hstop _ (Zmq_request _ _ _ _ _ _ _))].
      split_and!; [done|done|]. f_equal. lia.
Qed.

(** ** Witnesses *)

Lemma zmq_server_rounds_witness :
  let p := start [val 4096; mk_result 0 0 [1700000000; 0]; mk_result 0 0 [1700000000; 1024]; val 3; val 3;
    mk_result 0 0 [1700000000; 3072]; val 0] in
  let run := zmq_server_communicate 7 (mk_Arguments 3 1) (mk_Benchmarks 0 0 0 0 0 0 0) p in
  exists r q, run = (Done r, q) /\ rep_size r = 3.
Proof.
  intros p run.
  assert (Hr : INT32_MIN <= arg_size (mk_Arguments 3 1) <= INT32_MAX) by done.
  destruct run as [[r| | |] q] eqn:E; try (vm_compute in E; discriminate).
  exists r, q. split; [reflexivity|].
  destruct (zmq_server_rounds 7 (mk_Arguments 3 1) (mk_Benchmarks 0 0 0 0 0 0 0) p r q Hr E) as (b & _ & _ & _ & H & _).
  exact H.
Defined.

Lemma zmq_pair_completes_witness :
  requests_upto 2 [7; 8] 2 = [[7; 8]; [42; 42]] /\
  (forall n s', nsteps (zmq_step 2) n (zmq_init 2 [7; 8]) s' -> (n <= 8)%nat).
Proof. split; [done|]. apply (zmq_pair_completes 2 2 [7; 8] (zmq_init 2 [7; 8])); [done|apply rtc_refl]. Defined.
