(* ===== verification/ZeromqPair.v ===== *)
(** * zeromq: the two programs over a request-reply pair

    The loops of [zeromq/server.c] and [zeromq/client.c] run in the place of
    their processes in the protocol of [Zeromq], and then together, call by
    call in any order. *)
From S2P Require Import Prelude Kernel Benchmarks Linking Together Zeromq.

(** ** The moves of the protocol, executable *)
Definition zmq_server_move (size : nat) (s : zmq_pair) : option zmq_pair :=
  let 'mk_zmq_pair req rep rp sl cw cl b rs := s in
  match sl, rp with
  | O, _ => None
  | S l, false => r ← req; Some (mk_zmq_pair None rep true (S l) cw cl b (rs ++ [r]))
  | S l, true =>
      match rep with
      | None => Some (mk_zmq_pair req (Some (replicate size 42)) false l cw cl b rs)
      | Some _ => None
      end
  end.

Definition zmq_client_move (s : zmq_pair) : option zmq_pair :=
  let 'mk_zmq_pair req rep rp sl cw cl b rs := s in
  match cl, cw with
  | O, _ => None
  | S l, false =>
      match req with
      | None => Some (mk_zmq_pair (Some b) rep rp sl true (S l) b rs)
      | Some _ => None
      end
  | S l, true => r ← rep; Some (mk_zmq_pair req None rp sl false l (r ++ drop (length r) b) rs)
  end.

Lemma zmq_server_move_step size s s' : zmq_server_move size s = Some s' -> zmq_step size s s'.
Proof.
  destruct s as [req rep rp sl cw cl b rs]. destruct sl, rp; cbn [zmq_server_move]; try done.
  - destruct rep; [done|]. intros [= <-]. constructor.
  - destruct req; [|done]. intros [= <-]. constructor.
Qed.

Lemma zmq_client_move_step size s s' : zmq_client_move s = Some s' -> zmq_step size s s'.
Proof.
  destruct s as [req rep rp sl cw cl b rs]. destruct cl, cw; cbn [zmq_client_move]; try done.
  - destruct rep; [|done]. intros [= <-]. constructor.
  - destruct req; [done|]. intros [= <-]. constructor.
Qed.

(** ** The links *)
Variant zmq_client_goes := Zmq_client_goes.
Variant zmq_server_goes := Zmq_server_goes.
Definition zmq_server_turn (size : nat) : Type := turn zmq_client_goes.
Definition zmq_client_turn (size : nat) : Type := turn zmq_server_goes.

(** The clock is read before a request is received and after the reply. *)
Definition zmq_server_answer (size : nat) (t : zmq_server_turn size) (c : syscall) (s : zmq_pair) : reply zmq_pair :=
  match zp_replying s, c with
  | false, Timespec_get => by_clock t (fun _ => Some s)
  | false, Zmq_recv _ n =>
      if (n =? Z.of_nat size) && bool_decide (zp_server_left s <> 0%nat) then
        match zp_request s with
        | Some r => by_move (zmq_server_move size s) (mk_result (Z.of_nat (length r)) 0 r)
        | None => Waits
        end
      else Strange
  | true, Zmq_send _ bytes =>
      if bool_decide (bytes = replicate size 42) then by_move (zmq_server_move size s) (val (Z.of_nat size)) else Strange
  | _, _ => Strange
  end.

Definition zmq_client_answer (size : nat) (t : zmq_client_turn size) (c : syscall) (s : zmq_pair) : reply zmq_pair :=
  match zp_waiting s, c with
  | false, Zmq_send _ bytes =>
      if bool_decide (bytes = zp_buffer s) && bool_decide (zp_client_left s <> 0%nat)
      then by_move (zmq_client_move s) (val (Z.of_nat (length bytes))) else Strange
  | true, Zmq_recv _ n =>
      if n =? Z.of_nat size then
        match zp_reply s with
        | Some r => by_move (zmq_client_move s) (mk_result (Z.of_nat (length r)) 0 r)
        | None => Waits
        end
      else Strange
  | _, _ => Strange
  end.

Lemma zmq_server_answer_move size t c s r s' :
  zmq_server_answer size t c s = Answer r s' -> s' = s \/ zmq_server_move size s = Some s'.
Proof.
  unfold zmq_server_answer. intros H. destruct (zp_replying s), c; try done; repeat case_match; try done;
    try (right; by eapply by_move_inv). left. by apply by_clock_inv in H as [v [= ->]].
Qed.

Lemma zmq_client_answer_move size t c s r s' :
  zmq_client_answer size t c s = Answer r s' -> zmq_client_move s = Some s'.
Proof.
  unfold zmq_client_answer. intros H. destruct (zp_waiting s), c; try done; repeat case_match; try done;
    by eapply by_move_inv.
Qed.

#[export] Instance zmq_server_link size : Link zmq_pair (zmq_server_turn size).
Proof.
  refine {| link_step := zmq_step size; link_others t s := moves_along (fun _ => zmq_client_move) (tn_others t) s;
    link_answer := zmq_server_answer size; link_errno _ _ := True |}; try done.
  - intros t s. apply moves_along_rtc. intros _ s1 s2. apply zmq_client_move_step.
  - intros t c s r s' [->|H]%zmq_server_answer_move; [apply rtc_refl|by apply rtc_once, zmq_server_move_step].
Defined.

#[export] Instance zmq_client_link size : Link zmq_pair (zmq_client_turn size).
Proof.
  refine {| link_step := zmq_step size; link_others t s := moves_along (fun _ => zmq_server_move size) (tn_others t) s;
    link_answer := zmq_client_answer size; link_errno _ _ := True |}; try done.
  - intros t s. apply moves_along_rtc. intros _ s1 s2. apply zmq_server_move_step.
  - intros t c s r s' H%zmq_client_answer_move. by apply rtc_once, zmq_client_move_step.
Defined.

#[export] Instance zmq_server_choices_ok size : Choices zmq_pair (zmq_server_turn size).
Proof.
  refine {| link_alone := turn_alone : zmq_server_turn size -> zmq_server_turn size; link_then := turn_then |}; try done.
  intros. cbn. apply moves_along_app.
Defined.

#[export] Instance zmq_client_choices_ok size : Choices zmq_pair (zmq_client_turn size).
Proof.
  refine {| link_alone := turn_alone : zmq_client_turn size -> zmq_client_turn size; link_then := turn_then |}; try done.
  intros. cbn. apply moves_along_app.
Defined.

#[export] Instance zmq_server_beside size : Beside zmq_pair (zmq_server_turn size) (zmq_client_turn size).
Proof.
  constructor. intros t c s r s' H. apply (zmq_client_answer_move size (turn_alone t) c s r s') in H. exists (mk_turn [Zmq_client_goes] (0, 0) (val 0)).
  cbn. unfold moves_along. cbn. by rewrite H.
Qed.

#[export] Instance zmq_client_beside size : Beside zmq_pair (zmq_client_turn size) (zmq_server_turn size).
Proof.
  constructor. intros t c s r s' H. apply (zmq_server_answer_move size (turn_alone t) c s r s') in H as [->|H]; [by exists (mk_turn [] (0, 0) (val 0))|].
  exists (mk_turn [Zmq_server_goes] (0, 0) (val 0)). cbn. unfold moves_along. cbn. by rewrite H.
Qed.

(** ** The programs against the protocol *)
Section programs.
Context (size rounds : nat) (u : list Z).
Hypothesis u_size : length u = size.

Definition zmq_server_at (replying : bool) (left : nat) (s : zmq_pair) : Prop :=
  zmq_inv size rounds u s /\ zp_replying s = replying /\ zp_server_left s = left.
Definition zmq_client_at (waiting : bool) (left : nat) (buffer : list Z) (s : zmq_pair) : Prop :=
  zmq_inv size rounds u s /\ zp_waiting s = waiting /\ zp_client_left s = left /\ zp_buffer s = buffer.

Lemma zmq_server_at_stable replying left : stable (T:=zmq_server_turn size) (zmq_server_at replying left).
Proof.
  intros t s H. cbn. apply moves_along_inv; [|done]. intros c s1 s2 (Hi & Hr & Hl) Hm.
  split; [by eapply (zmq_inv_step size rounds u), zmq_client_move_step|].
  destruct s1 as [req rep rp sl cw cl b rs]. destruct cl, cw; cbn [zmq_client_move] in Hm; try done;
    destruct rep, req; try done; injection Hm as <-; done.
Qed.

Lemma zmq_client_at_stable waiting left buffer : stable (T:=zmq_client_turn size) (zmq_client_at waiting left buffer).
Proof.
  intros t s H. cbn. apply moves_along_inv; [|done]. intros c s1 s2 (Hi & Hr & Hl & Hb) Hm.
  split; [by eapply (zmq_inv_step size rounds u), zmq_server_move_step|].
  destruct s1 as [req rep rp sl cw cl b rs]. destruct sl, rp; cbn [zmq_server_move] in Hm; try done;
    destruct rep, req; try done; injection Hm as <-; done.
Qed.

(** Every message has [size] bytes. *)
Lemma zmq_messages_sized s :
  zmq_inv size rounds u s ->
  length (zp_buffer s) = size /\ (forall r, zp_request s = Some r -> length r = size) /\
  (forall r, zp_reply s = Some r -> length r = size).
Proof.
  intros (k & _ & Hb & Hi).
  assert (Hl : length (buffer_after size u k) = size) by (destruct k; cbn; [done|apply length_replicate]).
  split; [by rewrite Hb|]. destruct (zp_waiting s).
  - destruct Hi as [_ [(-> & -> & _)|[(-> & -> & _)|(-> & -> & _)]]]; split; intros r [= <-]; [done|apply length_replicate].
  - by destruct Hi as (-> & -> & _).
Qed.

Lemma zmq_server_clock left D R :
  triple (T:=zmq_server_turn size) (zmq_server_at false left) read_now (fun _ => zmq_server_at false left) D R.
Proof.
  apply (triple_read_now _ (fun _ => zmq_server_at false left)); [apply zmq_server_at_stable|].
  intros t s (Hi & Hr & Hl). cbn [link_answer zmq_server_link]. unfold zmq_server_answer, by_clock. rewrite Hr.
  destruct (now _ _) as [v|] eqn:Hn; [|done]. cbn. do 3 eexists. by split_and!.
Qed.

Lemma zmq_server_receives socket left D R :
  triple (T:=zmq_server_turn size) (zmq_server_at false (S left)) (sys_rv (Zmq_recv socket (Z.of_nat size)))
    (fun v s => v = Z.of_nat size /\ zmq_server_at true (S left) s) D R.
Proof.
  apply triple_sys_rv; [apply zmq_server_at_stable|]. intros t s (Hi & Hr & Hl).
  cbn [link_answer zmq_server_link]. unfold zmq_server_answer. rewrite Hr, Z.eqb_refl, Hl, bool_decide_eq_true_2 by done.
  cbn [andb]. destruct (zmq_messages_sized s Hi) as (_ & Hsz & _).
  destruct (zp_request s) as [req|] eqn:Eq; [|done]. destruct (zmq_server_move size s) as [s'|] eqn:Hm; [|done].
  cbn. split; [by rewrite (Hsz req)|]. split; [by eapply (zmq_inv_step size rounds u), zmq_server_move_step|].
  destruct s as [req' rep rp sl cw cl b rs]. simpl in Hr, Hl, Eq. subst. cbn [zmq_server_move] in Hm. by injection Hm as <-.
Qed.

Lemma zmq_server_replies socket left D R :
  triple (T:=zmq_server_turn size) (zmq_server_at true (S left)) (sys_rv (Zmq_send socket (replicate size 42)))
    (fun v s => v = Z.of_nat size /\ zmq_server_at false left s) D R.
Proof.
  apply triple_sys_rv; [apply zmq_server_at_stable|]. intros t s (Hi & Hr & Hl).
  cbn [link_answer zmq_server_link]. unfold zmq_server_answer. rewrite Hr, bool_decide_eq_true_2 by done.
  destruct (zmq_server_move size s) as [s'|] eqn:Hm; [|done]. cbn. split; [done|].
  split; [by eapply (zmq_inv_step size rounds u), zmq_server_move_step|].
  destruct s as [req' rep rp sl cw cl b rs]. simpl in Hr, Hl. subst. cbn [zmq_server_move] in Hm.
  destruct rep; [done|]. by injection Hm as <-.
Qed.

Lemma halts_zmq_server n socket buffer args : forall bench,
  halts (S:=zmq_pair) (T:=zmq_server_turn size) (zmq_server_loop n socket buffer args bench).
Proof.
  induction n as [|n IH]; intros bench; cbn [zmq_server_loop]; [apply halts_ret|].
  unfold start_single, benchmark_call, fill_buffer. halting; apply IH.
Qed.

Lemma zmq_server_loops socket buffer args D n : forall bench,
  buffer <> 0 -> arg_size args = Z.of_nat size -> arg_size args <= INT32_MAX ->
  0 <= count bench -> count bench + Z.of_nat n <= INT32_MAX ->
  triple (T:=zmq_server_turn size) (zmq_server_at false n) (zmq_server_loop n socket buffer args bench)
    (fun b s => count b = count bench + Z.of_nat n /\ zmq_server_at false 0 s) D (fun _ => False).
Proof.
  induction n as [|n IH]; intros bench Hb Hs Hmax Hc Hle; cbn [zmq_server_loop].
  { apply triple_ret. intros s H. split; [lia|done]. }
  eapply triple_bind; [unfold benchmark_call, fill_buffer; halting; apply halts_zmq_server|apply triple_start_single, zmq_server_clock|intros b].
  apply triple_pure. intros Hcb. rewrite Hs, u64_small by (unfold INT32_MAX in *; lia).
  eapply triple_bind; [unfold benchmark_call, fill_buffer; halting; apply halts_zmq_server|apply zmq_server_receives|intros v].
  apply triple_pure. intros ->. apply triple_bind_passes; [by apply Z.ltb_irrefl|].
  unfold fill_buffer at 1. rewrite (proj2 (Z.eqb_neq buffer 0)), (proj2 (Z.ltb_ge _ _)) by lia. cbn [orb].
  apply triple_bind_ret. rewrite Nat2Z.id.
  eapply triple_bind; [unfold benchmark_call; halting; apply halts_zmq_server|apply zmq_server_replies|intros v].
  apply triple_pure. intros ->. apply triple_bind_passes; [by apply Z.ltb_irrefl|].
  eapply (triple_bind _ _ _ (fun b' s => count b' = count bench + 1 /\ zmq_server_at false n s));
    [intros; apply halts_zmq_server| |intros b'].
  - rewrite <- Hcb. apply triple_benchmark_count; [lia|apply zmq_server_clock].
  - apply triple_pure. intros Hb'. eapply triple_conseq; [apply IH; lia|done| |done|done].
    intros b'' s [H1 H2]. split; [lia|done].
Qed.

Lemma zmq_client_sends socket left buffer D R :
  triple (T:=zmq_client_turn size) (zmq_client_at false (S left) buffer) (sys_rv (Zmq_send socket buffer))
    (fun v s => v = Z.of_nat size /\ zmq_client_at true (S left) buffer s) D R.
Proof.
  apply triple_sys_rv; [apply zmq_client_at_stable|]. intros t s (Hi & Hw & Hl & Hb).
  cbn [link_answer zmq_client_link]. unfold zmq_client_answer. rewrite Hw, Hl, Hb, !bool_decide_eq_true_2 by done. cbn [andb].
  destruct (zmq_client_move s) as [s'|] eqn:Hm; [|done]. cbn.
  split; [rewrite <- Hb; f_equal; by apply zmq_messages_sized|].
  split; [by eapply (zmq_inv_step size rounds u), zmq_client_move_step|].
  destruct s as [req rep rp sl cw cl b rs]. simpl in Hw, Hl, Hb. subst. cbn [zmq_client_move] in Hm.
  destruct req; [done|]. by injection Hm as <-.
Qed.

Lemma zmq_client_receives socket left buffer D R :
  triple (T:=zmq_client_turn size) (zmq_client_at true (S left) buffer) (sys (Zmq_recv socket (Z.of_nat size)))
    (fun r s => rv r = Z.of_nat size /\ zmq_client_at false left (data r ++ drop (length (data r)) buffer) s) D R.
Proof.
  apply triple_sys; [apply zmq_client_at_stable|]. intros t s (Hi & Hw & Hl & Hb).
  cbn [link_answer zmq_client_link]. unfold zmq_client_answer. rewrite Hw, Z.eqb_refl.
  destruct (zmq_messages_sized s Hi) as (_ & _ & Hsz).
  destruct (zp_reply s) as [rep|] eqn:Er; [|done]. destruct (zmq_client_move s) as [s'|] eqn:Hm; [|done]. cbn.
  split; [by rewrite (Hsz rep)|]. split; [by eapply (zmq_inv_step size rounds u), zmq_client_move_step|].
  destruct s as [req rep' rp sl cw cl b rs]. simpl in Hw, Hl, Hb, Er. subst. cbn [zmq_client_move] in Hm. by injection Hm as <-.
Qed.

Lemma halts_zmq_client n socket args : forall bytes,
  halts (S:=zmq_pair) (T:=zmq_client_turn size) (zmq_client_loop n socket args bytes).
Proof. induction n as [|n IH]; intros bytes; cbn [zmq_client_loop]; halting; apply IH. Qed.

Lemma zmq_client_loops socket args D n : forall buffer,
  arg_size args = Z.of_nat size -> arg_size args <= INT32_MAX ->
  triple (T:=zmq_client_turn size) (zmq_client_at false n buffer) (zmq_client_loop n socket args buffer)
    (fun b => zmq_client_at false 0 b) D (fun _ => False).
Proof.
  induction n as [|n IH]; intros buffer Hs Hmax; cbn [zmq_client_loop]; [by apply triple_ret|].
  rewrite Hs, u64_small by (unfold INT32_MAX in *; lia).
  eapply triple_bind; [halting; apply halts_zmq_client|apply zmq_client_sends|intros v].
  apply triple_pure. intros ->. apply triple_bind_passes; [by apply Z.ltb_irrefl|].
  eapply triple_bind; [halting; apply halts_zmq_client|apply zmq_client_receives|intros r].
  apply triple_pure. intros ->. apply triple_bind_passes; [by apply Z.ltb_irrefl|]. by apply IH.
Qed.

(** ** A call that is expected and possible is answered *)
Definition zmq_server_can (s : zmq_pair) : Prop :=
  zp_server_left s = 0%nat /\ zp_replying s = false \/ is_Some (zmq_server_move size s).

Lemma zmq_server_answers c s :
  (forall t, zmq_server_answer size (turn_alone t) c s <> Strange) -> zmq_server_can s ->
  exists t r s', zmq_server_answer size (turn_alone t) c s = Answer r s'.
Proof.
  clear u_size. intros Hc Hcan. specialize (Hc (mk_turn [] (0, 0) (val 0))). exists (mk_turn [] (0, 0) (val 0)).
  unfold zmq_server_answer, by_clock, turn_alone in *. cbn [tn_clock tn_result fst snd] in *. rewrite now_zero in *.
  destruct s as [req rep rp sl cw cl b rs]. cbn [zp_replying zp_server_left zp_request] in *.
  unfold zmq_server_can in Hcan. cbn [zp_server_left zp_replying] in Hcan. destruct rp, c; try done; try by do 2 eexists.
  - destruct (bool_decide _); [|done]. destruct Hcan as [[_ ?]|[s' Hm]]; [done|]. rewrite Hm. by do 2 eexists.
  - destruct (_ =? _); [|done]. case_bool_decide as Hl; [|done]. cbn [andb] in *.
    destruct Hcan as [[? _]|[s' Hm]]; [done|]. destruct sl as [|sl]; [done|]. cbn [zmq_server_move] in *.
    destruct req; [|done]. by do 2 eexists.
Qed.

Lemma zmq_client_answers c s :
  (forall t, zmq_client_answer size (turn_alone t) c s <> Strange) -> is_Some (zmq_client_move s) ->
  exists t r s', zmq_client_answer size (turn_alone t) c s = Answer r s'.
Proof.
  clear u_size. intros Hc [s' Hm]. specialize (Hc (mk_turn [] (0, 0) (val 0))). exists (mk_turn [] (0, 0) (val 0)).
  unfold zmq_client_answer, turn_alone in *. rewrite Hm in *. destruct (zp_waiting s) eqn:Hw, c; try done;
    (case_match; [|done]); try by do 2 eexists.
  destruct s as [req rep rp sl cw cl b rs]. simpl in Hw. subst. destruct cl; cbn [zmq_client_move zp_reply] in *; [done|].
  destruct rep; [|done]. by do 2 eexists.
Qed.

Lemma zmq_client_ended t c s :
  zp_waiting s = false -> zp_client_left s = 0%nat -> zmq_client_answer size t c s = Strange.
Proof.
  intros Hw Hl. unfold zmq_client_answer. rewrite Hw, Hl. destruct c; try done.
  by rewrite (bool_decide_eq_false_2 (0%nat <> 0%nat)), andb_false_r by auto.
Qed.

(** Somebody can go on; each side can when the other has returned. *)
Lemma zmq_ready s : zmq_inv size rounds u s -> zmq_server_can s \/ is_Some (zmq_client_move s).
Proof.
  clear u_size. intros (k & _ & _ & Hi). destruct s as [req rep rp sl cw cl b rs]. unfold zmq_server_can. simpl in *. destruct cw.
  - destruct Hi as [Hl [(-> & -> & -> & -> & _)|[(-> & -> & -> & -> & _)|(-> & -> & -> & -> & _)]]].
    + left. right. destruct cl; [lia|by eexists].
    + left. right. destruct cl; [lia|by eexists].
    + right. by eexists.
  - destruct Hi as (-> & _ & -> & -> & _). destruct cl; [left; by left|right; by eexists].
Qed.

Lemma zmq_client_gone s :
  zmq_inv size rounds u s -> zp_waiting s = false -> zp_client_left s = 0%nat -> zmq_server_can s.
Proof. clear u_size. intros (k & _ & _ & Hi) Hw Hl. rewrite Hw, Hl in Hi. destruct Hi as (_ & _ & Hr & Hsl & _). by left. Qed.

Lemma zmq_server_gone s :
  zmq_inv size rounds u s -> zp_replying s = false -> zp_server_left s = 0%nat ->
  zp_waiting s = false /\ zp_client_left s = 0%nat \/ is_Some (zmq_client_move s).
Proof.
  clear u_size. intros (k & _ & _ & Hi). destruct s as [req rep rp sl cw cl b rs]. simpl in *. intros -> ->. destruct cw.
  - destruct Hi as [Hl [(_ & _ & _ & <- & _)|[(_ & _ & ? & _)|(-> & -> & _ & -> & _)]]]; [lia|done|]. right. by eexists.
  - left. by destruct Hi as (_ & _ & _ & <- & _).
Qed.

End programs.

(** ** The programs call nothing but the kernel, and a bounded number of times *)
Lemma interactive_zmq_server n socket buffer args : forall bench,
  interactive (fun W _ => zmq_server_loop (W:=W) n socket buffer args bench).
Proof.
  induction n; intros bench; cbn [zmq_server_loop]; unfold start_single, fill_buffer, benchmark_call, read_now; interacting.
Qed.

Lemma interactive_zmq_client n socket args : forall bytes,
  interactive (fun W _ => zmq_client_loop (W:=W) n socket args bytes).
Proof. induction n; intros bytes; cbn [zmq_client_loop]; interacting. Qed.

Lemma zmq_client_calls {W} `{!Kernel W} n socket args : forall bytes, at_most (2 * n) (zmq_client_loop n socket args bytes).
Proof.
  induction n as [|n IH]; intros bytes; cbn [zmq_client_loop]; [apply at_most_pure|].
  apply (at_most_le (1 + (0 + (1 + (0 + 2 * n))))); [|lia].
  apply at_most_bind; [apply at_most_sys_rv|intros v]. apply at_most_bind; [apply at_most_throw_if|intros ?].
  apply at_most_bind; [apply at_most_sys|intros r]. apply at_most_bind; [apply at_most_throw_if|intros ?]. apply IH.
Qed.

Lemma zmq_server_calls {W} `{!Kernel W} n socket buffer args : forall bench,
  at_most (4 * n) (zmq_server_loop n socket buffer args bench).
Proof.
  induction n as [|n IH]; intros bench; cbn [zmq_server_loop]; [apply at_most_pure|].
  apply (at_most_le ((1 + 0) + (1 + (0 + (0 + (1 + (0 + ((1 + 0) + 4 * n)))))))); [|lia].
  apply at_most_bind; [unfold start_single; apply at_most_bind; [apply at_most_read_now|intros; apply at_most_pure]|intros b].
  apply at_most_bind; [apply at_most_sys_rv|intros v]. apply at_most_bind; [apply at_most_throw_if|intros ?].
  apply at_most_bind; [unfold fill_buffer; destruct (_ || _); apply at_most_pure|intros bytes].
  apply at_most_bind; [apply at_most_sys_rv|intros w]. apply at_most_bind; [apply at_most_throw_if|intros ?].
  apply at_most_bind; [|intros b'; apply IH].
  unfold benchmark_call. apply at_most_bind; [apply at_most_read_now|intros; apply at_most_defined].
Qed.

(** ** The pair *)
Section pair.
Context (size rounds : nat) (u : list Z) (socket_s socket_c buffer : Z) (args : Arguments) (bench0 : Benchmarks).

Definition zmq_server_program W `{!Kernel W} : M (process W) Benchmarks :=
  zmq_server_loop rounds socket_s buffer args bench0.
Definition zmq_client_program W `{!Kernel W} : M (process W) (list Z) := zmq_client_loop rounds socket_c args u.

Definition zmq_joint_step : relation (joint zmq_pair) :=
  joint_step (TA:=zmq_server_turn size) (TB:=zmq_client_turn size) (zmq_server_program script) (zmq_client_program script).
Definition zmq_joint_init : joint zmq_pair := mk_joint (zmq_init rounds u) [] [].

Definition zmq_server_returned (b : Benchmarks) (s : zmq_pair) : Prop :=
  count b = count bench0 + Z.of_nat rounds /\ zmq_server_at size rounds u false 0 s.

Lemma zmq_pair_sound j :
  length u = size -> buffer <> 0 -> arg_size args = Z.of_nat size -> arg_size args <= INT32_MAX ->
  0 <= count bench0 -> count bench0 + Z.of_nat rounds <= INT32_MAX ->
  rtc zmq_joint_step zmq_joint_init j ->
  rtc (zmq_step size) (zmq_init rounds u) (j_state j) /\
  abides (T:=zmq_server_turn size) (zmq_server_program script) zmq_server_returned (fun _ => False) (fun _ => False)
    (j_first j) (j_state j) /\
  abides (T:=zmq_client_turn size) (zmq_client_program script) (fun b => zmq_client_at size rounds u false 0 b)
    (fun _ => False) (fun _ => False) (j_second j) (j_state j).
Proof.
  intros Hu Hb Hs Hmax Hc Hle Hr. assert (Hi : zmq_inv size rounds u (zmq_init rounds u)) by (exists 0%nat; by split_and!).
  split.
  - by apply (joint_steps (TA:=zmq_server_turn size) (TB:=zmq_client_turn size) zmq_server_program zmq_client_program) in Hr.
  - apply (joint_sound (TA:=zmq_server_turn size) (TB:=zmq_client_turn size) zmq_server_program zmq_client_program
      (interactive_zmq_server rounds socket_s buffer args bench0) (interactive_zmq_client rounds socket_c args u)
      (zmq_server_at size rounds u false rounds) (zmq_client_at size rounds u false rounds u)) with (s0 := zmq_init rounds u);
      try done; try (intros; apply stable_False).
    + by apply zmq_server_loops.
    + by apply zmq_client_loops.
    + intros b. by apply stable_pure, zmq_server_at_stable.
    + intros b. by apply zmq_client_at_stable.
Qed.

(** A pair that cannot go on has returned on both sides. *)
Lemma zmq_pair_stops j :
  length u = size -> zmq_inv size rounds u (j_state j) ->
  abides (T:=zmq_server_turn size) (zmq_server_program script) zmq_server_returned (fun _ => False) (fun _ => False)
    (j_first j) (j_state j) ->
  abides (T:=zmq_client_turn size) (zmq_client_program script) (fun b => zmq_client_at size rounds u false 0 b)
    (fun _ => False) (fun _ => False) (j_second j) (j_state j) ->
  (exists j', zmq_joint_step j j') \/
  next_call (zmq_server_program script) (j_first j) = None /\ next_call (zmq_client_program script) (j_second j) = None.
Proof.
  intros Hu Hi Ha Hb. destruct j as [s ra rb]. cbn [j_state j_first j_second] in *. unfold abides in Ha, Hb.
  assert (Hserver : forall c, next_call (zmq_server_program script) ra = Some c -> zmq_server_can size s ->
    exists j', zmq_joint_step (mk_joint s ra rb) j').
  { intros c E Hcan. rewrite E in Ha. destruct (zmq_server_answers size c s Ha Hcan) as (t & r & s' & Et).
    eexists. eapply First_calls; [exact E|exact Et]. }
  assert (Hclient : forall c, next_call (zmq_client_program script) rb = Some c -> is_Some (zmq_client_move s) ->
    exists j', zmq_joint_step (mk_joint s ra rb) j').
  { intros c E Hcan. rewrite E in Hb. destruct (zmq_client_answers size c s Hb Hcan) as (t & r & s' & Et).
    eexists. eapply Second_calls; [exact E|exact Et]. }
  destruct (next_call (zmq_server_program script) ra) as [c|] eqn:Ea;
    destruct (next_call (zmq_client_program script) rb) as [d|] eqn:Eb.
  - left. destruct (zmq_ready size rounds u s Hi); eauto.
  - left. apply (Hserver c eq_refl). destruct (outcome_on _ rb) as [b| | |]; try done. destruct Hb as (_ & Hw & Hl & _).
    by eapply zmq_client_gone.
  - left. destruct (outcome_on _ ra) as [b| | |]; try done. destruct Ha as (_ & _ & Hp & Hl).
    destruct (zmq_server_gone size rounds u s Hi Hp Hl) as [[Hw Hcl]|Hm]; [|eauto].
    by destruct (Hb (mk_turn [] (0, 0) (val 0)) (zmq_client_ended size _ d s Hw Hcl)).
  - by right.
Qed.

End pair.

(** ** Properties *)

(** C8: the two programs of zeromq complete together.  With the same count and
    size on both sides, in whatever order they make their calls on the pair of
    sockets, the loops only make its moves, every run has at most six calls per
    message, and a run that cannot be continued has both programs returned: the
    server has measured [count] times, and the client's buffer holds the reply
    (or, without a message, what it held before). *)
Theorem zmq_together size rounds u socket_s socket_c buffer args bench0 j :
  length u = size -> buffer <> 0 -> arg_size args = Z.of_nat size -> arg_size args <= INT32_MAX ->
  0 <= count bench0 -> count bench0 + Z.of_nat rounds <= INT32_MAX ->
  rtc (zmq_joint_step size rounds u socket_s socket_c buffer args bench0) (zmq_joint_init rounds u) j ->
  rtc (zmq_step size) (zmq_init rounds u) (j_state j) /\
  (forall n j', nsteps (zmq_joint_step size rounds u socket_s socket_c buffer args bench0) n
     (zmq_joint_init rounds u) j' -> (n <= 6 * rounds)%nat) /\
  ((forall j', ~ zmq_joint_step size rounds u socket_s socket_c buffer args bench0 j j') ->
   (exists bench, outcome_on (zmq_server_program rounds socket_s buffer args bench0 script) (j_first j) = Done bench /\
      count bench = count bench0 + Z.of_nat rounds) /\
   outcome_on (zmq_client_program rounds u socket_c args script) (j_second j) = Done (buffer_after size u rounds)).
Proof.
  intros Hu Hb Hs Hmax Hc Hle Hr.
  destruct (zmq_pair_sound size rounds u socket_s socket_c buffer args bench0 j) as (Hsteps & Hab & Hbb); try done.
  split_and!; [done|..].
  - intros n j' Hn. apply (joint_run_bounded (TA:=zmq_server_turn size) (TB:=zmq_client_turn size) (4 * rounds) (2 * rounds)) in Hn;
      cbn in Hn |- *; [lia|apply zmq_server_calls|apply zmq_client_calls|lia|lia].
  - intros Hstop.
    assert (Hi : zmq_inv size rounds u (j_state j)).
    { eapply (inv_rtc (zmq_step size) (zmq_inv size rounds u)); [|idtac|exact Hsteps]; [|exists 0%nat; by split_and!].
      intros a b Ha Hst. by eapply (zmq_inv_step size rounds u). }
    destruct (zmq_pair_stops size rounds u socket_s socket_c buffer args bench0 j Hu Hi Hab Hbb) as [[j' Hst]|[Ea Eb]].
    { by destruct (Hstop j'). }
    unfold abides in Hab, Hbb. rewrite Ea in Hab. rewrite Eb in Hbb. split.
    + destruct (outcome_on _ (j_first j)) as [b| | |]; try done. exists b. by destruct Hab.
    + destruct (outcome_on _ (j_second j)) as [b| | |]; try done. destruct Hbb as (_ & _ & Hl & <-).
      destruct Hi as (k & Hk & -> & _). do 2 f_equal. lia.
Qed.

(** ** Witness *)

Definition zmq_schedule : list (zmq_server_turn 2 + zmq_client_turn 2) :=
  let s := inl (mk_turn [] (1700000000, 0) (val 0)) in
  let c := inr (mk_turn [] (0, 0) (val 0)) in
  [c; s; s; s; c; s; s; c; s; s; c; s].

Definition zmq_pair_args : Arguments := mk_Arguments 2 2.
Definition zmq_pair_bench : Benchmarks := mk_Benchmarks 0 0 INT32_MAX 0 0 0 0.

Definition zmq_pair_run : joint zmq_pair :=
  state_along (joint_move (zmq_server_program 2 7 4096 zmq_pair_args zmq_pair_bench script)
      (zmq_client_program 2 [7; 8] 9 zmq_pair_args script)) zmq_schedule (zmq_joint_init 2 [7; 8]).

Lemma zmq_together_witness :
  outcome_on (zmq_client_program 2 [7; 8] 9 zmq_pair_args script) (j_second zmq_pair_run) = Done [42; 42] /\
  zp_requests (j_state zmq_pair_run) = [[7; 8]; [42; 42]] /\
  rtc (zmq_step 2) (zmq_init 2 [7; 8]) (j_state zmq_pair_run).
Proof.
  split; [by vm_compute|]. split; [by vm_compute|].
  refine (proj1 (zmq_together 2 2 [7; 8] 7 9 4096 zmq_pair_args zmq_pair_bench zmq_pair_run eq_refl _ eq_refl _ _ _ _));
    [done|by vm_compute|by vm_compute|by vm_compute|].
  apply state_along_rtc; [intros t a b; apply joint_move_step|by vm_compute; eexists].
Defined.
