(* ===== verification/PthreadTest.v ===== *)
(** * other/pthread-test.c: adding an array with several threads

    The threads of [recursive_add], [parallel_add] and [interleaved_add] over
    the global [sum] and one mutex.  A thread that creates others is a tree: its
    own activity beside those of the threads it will join.  The addition under
    the mutex is two accesses, so that the mutex matters. *)
From S2P Require Import Prelude Benchmarks.

Definition array : list Z := [1; 2; 3; 4; 5; 6; 7; 8; 9; 10].

Record Task := mk_Task { first : Z; last : Z }.

(** [a[i]]: outside the array is undefined. *)
Definition element (a : list Z) (i : Z) : option Z := if i <? 0 then None else a !! Z.to_nat i.

(** Places in the loop [lock; sum += array[i]; unlock]. *)
Inductive add_pc :=
  | Add_test                 (* the loop's test, then pthread_mutex_lock *)
  | Add_read                 (* holding the mutex: reads sum and array[i] *)
  | Add_write (v : Z)        (* holding the mutex: stores the new sum *)
  | Add_unlock.

Inductive threads :=
  | Recursive (task : Task)              (* recursive_addition entered *)
  | Adding (pc : add_pc) (i last : Z)    (* its loop, or that of add *)
  | Joining (created own : threads)      (* a created thread; this one's work before the join *)
  | Parallel                             (* parallel_add entered *)
  | Parallel_second (created : threads)  (* before the second create_thread *)
  | Returned.

#[export] Instance add_pc_eq_dec : EqDecision add_pc.
Proof. solve_decision. Defined.
#[export] Instance task_eq_dec : EqDecision Task.
Proof. solve_decision. Defined.
#[export] Instance threads_eq_dec : EqDecision threads.
Proof. solve_decision. Defined.

(** [left_task] and [right_task]. *)
Definition halves (task : Task) : Task * Task :=
  let middle := first task + Z.quot (last task - first task) 2 in
  (mk_Task (first task) middle, mk_Task middle (last task)).

(** The memory the threads share; [None]: undefined behaviour. *)
Record shared := mk_shared { sh_locked : bool; sh_sum : Z }.

(** One step of a tree of threads; creating a thread succeeds (a failure ends
    the process). *)
Inductive thread_step (a : list Z) : shared -> threads -> option shared -> threads -> Prop :=
  | Step_overflow s t :
      i32_checked (last t - first t) = None -> thread_step a s (Recursive t) None Returned
  | Step_small s t d :
      i32_checked (last t - first t) = Some d -> d <= 2 ->
      thread_step a s (Recursive t) (Some s) (Adding Add_test (first t) (last t))
  | Step_split s t d :
      i32_checked (last t - first t) = Some d -> 2 < d ->
      thread_step a s (Recursive t) (Some s) (Joining (Recursive (halves t).1) (Recursive (halves t).2))
  | Step_exit s pc i l :
      l <= i -> pc = Add_test -> thread_step a s (Adding pc i l) (Some s) Returned
  | Step_lock v i l :
      i < l -> thread_step a (mk_shared false v) (Adding Add_test i l) (Some (mk_shared true v)) (Adding Add_read i l)
  | Step_read s i l x v :
      element a i = Some x -> i32_checked (sh_sum s + x) = Some v ->
      thread_step a s (Adding Add_read i l) (Some s) (Adding (Add_write v) i l)
  | Step_read_undefined s i l :
      (x ← element a i; i32_checked (sh_sum s + x)) = None ->
      thread_step a s (Adding Add_read i l) None Returned
  | Step_write s v i l :
      thread_step a s (Adding (Add_write v) i l) (Some (mk_shared (sh_locked s) v)) (Adding Add_unlock i l)
  | Step_unlock s i l :
      thread_step a s (Adding Add_unlock i l) (Some (mk_shared false (sh_sum s))) (Adding Add_test (i + 1) l)
  | Step_created s c o s' c' : thread_step a s c s' c' -> thread_step a s (Joining c o) s' (Joining c' o)
  | Step_own s c o s' o' : thread_step a s o s' o' -> thread_step a s (Joining c o) s' (Joining c o')
  | Step_join s : thread_step a s (Joining Returned Returned) (Some s) Returned
  | Step_first s :
      thread_step a s Parallel (Some s) (Parallel_second (Adding Add_test 0 5))
  | Step_second s c :
      thread_step a s (Parallel_second c) (Some s) (Joining c (Adding Add_test 5 10))
  | Step_first_runs s c s' c' :
      thread_step a s c s' c' -> thread_step a s (Parallel_second c) s' (Parallel_second c').

(** The process: undefined behaviour has no further steps. *)
Inductive process_step (a : list Z) : option shared * threads -> option shared * threads -> Prop :=
  | Process_step s t s' t' : thread_step a s t s' t' -> process_step a (Some s, t) (s', t').

Definition at_start (t : threads) : option shared * threads := (Some (mk_shared false 0), t).
Definition recursive_add : threads := Recursive (mk_Task 0 10).
Definition parallel_add : threads := Parallel.

(** ** The reference: one loop *)
Fixpoint sum_from (a : list Z) (i : Z) (n : nat) : Z :=
  match n with O => 0 | S n => default 0 (element a i) + sum_from a (i + 1) n end.

(** [for (i = first; i < last; ++i) sum += array[i];] *)
Definition slice_sum (a : list Z) (first last : Z) : Z := sum_from a first (Z.to_nat (last - first)).

(** ** What is left to add, and in which order of size *)
Fixpoint todo (a : list Z) (t : threads) : Z :=
  match t with
  | Recursive t => slice_sum a (first t) (last t)
  | Adding Add_unlock i l => slice_sum a (i + 1) l
  | Adding _ i l => slice_sum a i l
  | Joining c o => todo a c + todo a o
  | Parallel => slice_sum a 0 5 + slice_sum a 5 10
  | Parallel_second c => todo a c + slice_sum a 5 10
  | Returned => 0
  end.

(** Threads that hold the mutex. *)
Fixpoint holders (t : threads) : nat :=
  match t with
  | Adding Add_test _ _ => 0
  | Adding _ _ _ => 1
  | Joining c o => holders c + holders o
  | Parallel_second c => holders c
  | _ => 0
  end.

(** Every index a thread will use is in the array, and a value about to be
    stored is the sum with its element. *)
Fixpoint threads_ok (a : list Z) (sum : Z) (t : threads) : Prop :=
  let inside i l := 0 <= i /\ i <= l <= Z.of_nat (length a) in
  match t with
  | Recursive t => inside (first t) (last t)
  | Adding Add_test i l => inside i l
  | Adding (Add_write v) i l => inside i l /\ i < l /\ v = sum + default 0 (element a i)
  | Adding _ i l => inside i l /\ i < l
  | Joining c o => threads_ok a sum c /\ threads_ok a sum o
  | Parallel => inside 5 10
  | Parallel_second c => threads_ok a sum c /\ inside 5 10
  | Returned => True
  end.

Fixpoint steps_left (t : threads) : nat :=
  match t with
  | Recursive t =>
      let d := last t - first t in
      if d <=? 2 then Z.to_nat (4 * Z.max d 0 + 2) else Z.to_nat (10 * d - 3)
  | Adding Add_test i l => Z.to_nat (4 * Z.max (l - i) 0 + 1)
  | Adding Add_read i l => Z.to_nat (4 * Z.max (l - i) 0)
  | Adding (Add_write _) i l => Z.to_nat (4 * Z.max (l - i) 0 - 1)
  | Adding Add_unlock i l => Z.to_nat (4 * Z.max (l - i) 0 - 2)
  | Joining c o => 1 + steps_left c + steps_left o
  | Parallel => 45
  | Parallel_second c => 23 + steps_left c
  | Returned => 0
  end.

(** ** Lemmas on sums *)

Lemma sum_from_app a n m : forall i, sum_from a i (n + m) = sum_from a i n + sum_from a (i + Z.of_nat n) m.
Proof.
  induction n as [|n IH]; intros i; [by rewrite Z.add_0_r|]. cbn [sum_from Nat.add].
  rewrite IH, Z.add_assoc. do 2 f_equal. lia.
Qed.

Lemma slice_sum_nil a i l : l <= i -> slice_sum a i l = 0.
Proof. intros H. unfold slice_sum. by replace (Z.to_nat (l - i)) with 0%nat by lia. Qed.

Lemma slice_sum_cons a i l : i < l -> slice_sum a i l = default 0 (element a i) + slice_sum a (i + 1) l.
Proof.
  intros H. unfold slice_sum. by replace (Z.to_nat (l - i)) with (S (Z.to_nat (l - (i + 1)))) by lia.
Qed.

Lemma slice_sum_split a i m l : i <= m <= l -> slice_sum a i m + slice_sum a m l = slice_sum a i l.
Proof.
  intros H. unfold slice_sum.
  replace (Z.to_nat (l - i)) with (Z.to_nat (m - i) + Z.to_nat (l - m))%nat by lia.
  rewrite sum_from_app. do 2 f_equal. lia.
Qed.

Lemma element_inside a i : 0 <= i < Z.of_nat (length a) -> exists x, element a i = Some x.
Proof.
  intros H. unfold element. rewrite (proj2 (Z.ltb_ge i 0)) by lia. apply lookup_lt_is_Some. lia.
Qed.

(** The magnitudes of the elements bound every partial sum. *)
Definition magnitudes (a : list Z) : list Z := Z.abs <$> a.

Lemma element_magnitudes a i : element (magnitudes a) i = Z.abs <$> element a i.
Proof. unfold element, magnitudes. destruct (i <? 0); [done|]. apply list_lookup_fmap. Qed.

Lemma slice_magnitudes_nonneg a i l : 0 <= slice_sum (magnitudes a) i l.
Proof.
  unfold slice_sum. generalize (Z.to_nat (l - i)) as n. intros n. revert i.
  induction n as [|n IH]; intros i; cbn [sum_from]; [lia|]. rewrite element_magnitudes.
  specialize (IH (i + 1)).
  assert (0 <= default 0 (Z.abs <$> element a i)) by (destruct (element a i) as [x|]; [exact (Z.abs_nonneg x)|done]).
  lia.
Qed.

Lemma todo_magnitudes_nonneg a t : 0 <= todo (magnitudes a) t.
Proof.
  induction t as [t|pc i l|c IHc o IHo| |c IHc|]; simpl;
    try (pose proof (slice_magnitudes_nonneg a 0 5)); try (pose proof (slice_magnitudes_nonneg a 5 10));
    try lia; [apply slice_magnitudes_nonneg|destruct pc; apply slice_magnitudes_nonneg].
Qed.

(** A write by another thread does not concern a thread outside its critical
    section. *)
Lemma threads_ok_stable a v v' t : holders t = 0%nat -> threads_ok a v t -> threads_ok a v' t.
Proof.
  induction t as [t|pc i l|c IHc o IHo| |c IHc|]; simpl; intros Hh Hok; try done.
  - by destruct pc.
  - destruct Hok. split; [apply IHc|apply IHo]; done || lia.
  - destruct Hok. split; [by apply IHc|done].
Qed.

Lemma halves_between t : first t <= last t -> first t <= last (halves t).1 <= last t.
Proof. intros H. simpl. Z.to_euclidean_division_equations. lia. Qed.

(** ** Every step keeps the invariant

    [others]: the threads beside this tree that hold the mutex. *)
Lemma thread_step_ok a s t s1 t' :
  thread_step a s t s1 t' -> Z.of_nat (length a) <= INT32_MAX -> forall others,
  threads_ok a (sh_sum s) t -> (holders t + others = Nat.b2n (sh_locked s))%nat ->
  Z.abs (sh_sum s) + todo (magnitudes a) t <= INT32_MAX ->
  exists s', s1 = Some s' /\ threads_ok a (sh_sum s') t' /\
    (holders t' + others = Nat.b2n (sh_locked s'))%nat /\
    sh_sum s' + todo a t' = sh_sum s + todo a t /\
    Z.abs (sh_sum s') + todo (magnitudes a) t' <= Z.abs (sh_sum s) + todo (magnitudes a) t /\
    (sh_sum s' = sh_sum s \/ others = 0%nat).
Proof.
  intros Hst Hlen. unfold INT32_MAX in *.
  induction Hst as [s t Hc|s t d Hc Hd|s t d Hc Hd|s pc i l Hl ->|v i l Hl|s i l x v Hx Hv|s i l Hx|s v i l|s i l
    |s c o s' c' Hst IH|s c o s' o' Hst IH|s|s|s c|s c s' c' Hst IH]; intros others Hok Hh Hb; simpl in Hok, Hh, Hb.
  - rewrite i32_checked_small in Hc by (unfold INT32_MIN, INT32_MAX; lia). done.
  - exists s. simpl. split_and!; auto; lia.
  - rewrite i32_checked_small in Hc by (unfold INT32_MIN, INT32_MAX; lia). simplify_eq.
    pose proof (halves_between t ltac:(lia)) as Hm. simpl in Hm.
    exists s. simpl. rewrite !slice_sum_split by lia. split_and!; auto; lia.
  - exists s. simpl. pose proof (slice_magnitudes_nonneg a i l). rewrite !(slice_sum_nil _ i l) by lia.
    split_and!; auto; lia.
  - exists (mk_shared true v). simpl in *. split_and!; auto; lia.
  - exists s. unfold i32_checked in Hv.
    case_bool_decide; [|done]. simplify_eq. simpl. rewrite Hx. simpl. split_and!; auto; tauto || lia.
  - exfalso. destruct (element_inside a i ltac:(lia)) as [x Hx']. rewrite Hx' in Hx. simpl in Hx.
    rewrite slice_sum_cons, element_magnitudes, Hx' in Hb by lia. simpl in Hb.
    pose proof (slice_magnitudes_nonneg a (i + 1) l).
    rewrite i32_checked_small in Hx by (unfold INT32_MIN, INT32_MAX; lia). done.
  - destruct Hok as (Hin & Hl & ->). exists (mk_shared (sh_locked s) (sh_sum s + default 0 (element a i))). simpl.
    rewrite (slice_sum_cons a i l), (slice_sum_cons (magnitudes a) i l), element_magnitudes by lia.
    assert (E : default 0 (Z.abs <$> element a i) = Z.abs (default 0 (element a i))) by (by destruct (element a i)).
    rewrite E. split_and!; auto; try lia. right. destruct (sh_locked s); simpl in Hh; lia.
  - exists (mk_shared false (sh_sum s)). simpl. split_and!; auto; try lia. destruct (sh_locked s); simpl in Hh; lia.
  - destruct Hok as [Hokc Hoko]. pose proof (todo_magnitudes_nonneg a o).
    destruct (IH (holders o + others)%nat Hokc ltac:(lia) ltac:(lia)) as (s2 & -> & H1 & H2 & H3 & H4 & H5).
    exists s2. simpl. split_and!; auto; try lia.
    destruct H5 as [->|H5]; [done|]. eapply threads_ok_stable; [lia|done].
  - destruct Hok as [Hokc Hoko]. pose proof (todo_magnitudes_nonneg a c).
    destruct (IH (holders c + others)%nat Hoko ltac:(lia) ltac:(lia)) as (s2 & -> & H1 & H2 & H3 & H4 & H5).
    exists s2. simpl. split_and!; auto; try lia.
    destruct H5 as [->|H5]; [done|]. eapply threads_ok_stable; [lia|done].
  - exists s. simpl. split_and!; auto; lia.
  - exists s. simpl. split_and!; auto; lia.
  - exists s. simpl. split_and!; auto; tauto || lia.
  - destruct Hok as [Hokc Hin]. pose proof (slice_magnitudes_nonneg a 5 10).
    destruct (IH others Hokc ltac:(lia) ltac:(lia)) as (s2 & -> & H1 & H2 & H3 & H4 & H5).
    exists s2. simpl. split_and!; auto; lia.
Qed.

Lemma thread_step_decreases a s t s' t' :
  thread_step a s t (Some s') t' -> threads_ok a (sh_sum s) t -> (steps_left t' < steps_left t)%nat.
Proof.
  remember (Some s') as r. intros Hst. revert Heqr.
  induction Hst as [s t Hc|s t d Hc Hd|s t d Hc Hd|s pc i l Hl ->|v i l Hl|s i l x v Hx Hv|s i l Hx|s v i l|s i l
    |s c o s1 c' Hst IH|s c o s1 o' Hst IH|s|s|s c|s c s1 c' Hst IH]; intros E Hok; simpl in *; try done; try lia.
  - unfold i32_checked in Hc. case_bool_decide; simplify_eq. rewrite (proj2 (Z.leb_le _ 2)) by done. lia.
  - unfold i32_checked in Hc. case_bool_decide; simplify_eq. pose proof (halves_between t ltac:(lia)) as Hm.
    simpl in Hm. rewrite (proj2 (Z.leb_gt (last t - first t) 2)) by done.
    assert (Hq : 2 * Z.quot (last t - first t) 2 <= last t - first t < 2 * Z.quot (last t - first t) 2 + 2)
      by (Z.to_euclidean_division_equations; lia).
    destruct (Z.leb_spec (first t + Z.quot (last t - first t) 2 - first t) 2),
      (Z.leb_spec (last t - (first t + Z.quot (last t - first t) 2)) 2); lia.
  - destruct Hok. specialize (IH E). lia || (specialize (IH ltac:(done)); lia).
  - destruct Hok. specialize (IH E). lia || (specialize (IH ltac:(done)); lia).
  - destruct Hok. specialize (IH E). lia || (specialize (IH ltac:(done)); lia).
Qed.

(** The thread that holds the mutex can move; when nobody holds it every thread
    that has not returned can. *)
Lemma holder_moves a s t :
  threads_ok a (sh_sum s) t -> (0 < holders t)%nat -> exists s' t', thread_step a s t s' t'.
Proof.
  induction t as [t|pc i l|c IHc o IHo| |c IHc|]; simpl; intros Hok Hh; try lia.
  - destruct pc as [| |v|]; [lia| | |].
    + destruct (x ← element a i; i32_checked (sh_sum s + x)) as [v|] eqn:E.
      * destruct (element a i) as [x|] eqn:Ex; [|done]. simpl in E. eexists _, _. by eapply Step_read.
      * eexists _, _. by eapply Step_read_undefined.
    + eexists _, _. apply Step_write.
    + eexists _, _. apply Step_unlock.
  - destruct Hok. destruct (decide (0 < holders c)%nat) as [Hc|Hc].
    + destruct (IHc ltac:(done) Hc) as (s' & t' & Hs). eexists _, _. by apply Step_created.
    + destruct (IHo ltac:(done) ltac:(lia)) as (s' & t' & Hs). eexists _, _. by apply Step_own.
  - destruct Hok. destruct (IHc ltac:(done) Hh) as (s' & t' & Hs). eexists _, _. by apply Step_first_runs.
Qed.

Lemma free_moves a v t :
  holders t = 0%nat -> t <> Returned -> exists s' t', thread_step a (mk_shared false v) t s' t'.
Proof.
  induction t as [t|pc i l|c IHc o IHo| |c IHc|]; simpl; intros Hh Hr; try done.
  - destruct (i32_checked (last t - first t)) as [d|] eqn:E; [|eexists _, _; by apply Step_overflow].
    destruct (Z.le_gt_cases d 2); eexists _, _; [by eapply Step_small|by eapply Step_split].
  - destruct pc; try done. destruct (Z.le_gt_cases l i); eexists _, _; [by apply Step_exit|by apply Step_lock].
  - destruct (decide (c = Returned)) as [->|Hc].
    + destruct (decide (o = Returned)) as [->|Ho]; [eexists _, _; apply Step_join|].
      destruct (IHo ltac:(lia) Ho) as (s' & t' & Hs). eexists _, _. by apply Step_own.
    + destruct (IHc ltac:(lia) Hc) as (s' & t' & Hs). eexists _, _. by apply Step_created.
  - eexists _, _. apply Step_first.
  - eexists _, _. apply Step_second.
Qed.

(** A tree that uses the array [a] within its bounds, before any addition. *)
Definition fits (a : list Z) (t : threads) : Prop :=
  Z.of_nat (length a) <= INT32_MAX /\ threads_ok a 0 t /\ holders t = 0%nat /\
  todo (magnitudes a) t <= INT32_MAX.

Definition process_ok (a : list Z) (total : Z) (st : option shared * threads) : Prop :=
  exists s, st.1 = Some s /\ threads_ok a (sh_sum s) st.2 /\ holders st.2 = Nat.b2n (sh_locked s) /\
    sh_sum s + todo a st.2 = total /\ Z.abs (sh_sum s) + todo (magnitudes a) st.2 <= INT32_MAX.

Lemma process_ok_step a total st st' :
  Z.of_nat (length a) <= INT32_MAX -> process_ok a total st -> process_step a st st' ->
  process_ok a total st' /\ (steps_left st'.2 < steps_left st.2)%nat.
Proof.
  intros Hl (s & Hs & Hok & Hh & Ht & Hb) Hst. destruct Hst as [s0 t s1 t' Hst]. simpl in *. simplify_eq.
  destruct (thread_step_ok a s t s1 t' Hst Hl 0%nat Hok ltac:(lia) Hb) as (s2 & -> & H1 & H2 & H3 & H4 & _).
  split; [exists s2; simpl; split_and!; auto; lia|]. by eapply thread_step_decreases.
Qed.

Lemma process_ok_reachable a t st :
  fits a t -> rtc (process_step a) (at_start t) st -> process_ok a (todo a t) st.
Proof.
  intros (Hl & Hok & Hh & Hb) Hr. eapply inv_rtc; [|idtac|exact Hr].
  - intros x y Hx Hs. by eapply process_ok_step.
  - exists (mk_shared false 0). simpl. split_and!; auto; lia.
Qed.

Lemma process_final a total st :
  process_ok a total st -> (forall st', ~ process_step a st st') -> st = (Some (mk_shared false total), Returned).
Proof.
  destruct st as [r t]. intros (s & Hs & Hok & Hh & Ht & _) Hstop. simpl in *. subst r.
  assert (Hno : forall s' t', ~ thread_step a s t s' t') by (intros s' t' H; by eapply Hstop, Process_step).
  destruct s as [b v]. destruct b; simpl in Hh.
  - destruct (holder_moves a (mk_shared true v) t Hok ltac:(lia)) as (s' & t' & H). by destruct (Hno s' t').
  - destruct (decide (t = Returned)) as [->|Hr]; [simpl in Ht; by rewrite <- Ht, Z.add_0_r|].
    destruct (free_moves a v t Hh Hr) as (s' & t' & H). by destruct (Hno s' t').
Qed.

Lemma process_nsteps a total n st st' :
  Z.of_nat (length a) <= INT32_MAX -> process_ok a total st -> nsteps (process_step a) n st st' ->
  (n + steps_left st'.2 <= steps_left st.2)%nat.
Proof.
  intros Hl Hok Hn. induction Hn as [|n x y z Hxy Hyz IH]; [lia|].
  destruct (process_ok_step a total x y Hl Hok Hxy) as [Hy Hlt]. specialize (IH Hy). lia.
Qed.

(** ** Properties *)

(** C21: [recursive_addition] computes the loop.  For every array whose
    magnitudes add up to an [int] and every task within it, whatever the
    interleaving of the threads the recursion creates, no addition overflows
    or leaves the array, at most one thread is in its critical section, and
    when no thread can move all have been joined, the mutex is free, and the
    sum is that of the single loop from [first] to [last]. *)
Theorem recursive_addition_equivalent a first last st :
  0 <= first <= last -> last <= Z.of_nat (length a) <= INT32_MAX ->
  slice_sum (magnitudes a) first last <= INT32_MAX ->
  rtc (process_step a) (at_start (Recursive (mk_Task first last))) st ->
  (exists s, st.1 = Some s /\ holders st.2 = Nat.b2n (sh_locked s)) /\
  ((forall st', ~ process_step a st st') -> st = (Some (mk_shared false (slice_sum a first last)), Returned)).
Proof.
  intros H1 H2 Hm Hr.
  assert (Hf : fits a (Recursive (mk_Task first last))) by (unfold fits; simpl; split_and!; auto; lia).
  pose proof (process_ok_reachable _ _ _ Hf Hr) as Hok. split.
  - destruct Hok as (s & Hs & _ & Hh & _). by exists s.
  - intros Hstop. by apply (process_final a).
Qed.

(** The threads always finish.  Every run of a tree that fits its array is
    finite, with a bound computed from the tree: 97 steps for [recursive_add]
    and 45 for [parallel_add], over the array of the program, and both end
    with the sum 55. *)
Theorem additions_terminate t n st :
  t = recursive_add \/ t = parallel_add -> nsteps (process_step array) n (at_start t) st ->
  (n <= 97)%nat /\
  (t = parallel_add -> (n <= 45)%nat) /\
  ((forall st', ~ process_step array st st') -> st = (Some (mk_shared false 55), Returned)).
Proof.
  intros Ht Hn.
  assert (Hf : fits array t)
    by (destruct Ht as [-> | ->]; unfold fits; simpl; unfold INT32_MAX; split_and!; done || (vm_compute; intuition discriminate)).
  assert (Hok : process_ok array (todo array t) (at_start t)) by (by apply process_ok_reachable; [done|apply rtc_refl]).
  pose proof (process_nsteps array _ n _ _ (proj1 Hf) Hok Hn) as Hle.
  assert (Hr : rtc (process_step array) (at_start t) st) by (apply rtc_nsteps; by exists n).
  assert (E : todo array t = 55) by (by destruct Ht as [-> | ->]).
  split_and!.
  - destruct Ht as [-> | ->]; vm_compute (steps_left (at_start _).2) in Hle; lia.
  - intros ->. vm_compute (steps_left (at_start _).2) in Hle. lia.
  - intros Hstop. rewrite <- E. apply (process_final array); [|done]. by apply process_ok_reachable.
Qed.

(** ** interleaved_add

    The two halves share the global index [i]; the second waits on the
    condition variable before its loop.  A wait ends after a broadcast or,
    spuriously, at any time, and then takes the mutex again. *)
Inductive first_pc := F_lock | F_loop | F_unlock | F_broadcast | F_exited.
Inductive second_pc := H_lock | H_wait | H_waiting | H_woken | H_loop | H_unlock | H_exited.

Record interleaved := mk_interleaved {
  il_locked : bool;
  il_i : Z;
  il_sum : Z;
  il_first : first_pc;
  il_second : second_pc;
}.

#[export] Instance first_pc_eq_dec : EqDecision first_pc.
Proof. solve_decision. Defined.
#[export] Instance second_pc_eq_dec : EqDecision second_pc.
Proof. solve_decision. Defined.
#[export] Instance interleaved_eq_dec : EqDecision interleaved.
Proof. solve_decision. Defined.

(** [sum += array[i]; ++i] of the half that ends at [last]. *)
Definition add_element (i sum : Z) : option (Z * Z) :=
  x ← element array i; v ← i32_checked (sum + x); Some (i + 1, v).

(** One move of [first_interleaved_half], with the task [{0, 5}]. *)
Definition first_move (s : interleaved) : option interleaved :=
  let 'mk_interleaved b i v f h := s in
  match f with
  | F_lock => if b then None else Some (mk_interleaved true 0 v F_loop h)
  | F_loop =>
      if i <? 5 then '(i, v) ← add_element i v; Some (mk_interleaved b i v F_loop h)
      else Some (mk_interleaved b i v F_unlock h)
  | F_unlock => Some (mk_interleaved false i v F_broadcast h)
  | F_broadcast =>
      Some (mk_interleaved b i v F_exited (match h with H_waiting => H_woken | _ => h end))
  | F_exited => None
  end.

(** One move of [second_interleaved_half], with the task [{5, 10}]. *)
Definition second_move (s : interleaved) : option interleaved :=
  let 'mk_interleaved b i v f h := s in
  match h with
  | H_lock => if b then None else Some (mk_interleaved true i v f H_wait)
  | H_wait => Some (mk_interleaved false i v f H_waiting)
  | H_waiting => None
  | H_woken => if b then None else Some (mk_interleaved true i v f H_loop)
  | H_loop =>
      if i <? 10 then '(i, v) ← add_element i v; Some (mk_interleaved b i v f H_loop)
      else Some (mk_interleaved b i v f H_unlock)
  | H_unlock => Some (mk_interleaved false i v f H_exited)
  | H_exited => None
  end.

(** A spurious wake-up. *)
Definition spurious_move (s : interleaved) : option interleaved :=
  match il_second s with
  | H_waiting => Some (mk_interleaved (il_locked s) (il_i s) (il_sum s) (il_first s) H_woken)
  | _ => None
  end.

Inductive interleaved_step (spurious : bool) : interleaved -> interleaved -> Prop :=
  | First_step s s' : first_move s = Some s' -> interleaved_step spurious s s'
  | Second_step s s' : second_move s = Some s' -> interleaved_step spurious s s'
  | Spurious_step s s' : spurious = true -> spurious_move s = Some s' -> interleaved_step spurious s s'.

(** The globals are zero; both threads have been created. *)
Definition interleaved_start : interleaved := mk_interleaved false 0 0 F_lock H_lock.

(** The moves of a state, for exploring all of them. *)
Definition interleaved_moves (spurious : bool) (s : interleaved) : list interleaved :=
  option_list (first_move s) ++ option_list (second_move s) ++
    (if spurious then option_list (spurious_move s) else []).

Definition explored (spurious : bool) : list interleaved :=
  explore (interleaved_moves spurious) 400 [interleaved_start] [].

Lemma interleaved_moves_spec spurious s s' :
  s' ∈ interleaved_moves spurious s <-> interleaved_step spurious s s'.
Proof.
  unfold interleaved_moves. rewrite !elem_of_app, !elem_of_moves. split.
  - intros [H|[H|H]]; [by apply First_step|by apply Second_step|].
    destruct spurious; [|by apply elem_of_nil in H]. apply elem_of_moves in H. by apply Spurious_step.
  - intros H. destruct H as [s s' H|s s' H|s s' -> H]; auto. right. right. by apply elem_of_moves.
Qed.

(** The states without a move. *)
Definition stuck_states (spurious : bool) : list interleaved :=
  List.filter (fun s => match interleaved_moves spurious s with [] => true | _ => false end) (explored spurious).

Lemma stuck_states_spec spurious s :
  closed_under (interleaved_moves spurious) (explored spurious) = true ->
  interleaved_start ∈ explored spurious ->
  s ∈ stuck_states spurious <->
  rtc (interleaved_step spurious) interleaved_start s /\ forall s', ~ interleaved_step spurious s s'.
Proof.
  intros Hc H0. unfold stuck_states. rewrite list_elem_of_In, filter_In, <- list_elem_of_In. split.
  - intros [Hs Hm]. split.
    + assert (Hr : Forall (rtc (interleaved_step spurious) interleaved_start) (explored spurious)).
      { apply explore_reachable; [intros a b; apply interleaved_moves_spec| |done].
        apply Forall_cons. split; [apply rtc_refl|done]. }
      rewrite Forall_forall in Hr. by apply Hr.
    + intros s' H. apply interleaved_moves_spec in H. destruct (interleaved_moves spurious s); [|done].
      by apply elem_of_nil in H.
  - intros [Hr Hstop]. split.
    + eapply closed_reachable; [|exact Hc|exact H0|exact Hr]. intros a b. apply interleaved_moves_spec.
    + destruct (interleaved_moves spurious s) as [|s' l] eqn:E; [done|]. destruct (Hstop s').
      apply interleaved_moves_spec. rewrite E. by left.
Qed.

(** C35: how [interleaved_add] can end, exactly.  Without spurious wake-ups
    either both halves finish with the sum 55, or the first half has broadcast
    before the second waited: the second then waits for ever, with the sum 15,
    and the program never joins it.  When waits may end spuriously the second
    half can run first, over the whole array; the first half then adds its five
    elements again, and the program ends with the sum 70. *)
Theorem interleaved_add_outcomes s :
  (rtc (interleaved_step false) interleaved_start s /\ (forall s', ~ interleaved_step false s s') <->
   s = mk_interleaved false 10 55 F_exited H_exited \/ s = mk_interleaved false 5 15 F_exited H_waiting) /\
  (rtc (interleaved_step true) interleaved_start s /\ (forall s', ~ interleaved_step true s s') <->
   s = mk_interleaved false 10 55 F_exited H_exited \/ s = mk_interleaved false 5 70 F_exited H_exited).
Proof.
  assert (E1 : stuck_states false = [mk_interleaved false 10 55 F_exited H_exited;
    mk_interleaved false 5 15 F_exited H_waiting]) by (by vm_compute).
  assert (E2 : stuck_states true = [mk_interleaved false 5 70 F_exited H_exited;
    mk_interleaved false 10 55 F_exited H_exited]) by (by vm_compute).
  split; (rewrite <- stuck_states_spec; [|by vm_compute|refine (bool_decide_eq_true_1 _ _); by vm_compute]);
    rewrite ?E1, ?E2, !elem_of_cons; pose proof (not_elem_of_nil s); intuition.
Qed.

(** ** Witnesses *)

(** Two elements: the loop without further threads. *)
Lemma pair_run : rtc (process_step [3; 4]) (at_start (Recursive (mk_Task 0 2))) (Some (mk_shared false 7), Returned).
Proof.
  eapply rtc_l; [by eapply Process_step, (Step_small _ _ _ 2)|]. cbn [first last].
  do 2 (eapply rtc_l; [by eapply Process_step, Step_lock|];
        eapply rtc_l; [by eapply Process_step, Step_read|]; cbn [sh_sum];
        eapply rtc_l; [eapply Process_step, Step_write|]; cbn [sh_locked];
        eapply rtc_l; [eapply Process_step, Step_unlock|]; cbn [sh_sum]).
  eapply rtc_l; [by eapply Process_step, Step_exit|]. apply rtc_refl.
Qed.

Lemma recursive_addition_equivalent_witness :
  slice_sum [3; 4] 0 2 = 7 /\
  ((forall st', ~ process_step [3; 4] (Some (mk_shared false 7), Returned) st') ->
   (Some (mk_shared false 7), Returned) = (Some (mk_shared false (slice_sum [3; 4] 0 2)), Returned)).
Proof.
  split; [done|].
  apply (recursive_addition_equivalent [3; 4] 0 2 (Some (mk_shared false 7), Returned));
    [lia|by simpl|done|exact pair_run].
Defined.

Lemma additions_terminate_witness :
  (1 <= 97)%nat /\ nsteps (process_step array) 1 (at_start parallel_add)
    (Some (mk_shared false 0), Parallel_second (Adding Add_test 0 5)).
Proof.
  assert (H : nsteps (process_step array) 1 (at_start parallel_add)
    (Some (mk_shared false 0), Parallel_second (Adding Add_test 0 5)))
    by (apply nsteps_once, Process_step, Step_first).
  split; [|exact H].
  exact (proj1 (additions_terminate parallel_add 1 _ (or_intror eq_refl) H)).
Defined.
