(* ===== verification/TcpDemos.v ===== *)
(** * tcp/other and other/fexp: the demonstration programs

    [tcp/other/server.c], [tcp/other/server-model.c],
    [tcp/other/client-model.c], [tcp/other/ip.c], [other/fexp/server.c] and
    [other/fexp/client.c], call by call.  No build target uses them; the
    servers of the benchmark were written after them. *)
From S2P Require Import Prelude Kernel Process Network.

(** [PORT] of the three tcp programs, [AI_PASSIVE], and the greeting. *)
Definition DEMO_PORT : string := "3490".
Definition AI_PASSIVE : Z := 1.
Definition greeting : list Z := chars "Hello, world!".

(** [get_in_addr]: the address inside a [sockaddr_in] or a [sockaddr_in6]. *)
Definition get_in_addr (sa_family sa : Z) : Z := if sa_family =? AF_INET then sa + 4 else sa + 8.

(** What is left of a server when [accept]'s loop ends: it is in the child. *)
Inductive served := Child_exits.

Section programs.
Context {W : Type} `{!Kernel W}.

(** ** tcp/other/server.c *)

(** [while (waitpid(-1, NULL, WNOHANG) > 0);] *)
Fixpoint reap (fuel : nat) : M (process W) () :=
  match fuel with
  | O => running
  | S fuel => pid ← sys_rv Waitpid_nohang; if pid >? 0 then reap fuel else mret ()
  end.

Definition sigchld_handler (fuel : nat) : M (process W) () :=
  saved_errno ← get_errno;
  reap fuel;;
  set_errno saved_errno.

(** What is printed is not modelled. *)
Definition print_address (address_info : addrinfo) : M (process W) () :=
  sys_ (Inet_ntop (ai_family address_info) (get_in_addr (ai_family address_info) (ai_addr address_info))).

(** The loop over the addresses: the first with a socket is taken, [bind] being
    compared with 1. *)
Fixpoint demo_server_address (server_info : list addrinfo) (socket_fd : Z) : M (process W) (option addrinfo * Z) :=
  match server_info with
  | [] => mret (None, socket_fd)
  | iterator :: ai_next =>
      print_address iterator;;
      socket_fd ← sys_rv (Socket (ai_family iterator) (ai_socktype iterator) (ai_protocol iterator));
      if socket_fd =? -1 then demo_server_address ai_next socket_fd
      else
        reclaimed ← sys_rv (Setsockopt socket_fd SO_REUSEADDR [1]);
        throw_if (reclaimed =? -1) "could not reclaim socket!";;
        bound ← sys_rv (Bind socket_fd (Addr (ai_addr iterator)));
        (if bound =? 1 then sys_ (Close socket_fd) else mret ());;
        mret (Some iterator, socket_fd)
  end.

Definition demo_addresses (host : option string) (flags : Z) (message : string) : M (process W) (list addrinfo) :=
  r ← sys (Getaddrinfo_with host (Some DEMO_PORT) flags);
  throw_if (negb (rv r =? 0)) message;;
  mret (addrinfo_list (data r)).

(** [accept]'s result; [their_addr] is the family and the address of the peer. *)
Definition demo_accept (socket_fd : Z) : M (process W) (Z * list Z) :=
  r ← sys (Accept socket_fd); mret (rv r, data r).

Definition print_peer (their_addr : list Z) : M (process W) () :=
  match their_addr with
  | [ss_family; sa] => sys_ (Inet_ntop ss_family (get_in_addr ss_family sa))
  | _ => undefined
  end.

(** One iteration of the accept loop; the child ends with [exit(0)]. *)
Definition demo_server_round (socket_fd : Z) : M (process W) (option served) :=
  '(new_fd, their_addr) ← demo_accept socket_fd;
  throw_if (new_fd =? -1) "Error accepting!";;
  print_peer their_addr;;
  pid ← sys_rv Fork;
  if pid =? 0 then
    sys_ (Close socket_fd);;
    sent ← sys_rv (Send new_fd greeting);
    throw_if (sent =? -1) "Failed to send message to connected client!";;
    sys_ (Close new_fd);;
    mret (Some Child_exits)
  else sys_ (Close new_fd);; mret None.

(** [while (true)], in the parent for ever, in a child until it exits. *)
Fixpoint serve (fuel : nat) (round : M (process W) (option served)) : M (process W) served :=
  match fuel with
  | O => running
  | S fuel => r ← round; match r with Some s => mret s | None => serve fuel round end
  end.

Definition demo_server_main (fuel : nat) (garbage : Z) : M (process W) served :=
  server_info ← demo_addresses None AI_PASSIVE "getaddrinfo failed";
  '(iterator, socket_fd) ← demo_server_address server_info garbage;
  sys_ Freeaddrinfo;;
  match iterator with
  | None => die "Could not find valid address!"
  | Some _ =>
      listening ← sys_rv (Listen socket_fd 10);
      throw_if (listening =? 1) "Could not start listening on socket!";;
      serve fuel (demo_server_round socket_fd)
  end.

(** ** tcp/other/server-model.c *)

(** A failed [bind] closes the socket and tries the next address. *)
Fixpoint model_server_address (servinfo : list addrinfo) (sockfd : Z) : M (process W) (option addrinfo * Z) :=
  match servinfo with
  | [] => mret (None, sockfd)
  | p :: ai_next =>
      sockfd ← sys_rv (Socket (ai_family p) (ai_socktype p) (ai_protocol p));
      if sockfd =? -1 then model_server_address ai_next sockfd
      else
        reclaimed ← sys_rv (Setsockopt sockfd SO_REUSEADDR [1]);
        throw_if (reclaimed =? -1) "setsockopt";;
        bound ← sys_rv (Bind sockfd (Addr (ai_addr p)));
        if bound =? -1 then sys_ (Close sockfd);; model_server_address ai_next sockfd
        else mret (Some p, sockfd)
  end.

(** A failed [accept] is retried; a failed [send] is only reported. *)
Definition model_server_round (sockfd : Z) : M (process W) (option served) :=
  '(new_fd, their_addr) ← demo_accept sockfd;
  if new_fd =? -1 then mret None
  else
    print_peer their_addr;;
    pid ← sys_rv Fork;
    if pid =? 0 then
      sys_ (Close sockfd);; sys_ (Send new_fd greeting);; sys_ (Close new_fd);; mret (Some Child_exits)
    else sys_ (Close new_fd);; mret None.

(** [handler] is the address of [sigchld_handler]. *)
Definition model_server_main (fuel : nat) (handler garbage : Z) : M (process W) served :=
  servinfo ← demo_addresses None AI_PASSIVE "getaddrinfo";
  '(p, sockfd) ← model_server_address servinfo garbage;
  sys_ Freeaddrinfo;;
  match p with
  | None => die "server: failed to bind"
  | Some _ =>
      listening ← sys_rv (Listen sockfd 10);
      throw_if (listening =? -1) "listen";;
      registered ← sys_rv (Sigaction SIGCHLD handler SA_RESTART []);
      throw_if (registered =? -1) "sigaction";;
      serve fuel (model_server_round sockfd)
  end.

(** ** tcp/other/client-model.c *)

Fixpoint model_client_address (servinfo : list addrinfo) (sockfd : Z) : M (process W) (option addrinfo * Z) :=
  match servinfo with
  | [] => mret (None, sockfd)
  | p :: ai_next =>
      sockfd ← sys_rv (Socket (ai_family p) (ai_socktype p) (ai_protocol p));
      if sockfd =? -1 then model_client_address ai_next sockfd
      else
        connected ← sys_rv (Connect sockfd (Addr (ai_addr p)));
        if connected =? -1 then sys_ (Close sockfd);; model_client_address ai_next sockfd
        else mret (Some p, sockfd)
  end.

(** [buf[index] = 0] in an array of [room] characters. *)
Definition terminate_string (room index : Z) : M (process W) () :=
  if (0 <=? index) && (index <? room) then mret () else undefined.

Definition MAXDATASIZE : Z := 100.

(** [main] with one argument; returns what it prints as received. *)
Definition model_client_main (hostname : string) (garbage : Z) : M (process W) (list Z) :=
  servinfo ← demo_addresses (Some hostname) 0 "getaddrinfo";
  '(p, sockfd) ← model_client_address servinfo garbage;
  match p with
  | None => die "client: failed to connect"
  | Some p =>
      print_address p;;
      sys_ Freeaddrinfo;;
      r ← sys (Recv sockfd (MAXDATASIZE - 1));
      throw_if (rv r =? -1) "recv";;
      terminate_string MAXDATASIZE (rv r);;
      sys_ (Close sockfd);;
      mret (data r)
  end.

(** ** tcp/other/ip.c *)

Definition ip_print_address (address_info : addrinfo) : M (process W) () :=
  sys_ (Inet_ntop (ai_family address_info) (get_in_addr (ai_family address_info) (ai_addr address_info))).

Fixpoint print_addresses (result : list addrinfo) : M (process W) () :=
  match result with
  | [] => mret ()
  | iterator :: ai_next => ip_print_address iterator;; print_addresses ai_next
  end.

Definition ip_main (hostname : string) : M (process W) () :=
  r ← sys (Getaddrinfo_with (Some hostname) None 0);
  throw_if (negb (rv r =? 0)) "getaddrinfo";;
  print_addresses (addrinfo_list (data r));;
  sys_ Freeaddrinfo.

(** ** other/fexp *)

Definition DEMO_SOCKET : string := "./demo_socket".
Definition FEXP_BUFFER : Z := 256.

Definition connection_handler (connection_fd : Z) : M (process W) () :=
  nbytes ← sys_rv (Read connection_fd FEXP_BUFFER);
  terminate_string FEXP_BUFFER nbytes;;
  sys_ (Write connection_fd (chars "hello from the server"));;
  sys_ (Close connection_fd).

(** [while ((connection_fd = accept(...)) > -1)]: [Some] in the child. *)
Fixpoint fexp_loop (fuel : nat) (socket_fd : Z) : M (process W) (option served) :=
  match fuel with
  | O => running
  | S fuel =>
      connection_fd ← sys_rv (Accept socket_fd);
      if connection_fd >? -1 then
        child ← sys_rv Fork;
        if child =? 0 then connection_handler connection_fd;; mret (Some Child_exits)
        else sys_ (Close connection_fd);; fexp_loop fuel socket_fd
      else mret None
  end.

Definition fexp_server_main (fuel : nat) : M (process W) (option served) :=
  socket_fd ← sys_rv (Socket AF_UNIX SOCK_STREAM 0);
  throw_if (socket_fd <? 0) "socket() failed";;
  sys_ (Remove DEMO_SOCKET);;
  bound ← sys_rv (Bind socket_fd (Path DEMO_SOCKET));
  throw_if (negb (bound =? 0)) "bind() failed";;
  listening ← sys_rv (Listen socket_fd 5);
  throw_if (negb (listening =? 0)) "listen() failed";;
  r ← fexp_loop fuel socket_fd;
  match r with
  | Some s => mret (Some s)
  | None => sys_ (Close socket_fd);; sys_ (Remove DEMO_SOCKET);; mret None
  end.

(** The text, its terminator overwritten by asterisks up to the buffer's end. *)
Definition fexp_message : list Z :=
  let text := chars "hello from a client" in text ++ replicate (256 - length text) 42.

Definition fexp_client_main : M (process W) () :=
  socket_fd ← sys_rv (Socket AF_UNIX SOCK_STREAM 0);
  throw_if (socket_fd <? 0) "socket() failed";;
  connected ← sys_rv (Connect socket_fd (Path DEMO_SOCKET));
  throw_if (negb (connected =? 0)) "connect() failed";;
  sys_ (Write socket_fd fexp_message);;
  nbytes ← sys_rv (Read socket_fd FEXP_BUFFER);
  terminate_string FEXP_BUFFER nbytes;;
  sys_ (Close socket_fd).

End programs.

(** ** Failed attempts at an address *)

(** What the kernel answers for an address that cannot be used. *)
Inductive attempt := No_socket (e : Z) | No_bind (fd e closed : Z).

Definition attempt_answers (t : attempt) : list result :=
  match t with
  | No_socket e => [fails e]
  | No_bind fd e closed => [val fd; val 0; fails e; val closed]
  end.

Definition attempt_ok (t : attempt) : Prop :=
  match t with No_socket _ => True | No_bind fd _ _ => fd <> -1 end.

(** The calls of [server-model.c] for it. *)
Definition attempt_calls (a : addrinfo) (t : attempt) : list syscall :=
  match t with
  | No_socket _ => [socket_call a]
  | No_bind fd _ _ => [socket_call a; Setsockopt fd SO_REUSEADDR [1]; Bind fd (Addr (ai_addr a)); Close fd]
  end.

Fixpoint attempts_calls (addresses : list addrinfo) (ts : list attempt) : list syscall :=
  match addresses, ts with
  | a :: addresses, t :: ts => attempt_calls a t ++ attempts_calls addresses ts
  | _, _ => []
  end.

Lemma model_server_address_skip ts : forall pre post fd0 rs e tr,
  length pre = length ts -> Forall attempt_ok ts ->
  exists fd1 e1 tr1, tr1.*1 = tr.*1 ++ attempts_calls pre ts /\
    model_server_address (pre ++ post) fd0 (mk_process e tr (List.concat (attempt_answers <$> ts) ++ rs))
    = model_server_address post fd1 (mk_process e1 tr1 rs).
Proof.
  induction ts as [|t ts IH]; intros [|a pre] post fd0 rs e tr Hl Hok; try done.
  { exists fd0, e, tr. by rewrite app_nil_r. }
  apply Forall_cons in Hok as [Ht Hok]. injection Hl as Hl. cbn [app fmap list_fmap List.concat].
  rewrite <- app_assoc. destruct t as [er|fd er cl]; cbn [attempt_answers app model_server_address].
  - rewrite (bind_done _ _ _ _ _ (sys_rv_script _ _ _ _ _)). cbn [rv fails]. change (-1 =? -1) with true.
    cbv iota. destruct (IH pre post (-1) rs er (tr ++ [(Socket (ai_family a) (ai_socktype a) (ai_protocol a), fails er)]) Hl Hok)
      as (fd1 & e1 & tr1 & Htr & Heq). exists fd1, e1, tr1. split; [|exact Heq].
    rewrite Htr, fmap_app, <- app_assoc. done.
  - simpl in Ht. apply Z.eqb_neq in Ht.
    rewrite (bind_done _ _ _ _ _ (sys_rv_script _ _ _ _ _)). cbn [rv val]. rewrite Ht.
    rewrite (bind_done _ _ _ _ _ (sys_rv_script _ _ _ _ _)). cbn [rv val]. change (0 =? -1) with false.
    unfold throw_if at 1. rewrite (bind_done (mret ()) _ _ () _ eq_refl).
    rewrite (bind_done _ _ _ _ _ (sys_rv_script _ _ _ _ _)). cbn [rv fails]. change (-1 =? -1) with true.
    cbv iota. rewrite (bind_done _ _ _ _ _ (sys__script _ _ _ _ _)). cbn [rv val fails err].
    match goal with |- context [model_server_address _ fd (mk_process ?e ?tr1 _)] =>
      destruct (IH pre post fd rs e tr1 Hl Hok) as (fd1 & e1 & tr2 & Htr & Heq) end.
    exists fd1, e1, tr2. split; [|exact Heq]. rewrite Htr, !fmap_app, <- !app_assoc. done.
Qed.

(** ** Properties *)

(** [server-model.c] falls back.  Its search goes past every address whose
    socket cannot be made or bound, closing what it made, and takes the first
    that can be bound; over the same answers [server.c], like the benchmark
    server written after it, stops at the first socket, bound or not. *)
Theorem model_server_fallback pre ts a post fd garbage rs :
  length pre = length ts -> Forall attempt_ok ts -> fd <> -1 ->
  let answers := List.concat (attempt_answers <$> ts) ++ val fd :: val 0 :: val 0 :: rs in
  let search := model_server_address (pre ++ a :: post) garbage in
  outcome_on search answers = Done (Some a, fd) /\
  calls_on search answers = attempts_calls pre ts ++
    [socket_call a; Setsockopt fd SO_REUSEADDR [1]; Bind fd (Addr (ai_addr a))] /\
  (forall fd' e printed, fd' <> -1 ->
     outcome_on (demo_server_address (a :: post) garbage) (printed :: val fd' :: val 0 :: fails e :: rs)
       = Done (Some a, fd') /\
     outcome_on (tcp_server_get_address (a :: post) garbage) (val fd' :: val 0 :: fails e :: rs)
       = Done (Some a, fd')).
Proof.
  intros Hl Hok Hfd answers search.
  destruct (model_server_address_skip ts pre (a :: post) garbage (val fd :: val 0 :: val 0 :: rs) 0 [] Hl Hok)
    as (fd1 & e1 & tr1 & Htr & Heq).
  unfold outcome_on, calls_on, start, search, answers. rewrite Heq. cbn [model_server_address].
  rewrite (bind_done _ _ _ _ _ (sys_rv_script _ _ _ _ _)). cbn [rv val]. rewrite (proj2 (Z.eqb_neq _ _) Hfd).
  split; [done|]. split.
  - exec. cbn [rv val]. change (0 =? -1) with false. exec. cbn [rv val]. change (0 =? -1) with false. cbv beta iota. cbn [snd]. rewrite !fmap_fst_app, Htr, <- !app_assoc. done.
  - intros fd' e printed Hfd'. apply Z.eqb_neq in Hfd'. split.
    + unfold demo_server_address, print_address. exec. cbn [rv val]. rewrite Hfd'. done.
    + unfold tcp_server_get_address, handle_blocking. exec. cbn [rv val]. rewrite Hfd'. done.
Qed.

Lemma reap_script pids : forall fuel r rs e tr,
  Forall (fun pid => 0 < pid) pids -> rv r <= 0 -> (length pids < fuel)%nat ->
  exists e', reap fuel (mk_process e tr ((val <$> pids) ++ r :: rs))
    = (Done (), mk_process e' (tr ++ ((fun pid => (Waitpid_nohang, val pid)) <$> pids) ++ [(Waitpid_nohang, r)]) rs).
Proof.
  induction pids as [|pid pids IH]; intros [|fuel] r rs e tr Hp Hr Hf; simpl in Hf; try lia.
  - eexists. cbn [reap fmap list_fmap app]. erewrite bind_done by apply sys_rv_script.
    rewrite Z.gtb_ltb, (proj2 (Z.ltb_ge 0 (rv r))) by lia. done.
  - apply Forall_cons in Hp as [Hpid Hp]. cbn [reap fmap list_fmap app].
    erewrite bind_done by apply sys_rv_script. cbn [rv val].
    rewrite Z.gtb_ltb, (proj2 (Z.ltb_lt 0 pid)) by lia.
    destruct (IH fuel r rs (if pid =? -1 then err (val pid) else e) (tr ++ [(Waitpid_nohang, val pid)]) Hp Hr ltac:(lia))
      as [e' He']. exists e'. rewrite He'. by rewrite <- app_assoc.
Qed.

(** The handler of SIGCHLD.  It reaps every child that has ended, one call
    each and one more to see that there is no other, then returns with [errno]
    as it found it, whatever the last call left in it. *)
Theorem sigchld_handler_reaps fuel pids r rs e0 tr :
  Forall (fun pid => 0 < pid) pids -> rv r <= 0 -> (length pids < fuel)%nat ->
  exists q, sigchld_handler fuel (mk_process e0 tr ((val <$> pids) ++ r :: rs)) = (Done (), q) /\
    errno q = e0 /\ (trace q).*1 = tr.*1 ++ replicate (length pids + 1) Waitpid_nohang /\ env q = rs.
Proof.
  intros Hp Hr Hf. destruct (reap_script pids fuel r rs e0 tr Hp Hr Hf) as [e' He'].
  eexists. split.
  { unfold sigchld_handler. rewrite (bind_done get_errno _ _ e0
      (mk_process e0 tr ((val <$> pids) ++ r :: rs))) by done.
    rewrite (bind_done _ _ _ _ _ He'). reflexivity. }
  cbn [errno trace env]. split_and!; [done| |done]. rewrite !fmap_fst_app. f_equal. clear.
  induction pids as [|pid pids IH]; [done|]. cbn. by rewrite <- IH.
Qed.

(** The demonstration in other/fexp overflows its buffer.  The handler
    terminates the text at the index [read] returned, which is inside its
    buffer exactly for results from 0 to 255; the client sends 256 bytes, the
    size of the buffer the server reads into, so that a session in which the
    message arrives whole runs into undefined behaviour before the reply. *)
Theorem fexp_session fd socket_fd nbytes bytes rs rs' :
  outcome_on (connection_handler fd) (mk_result nbytes 0 bytes :: rs) =
    (if decide (0 <= nbytes < FEXP_BUFFER) then Done () else Undefined) /\
  (0 <= socket_fd ->
     take 3 (calls_on fexp_client_main (val socket_fd :: val 0 :: rs')) =
       [Socket AF_UNIX SOCK_STREAM 0; Connect socket_fd (Path DEMO_SOCKET); Write socket_fd fexp_message]) /\
  outcome_on (connection_handler fd) (mk_result (Z.of_nat (length fexp_message)) 0 fexp_message :: rs) = Undefined /\
  calls_on (connection_handler fd) (mk_result (Z.of_nat (length fexp_message)) 0 fexp_message :: rs) =
    [Read fd FEXP_BUFFER].
Proof.
  split; [|split; [|by split]].
  - unfold connection_handler, terminate_string, FEXP_BUFFER. exec. cbn [rv].
    case_decide as Hd.
    + rewrite (proj2 (Z.leb_le 0 nbytes)), (proj2 (Z.ltb_lt nbytes 256)) by lia. cbn [andb].
      destruct rs as [|r1 [|r2 rs]]; done.
    + destruct (Z.leb_spec 0 nbytes), (Z.ltb_spec nbytes 256); try done; lia.
  - intros Hs. unfold calls_on, start, fexp_client_main.
    rewrite (bind_done _ _ _ _ _ (sys_rv_script _ _ _ _ _)). cbn [rv val].
    rewrite (proj2 (Z.ltb_ge socket_fd 0)) by lia. rewrite (bind_done (throw_if false _) _ _ () _ eq_refl).
    rewrite (bind_done _ _ _ _ _ (sys_rv_script _ _ _ _ _)). cbn [rv val Z.eqb negb].
    rewrite (bind_done (throw_if false _) _ _ () _ eq_refl).
    rewrite (bind_done _ _ _ _ _ (sys__eq _ _)).
    match goal with |- context [(?c ?p).2] => assert (Ho : only (fun _ => True) c);
      [|destruct (Ho p) as (tr & E & _); rewrite E] end.
    { unfold terminate_string. only_calls; done. }
    done.
Qed.

(** ** Witnesses *)

Definition address_w (a : Z) : addrinfo := mk_addrinfo 2 1 6 a.

Lemma model_server_fallback_witness :
  outcome_on (model_server_address [address_w 1; address_w 2; address_w 3] 0)
    [fails 97; val 4; val 0; fails 98; val 0; val 5; val 0; val 0] = Done (Some (address_w 3), 5).
Proof.
  refine (proj1 (model_server_fallback [address_w 1; address_w 2] [No_socket 97; No_bind 4 98 0] (address_w 3) []
    5 0 [] _ _ _)); [done|by repeat constructor|done].
Defined.

Lemma sigchld_handler_reaps_witness :
  exists q, sigchld_handler 5 (mk_process 4 [] [val 10; val 11; fails 10]) = (Done (), q) /\ errno q = 4.
Proof.
  destruct (sigchld_handler_reaps 5 [10; 11] (fails 10) [] 4 []) as (q & H1 & H2 & _);
    [by repeat constructor|by simpl|simpl; lia|by exists q].
Defined.

Lemma fexp_session_witness :
  take 3 (calls_on fexp_client_main [val 3; val 0]) =
    [Socket AF_UNIX SOCK_STREAM 0; Connect 3 (Path DEMO_SOCKET); Write 3 fexp_message].
Proof. apply (fexp_session 0 3 0 [] [] []). lia. Defined.
